(** * btrfs-diff: the send-stream decoder and the diff tree, embedded in Rocq

    The development follows the Go package [pkg] of cmaster11/btrfs-diff:

    - the byte reader, the stream validator and the command and attribute
      decoders work on [list byte];
    - Go strings are Rocq strings (sequences of bytes), a [map[string]*DiffNode]
      is an optional [gmap string ptr] ([None] is Go's nil map, which can be
      read but not written);
    - the nodes live in a store ([list DiffNode], a pointer is an index), because
      the program shares nodes between maps, relations and parent
      back-pointers and mutates them in place;
    - fallible code runs in a state-and-result monad: a Go [error] is [Err], a
      run-time panic (nil dereference, write to a nil map, slice out of range,
      stack exhaustion of an unbounded recursion) is [Panic].  Mutations made
      before an error stay in the store, as in Go;
    - the diagnostic logger ([info], [debug]) is a write-only sink and is left
      out, except for [print], whose info lines are the pretty output.  An
      error value carries the format text of its message; the operands that
      call [GetChainPath] or print a node are evaluated where the message is
      built, as they can panic; the other operands are plain values;
    - a Go slice is a list: the relations a rename or link hands from its
      source to its destination are a value of their own, whereas in Go the
      two slices can share a backing array with spare capacity, on which a
      later [append] to one overwrites the last entry of the other; of the
      relations of that other node after such an [append], the properties
      below read at most the entries before the last;
    - recursive methods ([GetChainPath], [root], [traverse], [addNode])
      take a bound [fuel] on the depth of the recursion and panic when it
      runs out; so do the methods that call them to build a message. *)

From Stdlib Require Import ZArith Lia Ascii String Strings.Byte DecimalString DecimalN.
From stdpp Require Import base option list gmap strings fin_maps.

Local Open Scope Z_scope.

(** ** Go primitives *)

Module Go.

(** [binary.LittleEndian]: the value of a little-endian byte window. *)
Fixpoint le_value (b : list byte) : Z :=
  match b with
  | [] => 0
  | x :: r => Z.of_N (Byte.to_N x) + 256 * le_value r
  end.

(** [binary.LittleEndian.UintNN(b)] reads the first [n] bytes and panics
    (here [None]) when the slice is shorter. *)
Definition le_uint (n : nat) (b : list byte) : option Z :=
  if (length b <? n)%nat then None else Some (le_value (take n b)).

Definition Uint16 := le_uint 2.
Definition Uint32 := le_uint 4.
Definition Uint64 := le_uint 8.

Definition two64 : Z := 2 ^ 64.

(** uint64 addition. *)
Definition add64 (a b : Z) : Z := (a + b) mod two64.

(** [uint16] addition. *)
Definition add16 (a b : Z) : Z := (a + b) mod 2 ^ 16.

(** [string(b)] and [[]byte(s)]. *)
Definition string_of_bytes (b : list byte) : string := string_of_list_byte b.
Definition bytes_of_string (s : string) : list byte := list_byte_of_string s.

Definition slash : ascii := "/"%char.

(** [strings.Split(s, "/")]. *)
Fixpoint Split (s : string) : list string :=
  match s with
  | EmptyString => [EmptyString]
  | String c r =>
      if Ascii.eqb c slash then EmptyString :: Split r
      else match Split r with
           | x :: xs => String c x :: xs
           | [] => [String c EmptyString]
           end
  end.

(** [strings.Join(l, "/")]. *)
Fixpoint Join (l : list string) : string :=
  match l with
  | [] => EmptyString
  | [x] => x
  | x :: xs => x +:+ String slash (Join xs)
  end.

(** [strings.TrimLeft(s, "/")]. *)
Fixpoint TrimLeft (s : string) : string :=
  match s with
  | String c r => if Ascii.eqb c slash then TrimLeft r else s
  | EmptyString => EmptyString
  end.

(** [strings.HasPrefix(s, p)]. *)
Definition HasPrefix (s p : string) : bool := String.prefix p s.

(** [fmt.Sprintf("%d", n)] for an unsigned [n]. *)
Definition fmt_d (n : Z) : string := NilEmpty.string_of_uint (N.to_uint (Z.to_N n)).

(** [fmt.Sprintf("%o", n)] for an unsigned [n]. *)
Fixpoint octal_digits (fuel : nat) (n : N) (acc : string) : string :=
  match fuel with
  | O => acc
  | S f =>
      let d := ascii_of_N (48 + n mod 8) in
      if (n <? 8)%N then String d acc else octal_digits f (n / 8) (String d acc)
  end.
Definition fmt_o (n : Z) : string :=
  let m := Z.to_N n in octal_digits (S (N.to_nat (N.log2 m))) m EmptyString.

(** [errors.Wrap]/[errors.Wrapf] of github.com/pkg/errors: annotating a nil
    error gives nil. *)
Definition Wrapf (err : option string) (msg : string) : option string :=
  match err with
  | None => None
  | Some e => Some (msg +:+ ": " +:+ e)
  end.

End Go.

(** ** Regular expressions ([regexp.MatchString], unanchored) *)

Module Regexp.

Inductive re : Type :=
  | Void
  | Eps
  | Cls (p : ascii -> bool)
  | Cat (a b : re)
  | Alt (a b : re)
  | Star (a : re).

Definition Chr (c : ascii) : re := Cls (Ascii.eqb c).
Definition Plus (a : re) : re := Cat a (Star a).
Definition Any : re := Cls (fun _ => true).

(** [\d]: an ASCII digit. *)
Definition is_digit (c : ascii) : bool :=
  let n := N_of_ascii c in ((48 <=? n) && (n <=? 57))%N.
Definition Digit : re := Cls is_digit.

Fixpoint nullable (r : re) : bool :=
  match r with
  | Void => false
  | Eps => true
  | Cls _ => false
  | Cat a b => nullable a && nullable b
  | Alt a b => nullable a || nullable b
  | Star _ => true
  end.

Fixpoint deriv (c : ascii) (r : re) : re :=
  match r with
  | Void => Void
  | Eps => Void
  | Cls p => if p c then Eps else Void
  | Cat a b =>
      if nullable a then Alt (Cat (deriv c a) b) (deriv c b)
      else Cat (deriv c a) b
  | Alt a b => Alt (deriv c a) (deriv c b)
  | Star a => Cat (deriv c a) (Star a)
  end.

Fixpoint accepts (r : re) (s : list ascii) : bool :=
  match s with
  | [] => nullable r
  | c :: t => accepts (deriv c r) t
  end.

(** [re.MatchString(s)]: some substring of [s] is in the language of [re]. *)
Definition MatchString (r : re) (s : string) : bool :=
  accepts (Cat (Star Any) (Cat r (Star Any))) (list_ascii_of_string s).

(** The language of a regular expression. *)
Inductive Matches : re -> list ascii -> Prop :=
  | MEps : Matches Eps []
  | MCls p c : p c = true -> Matches (Cls p) [c]
  | MCat a b s t : Matches a s -> Matches b t -> Matches (Cat a b) (s ++ t)
  | MAltL a b s : Matches a s -> Matches (Alt a b) s
  | MAltR a b s : Matches b s -> Matches (Alt a b) s
  | MStar0 a : Matches (Star a) []
  | MStarS a s t : Matches a s -> Matches (Star a) t -> Matches (Star a) (s ++ t).

End Regexp.

(** ** Results, decoded values, wire constants *)

Inductive Res (A : Type) : Type :=
  | Ok (a : A)
  | Err (e : string)
  | Panic (e : string).
Arguments Ok {A} a.
Arguments Err {A} e.
Arguments Panic {A} e.

Definition is_Ok {A} (r : Res A) : bool :=
  match r with Ok _ => true | _ => false end.

Definition rbind {A B} (r : Res A) (k : A -> Res B) : Res B :=
  match r with
  | Ok a => k a
  | Err e => Err e
  | Panic e => Panic e
  end.

Notation "'rlet' x := r 'in' k" := (rbind r (fun x => k))
  (at level 10, x name, k at level 200).

(** Rendering of [time.Time] by [%s] depends on the host's local time zone;
    it is a parameter of the model (seconds and nanoseconds as decoded). *)
Class HostTime := { time_String : Z -> Z -> string }.

(** A host that prints the raw seconds and nanoseconds. *)
Definition rawHostTime : HostTime :=
  {| time_String := fun sec nsec => Go.fmt_d sec +:+ "." +:+ Go.fmt_d nsec |}.

Record bytesData := { bytes : list byte; isUTF8 : bool }.

(** The dynamic values an attribute converter returns ([interface{}]). *)
Inductive value : Type :=
  | VUint64 (n : Z)
  | VString (s : string)
  | VBytes (d : bytesData)
  | VTime (sec nsec : Z).

(** Modelled from the spec: the constants file of the package is not among
    the sources; the spec fixes the magic and says the command and attribute
    numbers are those of the kernel's btrfs_send.h enumeration. *)
Definition BTRFS_SEND_STREAM_MAGIC : string := "btrfs-stream".

Definition BTRFS_SEND_C_UNSPEC : Z := 0.
Definition BTRFS_SEND_C_SUBVOL : Z := 1.
Definition BTRFS_SEND_C_SNAPSHOT : Z := 2.
Definition BTRFS_SEND_C_MKFILE : Z := 3.
Definition BTRFS_SEND_C_MKDIR : Z := 4.
Definition BTRFS_SEND_C_MKNOD : Z := 5.
Definition BTRFS_SEND_C_MKFIFO : Z := 6.
Definition BTRFS_SEND_C_MKSOCK : Z := 7.
Definition BTRFS_SEND_C_SYMLINK : Z := 8.
Definition BTRFS_SEND_C_RENAME : Z := 9.
Definition BTRFS_SEND_C_LINK : Z := 10.
Definition BTRFS_SEND_C_UNLINK : Z := 11.
Definition BTRFS_SEND_C_RMDIR : Z := 12.
Definition BTRFS_SEND_C_SET_XATTR : Z := 13.
Definition BTRFS_SEND_C_REMOVE_XATTR : Z := 14.
Definition BTRFS_SEND_C_WRITE : Z := 15.
Definition BTRFS_SEND_C_CLONE : Z := 16.
Definition BTRFS_SEND_C_TRUNCATE : Z := 17.
Definition BTRFS_SEND_C_CHMOD : Z := 18.
Definition BTRFS_SEND_C_CHOWN : Z := 19.
Definition BTRFS_SEND_C_UTIMES : Z := 20.
Definition BTRFS_SEND_C_END : Z := 21.
Definition BTRFS_SEND_C_UPDATE_EXTENT : Z := 22.
Definition BTRFS_SEND_C_FALLOCATE : Z := 23.
Definition BTRFS_SEND_C_FILEATTR : Z := 24.
Definition BTRFS_SEND_C_ENCODED_WRITE : Z := 25.
Definition BTRFS_SEND_C_ENABLE_VERITY : Z := 26.
Definition BTRFS_SEND_C_MAX : Z := 26.
Definition BTRFS_SEND_C_MAX_PLUS_ONE : Z := 27.

Definition BTRFS_SEND_A_UNSPEC : Z := 0.
Definition BTRFS_SEND_A_UUID : Z := 1.
Definition BTRFS_SEND_A_CTRANSID : Z := 2.
Definition BTRFS_SEND_A_INO : Z := 3.
Definition BTRFS_SEND_A_SIZE : Z := 4.
Definition BTRFS_SEND_A_MODE : Z := 5.
Definition BTRFS_SEND_A_UID : Z := 6.
Definition BTRFS_SEND_A_GID : Z := 7.
Definition BTRFS_SEND_A_RDEV : Z := 8.
Definition BTRFS_SEND_A_CTIME : Z := 9.
Definition BTRFS_SEND_A_MTIME : Z := 10.
Definition BTRFS_SEND_A_ATIME : Z := 11.
Definition BTRFS_SEND_A_OTIME : Z := 12.
Definition BTRFS_SEND_A_XATTR_NAME : Z := 13.
Definition BTRFS_SEND_A_XATTR_DATA : Z := 14.
Definition BTRFS_SEND_A_PATH : Z := 15.
Definition BTRFS_SEND_A_PATH_TO : Z := 16.
Definition BTRFS_SEND_A_PATH_LINK : Z := 17.
Definition BTRFS_SEND_A_FILE_OFFSET : Z := 18.
Definition BTRFS_SEND_A_DATA : Z := 19.
Definition BTRFS_SEND_A_CLONE_UUID : Z := 20.
Definition BTRFS_SEND_A_CLONE_CTRANSID : Z := 21.
Definition BTRFS_SEND_A_CLONE_PATH : Z := 22.
Definition BTRFS_SEND_A_CLONE_OFFSET : Z := 23.
Definition BTRFS_SEND_A_CLONE_LEN : Z := 24.
Definition BTRFS_SEND_A_MAX_V1_PLUS_ONE : Z := 25.

(** ** Operations and the command table *)

Inductive operation : Set :=
  | opUnspec | opIgnore | opCreate | opModify | opDelete | opRename | opEnd.

#[global] Instance operation_eq_dec : EqDecision operation.
Proof. solve_decision. Defined.

(** The ordinal of an operation (its JSON form). *)
Definition operation_ordinal (op : operation) : Z :=
  match op with
  | opUnspec => 0 | opIgnore => 1 | opCreate => 2 | opModify => 3
  | opDelete => 4 | opRename => 5 | opEnd => 6
  end.

Definition names : list string :=
  ["noop"; "ignored"; "added"; "changed"; "deleted"; "renamed"; "END"]%string.

Definition operation_String (op : operation) : string :=
  default EmptyString (names !! Z.to_nat (operation_ordinal op)).

Record commandMapOp := { Name : string; Op : operation }.

Record commandInst := {
  OriginalType : Z;
  Type_ : commandMapOp;
  data : list byte
}.

(** Array assignment [a[i] = x]. *)
Definition aset {A} (i : Z) (x : A) (a : list A) : list A := <[Z.to_nat i := x]> a.
Definition aget {A} (a : list A) (i : Z) : option A := a !! Z.to_nat i.

Definition initCommandsDefinitions : option (list commandMapOp) :=
  let def n o := {| Name := n; Op := o |} in
  let commandsDefs :=
    aset BTRFS_SEND_C_ENABLE_VERITY (def "BTRFS_SEND_C_ENABLE_VERITY" opIgnore)
    (aset BTRFS_SEND_C_ENCODED_WRITE (def "BTRFS_SEND_C_ENCODED_WRITE" opIgnore)
    (aset BTRFS_SEND_C_FILEATTR (def "BTRFS_SEND_C_FILEATTR" opIgnore)
    (aset BTRFS_SEND_C_FALLOCATE (def "BTRFS_SEND_C_FALLOCATE" opIgnore)
    (aset BTRFS_SEND_C_UPDATE_EXTENT (def "BTRFS_SEND_C_UPDATE_EXTENT" opModify)
    (aset BTRFS_SEND_C_END (def "BTRFS_SEND_C_END" opEnd)
    (aset BTRFS_SEND_C_REMOVE_XATTR (def "BTRFS_SEND_C_REMOVE_XATTR" opModify)
    (aset BTRFS_SEND_C_SET_XATTR (def "BTRFS_SEND_C_SET_XATTR" opModify)
    (aset BTRFS_SEND_C_UTIMES (def "BTRFS_SEND_C_UTIMES" opIgnore)
    (aset BTRFS_SEND_C_CHOWN (def "BTRFS_SEND_C_CHOWN" opModify)
    (aset BTRFS_SEND_C_CHMOD (def "BTRFS_SEND_C_CHMOD" opModify)
    (aset BTRFS_SEND_C_TRUNCATE (def "BTRFS_SEND_C_TRUNCATE" opModify)
    (aset BTRFS_SEND_C_CLONE (def "BTRFS_SEND_C_CLONE" opModify)
    (aset BTRFS_SEND_C_WRITE (def "BTRFS_SEND_C_WRITE" opModify)
    (aset BTRFS_SEND_C_RMDIR (def "BTRFS_SEND_C_RMDIR" opDelete)
    (aset BTRFS_SEND_C_UNLINK (def "BTRFS_SEND_C_UNLINK" opDelete)
    (aset BTRFS_SEND_C_RENAME (def "BTRFS_SEND_C_RENAME" opRename)
    (aset BTRFS_SEND_C_LINK (def "BTRFS_SEND_C_LINK" opRename)
    (aset BTRFS_SEND_C_SYMLINK (def "BTRFS_SEND_C_SYMLINK" opCreate)
    (aset BTRFS_SEND_C_MKSOCK (def "BTRFS_SEND_C_MKSOCK" opCreate)
    (aset BTRFS_SEND_C_MKFIFO (def "BTRFS_SEND_C_MKFIFO" opCreate)
    (aset BTRFS_SEND_C_MKNOD (def "BTRFS_SEND_C_MKNOD" opCreate)
    (aset BTRFS_SEND_C_MKDIR (def "BTRFS_SEND_C_MKDIR" opCreate)
    (aset BTRFS_SEND_C_MKFILE (def "BTRFS_SEND_C_MKFILE" opCreate)
    (aset BTRFS_SEND_C_SNAPSHOT (def "BTRFS_SEND_C_SNAPSHOT" opCreate)
    (aset BTRFS_SEND_C_SUBVOL (def "BTRFS_SEND_C_SUBVOL" opCreate)
    (aset BTRFS_SEND_C_UNSPEC (def "BTRFS_SEND_C_UNSPEC" opUnspec)
      (replicate (Z.to_nat BTRFS_SEND_C_MAX_PLUS_ONE) (def EmptyString opUnspec))
    )))))))))))))))))))))))))) in
  (* Sanity check (no holes). *)
  if forallb (fun '(i, command) =>
                negb (negb (Z.of_nat i =? BTRFS_SEND_C_UNSPEC)
                      && bool_decide (Op command = opUnspec)))
             (imap (fun i c => (i, c)) commandsDefs)
  then Some commandsDefs else None.

Definition commandsDefs : option (list commandMapOp) := initCommandsDefinitions.

(** ** Attribute converters and the attribute table *)

Module Utf8.

Definition first_info (b0 : N) : option (nat * N * N) :=
  (if b0 <=? 127 then Some (1%nat, 0, 0)
   else if (194 <=? b0) && (b0 <=? 223) then Some (2%nat, 128, 191)
   else if b0 =? 224 then Some (3%nat, 160, 191)
   else if b0 =? 237 then Some (3%nat, 128, 159)
   else if (225 <=? b0) && (b0 <=? 239) then Some (3%nat, 128, 191)
   else if b0 =? 240 then Some (4%nat, 144, 191)
   else if b0 =? 244 then Some (4%nat, 128, 143)
   else if (241 <=? b0) && (b0 <=? 243) then Some (4%nat, 128, 191)
   else None)%N.

Definition between (lo hi : N) (b : byte) : bool :=
  let n := Byte.to_N b in ((lo <=? n) && (n <=? hi))%N.

(** The encoded runes of [s], or [None] when [s] is not valid UTF-8. *)
Fixpoint runes (fuel : nat) (s : list byte) : option (list (list byte)) :=
  match s with
  | [] => Some []
  | b0 :: rest =>
      match fuel, first_info (Byte.to_N b0) with
      | S f, Some (n, lo, hi) =>
          let tail := take (n - 1) rest in
          let ok :=
            (length tail =? n - 1)%nat
            && match tail with
               | [] => true
               | b1 :: more => between lo hi b1 && forallb (between 128 191) more
               end in
          if ok then (fun r => (b0 :: tail) :: r) <$> runes f (drop (n - 1) rest)
          else None
      | _, _ => None
      end
  end.

(** [utf8.Valid]. *)
Definition Valid (s : list byte) : bool :=
  match runes (length s) s with Some _ => true | None => false end.

End Utf8.

(** [ellipsis(s, maxLen)], called on valid UTF-8 only. *)
Definition ellipsis (s : list byte) (maxLen : nat) : string :=
  match Utf8.runes (length s) s with
  | Some rs =>
      if (length rs <=? maxLen)%nat then Go.string_of_bytes s
      else
        let maxLen := if (maxLen <? 3)%nat then 3%nat else maxLen in
        Go.string_of_bytes (concat (take (maxLen - 3) rs)) +:+ "..."
  | None => Go.string_of_bytes s
  end.

Definition bytesData_String (d : bytesData) : string :=
  if isUTF8 d then ellipsis (bytes d) 32
  else "bytes:len=" +:+ Go.fmt_d (Z.of_nat (length (bytes d))).

Definition attrConverterBytes (b : list byte) : Res value :=
  Ok (VBytes {| bytes := b; isUTF8 := Utf8.Valid b |}).

Definition attrConverterUint64 (b : list byte) : Res value :=
  match Go.Uint64 b with
  | Some n => Ok (VUint64 n)
  | None => Panic "index out of range"
  end.

Definition attrConverterString (b : list byte) : Res value :=
  Ok (VString (Go.string_of_bytes b)).

Definition attrConverterPath (b : list byte) : Res value :=
  let path := Go.string_of_bytes b in
  (* Remove any duplicate begin slashes *)
  let path := Go.TrimLeft path in
  Ok (VString path).

Definition attrConverterPathLink (b : list byte) : Res value :=
  let path := Go.string_of_bytes b in
  (* Do not touch paths *)
  Ok (VString path).

Definition hex_digit (n : N) : ascii :=
  ascii_of_N (if (n <? 10)%N then 48 + n else 87 + n).

(** [hex.EncodeToString]. *)
Fixpoint hex_EncodeToString (b : list byte) : string :=
  match b with
  | [] => EmptyString
  | x :: r =>
      let n := Byte.to_N x in
      String (hex_digit (n / 16)) (String (hex_digit (n mod 16)) (hex_EncodeToString r))
  end.

Definition attrConverterUUID (b : list byte) : Res value :=
  Ok (VString (hex_EncodeToString b)).

(** [b[:8]] and [b[8:12]] are taken within the attribute; a window shorter
    than twelve bytes is treated as a fault (Go would reslice into whatever
    follows in the read buffer). *)
Definition attrConverterTime (b : list byte) : Res value :=
  match Go.Uint64 (take 8 b), Go.Uint32 (take 4 (drop 8 b)) with
  | Some sec, Some nsec => Ok (VTime sec nsec)
  | _, _ => Panic "slice bounds out of range"
  end.

Record attrMapping := {
  AName : string;
  converter : option (list byte -> Res value)
}.

Definition initAttributeDefinitions : option (list attrMapping) :=
  let def n c := {| AName := n; converter := Some c |} in
  let attrDefs :=
    aset BTRFS_SEND_A_CLONE_LEN (def "BTRFS_SEND_A_CLONE_LEN" attrConverterUint64)
    (aset BTRFS_SEND_A_CLONE_OFFSET (def "BTRFS_SEND_A_CLONE_OFFSET" attrConverterUint64)
    (aset BTRFS_SEND_A_CLONE_PATH (def "BTRFS_SEND_A_CLONE_PATH" attrConverterPath)
    (aset BTRFS_SEND_A_CLONE_CTRANSID (def "BTRFS_SEND_A_CLONE_CTRANSID" attrConverterUint64)
    (aset BTRFS_SEND_A_CLONE_UUID (def "BTRFS_SEND_A_CLONE_UUID" attrConverterUUID)
    (aset BTRFS_SEND_A_DATA (def "BTRFS_SEND_A_DATA" attrConverterBytes)
    (aset BTRFS_SEND_A_FILE_OFFSET (def "BTRFS_SEND_A_FILE_OFFSET" attrConverterUint64)
    (aset BTRFS_SEND_A_PATH_LINK (def "BTRFS_SEND_A_PATH_LINK" attrConverterPathLink)
    (aset BTRFS_SEND_A_PATH_TO (def "BTRFS_SEND_A_PATH_TO" attrConverterPath)
    (aset BTRFS_SEND_A_PATH (def "BTRFS_SEND_A_PATH" attrConverterPath)
    (aset BTRFS_SEND_A_XATTR_DATA (def "BTRFS_SEND_A_XATTR_DATA" attrConverterBytes)
    (aset BTRFS_SEND_A_XATTR_NAME (def "BTRFS_SEND_A_XATTR_NAME" attrConverterString)
    (aset BTRFS_SEND_A_OTIME (def "BTRFS_SEND_A_OTIME" attrConverterTime)
    (aset BTRFS_SEND_A_ATIME (def "BTRFS_SEND_A_ATIME" attrConverterTime)
    (aset BTRFS_SEND_A_MTIME (def "BTRFS_SEND_A_MTIME" attrConverterTime)
    (aset BTRFS_SEND_A_CTIME (def "BTRFS_SEND_A_CTIME" attrConverterTime)
    (aset BTRFS_SEND_A_RDEV (def "BTRFS_SEND_A_RDEV" attrConverterUint64)
    (aset BTRFS_SEND_A_GID (def "BTRFS_SEND_A_GID" attrConverterUint64)
    (aset BTRFS_SEND_A_UID (def "BTRFS_SEND_A_UID" attrConverterUint64)
    (aset BTRFS_SEND_A_MODE (def "BTRFS_SEND_A_MODE" attrConverterUint64)
    (aset BTRFS_SEND_A_SIZE (def "BTRFS_SEND_A_SIZE" attrConverterUint64)
    (aset BTRFS_SEND_A_INO (def "BTRFS_SEND_A_INO" attrConverterUint64)
    (aset BTRFS_SEND_A_CTRANSID (def "BTRFS_SEND_A_CTRANSID" attrConverterUint64)
    (aset BTRFS_SEND_A_UUID (def "BTRFS_SEND_A_UUID" attrConverterUUID)
    (aset BTRFS_SEND_A_UNSPEC {| AName := "BTRFS_SEND_A_UNSPEC"; converter := None |}
      (replicate (Z.to_nat BTRFS_SEND_A_MAX_V1_PLUS_ONE)
                 {| AName := EmptyString; converter := None |})
    )))))))))))))))))))))))) in
  (* Sanity check (no holes). *)
  if forallb (fun '(i, attr) =>
                negb (negb (Z.of_nat i =? BTRFS_SEND_A_UNSPEC)
                      && negb (bool_decide (is_Some (converter attr)))))
             (imap (fun i c => (i, c)) attrDefs)
  then Some attrDefs else None.

Definition attrDefs : option (list attrMapping) := initAttributeDefinitions.

(** ** Byte reader *)

(** The reader is the list of bytes not yet consumed. *)
Abbreviation Reader := (list byte) (only parsing).

(** [peekAndDiscard(input, n)]: exactly [n] bytes, or an error.  When [n]
    exceeds the buffer, the Go code peeks through a larger reader wrapped
    around [input]; that reader holds [n] bytes at most, so [input] advances
    by [n] bytes either way.  The bytes returned are a view of the buffer,
    read by the callers before the next read.  After an error the callers
    stop, and the position of the reader is left as it was. *)
Definition peekAndDiscard (input : Reader) (n : Z) : Res (list byte) * Reader :=
  if (Z.of_nat (length input) <? n) then (Err "failed to peek on input", input)
  else (Ok (take (Z.to_nat n) input), drop (Z.to_nat n) input).

(** [input.ReadString(delim)]: the bytes up to and including the first
    [delim]; at end of input, what was read and the error [EOF]. *)
Fixpoint ReadString (input : Reader) (delim : byte) : list byte * option string * Reader :=
  match input with
  | [] => ([], Some "EOF"%string, [])
  | b :: r =>
      if Byte.eqb b delim then ([b], None, r)
      else let '(s, e, r') := ReadString r delim in (b :: s, e, r')
  end.

(** ** Stream validator *)

(** The result is the returned [error] ([None] is nil) and the reader. *)
Definition validateBTRFSStream (input : Reader) : option string * Reader :=
  let '(btrfsStreamHeader, err, input) := ReadString input x00 in
  match err with
  | Some _ => (Go.Wrapf err "failed to read stream header", input)
  | None =>
      if negb (String.eqb
                 (Go.string_of_bytes (take (length btrfsStreamHeader - 1) btrfsStreamHeader))
                 BTRFS_SEND_STREAM_MAGIC)
      then (Go.Wrapf err "bad stream magic data", input)
      else
        match peekAndDiscard input 4 with
        | (Err e, input) => (Go.Wrapf (Some e) "failed to read version bytes", input)
        | (Panic e, input) => (Some e, input)
        | (Ok verB, input) =>
            let err : option string := None in
            match Go.Uint32 verB with
            | None => (Some "index out of range"%string, input)
            | Some ver =>
                if negb (ver =? 1) then (Go.Wrapf err "unexpected stream version", input)
                else (None, input)
            end
        end
  end.

(** ** Command decoder *)

(** [readCommand]: a command and the reader after it. *)
Definition readCommand (input : Reader) : Res (commandInst * Reader) :=
  match peekAndDiscard input 4 with
  | (Ok cmdSizeB, input) =>
      match Go.Uint32 cmdSizeB with
      | None => Panic "index out of range"
      | Some cmdSize =>
          match peekAndDiscard input 2 with
          | (Ok cmdTypeB, input) =>
              match Go.Uint16 cmdTypeB with
              | None => Panic "index out of range"
              | Some cmdType =>
                  if BTRFS_SEND_C_MAX <? cmdType
                  then Err "stream contains invalid command type"
                  else
                    match peekAndDiscard input 4 with
                    | (Ok _, input) =>
                        match peekAndDiscard input cmdSize with
                        | (Ok cmdData, input) =>
                            match commandsDefs with
                            | None => Panic "nil pointer dereference"
                            | Some defs =>
                                match aget defs cmdType with
                                | None => Panic "index out of range"
                                | Some ty =>
                                    Ok ({| OriginalType := cmdType; Type_ := ty;
                                           data := cmdData |}, input)
                                end
                            end
                        | (_, _) => Err "short read on command data"
                        end
                    | (_, _) => Err "short read on command checksum"
                    end
              end
          | (_, _) => Err "short read on command type"
          end
      end
  | (_, _) => Err "short read on command size"
  end.

(** [command.ReadParam(expectedType)]: the converted value and the command
    with the attribute consumed.  The length check converts [paramLength] to
    [int]; the slice expressions add [4] to it as a [uint16], and a sum that
    wraps lies below the low bound [4] of the slice. *)
Definition ReadParam (command : commandInst) (expectedType : Z)
  : Res (value * commandInst) :=
  if (length (data command) <? 4)%nat then Err "no more parameters"
  else
    match Go.Uint16 (take 2 (data command)), Go.Uint16 (take 2 (drop 2 (data command))),
          attrDefs with
    | Some paramType, Some paramLength, Some defs =>
        if negb (paramType =? expectedType) then
          (* the message names both attributes through the table *)
          match aget defs expectedType, aget defs paramType with
          | Some _, Some _ => Err "expect type; got another"
          | _, _ => Panic "index out of range"
          end
        else if Z.of_nat (length (data command)) <? paramLength + 4
        then Err "short command param"
        else
          match aget defs paramType with
          | None => Panic "index out of range"
          | Some attr =>
              if Go.add16 4 paramLength <? 4 then Panic "slice bounds out of range"
              else
                let data' := take (Z.to_nat paramLength) (drop 4 (data command)) in
                match converter attr with
                | None => Panic "nil pointer dereference"
                | Some conv =>
                    match conv data' with
                    | Ok converted =>
                        Ok (converted,
                            {| OriginalType := OriginalType command;
                               Type_ := Type_ command;
                               data := drop (4 + Z.to_nat paramLength) (data command) |})
                    | Err e => Err e
                    | Panic e => Panic e
                    end
                end
          end
    | _, _, _ => Panic "nil pointer dereference"
    end.

(** ** The diff tree *)

Inductive DiffNodeType : Set :=
  | DiffNodeTypeUnknown
  | DiffNodeTypeFile
  | DiffNodeTypeDir
  | DiffNodeTypeFIFO
  | DiffNodeTypeSock
  | DiffNodeTypeSymLink
  | DiffNodeTypeNode.

#[global] Instance DiffNodeType_eq_dec : EqDecision DiffNodeType.
Proof. solve_decision. Defined.

Definition DiffNodeType_string (t : DiffNodeType) : string :=
  match t with
  | DiffNodeTypeUnknown => "UNKNOWN"
  | DiffNodeTypeFile => "FILE"
  | DiffNodeTypeDir => "DIR"
  | DiffNodeTypeFIFO => "FIFO"
  | DiffNodeTypeSock => "SOCK"
  | DiffNodeTypeSymLink => "SYMLINK"
  | DiffNodeTypeNode => "NODE"
  end.

Inductive DiffNodeReason : Set :=
  | DiffNodeReasonRenameSrc
  | DiffNodeReasonRenameDest
  | DiffNodeReasonLinkDest.

#[global] Instance DiffNodeReason_eq_dec : EqDecision DiffNodeReason.
Proof. solve_decision. Defined.

Definition DiffNodeReason_string (r : DiffNodeReason) : string :=
  match r with
  | DiffNodeReasonRenameSrc => "RENAME_SRC"
  | DiffNodeReasonRenameDest => "RENAME_DEST"
  | DiffNodeReasonLinkDest => "LINK_DEST"
  end.

(** A [*DiffNode]: an index into the store. *)
Abbreviation ptr := nat (only parsing).

Record DiffNodeRelation := { RNode : ptr; Reason : DiffNodeReason }.

Record DiffNode := {
  NodeType : DiffNodeType;
  Path : string;
  State : operation;
  Relations : list DiffNodeRelation;
  Changes : list string;
  Parent : option ptr;
  Children : option (gmap string ptr);
  DeletedInSnapshot : bool;
  lastDataWrittenOffset : Z;
  lastDataWrittenLen : Z
}.

(** A composite literal [&DiffNode{...}]: the fields not given are zero. *)
Definition newDiffNode (t : DiffNodeType) (path : string) (st : operation)
    (rels : list DiffNodeRelation) (parent : option ptr)
    (children : option (gmap string ptr)) : DiffNode :=
  {| NodeType := t; Path := path; State := st; Relations := rels; Changes := [];
     Parent := parent; Children := children; DeletedInSnapshot := false;
     lastDataWrittenOffset := 0; lastDataWrittenLen := 0 |}.

Definition set_NodeType (t : DiffNodeType) (n : DiffNode) : DiffNode :=
  {| NodeType := t; Path := Path n; State := State n; Relations := Relations n;
     Changes := Changes n; Parent := Parent n; Children := Children n;
     DeletedInSnapshot := DeletedInSnapshot n;
     lastDataWrittenOffset := lastDataWrittenOffset n;
     lastDataWrittenLen := lastDataWrittenLen n |}.

Definition set_State (s : operation) (n : DiffNode) : DiffNode :=
  {| NodeType := NodeType n; Path := Path n; State := s; Relations := Relations n;
     Changes := Changes n; Parent := Parent n; Children := Children n;
     DeletedInSnapshot := DeletedInSnapshot n;
     lastDataWrittenOffset := lastDataWrittenOffset n;
     lastDataWrittenLen := lastDataWrittenLen n |}.

Definition set_Relations (r : list DiffNodeRelation) (n : DiffNode) : DiffNode :=
  {| NodeType := NodeType n; Path := Path n; State := State n; Relations := r;
     Changes := Changes n; Parent := Parent n; Children := Children n;
     DeletedInSnapshot := DeletedInSnapshot n;
     lastDataWrittenOffset := lastDataWrittenOffset n;
     lastDataWrittenLen := lastDataWrittenLen n |}.

Definition set_Parent (p : option ptr) (n : DiffNode) : DiffNode :=
  {| NodeType := NodeType n; Path := Path n; State := State n; Relations := Relations n;
     Changes := Changes n; Parent := p; Children := Children n;
     DeletedInSnapshot := DeletedInSnapshot n;
     lastDataWrittenOffset := lastDataWrittenOffset n;
     lastDataWrittenLen := lastDataWrittenLen n |}.

Definition set_Children (c : option (gmap string ptr)) (n : DiffNode) : DiffNode :=
  {| NodeType := NodeType n; Path := Path n; State := State n; Relations := Relations n;
     Changes := Changes n; Parent := Parent n; Children := c;
     DeletedInSnapshot := DeletedInSnapshot n;
     lastDataWrittenOffset := lastDataWrittenOffset n;
     lastDataWrittenLen := lastDataWrittenLen n |}.

Definition set_DeletedInSnapshot (b : bool) (n : DiffNode) : DiffNode :=
  {| NodeType := NodeType n; Path := Path n; State := State n; Relations := Relations n;
     Changes := Changes n; Parent := Parent n; Children := Children n;
     DeletedInSnapshot := b;
     lastDataWrittenOffset := lastDataWrittenOffset n;
     lastDataWrittenLen := lastDataWrittenLen n |}.

(** The three fields a write touches: the change list and the last write. *)
Definition set_write (c : list string) (off len : Z) (n : DiffNode) : DiffNode :=
  {| NodeType := NodeType n; Path := Path n; State := State n; Relations := Relations n;
     Changes := c; Parent := Parent n; Children := Children n;
     DeletedInSnapshot := DeletedInSnapshot n;
     lastDataWrittenOffset := off; lastDataWrittenLen := len |}.

Definition set_Changes (c : list string) (n : DiffNode) : DiffNode :=
  set_write c (lastDataWrittenOffset n) (lastDataWrittenLen n) n.

(** Reading a map that may be nil. *)
Definition kids (n : DiffNode) : gmap string ptr := default ∅ (Children n).

(** The store of nodes. *)
Abbreviation Heap := (list DiffNode) (only parsing).

Record Diff := { root : ptr }.

(** ** The state-and-result monad *)

Definition M (A : Type) : Type := Heap -> Res A * Heap.

Definition ret {A} (a : A) : M A := fun h => (Ok a, h).
Definition fail {A} (e : string) : M A := fun h => (Err e, h).
Definition panic {A} (e : string) : M A := fun h => (Panic e, h).

Definition bind {A B} (m : M A) (k : A -> M B) : M B :=
  fun h =>
    match m h with
    | (Ok a, h') => k a h'
    | (Err e, h') => (Err e, h')
    | (Panic e, h') => (Panic e, h')
    end.

Notation "x <~ m ;; k" := (bind m (fun x => k))
  (at level 100, m at next level, right associativity).
Notation "m ;;; k" := (bind m (fun _ => k))
  (at level 100, right associativity).

(** [errors.Wrap(err, msg)] on a failed call. *)
Definition wrap {A} (msg : string) (m : M A) : M A :=
  fun h =>
    match m h with
    | (Err e, h') => (Err (msg +:+ ": " +:+ e), h')
    | r => r
    end.

(** The operands of a formatted message that are calls of [GetChainPath],
    or nodes printed with [%s] through their [String] method, are evaluated
    when the message is built; they read the store.  A panic in one of them
    (the stack exhausted on a chain of parents that never ends, a nil
    receiver) takes the place of the error. *)
Definition operand : Type := Heap -> Res string.

Fixpoint evalOperands (args : list operand) (h : Heap) : Res unit :=
  match args with
  | [] => Ok tt
  | a :: r =>
      match a h with
      | Ok _ => evalOperands r h
      | Err e => Err e
      | Panic e => Panic e
      end
  end.

(** [errors.Errorf(format, args...)]. *)
Definition errorf {A} (args : list operand) (msg : string) : M A :=
  fun h =>
    match evalOperands args h with
    | Ok _ => (Err msg, h)
    | Err e => (Err e, h)
    | Panic e => (Panic e, h)
    end.

(** [errors.Wrapf(err, format, args...)] on a failed call. *)
Definition wrapf {A} (args : list operand) (msg : string) (m : M A) : M A :=
  fun h =>
    match m h with
    | (Err e, h') =>
        match evalOperands args h' with
        | Ok _ => (Err (msg +:+ ": " +:+ e), h')
        | Err e' => (Err e', h')
        | Panic e' => (Panic e', h')
        end
    | r => r
    end.

Definition lift {A} (r : Res A) : M A := fun h => (r, h).

Definition get : M Heap := fun h => (Ok h, h).

(** [*p]. *)
Definition getNode (p : ptr) : M DiffNode :=
  fun h =>
    match h !! p with
    | Some nd => (Ok nd, h)
    | None => (Panic "invalid pointer", h)
    end.

(** [p.field = ...]. *)
Definition upd (p : ptr) (f : DiffNode -> DiffNode) : M unit :=
  fun h =>
    match h !! p with
    | Some nd => (Ok tt, <[p := f nd]> h)
    | None => (Panic "invalid pointer", h)
    end.

(** [&DiffNode{...}]. *)
Definition alloc (nd : DiffNode) : M ptr :=
  fun h => (Ok (length h), h ++ [nd]).

(** [n.Children[node.Path] = node]; assignment to an entry of a nil map
    panics. *)
Definition putChild (n node : ptr) : M unit :=
  fun h =>
    match h !! n, h !! node with
    | Some nd, Some nn =>
        match Children nd with
        | Some m => (Ok tt, <[n := set_Children (Some (<[Path nn := node]> m)) nd]> h)
        | None => (Panic "assignment to entry in nil map", h)
        end
    | _, _ => (Panic "invalid pointer", h)
    end.

(** [delete(n.Children, key)]; deleting from a nil map does nothing. *)
Definition delChild (n : ptr) (key : string) : M unit :=
  upd n (fun nd => set_Children (delete key <$> Children nd) nd).

(** A [for ... range] loop with an early return on error. *)
Fixpoint forM {A} (l : list A) (body : A -> M unit) : M unit :=
  match l with
  | [] => ret tt
  | x :: r => body x ;;; forM r body
  end.

(** ** Node methods *)

Definition STACK : string := "stack overflow".

(** [n.GetChainPath()]; [fuel] bounds the depth of the recursion. *)
Fixpoint GetChainPath (fuel : nat) (h : Heap) (n : ptr) : Res string :=
  match fuel with
  | O => Panic STACK
  | S f =>
      match h !! n with
      | None => Panic "invalid pointer"
      | Some nd =>
          match Parent nd with
          | Some p =>
              match GetChainPath f h p with
              | Ok s => Ok (s +:+ "/" +:+ Path nd)
              | r => r
              end
          | None => Ok (Path nd)
          end
      end
  end.

(** [n.root()]. *)
Fixpoint root_of (fuel : nat) (h : Heap) (n : ptr) : Res ptr :=
  match fuel with
  | O => Panic STACK
  | S f =>
      match h !! n with
      | None => Panic "invalid pointer"
      | Some nd =>
          match Parent nd with
          | Some p => root_of f h p
          | None => Ok n
          end
      end
  end.

(** These are the tmp nodes generated before actual inode linking:
    [regexp.MustCompile(`o\d+-\d+-\d+`)]. *)
Definition regexNewNode : Regexp.re :=
  Regexp.Cat (Regexp.Chr "o")
   (Regexp.Cat (Regexp.Plus Regexp.Digit)
     (Regexp.Cat (Regexp.Chr "-")
       (Regexp.Cat (Regexp.Plus Regexp.Digit)
         (Regexp.Cat (Regexp.Chr "-") (Regexp.Plus Regexp.Digit))))).

(** [n.isBTRFSTemporaryNode()]. *)
Definition isBTRFSTemporaryNode (fuel : nat) (h : Heap) (n : ptr) : Res bool :=
  match h !! n with
  | None => Panic "invalid pointer"
  | Some nd =>
      match Parent nd with
      | None => Ok false
      | Some p =>
          match root_of fuel h n with
          | Ok r =>
              Ok (bool_decide (p = r) && Regexp.MatchString regexNewNode (Path nd))
          | Err e => Err e
          | Panic e => Panic e
          end
      end
  end.

(** [n.GetChainPath()] and [n.Parent.GetChainPath()] as operands of a
    message. *)
Definition chainPath (fuel : nat) (n : ptr) : operand :=
  fun h => GetChainPath fuel h n.

Definition parentChainPath (fuel : nat) (n : ptr) : operand :=
  fun h =>
    match h !! n with
    | None => Panic "invalid pointer"
    | Some nd =>
        match Parent nd with
        | Some p => GetChainPath fuel h p
        | None => Panic "nil pointer dereference"
        end
    end.

(** [n.traverse(traverseFn)]: the callback threads its own state [S]; the
    children are visited in the order [map_to_list] gives (Go leaves the
    order of a map range unspecified). *)
Fixpoint foldRes {A S} (l : list A) (f : A -> S -> Res S) (s : S) : Res S :=
  match l with
  | [] => Ok s
  | x :: r =>
      match f x s with
      | Ok s' => foldRes r f s'
      | e => e
      end
  end.

Fixpoint traverse {S} (fuel : nat) (h : Heap) (n : ptr)
    (traverseFn : ptr -> S -> Res S) (s : S) : Res S :=
  match fuel with
  | O => Panic STACK
  | S f =>
      match h !! n with
      | None => Panic "invalid pointer"
      | Some nd =>
          foldRes (map_to_list (kids nd))
            (fun kv s =>
               match traverseFn kv.2 s with
               | Ok s' => traverse f h kv.2 traverseFn s'
               | e => e
               end) s
      end
  end.

(** [n.StringForDeleted()]. *)
Definition StringForDeleted (fuel : nat) (h : Heap) (n : ptr) : Res string :=
  match GetChainPath fuel h n, h !! n with
  | Ok p, Some nd =>
      let p := if String.eqb p EmptyString then "/"%string else p in
      Ok ("[" +:+ DiffNodeType_string (NodeType nd) +:+ "]["
          +:+ operation_String opDelete +:+ "] " +:+ p)
  | Ok _, None => Panic "invalid pointer"
  | Err e, _ => Err e
  | Panic e, _ => Panic e
  end.

(** [n.String()]. *)
Definition DiffNode_String (fuel : nat) (h : Heap) (n : ptr) : Res string :=
  match GetChainPath fuel h n, h !! n with
  | Ok p, Some nd =>
      let p := if String.eqb p EmptyString then "/"%string else p in
      let head := "[" +:+ DiffNodeType_string (NodeType nd) +:+ "]["
                  +:+ operation_String (State nd) +:+ "] " +:+ p in
      match foldRes (Relations nd)
              (fun r acc =>
                 match GetChainPath fuel h (RNode r) with
                 | Ok rp => Ok (acc +:+ " [rel=" +:+ rp +:+ ":"
                                +:+ DiffNodeReason_string (Reason r) +:+ "]")
                 | e => e
                 end) head with
      | Ok s =>
          Ok (fold_left (fun acc c => acc +:+ " [change=" +:+ c +:+ "]") (Changes nd) s)
      | e => e
      end
  | Ok _, None => Panic "invalid pointer"
  | Err e, _ => Err e
  | Panic e, _ => Panic e
  end.

(** A node as the operand of [%s]. *)
Definition stringOf (fuel : nat) (n : ptr) : operand :=
  fun h => DiffNode_String fuel h n.

(** [n.findRelation(reason)]. *)
Definition findRelation (nd : DiffNode) (reason : DiffNodeReason)
  : option DiffNodeRelation :=
  List.find (fun rel => bool_decide (Reason rel = reason)) (Relations nd).

(** [n.followRenameChainSrc()]. *)
Fixpoint followRenameChainSrc (fuel : nat) (h : Heap) (n : ptr) : Res ptr :=
  match fuel with
  | O => Panic STACK
  | S f =>
      match h !! n with
      | None => Panic "invalid pointer"
      | Some nd =>
          match findRelation nd DiffNodeReasonRenameSrc with
          | Some rel => followRenameChainSrc f h (RNode rel)
          | None => Ok n
          end
      end
  end.

(** [n.mkdirp(path, old, new)]: the loop over the entries.  The assignment
    [currentNode.Children[entry] = newNode] is [putChild], as
    [newNode.Path] is [entry]. *)
Fixpoint mkdirp_loop (entries : list string) (idx entriesLen : nat)
    (oldNodesAreCreatedInSnapshot newNodesAreCreatedInSnapshot : bool)
    (currentNode : ptr) : M ptr :=
  match entries with
  | [] => ret currentNode
  | entry :: rest =>
      cn <~ getNode currentNode ;;
      match kids cn !! entry with
      | Some existing =>
          mkdirp_loop rest (S idx) entriesLen oldNodesAreCreatedInSnapshot
            newNodesAreCreatedInSnapshot existing
      | None =>
          let createdInSnapshot :=
            if (idx =? entriesLen - 1)%nat then newNodesAreCreatedInSnapshot
            else oldNodesAreCreatedInSnapshot in
          let state := if createdInSnapshot then opCreate else opUnspec in
          newNode <~ alloc (newDiffNode DiffNodeTypeDir entry state []
                              (Some currentNode) (Some ∅)) ;;
          putChild currentNode newNode ;;;
          mkdirp_loop rest (S idx) entriesLen oldNodesAreCreatedInSnapshot
            newNodesAreCreatedInSnapshot newNode
      end
  end.

(** The entries of a path: [strings.Split(path, "/")] without one leading
    empty entry. *)
Definition path_entries (path : string) : list string :=
  match Go.Split path with
  | EmptyString :: rest => rest
  | entries => entries
  end.

Definition mkdirp (n : ptr) (path : string)
    (oldNodesAreCreatedInSnapshot newNodesAreCreatedInSnapshot : bool) : M ptr :=
  let entries := path_entries path in
  mkdirp_loop entries 0 (length entries) oldNodesAreCreatedInSnapshot
    newNodesAreCreatedInSnapshot n.

(** The key under which [node] sits in a children map, the empty string when it is not
    there (the loop of [deleteNode]). *)
Definition find_key (m : gmap string ptr) (node : ptr) : string :=
  match List.find (fun kv : string * ptr => bool_decide (kv.2 = node)) (map_to_list m) with
  | Some kv => kv.1
  | None => EmptyString
  end.

(** [n.deleteNode(node)]. *)
Definition deleteNode (fuel : nat) (n node : ptr) : M unit :=
  nd <~ getNode n ;;
  let key := find_key (kids nd) node in
  if String.eqb key EmptyString
  then errorf [chainPath fuel node; parentChainPath fuel node]
              "child node not found in parent"
  else
    delChild n key ;;;
    upd node (set_Parent None).

(** [n.removeFromParent()]. *)
Definition removeFromParent (fuel : nat) (n : ptr) : M unit :=
  nd <~ getNode n ;;
  match Parent nd with
  | Some parent =>
      fun h =>
        match deleteNode fuel parent n h with
        | (Err _, h') =>
            errorf [chainPath fuel n; parentChainPath fuel n]
                   "failed to remove node from parent" h'
        | r => r
        end
  | None => ret tt
  end.

(** [n.addNode(node)].  The range over [existingNode.Children] visits the
    keys present when the loop starts and skips those deleted before they
    are reached. *)
Fixpoint addNode (fuel : nat) (n node : ptr) : M unit :=
  match fuel with
  | O => panic STACK
  | S f =>
      nd <~ getNode n ;;
      (if bool_decide (NodeType nd = DiffNodeTypeUnknown)
       then upd n (set_NodeType DiffNodeTypeDir) else ret tt) ;;;
      nd <~ getNode n ;;
      nn <~ getNode node ;;
      let existingNode := kids nd !! Path nn in
      match existingNode with
       | Some e =>
           en <~ getNode e ;;
           (* the existing node must be a deleted one to be overridden *)
           if bool_decide (State en = opDelete) then ret tt
           else fail "found existing children node while adding new node"
       | None => ret tt
       end ;;;
      match Parent nn with
       | Some p =>
           wrapf [chainPath fuel node; parentChainPath fuel node]
                 "failed to delete node from its parent" (deleteNode fuel p node)
       | None => ret tt
       end ;;;
      upd node (set_Parent (Some n)) ;;;
      match existingNode with
      | Some e =>
          wrapf [chainPath fuel e; parentChainPath fuel e]
                "failed to delete fake existing node from its parent"
                (removeFromParent fuel e) ;;;
          (* Merge the fake node into the new one *)
          en <~ getNode e ;;
          upd node (fun x => set_Relations (Relations x ++ Relations en) x) ;;;
          forM (map_to_list (kids en))
            (fun kv =>
               en' <~ getNode e ;;
               match kids en' !! kv.1 with
               | Some val =>
                   wrapf [chainPath fuel e; chainPath fuel val; chainPath fuel node]
                         "failed to move deleted fake node children"
                         (addNode f node val)
               | None => ret tt
               end) ;;;
          upd node (set_DeletedInSnapshot true) ;;;
          putChild n node
      | None => putChild n node
      end
  end.

(** ** The stream processor *)

Fixpoint walk (h : Heap) (entries : list string) (currentNode : ptr) : option ptr :=
  match entries with
  | [] => Some currentNode
  | entry :: rest =>
      match h !! currentNode with
      | None => None
      | Some nd =>
          match kids nd !! entry with
          | Some c => walk h rest c
          | None => None
          end
      end
  end.

(** [d.getNodeByPath(path)]; [None] is nil. *)
Definition getNodeByPath (h : Heap) (d : Diff) (path : string) : option ptr :=
  walk h (path_entries path) (root d).

Definition getLastPathPart (path : string) : string :=
  List.last (Go.Split path) EmptyString.

Definition getNodeParentOrMkdir (d : Diff) (path : string) : M ptr :=
  let parts := Go.Split path in
  let parentPath := Go.Join (removelast parts) in
  if String.eqb parentPath EmptyString then ret (root d)
  else mkdirp (root d) parentPath false false.

(** [command.ReadParam(t)] with the error wrapped. *)
Definition readParam (command : commandInst) (t : Z) (msg : string)
  : M (value * commandInst) :=
  wrap msg (lift (ReadParam command t)).

(** The type assertions [v.(string)], [v.(uint64)], [v.( *bytesData)]. *)
Definition as_string (v : value) : M string :=
  match v with VString s => ret s | _ => panic "interface conversion" end.
Definition as_uint64 (v : value) : M Z :=
  match v with VUint64 n => ret n | _ => panic "interface conversion" end.
Definition as_bytesData (v : value) : M bytesData :=
  match v with VBytes d => ret d | _ => panic "interface conversion" end.

(** [uint64 == interface{}]. *)
Definition eq_uint64 (n : Z) (v : value) : bool :=
  match v with VUint64 m => n =? m | _ => false end.

Definition fmt_o_value (v : value) : string :=
  match v with VUint64 n => Go.fmt_o n | _ => "%!o(BADTYPE)" end.

Definition write_change (offset dataLen : string) : string :=
  "write:offset=" +:+ offset +:+ ":data_len=" +:+ dataLen.

Definition nodeType_of_create (t : Z) : option DiffNodeType :=
  if t =? BTRFS_SEND_C_MKFILE then Some DiffNodeTypeFile
  else if t =? BTRFS_SEND_C_MKDIR then Some DiffNodeTypeDir
  else if t =? BTRFS_SEND_C_SYMLINK then Some DiffNodeTypeSymLink
  else if t =? BTRFS_SEND_C_MKNOD then Some DiffNodeTypeNode
  else if t =? BTRFS_SEND_C_MKFIFO then Some DiffNodeTypeFIFO
  else if t =? BTRFS_SEND_C_MKSOCK then Some DiffNodeTypeSock
  else None.

(** What a turn of the main loop does next: go on with the next command,
    stop the loop ([END]), or return [(nil, nil)] at once. *)
Inductive turn : Set := Continue | Stop | ReturnNil.

Section Processor.

Context {host : HostTime}.

(** The operand of [%d], [%s] and [%v] for the values the attribute table
    produces. *)
Definition fmt_v (v : value) : string :=
  match v with
  | VUint64 n => Go.fmt_d n
  | VString s => s
  | VBytes d => bytesData_String d
  | VTime sec nsec => time_String sec nsec
  end.

(** Depth bound of the recursive node methods. *)
Variable fuel : nat.

Variable d : Diff.

Definition processCreate (path : string) (command : commandInst) : M unit :=
  h <~ get ;;
  match getNodeByPath h d path with
  | Some _ => fail "found existing node in tree while processing create operation"
  | None =>
      match nodeType_of_create (OriginalType command) with
      | None => fail "unsupported command for create operation"
      | Some nodeType =>
          node <~ (if bool_decide (nodeType = DiffNodeTypeDir)
                   then mkdirp (root d) path false true
                   else
                     parent <~ getNodeParentOrMkdir d path ;;
                     node <~ alloc (newDiffNode nodeType (getLastPathPart path)
                                      opCreate [] None None) ;;
                     wrapf [chainPath fuel parent] "failed to add node to parent"
                           (addNode fuel parent node) ;;;
                     ret node) ;;
          if OriginalType command =? BTRFS_SEND_C_SYMLINK then
            r <~ readParam command BTRFS_SEND_A_INO "failed to read ino link param" ;;
            r <~ readParam r.2 BTRFS_SEND_A_PATH_LINK "failed to read path link param" ;;
            pathLink <~ as_string r.1 ;;
            (* Links can have relative paths! *)
            h <~ get ;;
            linkDestination <~
              match getNodeByPath h d pathLink with
              | Some l => ret l
              | None =>
                  (* we CANNOT add this to the tree as of now *)
                  alloc (newDiffNode DiffNodeTypeUnknown pathLink opUnspec [] None
                           (Some ∅))
              end ;;
            upd node (fun x => set_Relations
                        (Relations x ++ [{| RNode := linkDestination;
                                            Reason := DiffNodeReasonLinkDest |}]) x)
          else ret tt
      end
  end.

(** The shared tail of the [WRITE] and [UPDATE_EXTENT] cases. *)
Definition record_write (node : ptr) (offset : value) (dataLen : Z) : M unit :=
  nd <~ getNode node ;;
  let merge :=
    match last (Changes nd) with
    | Some lastChange =>
        (* Concat multiple writes *)
        Go.HasPrefix lastChange "write"
        && eq_uint64 (Go.add64 (lastDataWrittenOffset nd) (lastDataWrittenLen nd)) offset
    | None => false
    end in
  let changes := if merge then removelast (Changes nd) else Changes nd in
  let offset := if merge then VUint64 (lastDataWrittenOffset nd) else offset in
  let dataLen := if merge then Go.add64 dataLen (lastDataWrittenLen nd) else dataLen in
  (if bool_decide (NodeType nd = DiffNodeTypeUnknown)
   then upd node (set_NodeType DiffNodeTypeFile) else ret tt) ;;;
  off <~ as_uint64 offset ;;
  upd node (set_write (changes ++ [write_change (fmt_v offset) (Go.fmt_d dataLen)])
              off dataLen).

Definition append_change (node : ptr) (c : string) : M unit :=
  upd node (fun x => set_Changes (Changes x ++ [c]) x).

Definition processModify (path : string) (command : commandInst) : M unit :=
  h <~ get ;;
  node <~ match getNodeByPath h d path with
          | Some node => ret node
          | None =>
              parent <~ getNodeParentOrMkdir d path ;;
              node <~ alloc (newDiffNode DiffNodeTypeUnknown (getLastPathPart path)
                               opUnspec [] None (Some ∅)) ;;
              wrapf [chainPath fuel parent] "failed to add node to parent"
                    (addNode fuel parent node) ;;;
              ret node
          end ;;
  nd <~ getNode node ;;
  (if bool_decide (State nd = opCreate) then ret tt else upd node (set_State opModify)) ;;;
  let t := OriginalType command in
  if t =? BTRFS_SEND_C_WRITE then
    r <~ readParam command BTRFS_SEND_A_FILE_OFFSET "failed to read write offset param" ;;
    let offset := r.1 in
    r <~ readParam r.2 BTRFS_SEND_A_DATA "failed to read written data param" ;;
    sentData <~ as_bytesData r.1 ;;
    let dataLen := Z.of_nat (length (bytes sentData)) in
    record_write node offset dataLen
  else if t =? BTRFS_SEND_C_UPDATE_EXTENT then
    r <~ readParam command BTRFS_SEND_A_FILE_OFFSET "failed to read write offset param" ;;
    let offset := r.1 in
    r <~ readParam r.2 BTRFS_SEND_A_SIZE "failed to read written size param" ;;
    dataLen <~ as_uint64 r.1 ;;
    record_write node offset dataLen
  else if t =? BTRFS_SEND_C_TRUNCATE then
    r <~ readParam command BTRFS_SEND_A_SIZE "failed to read size param" ;;
    nd <~ getNode node ;;
    (if bool_decide (NodeType nd = DiffNodeTypeUnknown)
     then upd node (set_NodeType DiffNodeTypeFile) else ret tt) ;;;
    append_change node ("truncate:size=" +:+ fmt_v r.1)
  else if t =? BTRFS_SEND_C_UTIMES then
    r <~ readParam command BTRFS_SEND_A_ATIME "failed to read atime param" ;;
    let atime := r.1 in
    r <~ readParam r.2 BTRFS_SEND_A_MTIME "failed to read mtime param" ;;
    let mtime := r.1 in
    r <~ readParam r.2 BTRFS_SEND_A_CTIME "failed to read ctime param" ;;
    let ctime := r.1 in
    append_change node
      ("utime:atime=" +:+ fmt_v atime +:+ ",mtime=" +:+ fmt_v mtime
       +:+ ",ctime=" +:+ fmt_v ctime)
  else if t =? BTRFS_SEND_C_CHMOD then
    r <~ readParam command BTRFS_SEND_A_MODE "failed to read mode param" ;;
    append_change node ("chmod:mode=" +:+ fmt_o_value r.1)
  else if t =? BTRFS_SEND_C_CHOWN then
    r <~ readParam command BTRFS_SEND_A_UID "failed to read uid param" ;;
    let uid := r.1 in
    r <~ readParam r.2 BTRFS_SEND_A_GID "failed to read gid param" ;;
    append_change node ("chown:uid=" +:+ fmt_v uid +:+ ",gid=" +:+ fmt_v r.1)
  else if t =? BTRFS_SEND_C_SET_XATTR then
    r <~ readParam command BTRFS_SEND_A_XATTR_NAME "failed to read xattrName param" ;;
    let xattrName := r.1 in
    r <~ readParam r.2 BTRFS_SEND_A_XATTR_DATA "failed to read xattrData param" ;;
    append_change node
      ("set_xattr:name=" +:+ fmt_v xattrName +:+ ",data=" +:+ fmt_v r.1)
  else if t =? BTRFS_SEND_C_REMOVE_XATTR then
    r <~ readParam command BTRFS_SEND_A_XATTR_NAME "failed to read xattrName param" ;;
    append_change node ("remove_xattr:name=" +:+ fmt_v r.1)
  else fail "unhandled modify command".

Definition processDelete (path : string) (command : commandInst) : M unit :=
  h <~ get ;;
  node <~ match getNodeByPath h d path with
          | Some node => ret node
          | None =>
              (* Create a fake node as source *)
              node <~ alloc (newDiffNode DiffNodeTypeUnknown (getLastPathPart path)
                               opUnspec [] None (Some ∅)) ;;
              parent <~ getNodeParentOrMkdir d path ;;
              wrapf [chainPath fuel node; stringOf fuel parent]
                    "failed to add deleted node to parent" (addNode fuel parent node) ;;;
              ret node
          end ;;
  nd <~ getNode node ;;
  (if bool_decide (NodeType nd = DiffNodeTypeUnknown)
      && (OriginalType command =? BTRFS_SEND_C_RMDIR)
   then upd node (set_NodeType DiffNodeTypeDir) else ret tt) ;;;
  upd node (set_State opDelete) ;;;
  upd node (set_DeletedInSnapshot true) ;;;
  (* If the node parent is a btrfs temporary folder, then move this file
     under the rightful owner *)
  nd <~ getNode node ;;
  match Parent nd with
  | None => panic "nil pointer dereference"
  | Some parent =>
      pd <~ getNode parent ;;
      if Regexp.MatchString regexNewNode (Path pd) then
        h <~ get ;;
        renameSrc <~ lift (followRenameChainSrc fuel h parent) ;;
        rs <~ getNode renameSrc ;;
        match kids rs !! Path nd with
        | Some nodeInSrc =>
            (* We just mark that node as deleted in this snapshot and treat
               the current node as never existed *)
            upd nodeInSrc (set_DeletedInSnapshot true) ;;;
            (if OriginalType command =? BTRFS_SEND_C_RMDIR
             then upd nodeInSrc (set_NodeType DiffNodeTypeDir) else ret tt) ;;;
            wrapf [stringOf fuel node]
                  "failed to remove deleted node (ignored) from parent"
                  (removeFromParent fuel node)
        | None =>
            wrapf [chainPath fuel node; stringOf fuel renameSrc]
                  "failed to move deleted node to rename chain source"
                  (addNode fuel renameSrc node)
        end
      else ret tt
  end.

Definition processRenameOrLink (from to : string) (command : commandInst) : M unit :=
  let pathFromIsNewNode := Regexp.MatchString regexNewNode from in
  let isRename := OriginalType command =? BTRFS_SEND_C_RENAME in
  let isLink := OriginalType command =? BTRFS_SEND_C_LINK in
  h <~ get ;;
  nodeSrc <~
    match getNodeByPath h d from with
    | Some n => ret (Some n)
    | None =>
        if pathFromIsNewNode then ret None
        else
          (* Create a fake node as source *)
          nodeSrc <~ alloc (newDiffNode DiffNodeTypeUnknown (getLastPathPart from)
                              opUnspec [] None (Some ∅)) ;;
          (if isRename then
             parent <~ getNodeParentOrMkdir d to ;;
             wrapf [chainPath fuel nodeSrc; chainPath fuel parent]
                   "failed to add fake node to parent" (addNode fuel parent nodeSrc)
           else ret tt) ;;;
          ret (Some nodeSrc)
    end ;;
  captured <~
    match nodeSrc with
    | Some ns =>
        nsd <~ getNode ns ;;
        let nodeType := NodeType nsd in
        let relations := Relations nsd in
        let children := kids nsd in
        (* Only mark the source node as deleted if there is a rename.
           A link will preserve the original node *)
        (if isRename
         then wrap "failed to delete rename source node" (processDelete from command)
         else ret tt) ;;;
        let relations :=
          if pathFromIsNewNode then relations
          else if isRename
               then relations ++ [{| RNode := ns; Reason := DiffNodeReasonRenameSrc |}]
          else if isLink
               then relations ++ [{| RNode := ns; Reason := DiffNodeReasonLinkDest |}]
          else relations in
        ret (nodeType, relations, children)
    | None => ret (DiffNodeTypeUnknown, [], ∅)
    end ;;
  parent <~ getNodeParentOrMkdir d to ;;
  nodeTo <~ alloc (newDiffNode captured.1.1 (getLastPathPart to) opCreate
                     captured.1.2 None (Some captured.2)) ;;
  wrapf [match nodeSrc with
         | Some ns => chainPath fuel ns
         | None => fun _ => Panic "nil pointer dereference"
         end;
         chainPath fuel parent]
        "failed to add node to renamed node destination parent"
        (addNode fuel parent nodeTo) ;;;
  match nodeSrc with
  | Some ns =>
      if isRename
      then upd ns (fun x => set_Relations
                     (Relations x ++ [{| RNode := nodeTo;
                                         Reason := DiffNodeReasonRenameDest |}]) x)
      else ret tt
  | None => ret tt
  end.

(** One turn of the loop of [ProcessBTRFSStream] on a decoded command. *)
Definition processCommand (command : commandInst) : M turn :=
  match Op (Type_ command) with
  | opUnspec => fail "unsupported command"
  | opIgnore => ret Continue
  | opEnd => ret Stop
  | opRename =>
      r <~ readParam command BTRFS_SEND_A_PATH "failed to read from-path param" ;;
      path <~ as_string r.1 ;;
      if OriginalType command =? BTRFS_SEND_C_RENAME then
        r <~ readParam r.2 BTRFS_SEND_A_PATH_TO "failed to read to-path param" ;;
        toPath <~ as_string r.1 ;;
        wrap "failed to process rename" (processRenameOrLink path toPath r.2) ;;;
        ret Continue
      else if OriginalType command =? BTRFS_SEND_C_LINK then
        r <~ readParam r.2 BTRFS_SEND_A_PATH_LINK "failed to read to-path param" ;;
        fromPath <~ as_string r.1 ;;
        wrap "failed to process rename" (processRenameOrLink fromPath path r.2) ;;;
        ret Continue
      else
        (* errors.Wrapf of a nil error *)
        ret ReturnNil
  | opDelete =>
      r <~ readParam command BTRFS_SEND_A_PATH "failed to read path param" ;;
      path <~ as_string r.1 ;;
      wrap "failed to process delete" (processDelete path r.2) ;;;
      ret Continue
  | _ =>
      let t := OriginalType command in
      if (t =? BTRFS_SEND_C_SNAPSHOT) || (t =? BTRFS_SEND_C_SUBVOL) then
        r <~ readParam command BTRFS_SEND_A_PATH "failed to read path param" ;;
        r <~ readParam r.2 BTRFS_SEND_A_UUID "failed to read uuid param" ;;
        r <~ readParam r.2 BTRFS_SEND_A_CTRANSID "failed to read ctransid param" ;;
        if t =? BTRFS_SEND_C_SNAPSHOT then
          r <~ readParam r.2 BTRFS_SEND_A_CLONE_UUID "failed to read clone uuid param" ;;
          r <~ readParam r.2 BTRFS_SEND_A_CLONE_CTRANSID
                 "failed to read clone ctransid param" ;;
          ret Continue
        else ret Continue
      else if t =? BTRFS_SEND_C_CLONE then fail "unsupported command"
      else
        r <~ readParam command BTRFS_SEND_A_PATH "failed to read path param" ;;
        path <~ as_string r.1 ;;
        if (t =? BTRFS_SEND_C_MKFILE) || (t =? BTRFS_SEND_C_MKDIR)
           || (t =? BTRFS_SEND_C_SYMLINK) || (t =? BTRFS_SEND_C_MKNOD)
           || (t =? BTRFS_SEND_C_MKFIFO) || (t =? BTRFS_SEND_C_MKSOCK)
        then
          wrap "failed to process create" (processCreate path r.2) ;;;
          ret Continue
        else if (t =? BTRFS_SEND_C_WRITE) || (t =? BTRFS_SEND_C_UPDATE_EXTENT)
                || (t =? BTRFS_SEND_C_TRUNCATE) || (t =? BTRFS_SEND_C_CHMOD)
                || (t =? BTRFS_SEND_C_CHOWN) || (t =? BTRFS_SEND_C_SET_XATTR)
                || (t =? BTRFS_SEND_C_REMOVE_XATTR) || (t =? BTRFS_SEND_C_UTIMES)
        then
          wrap "failed to process create" (processModify path r.2) ;;;
          ret Continue
        else fail "unhandled command"
  end.

(** The loop of [ProcessBTRFSStream]; [n] bounds the number of turns (every
    command takes at least ten bytes of the input). *)
Fixpoint processLoop (n : nat) (input : Reader) : M (option Diff) :=
  match n with
  | O => panic "unreachable"
  | S n' =>
      match readCommand input with
      | Ok (command, input) =>
          r <~ processCommand command ;;
          match r with
          | Stop => ret (Some d)
          | ReturnNil => ret None
          | Continue => processLoop n' input
          end
      | Err e => fail ("failed to read command: " +:+ e)
      | Panic e => panic e
      end
  end.

End Processor.

(** The tree [ProcessBTRFSStream] starts from: the root alone. *)
Definition initialHeap : Heap :=
  [newDiffNode DiffNodeTypeDir EmptyString opUnspec [] None (Some ∅)].

(** [ProcessBTRFSStream(stream)]: the returned [*Diff] ([None] is nil) or the
    error, and the store it leaves. *)
Definition ProcessBTRFSStream {host : HostTime} (fuel : nat) (stream : list byte)
  : Res (option Diff) * Heap :=
  match validateBTRFSStream stream with
  | (Some e, _) => (Err ("failed to validate btrfs stream: " +:+ e), [])
  | (None, input) =>
      processLoop fuel {| root := 0%nat |} (S (length input)) input initialHeap
  end.

(** ** The output projector *)

(** Compiled ignore expressions, each given by its [MatchString]. *)
Definition DiffIgnorePaths := list (string -> bool).

(** [p.Matches(f)]. *)
Definition Matches (fuel : nat) (h : Heap) (p : DiffIgnorePaths) (f : ptr) : Res bool :=
  match GetChainPath fuel h f with
  | Ok pa => Ok (existsb (fun re => re pa) p)
  | Err e => Err e
  | Panic e => Panic e
  end.

Record DiffJSONStruct := {
  Added : list ptr;
  Changed : list ptr;
  Deleted : list ptr
}.

Definition shouldPrintNode (fuel : nat) (h : Heap) (n : ptr) : Res bool :=
  match isBTRFSTemporaryNode fuel h n, h !! n with
  | Ok true, _ => Ok false
  | Ok false, Some nd =>
      Ok (bool_decide (State nd = opCreate) || bool_decide (State nd = opModify)
          || bool_decide (State nd = opDelete))
  | Ok false, None => Panic "invalid pointer"
  | Err e, _ => Err e
  | Panic e, _ => Panic e
  end.

(** [d.print(ignorePaths)]: the callback; the info lines, each with the node
    it describes, are collected in [out]. *)
Definition print_visit (fuel : nat) (h : Heap) (ignorePaths : DiffIgnorePaths)
    (f : ptr) (out : list (ptr * string)) : Res (list (ptr * string)) :=
  rlet ignored := Matches fuel h ignorePaths f in
  if ignored then Ok out
  else
    rlet show := shouldPrintNode fuel h f in
    rlet out := (if show
                 then rlet s := DiffNode_String fuel h f in Ok (out ++ [(f, s)])
                 else Ok out) in
    match h !! f with
    | Some nd =>
        if DeletedInSnapshot nd && negb (bool_decide (State nd = opDelete))
        then rlet s := StringForDeleted fuel h f in Ok (out ++ [(f, s)])
        else Ok out
    | None => Panic "invalid pointer"
    end.

(** [d.print(ignorePaths)]: the lines after the "=== Tree ===" banner. *)
Definition print (fuel : nat) (h : Heap) (d : Diff) (ignorePaths : DiffIgnorePaths)
  : Res (list (ptr * string)) :=
  traverse fuel h (root d) (print_visit fuel h ignorePaths) [].

(** The callback of [GetDiffStruct]. *)
Definition diff_visit (fuel : nat) (h : Heap) (ignorePaths : DiffIgnorePaths)
    (f : ptr) (s : DiffJSONStruct) : Res DiffJSONStruct :=
  rlet ignored := Matches fuel h ignorePaths f in
  if ignored then Ok s
  else
    rlet show := shouldPrintNode fuel h f in
    if negb show then Ok s
    else
      match h !! f with
      | Some nd =>
          let s :=
            if bool_decide (State nd = opCreate)
            then {| Added := Added s ++ [f]; Changed := Changed s; Deleted := Deleted s |}
            else if bool_decide (State nd = opDelete)
            then {| Added := Added s; Changed := Changed s; Deleted := Deleted s ++ [f] |}
            else {| Added := Added s; Changed := Changed s ++ [f]; Deleted := Deleted s |} in
          if DeletedInSnapshot nd && negb (bool_decide (State nd = opDelete))
          then Ok {| Added := Added s; Changed := Changed s; Deleted := Deleted s ++ [f] |}
          else Ok s
      | None => Panic "invalid pointer"
      end.

(** [d.GetDiffStruct(ignorePaths)]. *)
Definition GetDiffStruct (fuel : nat) (h : Heap) (d : Diff)
    (ignorePaths : DiffIgnorePaths) : Res DiffJSONStruct :=
  traverse fuel h (root d) (diff_visit fuel h ignorePaths)
    {| Added := []; Changed := []; Deleted := [] |}.

(** The JSON forms ([MarshalJSON]); a nil slice (JSON null) is the empty
    list. *)
Record DiffNodeRelationJSON := { rel_path : string; rel_reason : string }.

Record DiffNodeJSON := {
  node_type : string;
  path : string;
  state : Z;
  relations : list DiffNodeRelationJSON;
  changes : list string
}.

Fixpoint mapRes {A B} (f : A -> Res B) (l : list A) : Res (list B) :=
  match l with
  | [] => Ok []
  | x :: r => rlet y := f x in rlet ys := mapRes f r in Ok (y :: ys)
  end.

(** [(r *DiffNodeRelation) MarshalJSON()]. *)
Definition DiffNodeRelation_MarshalJSON (fuel : nat) (h : Heap) (r : DiffNodeRelation)
  : Res DiffNodeRelationJSON :=
  rlet p := GetChainPath fuel h (RNode r) in
  Ok {| rel_path := p; rel_reason := DiffNodeReason_string (Reason r) |}.

(** [(n *DiffNode) MarshalJSON()]. *)
Definition DiffNode_MarshalJSON (fuel : nat) (h : Heap) (n : ptr) : Res DiffNodeJSON :=
  match h !! n with
  | None => Panic "invalid pointer"
  | Some nd =>
      rlet p := GetChainPath fuel h n in
      rlet rels := mapRes (DiffNodeRelation_MarshalJSON fuel h) (Relations nd) in
      Ok {| node_type := DiffNodeType_string (NodeType nd); path := p;
            state := operation_ordinal (State nd); relations := rels;
            changes := Changes nd |}
  end.

Record DiffDocument := {
  added : list DiffNodeJSON;
  changed : list DiffNodeJSON;
  deleted : list DiffNodeJSON
}.

(** [d.printJSON(ignorePaths)]: the document that is marshalled. *)
Definition printJSON (fuel : nat) (h : Heap) (d : Diff) (ignorePaths : DiffIgnorePaths)
  : Res DiffDocument :=
  rlet s := GetDiffStruct fuel h d ignorePaths in
  rlet a := mapRes (DiffNode_MarshalJSON fuel h) (Added s) in
  rlet c := mapRes (DiffNode_MarshalJSON fuel h) (Changed s) in
  rlet x := mapRes (DiffNode_MarshalJSON fuel h) (Deleted s) in
  Ok {| added := a; changed := c; deleted := x |}.

(** ** Streams for the examples *)

Module Fixture.

Definition byte_of (n : Z) : byte :=
  default x00 (Byte.of_N (Z.to_N (n mod 256))).

Fixpoint le (width : nat) (n : Z) : list byte :=
  match width with
  | O => []
  | S w => byte_of n :: le w (n / 256)
  end.

(** One attribute: type, length, value. *)
Definition attr (t : Z) (v : list byte) : list byte :=
  le 2 t ++ le 2 (Z.of_nat (length v)) ++ v.

Definition attr_str (t : Z) (s : string) : list byte := attr t (Go.bytes_of_string s).
Definition attr_u64 (t : Z) (n : Z) : list byte := attr t (le 8 n).
Definition attr_time (t : Z) (sec nsec : Z) : list byte := attr t (le 8 sec ++ le 4 nsec).

(** One command: size, type, checksum (not verified), attributes. *)
Definition cmd (t : Z) (attrs : list (list byte)) : list byte :=
  let body := concat attrs in
  le 4 (Z.of_nat (length body)) ++ le 2 t ++ le 4 0 ++ body.

Definition header : list byte :=
  Go.bytes_of_string BTRFS_SEND_STREAM_MAGIC ++ [x00] ++ le 4 1.

Definition stream (cmds : list (list byte)) : list byte :=
  header ++ concat cmds ++ cmd BTRFS_SEND_C_END [].

Definition MKFILE (p : string) := cmd BTRFS_SEND_C_MKFILE [attr_str BTRFS_SEND_A_PATH p].
Definition MKDIR (p : string) := cmd BTRFS_SEND_C_MKDIR [attr_str BTRFS_SEND_A_PATH p].
Definition UNLINK (p : string) := cmd BTRFS_SEND_C_UNLINK [attr_str BTRFS_SEND_A_PATH p].
Definition RMDIR (p : string) := cmd BTRFS_SEND_C_RMDIR [attr_str BTRFS_SEND_A_PATH p].
Definition RENAME (p q : string) :=
  cmd BTRFS_SEND_C_RENAME [attr_str BTRFS_SEND_A_PATH p; attr_str BTRFS_SEND_A_PATH_TO q].
Definition LINK (p target : string) :=
  cmd BTRFS_SEND_C_LINK [attr_str BTRFS_SEND_A_PATH p; attr_str BTRFS_SEND_A_PATH_LINK target].
Definition SYMLINK (p target : string) :=
  cmd BTRFS_SEND_C_SYMLINK
    [attr_str BTRFS_SEND_A_PATH p; attr_u64 BTRFS_SEND_A_INO 257;
     attr_str BTRFS_SEND_A_PATH_LINK target].
Definition WRITE (p : string) (off : Z) (payload : string) :=
  cmd BTRFS_SEND_C_WRITE
    [attr_str BTRFS_SEND_A_PATH p; attr_u64 BTRFS_SEND_A_FILE_OFFSET off;
     attr_str BTRFS_SEND_A_DATA payload].
Definition UPDATE_EXTENT (p : string) (off size : Z) :=
  cmd BTRFS_SEND_C_UPDATE_EXTENT
    [attr_str BTRFS_SEND_A_PATH p; attr_u64 BTRFS_SEND_A_FILE_OFFSET off;
     attr_u64 BTRFS_SEND_A_SIZE size].
Definition UTIMES (p : string) (a m c : Z) :=
  cmd BTRFS_SEND_C_UTIMES
    [attr_str BTRFS_SEND_A_PATH p; attr_time BTRFS_SEND_A_ATIME a 0;
     attr_time BTRFS_SEND_A_MTIME m 0; attr_time BTRFS_SEND_A_CTIME c 0].

End Fixture.

(** * Vocabulary of the properties *)

(** ** Predicates and specification functions *)

(** The attribute at the head of [data]: a four-byte header (type and length,
    little-endian) followed by the value [b]. *)
Definition attr_at_head (data : list byte) (t : Z) (b rest : list byte) : Prop :=
  exists hdr, data = hdr ++ b ++ rest /\ length hdr = 4%nat
    /\ Go.Uint16 (take 2 hdr) = Some t
    /\ Go.Uint16 (drop 2 hdr) = Some (Z.of_nat (length b)).

(** [k] slashes. *)
Fixpoint slashes (k : nat) : string :=
  match k with
  | O => EmptyString
  | S k' => String Go.slash (slashes k')
  end.

Definition starts_with_slash (s : string) : bool :=
  match s with
  | String c _ => Ascii.eqb c Go.slash
  | EmptyString => false
  end.

(** The claim of C2 at one stream and path: the node at [p] carries a
    [utime:] change and is Modified or Created. *)
Definition utimes_recorded (h : Heap) (d : Diff) (p : string) : Prop :=
  exists n nd c,
    getNodeByPath h d p = Some n /\ h !! n = Some nd
    /\ c ∈ Changes nd /\ Go.HasPrefix c "utime:atime=" = true
    /\ (State nd = opModify \/ State nd = opCreate).

(** Tree coherence as C5 states it. *)
Inductive reachable (h : Heap) (r : ptr) : ptr -> Prop :=
  | reach_root : reachable h r r
  | reach_child p nd k c :
      reachable h r p -> h !! p = Some nd -> kids nd !! k = Some c ->
      reachable h r c.

Definition tree_coherent (h : Heap) (d : Diff) : Prop :=
  (forall n nd, reachable h (root d) n -> n <> root d -> h !! n = Some nd ->
     exists p pd, Parent nd = Some p /\ h !! p = Some pd /\ kids pd !! Path nd = Some n)
  /\ (forall p pd k c, h !! p = Some pd -> kids pd !! k = Some c ->
        exists cd, h !! c = Some cd /\ Parent cd = Some p /\ Path cd = k).

(** What never changes: a node that exists keeps existing, with its name. *)
Definition ext (h h' : Heap) : Prop :=
  forall c cn, h !! c = Some cn -> exists cn', h' !! c = Some cn' /\ Path cn' = Path cn.

(** Every entry of a children map leads to a node with the entry's name. *)
Definition names_ok (h : Heap) : Prop :=
  forall p pd k c, h !! p = Some pd -> kids pd !! k = Some c ->
    exists cd, h !! c = Some cd /\ Path cd = k.

(** A write change as the processor prints it. *)
Definition write_desc (o l : Z) : string := write_change (Go.fmt_d o) (Go.fmt_d l).

Definition u64 (n : Z) : Prop := 0 <= n < Go.two64.

(** No two adjacent write changes are contiguous. *)
Definition no_contiguous_writes (cs : list string) : Prop :=
  forall i o1 l1 o2 l2, 0 <= o1 -> 0 <= l1 -> 0 <= o2 -> 0 <= l2 ->
    cs !! i = Some (write_desc o1 l1) -> cs !! S i = Some (write_desc o2 l2) ->
    o1 + l1 <> o2.

(** The change list of a node, with the last write it remembers. *)
Record changes_ok (nd : DiffNode) : Prop := {
  last_offset_u64 : u64 (lastDataWrittenOffset nd);
  last_len_u64 : u64 (lastDataWrittenLen nd);
  writes_u64 : forall o l, 0 <= o -> 0 <= l -> write_desc o l ∈ Changes nd -> u64 o /\ u64 l;
  last_is_remembered : forall c,
    last (Changes nd) = Some c -> Go.HasPrefix c "write" = true ->
    c = write_desc (lastDataWrittenOffset nd) (lastDataWrittenLen nd);
  writes_apart : no_contiguous_writes (Changes nd)
}.

Definition Inv (h : Heap) : Prop :=
  names_ok h /\ forall n nd, h !! n = Some nd -> changes_ok nd.

(** A computation is [good] when it keeps the names and the invariant,
    whatever its result. *)
Definition good {A} (m : M A) : Prop :=
  forall h, ext h (m h).2 /\ (Inv h -> Inv (m h).2).

(** Field updates that touch neither the name nor the children. *)
Definition benign (f : DiffNode -> DiffNode) : Prop :=
  forall nd, Path (f nd) = Path nd /\ Children (f nd) = Children nd
             /\ (changes_ok nd -> changes_ok (f nd)).

Fixpoint all_digits (s : string) : bool :=
  match s with
  | EmptyString => true
  | String c r => Regexp.is_digit c && all_digits r
  end.

(** The change list and the remembered write after a WRITE or UPDATE_EXTENT
    of [n] bytes at offset [o], as [record_write] computes them. *)
Definition merges (nd : DiffNode) (o : Z) : bool :=
  match last (Changes nd) with
  | Some lastChange =>
      Go.HasPrefix lastChange "write"
      && (Go.add64 (lastDataWrittenOffset nd) (lastDataWrittenLen nd) =? o)
  | None => false
  end.

Definition written (nd : DiffNode) (o n : Z) : list string * Z * Z :=
  if merges nd o
  then (removelast (Changes nd)
          ++ [write_desc (lastDataWrittenOffset nd) (Go.add64 n (lastDataWrittenLen nd))],
        lastDataWrittenOffset nd, Go.add64 n (lastDataWrittenLen nd))
  else (Changes nd ++ [write_desc o n], o, n).

(** A computation that only reads: it returns [r] and leaves the store. *)
Definition reads {A} (m : M A) (r : Res A) : Prop := forall h, m h = (r, h).

(** A map whose entries lead to nodes of the right name. *)
Definition valid_map (m : gmap string ptr) (h : Heap) : Prop :=
  forall k c, m !! k = Some c -> exists cd, h !! c = Some cd /\ Path cd = k.

(** [good] under a fact [P] about the store that [ext] carries along. *)
Definition goodQ (P : Heap -> Prop) {A} (m : M A) : Prop :=
  forall h, ext h (m h).2 /\ (P h -> Inv h -> Inv (m h).2).

Definition stable (P : Heap -> Prop) : Prop :=
  forall h h', ext h h' -> P h -> P h'.

(** [name] contains a match of the placeholder pattern. *)
Definition contains_placeholder (name : string) : Prop :=
  exists pre mid post,
    name = pre +:+ mid +:+ post
    /\ Regexp.Matches regexNewNode (list_ascii_of_string mid).

(** [below h r k n]: the parent chain of [n] reaches [r] in [k] steps. *)
Inductive below (h : Heap) (r : ptr) : nat -> ptr -> Prop :=
  | below_child n nd : h !! n = Some nd -> Parent nd = Some r -> below h r 1 n
  | below_step k n nd p :
      h !! n = Some nd -> Parent nd = Some p -> below h r k p -> below h r (S k) n.

(** The promotion a parent undergoes: Unknown becomes Dir. *)
Definition promote (x : DiffNode) : DiffNode :=
  if bool_decide (NodeType x = DiffNodeTypeUnknown)
  then set_NodeType DiffNodeTypeDir x else x.

(** The children moved out of, and into, a map. *)
Definition dels (l : list (string * ptr)) (m : gmap string ptr) : gmap string ptr :=
  foldr (fun kv acc => delete kv.1 acc) m l.

Definition adds (l : list (string * ptr)) (m : gmap string ptr) : gmap string ptr :=
  foldr (fun kv acc => <[kv.1 := kv.2]> acc) m l.

(** The body of the merge loop of [addNode]. *)
Definition merge_body (f : nat) (node e : ptr) (kv : string * ptr) : M unit :=
  en' <~ getNode e ;;
  match kids en' !! kv.1 with
  | Some val =>
      wrapf [chainPath (S f) e; chainPath (S f) val; chainPath (S f) node]
            "failed to move deleted fake node children" (addNode f node val)
  | None => ret tt
  end.

(** What the merge needs of a child [c] that the deleted node [e] holds
    under the key [k]. *)
Definition movable (h : Heap) (n node e : ptr) (mn : gmap string ptr)
    (k : string) (c : ptr) : Prop :=
  k <> EmptyString /\ c <> n /\ c <> node /\ c <> e /\ mn !! k = None
  /\ Parent <$> h !! c = Some (Some e) /\ Path <$> h !! c = Some k.

(** What [addNode] needs of the former parent of the node it attaches
    under [n] in place of [e]: a node apart, no child of [e], that holds
    the node under its name and under no other key. *)
Definition detachable (h : Heap) (n node e : ptr) (name : string)
    (parent : option ptr) (echildren : gmap string ptr) : Prop :=
  match parent with
  | None => True
  | Some q =>
      q <> n /\ q <> node /\ q <> e /\ (forall k, echildren !! k <> Some q)
      /\ exists qd, h !! q = Some qd /\ kids qd !! name = Some node
                    /\ forall k, kids qd !! k = Some node -> k = name
  end.

(** [addNode] from the point where the node has left its former parent. *)
Definition addNode_tail (f : nat) (n node : ptr) (existingNode : option ptr) : M unit :=
  upd node (set_Parent (Some n)) ;;;
  match existingNode with
  | Some e =>
      wrapf [chainPath (S f) e; parentChainPath (S f) e]
            "failed to delete fake existing node from its parent"
            (removeFromParent (S f) e) ;;;
      en <~ getNode e ;;
      upd node (fun x => set_Relations (Relations x ++ Relations en) x) ;;;
      forM (map_to_list (kids en)) (merge_body f node e) ;;;
      upd node (set_DeletedInSnapshot true) ;;;
      putChild n node
  | None => putChild n node
  end.

(** The change [processModify] records for a UTIMES command. *)
Definition utime_change {host : HostTime} (atime mtime ctime : value) : string :=
  "utime:atime=" +:+ fmt_v atime +:+ ",mtime=" +:+ fmt_v mtime
  +:+ ",ctime=" +:+ fmt_v ctime.

(** A computation keeps a property [P] of the nodes of the store. *)
Definition keeps (P : DiffNode -> Prop) {A} (m : M A) : Prop :=
  forall h n nd, h !! n = Some nd -> P nd -> exists nd', (m h).2 !! n = Some nd' /\ P nd'.

(** ** Predicates of the further properties *)

(** A command at the head of [input]: size, type, checksum, then the data
    of [c], then [rest]. *)
Definition command_at_head (input : list byte) (c : commandInst) (rest : list byte) : Prop :=
  exists sz ty crc,
    input = sz ++ ty ++ crc ++ data c ++ rest
    /\ length sz = 4%nat /\ length ty = 2%nat /\ length crc = 4%nat
    /\ Go.Uint32 sz = Some (Z.of_nat (length (data c)))
    /\ Go.Uint16 ty = Some (OriginalType c)
    /\ OriginalType c <= BTRFS_SEND_C_MAX
    /\ exists defs, commandsDefs = Some defs
                    /\ aget defs (OriginalType c) = Some (Type_ c).

(** The attributes the table decodes with [attrConverterUint64]. *)
Definition uint64_attributes : list Z :=
  [BTRFS_SEND_A_CTRANSID; BTRFS_SEND_A_INO; BTRFS_SEND_A_SIZE; BTRFS_SEND_A_MODE;
   BTRFS_SEND_A_UID; BTRFS_SEND_A_GID; BTRFS_SEND_A_RDEV; BTRFS_SEND_A_FILE_OFFSET;
   BTRFS_SEND_A_CLONE_CTRANSID; BTRFS_SEND_A_CLONE_OFFSET; BTRFS_SEND_A_CLONE_LEN].

(** [s] holds no slash. *)
Definition no_slash (s : string) : bool :=
  forallb (fun c => negb (Ascii.eqb c Go.slash)) (list_ascii_of_string s).

(** The parent path [getNodeParentOrMkdir] computes:
    [strings.Join(parts[:len(parts)-1], "/")]. *)
Definition parentPath (path : string) : string :=
  Go.Join (removelast (Go.Split path)).

(** The chain path of a node reached from the root through [names]. *)
Definition path_of (names : list string) : string :=
  foldr (fun k acc => String Go.slash k +:+ acc) EmptyString names.

(** [chain h r names n]: [n] is reached from [r] through the children
    named [names], each of which has the node above it as parent and holds
    no slash in its name. *)
Inductive chain (h : Heap) (r : ptr) : list string -> ptr -> Prop :=
  | chain_root : chain h r [] r
  | chain_child names p pd k n nd :
      chain h r names p ->
      h !! p = Some pd -> kids pd !! k = Some n ->
      h !! n = Some nd -> Parent nd = Some p -> Path nd = k -> no_slash k = true ->
      chain h r (names ++ [k]) n.

(** [grows h h']: every node of [h] is in [h'] with the children it had
    (and a children map, if it had one) and with all its other fields. *)
Definition grows (h h' : Heap) : Prop :=
  forall p pd, h !! p = Some pd ->
    exists pd', h' !! p = Some pd'
      /\ (forall k c, kids pd !! k = Some c -> kids pd' !! k = Some c)
      /\ (is_Some (Children pd) -> is_Some (Children pd'))
      /\ set_Children (Children pd) pd' = pd.

(** Every node has a children map, and the children are nodes. *)
Definition directories_only (h : Heap) : Prop :=
  forall p pd, h !! p = Some pd ->
    is_Some (Children pd) /\ forall k c, kids pd !! k = Some c -> is_Some (h !! c).

(** What [addNode] needs of the former parent of a node it moves: a node
    apart that holds the node under its name, which is not empty, and under
    no other key. *)
Definition held_by_parent (h : Heap) (n node : ptr) (nn : DiffNode) : Prop :=
  match Parent nn with
  | None => True
  | Some q =>
      q <> n /\ q <> node /\ Path nn <> EmptyString
      /\ exists qd, h !! q = Some qd /\ kids qd !! Path nn = Some node
                    /\ forall k, kids qd !! k = Some node -> k = Path nn
  end.

(** The commands the table maps to [opIgnore]. *)
Definition skipped_commands : list Z :=
  [BTRFS_SEND_C_UTIMES; BTRFS_SEND_C_FALLOCATE; BTRFS_SEND_C_FILEATTR;
   BTRFS_SEND_C_ENCODED_WRITE; BTRFS_SEND_C_ENABLE_VERITY].

(** The input holds an [END] command at a command boundary. *)
Inductive has_end (input : list byte) : Prop :=
  | end_here c rest :
      readCommand input = Ok (c, rest) -> OriginalType c = BTRFS_SEND_C_END ->
      has_end input
  | end_later c rest :
      readCommand input = Ok (c, rest) -> has_end rest -> has_end input.

(** A turn of the loop that, when it succeeds, goes on with the next
    command. *)
Definition goes_on (m : M turn) : Prop :=
  forall h r h', m h = (Ok r, h') -> r = Continue.

(** [c] is below [r]: reached from it through one child entry or more. *)
Inductive descendant (h : Heap) (r : ptr) : ptr -> Prop :=
  | desc_child nd k c :
      h !! r = Some nd -> kids nd !! k = Some c -> descendant h r c
  | desc_step nd k c c' :
      h !! r = Some nd -> kids nd !! k = Some c -> descendant h c c' ->
      descendant h r c'.

(** The nodes a projection of the tree looks at: below the root, with a
    chain path that no ignore expression matches. *)
Definition visible (fuel : nat) (h : Heap) (d : Diff) (ignorePaths : DiffIgnorePaths)
    (n : ptr) (nd : DiffNode) : Prop :=
  descendant h (root d) n /\ h !! n = Some nd
  /\ Matches fuel h ignorePaths n = Ok false.

(** The three lists of the structured diff, by the node. *)
Definition in_added (nd : DiffNode) : Prop := State nd = opCreate.
Definition in_changed (nd : DiffNode) : Prop := State nd = opModify.
Definition in_deleted (nd : DiffNode) : Prop :=
  State nd = opDelete
  \/ (DeletedInSnapshot nd = true /\ (State nd = opCreate \/ State nd = opModify)).

(** The nodes the structured diff lists: visible, and not temporary. *)
Definition listed (fuel : nat) (h : Heap) (d : Diff) (ignorePaths : DiffIgnorePaths)
    (n : ptr) (nd : DiffNode) : Prop :=
  visible fuel h d ignorePaths n nd /\ isBTRFSTemporaryNode fuel h n = Ok false.

(** The lists of the structured diff with the node [c] entered. *)
Definition enter (c : ptr) (nd : DiffNode) (s : DiffJSONStruct) : DiffJSONStruct :=
  let s :=
    if bool_decide (State nd = opCreate)
    then {| Added := Added s ++ [c]; Changed := Changed s; Deleted := Deleted s |}
    else if bool_decide (State nd = opDelete)
    then {| Added := Added s; Changed := Changed s; Deleted := Deleted s ++ [c] |}
    else {| Added := Added s; Changed := Changed s ++ [c]; Deleted := Deleted s |} in
  if DeletedInSnapshot nd && negb (bool_decide (State nd = opDelete))
  then {| Added := Added s; Changed := Changed s; Deleted := Deleted s ++ [c] |}
  else s.

Definition has_state (nd : DiffNode) : Prop :=
  State nd = opCreate \/ State nd = opModify \/ State nd = opDelete.

(** The lines [print] gives for a node: its description when
    [shouldPrintNode] holds, and its description as a deleted node when it
    is marked as deleted in the snapshot without being in the Deleted
    state. *)
Definition line_of (fuel : nat) (h : Heap) (n : ptr) (nd : DiffNode) (line : string)
  : Prop :=
  (shouldPrintNode fuel h n = Ok true /\ DiffNode_String fuel h n = Ok line)
  \/ (DeletedInSnapshot nd = true /\ State nd <> opDelete
      /\ StringForDeleted fuel h n = Ok line).

(** The node a delete leaves: Deleted, marked as deleted in the snapshot,
    and a directory if its type was unknown and the command is RMDIR. *)
Definition tombstone (command : commandInst) (nd : DiffNode) : DiffNode :=
  set_DeletedInSnapshot true
    (set_State opDelete
       (if bool_decide (NodeType nd = DiffNodeTypeUnknown)
           && (OriginalType command =? BTRFS_SEND_C_RMDIR)
        then set_NodeType DiffNodeTypeDir nd else nd)).

(** Every node is still there, with the children it had. *)
Definition kids_kept (h h' : Heap) : Prop :=
  forall p pd, h !! p = Some pd ->
    exists pd', h' !! p = Some pd'
      /\ forall k c, kids pd !! k = Some c -> kids pd' !! k = Some c.

(** The pointers of the tree are valid: the root is a node, and so is every
    child. *)
Definition closed (h : Heap) (d : Diff) : Prop :=
  is_Some (h !! root d)
  /\ forall p pd k c, h !! p = Some pd -> kids pd !! k = Some c -> is_Some (h !! c).

(** The tail of [processCreate], from the node it made. *)
Definition processCreate_tail_run (d : Diff) (command : commandInst) (node : ptr)
  : M unit :=
  if OriginalType command =? BTRFS_SEND_C_SYMLINK then
    r <~ readParam command BTRFS_SEND_A_INO "failed to read ino link param" ;;
    r <~ readParam r.2 BTRFS_SEND_A_PATH_LINK "failed to read path link param" ;;
    pathLink <~ as_string r.1 ;;
    h <~ get ;;
    linkDestination <~
      match getNodeByPath h d pathLink with
      | Some l => ret l
      | None =>
          alloc (newDiffNode DiffNodeTypeUnknown pathLink opUnspec [] None (Some ∅))
      end ;;
    upd node (fun x => set_Relations
                (Relations x ++ [{| RNode := linkDestination;
                                    Reason := DiffNodeReasonLinkDest |}]) x)
  else ret tt.

(** Two nodes that agree on their state, their mark and their relations. *)
Definition same_marks (x y : DiffNode) : Prop :=
  State y = State x /\ DeletedInSnapshot y = DeletedInSnapshot x
  /\ Relations y = Relations x.

(** ** Inputs of the examples *)

(** The node at [p], in a store known to hold one. *)
Definition node_at (h : Heap) (p : ptr) : DiffNode :=
  default (newDiffNode DiffNodeTypeUnknown EmptyString opUnspec [] None None) (h !! p).

Definition bad_magic_stream : list byte :=
  Go.bytes_of_string "not-a-send-stream" ++ [x00] ++ Fixture.le 4 1
  ++ Fixture.MKFILE "x" ++ Fixture.cmd BTRFS_SEND_C_END [].

Definition bad_version_stream : list byte :=
  Go.bytes_of_string BTRFS_SEND_STREAM_MAGIC ++ [x00] ++ Fixture.le 4 2
  ++ Fixture.MKFILE "x" ++ Fixture.cmd BTRFS_SEND_C_END [].

Definition utimes_stream : list byte :=
  Fixture.stream [Fixture.UTIMES "dir" 1 2 3].

Definition shadow_stream : list byte :=
  Fixture.stream [Fixture.RENAME "bar" "o1-2-3"; Fixture.MKFILE "bar/sub/f";
                  Fixture.RMDIR "o1-2-3/sub"].

Definition nested_placeholder_stream : list byte :=
  Fixture.stream [Fixture.UNLINK "data/o1-2-3/file"].

Definition rename_dir_stream : list byte :=
  Fixture.stream [Fixture.MKDIR "a"; Fixture.MKFILE "a/f"; Fixture.RENAME "a" "b"].

Definition orphaned_child_stream : list byte :=
  Fixture.stream [Fixture.MKDIR "o1-2-3"; Fixture.MKFILE "o1-2-3/f";
                  Fixture.RENAME "o1-2-3" "b"; Fixture.UNLINK "b/f"].

Definition symlink_stream : list byte :=
  Fixture.stream [Fixture.SYMLINK "dir/symlink" "file"].

(** The SYMLINK command of [symlink_stream], with its path read. *)
Definition symlink_command : commandInst :=
  {| OriginalType := BTRFS_SEND_C_SYMLINK;
     Type_ := {| Name := "BTRFS_SEND_C_SYMLINK"; Op := opCreate |};
     data := Fixture.attr_u64 BTRFS_SEND_A_INO 257
             ++ Fixture.attr_str BTRFS_SEND_A_PATH_LINK "file" |}.

Definition photo_stream : list byte :=
  Fixture.stream [Fixture.UNLINK "photo1-2-3"; Fixture.RENAME "x" "photo1-2-3"].

Definition three_writes_stream : list byte :=
  Fixture.stream [Fixture.WRITE "f" 0 "abc"; Fixture.WRITE "f" 3 "defg";
                  Fixture.WRITE "f" 10 "x"].

Definition one_write_stream : list byte :=
  Fixture.stream [Fixture.WRITE "f" 0 "abc"].

Definition next_write : commandInst :=
  {| OriginalType := BTRFS_SEND_C_WRITE;
     Type_ := {| Name := "BTRFS_SEND_C_WRITE"; Op := opModify |};
     data := Fixture.attr_u64 BTRFS_SEND_A_FILE_OFFSET 3
             ++ Fixture.attr_str BTRFS_SEND_A_DATA "defg" |}.

(** Two extents of 2^63 bytes, the second where the first ends. *)
Definition two_extents_stream : list byte :=
  Fixture.stream [Fixture.UPDATE_EXTENT "f" 0 (2 ^ 63);
                  Fixture.UPDATE_EXTENT "f" (2 ^ 63) (2 ^ 63)].

Definition mkdir_stream : list byte := Fixture.stream [Fixture.MKDIR "dir"].

Definition utimes_command : commandInst :=
  {| OriginalType := BTRFS_SEND_C_UTIMES;
     Type_ := {| Name := "BTRFS_SEND_C_UTIMES"; Op := opIgnore |};
     data := Fixture.attr_time BTRFS_SEND_A_ATIME 1 0
             ++ Fixture.attr_time BTRFS_SEND_A_MTIME 2 0
             ++ Fixture.attr_time BTRFS_SEND_A_CTIME 3 0 |}.

(** The store of a run, with three fresh nodes: two as
    [processRenameOrLink] makes a destination without a source, one as
    [processCreate] makes a file. *)
Definition addNode_stream : list byte :=
  Fixture.stream [Fixture.RENAME "a" "b"; Fixture.MKFILE "c/x"; Fixture.UNLINK "c";
                  Fixture.MKDIR "d/x"; Fixture.RMDIR "d/x"; Fixture.MKDIR "e/x"].

Definition addNode_heap : Heap :=
  (ProcessBTRFSStream (host := rawHostTime) 8 addNode_stream).2
  ++ [newDiffNode DiffNodeTypeUnknown "c" opCreate [] None (Some ∅);
      newDiffNode DiffNodeTypeFile "y" opCreate [] None None;
      newDiffNode DiffNodeTypeUnknown "b" opCreate [] None (Some ∅)].

Definition addNode_at (p : ptr) : DiffNode := node_at addNode_heap p.

(** A stream on which a file made by [processCreate], whose children map
    is nil, is to take the children of a deleted directory. *)
Definition nil_children_stream : list byte :=
  Fixture.stream [Fixture.MKFILE "t/x"; Fixture.RMDIR "t"; Fixture.MKFILE "s/x/y";
                  Fixture.RMDIR "s/x"; Fixture.RENAME "s" "t"].

(** A stream on which the directory "s", with the file "s/x", is renamed
    to "t", where the deleted directory "t" still holds the file "t/x"; and
    the store at the call of [addNode] that this rename makes: "s" is marked
    as deleted, and the destination (at 5) is fresh, with the children map
    of "s". *)
Definition replace_conflict_stream : list byte :=
  Fixture.stream [Fixture.MKFILE "t/x"; Fixture.RMDIR "t"; Fixture.MKFILE "s/x";
                  Fixture.RENAME "s" "t"].

Definition replace_conflict_heap : Heap :=
  (ProcessBTRFSStream (host := rawHostTime) 8
     (Fixture.stream [Fixture.MKFILE "t/x"; Fixture.RMDIR "t"; Fixture.MKFILE "s/x";
                      Fixture.RMDIR "s"])).2
  ++ [newDiffNode DiffNodeTypeDir "t" opCreate
        [{| RNode := 3%nat; Reason := DiffNodeReasonRenameSrc |}] None
        (Some {["x"%string := 4%nat]})].

(** A stream that creates a file with an empty last part in its path. *)
Definition empty_name_stream : list byte :=
  Fixture.stream [Fixture.MKFILE "dir/"].

(** A stream that makes a directory and a file in it. *)
Definition two_creates_stream : list byte :=
  Fixture.stream [Fixture.MKDIR "a"; Fixture.MKFILE "a/f"].

(** A PATH_LINK attribute whose value has 65532 bytes, the least length
    at which [4+paramLength] wraps, and a command that holds it. *)
Definition long_path : list byte := replicate (Z.to_nat 65532) "a"%byte.

Definition long_path_command : commandInst :=
  {| OriginalType := BTRFS_SEND_C_SYMLINK;
     Type_ := {| Name := "BTRFS_SEND_C_SYMLINK"; Op := opCreate |};
     data := Fixture.le 2 BTRFS_SEND_A_PATH_LINK ++ Fixture.le 2 65532 ++ long_path |}.

(** A stream that is accepted and leaves two nodes that are each the parent
    of the other ("a", at 1, and "k", at 7), and a file (at 5) whose parent is
    "a", which does not hold it. *)
Definition parent_cycle_stream : list byte :=
  Fixture.stream [Fixture.MKDIR "a"; Fixture.LINK "a/k" EmptyString; Fixture.UNLINK "a/k";
                  Fixture.MKFILE "s/a/k"; Fixture.LINK "z" "s/a"; Fixture.RMDIR "s/a";
                  Fixture.RENAME "s" "a/k"].

Definition parent_cycle : Heap :=
  (ProcessBTRFSStream (host := rawHostTime) 8 parent_cycle_stream).2.

(** The RENAME command of "a" to "b", with its two paths read. *)
Definition rename_command : commandInst :=
  {| OriginalType := BTRFS_SEND_C_RENAME;
     Type_ := {| Name := "BTRFS_SEND_C_RENAME"; Op := opRename |};
     data := [] |}.

(** * Properties *)

(** ** Attribute decoding *)

Lemma TrimLeft_spec (s : string) :
  exists k, s = slashes k +:+ Go.TrimLeft s /\ starts_with_slash (Go.TrimLeft s) = false.
Proof.
  induction s as [|c r IH].
  - exists 0%nat. split; reflexivity.
  - simpl. destruct (Ascii.eqb c Go.slash) eqn:E.
    + destruct IH as (k & Hk & Hs). exists (S k). split; [|exact Hs].
      apply Ascii.eqb_eq in E. subst c.
      change (String Go.slash r = String Go.slash (slashes k +:+ Go.TrimLeft r)).
      f_equal. exact Hk.
    + exists 0%nat. split; [reflexivity|]. simpl. exact E.
Qed.

(** The header of an attribute, decoded: the type and the length of the
    value; the lengths a header can announce are below 65536. *)
Lemma attr_at_head_length (dat : list byte) (t : Z) (b rest : list byte) :
  attr_at_head dat t b rest -> 0 <= Z.of_nat (length b) < 65536.
Proof.
  intros (hdr & _ & Hlen & _ & Hl). split; [lia|].
  destruct hdr as [|h0 [|h1 [|x [|y [|? ?]]]]]; simpl in Hlen; try discriminate.
  injection Hl as Hl. rewrite <- Hl.
  assert (Hb : forall z : byte, 0 <= Z.of_N (Byte.to_N z) < 256).
  { intros z. pose proof (Byte.to_N_bounded z). lia. }
  pose proof (Hb x). pose proof (Hb y).
  cbn [Go.le_value take drop]. lia.
Qed.

Lemma ReadParam_header (c : commandInst) (t : Z) (b rest : list byte)
    (defs : list attrMapping) (attr : attrMapping) :
  attr_at_head (data c) t b rest ->
  attrDefs = Some defs ->
  aget defs t = Some attr ->
  ReadParam c t
  = if Go.add16 4 (Z.of_nat (length b)) <? 4 then Panic "slice bounds out of range"
    else match converter attr with
         | None => Panic "nil pointer dereference"
         | Some conv =>
             match conv b with
             | Ok v => Ok (v, {| OriginalType := OriginalType c; Type_ := Type_ c;
                                 data := rest |})
             | Err e => Err e
             | Panic e => Panic e
             end
         end.
Proof.
  intros (hdr & Hd & Hlen & Ht & Hl) Hdefs Hattr.
  unfold ReadParam. rewrite Hd, Hdefs.
  destruct hdr as [|h0 [|h1 [|h2 [|h3 [|? ?]]]]]; simpl in Hlen; try discriminate.
  simpl in Ht, Hl.
  change (take 2 ((h0 :: h1 :: h2 :: h3 :: []) ++ b ++ rest)) with [h0; h1].
  change (take 2 (drop 2 ((h0 :: h1 :: h2 :: h3 :: []) ++ b ++ rest))) with [h2; h3].
  rewrite Ht, Hl.
  replace (length ([h0; h1; h2; h3] ++ b ++ rest) <? 4)%nat with false
    by (symmetry; apply Nat.ltb_ge; simpl; lia).
  rewrite Z.eqb_refl. simpl negb. cbv iota.
  replace (Z.of_nat (length ([h0; h1; h2; h3] ++ b ++ rest)) <? Z.of_nat (length b) + 4)
    with false
    by (symmetry; apply Z.ltb_ge; rewrite !length_app; simpl; lia).
  rewrite Hattr.
  destruct (Go.add16 4 (Z.of_nat (length b)) <? 4); [reflexivity|].
  cbv zeta. destruct (converter attr) as [conv|]; [|reflexivity].
  rewrite Nat2Z.id.
  change (drop 4 ([h0; h1; h2; h3] ++ b ++ rest)) with (b ++ rest).
  rewrite take_app_length.
  destruct (conv b); try reflexivity.
  do 3 f_equal.
  change (drop (4 + length b) ([h0; h1; h2; h3] ++ b ++ rest))
    with (drop (length b) (b ++ rest)).
  apply drop_app_length.
Qed.

Lemma add16_small (n : Z) : 0 <= n < 65532 -> (Go.add16 4 n <? 4) = false.
Proof.
  intros H. unfold Go.add16. rewrite Z.mod_small by lia. apply Z.ltb_ge. lia.
Qed.

Lemma add16_wraps (n : Z) : 65532 <= n < 65536 -> (Go.add16 4 n <? 4) = true.
Proof.
  intros H. unfold Go.add16.
  replace (4 + n) with ((n - 65532) + 1 * 2 ^ 16) by lia.
  rewrite Z.mod_add by lia. rewrite Z.mod_small by lia. apply Z.ltb_lt. lia.
Qed.

Lemma ReadParam_head (c : commandInst) (t : Z) (b rest : list byte)
    (defs : list attrMapping) (attr : attrMapping) (conv : list byte -> Res value)
    (v : value) :
  attr_at_head (data c) t b rest ->
  Z.of_nat (length b) < 65532 ->
  attrDefs = Some defs ->
  aget defs t = Some attr ->
  converter attr = Some conv ->
  conv b = Ok v ->
  ReadParam c t
  = Ok (v, {| OriginalType := OriginalType c; Type_ := Type_ c; data := rest |}).
Proof.
  intros H Hb Hdefs Hattr Hconv Hv.
  rewrite (ReadParam_header c t b rest defs attr H Hdefs Hattr).
  rewrite add16_small by lia. rewrite Hconv, Hv. reflexivity.
Qed.

(** C8.  An attribute of kind PATH, PATH_TO, CLONE_PATH or PATH_LINK with
    value bytes [b] at the head of the data of a command.  When [b] has
    fewer than 65532 bytes, decoding a PATH, PATH_TO or CLONE_PATH gives the
    string of [b] with all its leading slashes removed (and nothing else
    changed), and decoding a PATH_LINK gives the string of [b] itself, whose
    bytes are exactly [b].  When [b] has 65532 bytes or more (a header can
    announce up to 65535), decoding gives no string at all: [4+paramLength]
    wraps as a [uint16] and the slice expression panics, although the
    length check before it has passed. *)
Theorem path_attribute_asymmetry (c : commandInst) (t : Z) (b rest : list byte) :
  attr_at_head (data c) t b rest ->
  let c' := {| OriginalType := OriginalType c; Type_ := Type_ c; data := rest |} in
  (Z.of_nat (length b) < 65532 ->
   (t = BTRFS_SEND_A_PATH \/ t = BTRFS_SEND_A_PATH_TO \/ t = BTRFS_SEND_A_CLONE_PATH ->
    exists (s : string) (k : nat),
      ReadParam c t = Ok (VString s, c')
      /\ Go.string_of_bytes b = slashes k +:+ s
      /\ starts_with_slash s = false)
   /\ (t = BTRFS_SEND_A_PATH_LINK ->
       ReadParam c t = Ok (VString (Go.string_of_bytes b), c')
       /\ Go.bytes_of_string (Go.string_of_bytes b) = b))
  /\ (65532 <= Z.of_nat (length b) ->
      t = BTRFS_SEND_A_PATH \/ t = BTRFS_SEND_A_PATH_TO \/ t = BTRFS_SEND_A_CLONE_PATH
      \/ t = BTRFS_SEND_A_PATH_LINK ->
      ReadParam c t = Panic "slice bounds out of range").
Proof.
  intros H c'. split.
  - intros Hb. split.
    + intros Ht.
      destruct (TrimLeft_spec (Go.string_of_bytes b)) as (k & Hk & Hs).
      exists (Go.TrimLeft (Go.string_of_bytes b)), k.
      split; [|split; assumption].
      destruct Ht as [-> | [-> | ->]];
        eapply ReadParam_head; try exact H; try exact Hb; reflexivity.
    + intros ->. split.
      * eapply ReadParam_head; try exact H; try exact Hb; reflexivity.
      * apply list_byte_of_string_of_list_byte.
  - intros Hb Ht. pose proof (attr_at_head_length _ _ _ _ H) as Hlen.
    destruct Ht as [-> | [-> | [-> | ->]]];
      (erewrite ReadParam_header; [|exact H|reflexivity|reflexivity]);
      rewrite add16_wraps by lia; reflexivity.
Qed.

Lemma path_attribute_asymmetry_witness :
  (let c := {| OriginalType := BTRFS_SEND_C_MKFILE;
               Type_ := {| Name := "BTRFS_SEND_C_MKFILE"; Op := opCreate |};
               data := Fixture.attr_str BTRFS_SEND_A_PATH "//a/b" |} in
   ReadParam c BTRFS_SEND_A_PATH
   = Ok (VString "a/b", {| OriginalType := OriginalType c; Type_ := Type_ c; data := [] |}))
  /\ ReadParam long_path_command BTRFS_SEND_A_PATH_LINK
     = Panic "slice bounds out of range".
Proof.
  split.
  - intros c.
    assert (H : attr_at_head (data c) BTRFS_SEND_A_PATH (Go.bytes_of_string "//a/b") []).
    { exists (Fixture.le 2 BTRFS_SEND_A_PATH ++ Fixture.le 2 5).
      repeat split; reflexivity. }
    destruct (path_attribute_asymmetry c _ _ _ H) as [Hp _].
    destruct (Hp ltac:(vm_compute; reflexivity)) as [Hp' _].
    destruct (Hp' (or_introl eq_refl)) as (s & k & Hr & _ & _).
    rewrite Hr. vm_compute in Hr. injection Hr as <-. reflexivity.
  - assert (Hlen : Z.of_nat (length long_path) = 65532).
    { unfold long_path. rewrite length_replicate. apply Z2Nat.id. lia. }
    assert (H : attr_at_head (data long_path_command) BTRFS_SEND_A_PATH_LINK long_path []).
    { exists (Fixture.le 2 BTRFS_SEND_A_PATH_LINK ++ Fixture.le 2 65532).
      split; [rewrite app_nil_r; reflexivity|].
      split; [reflexivity|]. split; [reflexivity|].
      rewrite Hlen. reflexivity. }
    apply (proj2 (path_attribute_asymmetry long_path_command _ _ _ H)).
    + rewrite Hlen. lia.
    + right. right. right. reflexivity.
Defined.

(** ** The stream validator *)

(** [validateBTRFSStream] reports an error only when the header has no NUL
    terminator or fewer than four bytes follow it: neither the magic nor
    the version can make it fail, because both failures are built by
    annotating a nil error. *)
Lemma validateBTRFSStream_error_only_on_short_read (input : Reader) (e : string)
    (r : Reader) :
  validateBTRFSStream input = (Some e, r) ->
  (ReadString input x00).1.2 <> None
  \/ (length (ReadString input x00).2 < 4)%nat.
Proof.
  unfold validateBTRFSStream.
  destruct (ReadString input x00) as [[hdr err] input'] eqn:E. simpl.
  destruct err as [e0|]; [intros _; left; discriminate|].
  destruct (negb _); [discriminate|].
  unfold peekAndDiscard.
  destruct (Z.of_nat (length input') <? 4) eqn:L.
  - intros _. right. apply Z.ltb_lt in L. lia.
  - destruct (Go.Uint32 _) as [ver|] eqn:U.
    + destruct (negb (ver =? 1)); discriminate.
    + unfold Go.Uint32, Go.le_uint in U.
      apply Z.ltb_ge in L.
      rewrite length_take in U.
      destruct (Nat.ltb_spec (Z.to_nat 4 `min` length input') 4); [lia|discriminate].
Qed.

(** C1 (the code departs from it).  On a stream whose header is not the
    magic, [validateBTRFSStream] returns nil and leaves the reader right
    after the NUL; on a stream with the right magic and version 2 it
    returns nil as well; [ProcessBTRFSStream] then decodes commands (the
    four version bytes of the first stream are taken for the size of a
    command, whose attributes then fail to decode; the MKFILE of the second
    stream is applied). *)
Theorem validateBTRFSStream_accepts_bad_header :
  validateBTRFSStream bad_magic_stream
  = (None, Fixture.le 4 1 ++ Fixture.MKFILE "x" ++ Fixture.cmd BTRFS_SEND_C_END [])
  /\ (ProcessBTRFSStream (host := rawHostTime) 8 bad_magic_stream).1
     = Err "failed to read path param: no more parameters"
  /\ validateBTRFSStream bad_version_stream
     = (None, Fixture.MKFILE "x" ++ Fixture.cmd BTRFS_SEND_C_END [])
  /\ exists h n,
       ProcessBTRFSStream (host := rawHostTime) 8 bad_version_stream
       = (Ok (Some {| root := 0%nat |}), h)
       /\ getNodeByPath h {| root := 0%nat |} "x" = Some n.
Proof.
  split; [vm_compute; reflexivity|].
  split; [vm_compute; reflexivity|].
  split; [vm_compute; reflexivity|].
  eexists _, _. split; vm_compute; reflexivity.
Qed.

(** ** Runs on concrete streams *)


(** C3 (the code departs from it).  After renaming "bar" to a placeholder,
    creating "bar/sub/f" and removing "sub" through the placeholder, the node
    "/bar/sub" is not temporary, not ignored, has [DeletedInSnapshot] set and
    state Unspecified; the pretty output reports it as deleted, but
    [GetDiffStruct] returns before the shadow emit and leaves it out of the
    deleted bucket. *)
Theorem shadow_emit_skips_unspecified :
  exists h d n nd s out,
    ProcessBTRFSStream (host := rawHostTime) 8 shadow_stream = (Ok (Some d), h)
    /\ getNodeByPath h d "bar/sub" = Some n /\ h !! n = Some nd
    /\ DeletedInSnapshot nd = true /\ State nd = opUnspec
    /\ isBTRFSTemporaryNode 8 h n = Ok false
    /\ Matches 8 h [] n = Ok false
    /\ GetDiffStruct 8 h d [] = Ok s
    /\ (n ∉ Deleted s)
    /\ print 8 h d [] = Ok out
    /\ (n, "[DIR][deleted] /bar/sub"%string) ∈ out.
Proof.
  eexists _, _, _, _, _, _.
  split; [vm_compute; reflexivity|].
  split; [vm_compute; reflexivity|].
  split; [vm_compute; reflexivity|].
  split; [vm_compute; reflexivity|]. split; [vm_compute; reflexivity|].
  split; [vm_compute; reflexivity|].
  split; [vm_compute; reflexivity|].
  split; [vm_compute; reflexivity|].
  split; [intros H; apply list_elem_of_In in H; simpl in H; intuition discriminate|].
  split; [vm_compute; reflexivity|].
  apply list_elem_of_In. simpl. right. left. reflexivity.
Qed.

(** C4 (the code departs from it).  Deleting "data/o1-2-3/file": the parent
    "data/o1-2-3" is not directly under the root (it is no temporary node),
    yet the reparenting step is taken; the parent has no rename source, so
    the deleted node is found under the anchor (itself) and dropped: nothing
    is left at "data/o1-2-3/file" and the deleted bucket is empty. *)
Theorem delete_reparents_under_nested_placeholder :
  exists h d p pd,
    ProcessBTRFSStream (host := rawHostTime) 8 nested_placeholder_stream
    = (Ok (Some d), h)
    /\ getNodeByPath h d "data/o1-2-3" = Some p /\ h !! p = Some pd
    /\ Parent pd <> Some (root d)
    /\ isBTRFSTemporaryNode 8 h p = Ok false
    /\ getNodeByPath h d "data/o1-2-3/file" = None
    /\ GetDiffStruct 8 h d [] = Ok {| Added := []; Changed := []; Deleted := [] |}.
Proof.
  eexists _, _, _, _.
  split; [vm_compute; reflexivity|].
  split; [vm_compute; reflexivity|].
  split; [vm_compute; reflexivity|].
  split; [discriminate|].
  repeat split; vm_compute; reflexivity.
Qed.

(** C5 fails on the code: after renaming the directory "a", which holds
    "f", to "b", the node "b" lists "f" among its children while the parent
    of "f" is still "a". *)
Lemma rename_breaks_coherence :
  exists h d,
    ProcessBTRFSStream (host := rawHostTime) 8 rename_dir_stream = (Ok (Some d), h)
    /\ ~ tree_coherent h d.
Proof.
  eexists _, _. split; [vm_compute; reflexivity|].
  intros [_ H].
  specialize (H 3%nat _ "f"%string 2%nat eq_refl eq_refl).
  destruct H as (cd & Hc & Hp & _).
  vm_compute in Hc. injection Hc as <-. discriminate.
Qed.

(** The first half of C5 fails too: here "f" is reachable through "b" but
    has no parent at all, and it is emitted with the path "f". *)
Lemma reachable_node_without_parent :
  exists h d n nd doc,
    ProcessBTRFSStream (host := rawHostTime) 8 orphaned_child_stream
    = (Ok (Some d), h)
    /\ getNodeByPath h d "b/f" = Some n /\ h !! n = Some nd
    /\ Parent nd = None
    /\ printJSON 8 h d [] = Ok doc
    /\ path <$> deleted doc = ["f"%string].
Proof.
  eexists _, _, _, _, _.
  split; [vm_compute; reflexivity|].
  split; [vm_compute; reflexivity|].
  split; [vm_compute; reflexivity|].
  split; [vm_compute; reflexivity|].
  split; vm_compute; reflexivity.
Qed.

(** C7 fails on the code where the lengths add up to 2^64 or more: an
    extent of 2^63 bytes at offset 0 followed by one of 2^63 bytes at offset
    2^63 leaves the one change "write:offset=0:data_len=0", not a write of
    length 2^63 + 2^63. *)
Lemma merged_length_wraps :
  exists h d n nd,
    ProcessBTRFSStream (host := rawHostTime) 8 two_extents_stream = (Ok (Some d), h)
    /\ getNodeByPath h d "f" = Some n /\ h !! n = Some nd
    /\ Changes nd = ["write:offset=0:data_len=0"%string]
    /\ Changes nd <> [write_desc 0 (2 ^ 63 + 2 ^ 63)].
Proof.
  eexists _, _, _, _.
  split; [vm_compute; reflexivity|].
  split; [vm_compute; reflexivity|].
  split; [vm_compute; reflexivity|].
  split; [vm_compute; reflexivity|].
  vm_compute. discriminate.
Qed.


(** C10 (the code departs from it).  On [photo_stream] the node
    "photo1-2-3", directly under the root and Created, replaces a deleted
    node of the same name, which leaves it marked as deleted in the
    snapshot.  Its name holds a match of [o\d+-\d+-\d+], so that it is a
    temporary node: [shouldPrintNode] turns it down and [GetDiffStruct],
    which asks [shouldPrintNode] before anything else, has it in no bucket.
    [print] asks [shouldPrintNode] for the line of the node only, not for
    the line that shadows a node deleted in the snapshot: it emits
    "[UNKNOWN][deleted] /photo1-2-3" for the node. *)
Theorem temporary_node_in_pretty_output :
  exists h d n nd s out,
    ProcessBTRFSStream (host := rawHostTime) 8 photo_stream = (Ok (Some d), h)
    /\ getNodeByPath h d "photo1-2-3" = Some n /\ h !! n = Some nd
    /\ Parent nd = Some (root d) /\ State nd = opCreate
    /\ DeletedInSnapshot nd = true
    /\ isBTRFSTemporaryNode 8 h n = Ok true
    /\ shouldPrintNode 8 h n = Ok false
    /\ GetDiffStruct 8 h d [] = Ok s
    /\ (n ∉ Added s ++ Changed s ++ Deleted s)
    /\ print 8 h d [] = Ok out
    /\ (n, "[UNKNOWN][deleted] /photo1-2-3"%string) ∈ out.
Proof.
  eexists _, _, _, _, _, _.
  split; [vm_compute; reflexivity|].
  split; [vm_compute; reflexivity|].
  split; [vm_compute; reflexivity|].
  split; [vm_compute; reflexivity|]. split; [vm_compute; reflexivity|].
  split; [vm_compute; reflexivity|].
  split; [vm_compute; reflexivity|].
  split; [vm_compute; reflexivity|].
  split; [vm_compute; reflexivity|].
  split; [intros H; apply list_elem_of_In in H; simpl in H; intuition discriminate|].
  split; [vm_compute; reflexivity|].
  apply list_elem_of_In. simpl. right. left. reflexivity.
Qed.

(** ** Invariants of the store *)

Lemma ext_refl h : ext h h.
Proof. intros c cn H. eauto. Qed.

Lemma ext_trans h1 h2 h3 : ext h1 h2 -> ext h2 h3 -> ext h1 h3.
Proof.
  intros H12 H23 c cn H.
  destruct (H12 _ _ H) as (cn2 & H2 & E2).
  destruct (H23 _ _ H2) as (cn3 & H3 & E3).
  exists cn3. split; [assumption|congruence].
Qed.

Lemma good_ret {A} (a : A) : good (ret a).
Proof. intros h. split; [apply ext_refl|auto]. Qed.

Lemma good_fail {A} e : good (@fail A e).
Proof. intros h. split; [apply ext_refl|auto]. Qed.

Lemma good_panic {A} e : good (@panic A e).
Proof. intros h. split; [apply ext_refl|auto]. Qed.

Lemma good_lift {A} (r : Res A) : good (lift r).
Proof. intros h. split; [apply ext_refl|auto]. Qed.

Lemma good_get : good get.
Proof. intros h. split; [apply ext_refl|auto]. Qed.

Lemma good_getNode p : good (getNode p).
Proof.
  intros h. unfold getNode. destruct (h !! p); (split; [apply ext_refl|auto]).
Qed.

Lemma good_bind {A B} (m : M A) (k : A -> M B) :
  good m -> (forall a, good (k a)) -> good (bind m k).
Proof.
  intros Hm Hk h. unfold bind.
  specialize (Hm h). destruct (m h) as [[a|e|e] h1]; simpl in Hm; try exact Hm.
  destruct Hm as [He Hi]. destruct (Hk a h1) as [He' Hi'].
  split; [eapply ext_trans; eassumption|auto].
Qed.

(** Changing the result, not the store. *)
Lemma good_same_store {A B} (m : M A) (m' : M B) :
  (forall h, (m' h).2 = (m h).2) -> good m -> good m'.
Proof. intros E Hm h. rewrite E. apply Hm. Qed.

Lemma good_wrap {A} msg (m : M A) : good m -> good (wrap msg m).
Proof.
  apply good_same_store. intros h. unfold wrap.
  destruct (m h) as [[a|e|e] h1]; reflexivity.
Qed.

(** Building a message reads the store. *)
Lemma errorf_store {A} (args : list operand) (msg : string) (h : Heap) :
  (@errorf A args msg h).2 = h.
Proof. unfold errorf. destruct (evalOperands args h); reflexivity. Qed.

Lemma wrapf_store {A} (args : list operand) (msg : string) (m : M A) (h : Heap) :
  (wrapf args msg m h).2 = (m h).2.
Proof.
  unfold wrapf. destruct (m h) as [[a|e|e] h1]; try reflexivity.
  destruct (evalOperands args h1); reflexivity.
Qed.

Lemma wrapf_Ok {A} (args : list operand) (msg : string) (m : M A) (h h' : Heap) (a : A) :
  m h = (Ok a, h') -> wrapf args msg m h = (Ok a, h').
Proof. intros E. unfold wrapf. rewrite E. reflexivity. Qed.

Lemma wrapf_Panic {A} (args : list operand) (msg : string) (m : M A) (h h' : Heap) e :
  m h = (Panic e, h') -> wrapf args msg m h = (Panic e, h').
Proof. intros E. unfold wrapf. rewrite E. reflexivity. Qed.

(** Case analysis on the operands of the message in [H]. *)
Ltac operands_in H :=
  match type of H with
  | context [evalOperands ?a ?hh] => revert H; destruct (evalOperands a hh); intros H
  end.

Lemma good_errorf {A} args msg : good (@errorf A args msg).
Proof. intros h. rewrite errorf_store. split; [apply ext_refl|auto]. Qed.

Lemma good_wrapf {A} args msg (m : M A) : good m -> good (wrapf args msg m).
Proof. apply good_same_store. intros h. apply wrapf_store. Qed.

Lemma good_forM {A} (l : list A) (body : A -> M unit) :
  (forall x, good (body x)) -> good (forM l body).
Proof.
  intros Hb. induction l as [|x r IH]; simpl.
  - apply good_ret.
  - apply good_bind; [apply Hb|intros _; exact IH].
Qed.

Lemma store_insert (h : Heap) (p : ptr) (nd x : DiffNode) :
  h !! p = Some nd ->
  Path x = Path nd ->
  (Inv h ->
     changes_ok x
     /\ forall k c, kids x !! k = Some c ->
          kids nd !! k = Some c
          \/ exists cd, h !! c = Some cd /\ Path cd = k) ->
  ext h (<[p := x]> h) /\ (Inv h -> Inv (<[p := x]> h)).
Proof.
  intros Hp HP Hf.
  assert (Hext : ext h (<[p := x]> h)).
  { intros c cn Hc. destruct (decide (c = p)) as [->|Hne].
    - exists x. split.
      + apply list_lookup_insert_eq. eapply lookup_lt_Some; eassumption.
      + congruence.
    - exists cn. rewrite list_lookup_insert_ne by congruence. auto. }
  split; [exact Hext|].
  intros HI. destruct (Hf HI) as [Hc Hk]. destruct HI as [HN HC].
  split.
  - intros q qd k c Hq Hkc.
    assert (Hold : exists qd0, h !! q = Some qd0
                     /\ (kids qd0 !! k = Some c
                         \/ exists cd, h !! c = Some cd /\ Path cd = k)).
    { destruct (decide (q = p)) as [->|Hne].
      - rewrite list_lookup_insert_eq in Hq by (eapply lookup_lt_Some; eassumption).
        injection Hq as <-. exists nd. split; [assumption|]. apply Hk. assumption.
      - rewrite list_lookup_insert_ne in Hq by congruence. eauto. }
    destruct Hold as (qd0 & Hq0 & [Hin|Hnew]).
    + destruct (HN _ _ _ _ Hq0 Hin) as (cd & Hcd & HPc).
      destruct (Hext _ _ Hcd) as (cd' & ? & ?). exists cd'. split; congruence.
    + destruct Hnew as (cd & Hcd & HPc).
      destruct (Hext _ _ Hcd) as (cd' & ? & ?). exists cd'. split; congruence.
  - intros q qd Hq. destruct (decide (q = p)) as [->|Hne].
    + rewrite list_lookup_insert_eq in Hq by (eapply lookup_lt_Some; eassumption).
      injection Hq as <-. assumption.
    + rewrite list_lookup_insert_ne in Hq by congruence. eauto.
Qed.

Lemma good_upd_gen p (f : DiffNode -> DiffNode) :
  (forall nd, Path (f nd) = Path nd) ->
  (forall h nd, Inv h -> h !! p = Some nd ->
     changes_ok (f nd)
     /\ forall k c, kids (f nd) !! k = Some c ->
          kids nd !! k = Some c
          \/ exists cd, h !! c = Some cd /\ Path cd = k) ->
  good (upd p f).
Proof.
  intros HP Hf h. unfold upd. destruct (h !! p) as [nd|] eqn:Hp; simpl.
  2: { split; [apply ext_refl|auto]. }
  apply store_insert with (nd := nd); auto.
Qed.

Lemma good_upd p f : benign f -> good (upd p f).
Proof.
  intros Hb. apply good_upd_gen.
  - intros nd. apply Hb.
  - intros h nd [HN HC] Hp. destruct (Hb nd) as (_ & Hch & Hok). split.
    + apply Hok. eauto.
    + intros k c Hkc. left. unfold kids in *. rewrite Hch in Hkc. exact Hkc.
Qed.

Lemma good_delChild n key : good (delChild n key).
Proof.
  unfold delChild. apply good_upd_gen.
  - reflexivity.
  - intros h nd [HN HC] Hp. split.
    + destruct (HC _ _ Hp). constructor; assumption.
    + intros k c Hkc. left. unfold kids in *. simpl in Hkc.
      destruct (Children nd) as [m|]; simpl in *; [|exact Hkc].
      apply lookup_delete_Some in Hkc. tauto.
Qed.

Lemma good_putChild n node : good (putChild n node).
Proof.
  intros h. unfold putChild.
  destruct (h !! n) as [nd|] eqn:Hn; [|split; [apply ext_refl|auto]].
  destruct (h !! node) as [nn|] eqn:Hnode; [|split; [apply ext_refl|auto]].
  destruct (Children nd) as [m|] eqn:Hm; [|split; [apply ext_refl|auto]].
  simpl. apply store_insert with (nd := nd); [assumption|reflexivity|].
  intros [HN HC]. split.
  - destruct (HC _ _ Hn). constructor; assumption.
  - intros k c Hkc. unfold kids in *. simpl in Hkc. rewrite Hm. simpl.
    apply lookup_insert_Some in Hkc as [[<- <-]|[Hne Hkc]]; [|auto].
    right. eauto.
Qed.

Lemma good_alloc nd :
  kids nd = ∅ -> changes_ok nd -> good (alloc nd).
Proof.
  intros Hk Hc h. unfold alloc. simpl.
  assert (Hext : ext h (h ++ [nd])).
  { intros c cn H. exists cn. split; [|reflexivity].
    apply lookup_app_l_Some. assumption. }
  split; [exact Hext|].
  intros [HN HC]. split.
  - intros q qd k c Hq Hkc.
    apply lookup_app_Some in Hq as [Hq|[_ Hq]].
    + destruct (HN _ _ _ _ Hq Hkc) as (cd & Hcd & ?).
      exists cd. split; [apply lookup_app_l_Some|]; assumption.
    + destruct (q - length h)%nat; simpl in Hq; [|discriminate].
      injection Hq as <-. rewrite Hk in Hkc. rewrite lookup_empty in Hkc. discriminate.
  - intros q qd Hq.
    apply lookup_app_Some in Hq as [Hq|[_ Hq]]; [eauto|].
    destruct (q - length h)%nat; simpl in Hq; [|discriminate].
    injection Hq as <-. assumption.
Qed.

Lemma changes_ok_same (a b : DiffNode) :
  Changes b = Changes a ->
  lastDataWrittenOffset b = lastDataWrittenOffset a ->
  lastDataWrittenLen b = lastDataWrittenLen a ->
  changes_ok a -> changes_ok b.
Proof.
  intros Hc Ho Hl [H1 H2 H3 H4 H5].
  constructor; rewrite ?Hc, ?Ho, ?Hl; assumption.
Qed.

Lemma changes_ok_new t p st rels parent children :
  changes_ok (newDiffNode t p st rels parent children).
Proof.
  constructor; simpl.
  - unfold u64, Go.two64. lia.
  - unfold u64, Go.two64. lia.
  - intros o l _ _ H. apply elem_of_nil in H. contradiction.
  - discriminate.
  - intros i o1 l1 o2 l2 _ _ _ _ H. rewrite lookup_nil in H. discriminate.
Qed.

Lemma benign_same (f : DiffNode -> DiffNode) :
  (forall nd, Path (f nd) = Path nd /\ Children (f nd) = Children nd
     /\ Changes (f nd) = Changes nd
     /\ lastDataWrittenOffset (f nd) = lastDataWrittenOffset nd
     /\ lastDataWrittenLen (f nd) = lastDataWrittenLen nd) ->
  benign f.
Proof.
  intros H nd. destruct (H nd) as (? & ? & ? & ? & ?).
  split; [assumption|]. split; [assumption|].
  apply changes_ok_same; assumption.
Qed.

Lemma benign_set_NodeType t : benign (set_NodeType t).
Proof. apply benign_same. intros nd. repeat split. Qed.

Lemma benign_set_State s : benign (set_State s).
Proof. apply benign_same. intros nd. repeat split. Qed.

Lemma benign_set_Parent p : benign (set_Parent p).
Proof. apply benign_same. intros nd. repeat split. Qed.

Lemma benign_set_DeletedInSnapshot b : benign (set_DeletedInSnapshot b).
Proof. apply benign_same. intros nd. repeat split. Qed.

Lemma benign_set_Relations (g : DiffNode -> list DiffNodeRelation) :
  benign (fun x => set_Relations (g x) x).
Proof. apply benign_same. intros nd. repeat split. Qed.

Create HintDb good.

#[global] Hint Resolve good_ret good_fail good_panic good_lift good_get good_getNode
  good_putChild good_delChild benign_set_NodeType benign_set_State
  benign_set_Parent benign_set_DeletedInSnapshot benign_set_Relations
  changes_ok_new : good.

Lemma good_as_string v : good (as_string v).
Proof. destruct v; simpl; auto with good. Qed.

Lemma good_as_uint64 v : good (as_uint64 v).
Proof. destruct v; simpl; auto with good. Qed.

Lemma good_as_bytesData v : good (as_bytesData v).
Proof. destruct v; simpl; auto with good. Qed.

Lemma good_readParam c t msg : good (readParam c t msg).
Proof. unfold readParam. apply good_wrap, good_lift. Qed.

#[global] Hint Resolve good_as_string good_as_uint64 good_as_bytesData good_readParam
  : good.

(** One structural step of a [good] proof. *)
Ltac good_step :=
  lazymatch goal with
  | |- good (bind _ _) => apply good_bind; [|intros ?]
  | |- good (wrap _ _) => apply good_wrap
  | |- good (wrapf _ _ _) => apply good_wrapf
  | |- good (errorf _ _) => apply good_errorf
  | |- good (forM _ _) => apply good_forM; intros ?
  | |- good (upd _ _) => apply good_upd; auto with good
  | |- good (alloc (newDiffNode _ _ _ _ _ None)) =>
      apply good_alloc; [reflexivity|apply changes_ok_new]
  | |- good (alloc (newDiffNode _ _ _ _ _ (Some ∅))) =>
      apply good_alloc; [reflexivity|apply changes_ok_new]
  | |- good (if ?b then _ else _) => destruct b
  | |- good (match ?x with _ => _ end) => destruct x
  | |- good _ => solve [auto with good]
  end.

Ltac good_tac := repeat good_step.

Lemma good_deleteNode fuel n node : good (deleteNode fuel n node).
Proof. unfold deleteNode. good_tac. Qed.

#[global] Hint Resolve good_deleteNode : good.

Lemma good_removeFromParent fuel n : good (removeFromParent fuel n).
Proof.
  unfold removeFromParent. good_tac.
  eapply good_same_store; [|apply (good_deleteNode fuel n0 n)].
  intros h. destruct (deleteNode fuel n0 n h) as [[?|?|?] ?]; try reflexivity.
  apply errorf_store.
Qed.

#[global] Hint Resolve good_removeFromParent : good.

Lemma good_mkdirp_loop entries idx len old new cur :
  good (mkdirp_loop entries idx len old new cur).
Proof.
  revert idx cur. induction entries as [|e r IH]; intros idx cur; simpl.
  - auto with good.
  - good_tac; apply IH.
Qed.

Lemma good_mkdirp n path old new : good (mkdirp n path old new).
Proof. apply good_mkdirp_loop. Qed.

#[global] Hint Resolve good_mkdirp : good.

Lemma good_addNode fuel n node : good (addNode fuel n node).
Proof.
  revert n node. induction fuel as [|f IH]; intros n node; simpl.
  - auto with good.
  - good_tac; apply IH.
Qed.

#[global] Hint Resolve good_addNode : good.

Lemma good_getNodeParentOrMkdir d path : good (getNodeParentOrMkdir d path).
Proof. unfold getNodeParentOrMkdir. good_tac. Qed.

#[global] Hint Resolve good_getNodeParentOrMkdir : good.

(** ** Change descriptors *)

Lemma string_of_uint_digits (d : Decimal.uint) :
  all_digits (NilEmpty.string_of_uint d) = true.
Proof. induction d; simpl; auto. Qed.

Lemma fmt_d_digits (n : Z) : all_digits (Go.fmt_d n) = true.
Proof. apply string_of_uint_digits. Qed.

Lemma fmt_d_inj (a b : Z) : 0 <= a -> 0 <= b -> Go.fmt_d a = Go.fmt_d b -> a = b.
Proof.
  intros Ha Hb H. unfold Go.fmt_d in H.
  assert (E : N.to_uint (Z.to_N a) = N.to_uint (Z.to_N b)).
  { pose proof (NilEmpty.usu (N.to_uint (Z.to_N a))) as U1.
    pose proof (NilEmpty.usu (N.to_uint (Z.to_N b))) as U2.
    rewrite H in U1. congruence. }
  apply (f_equal N.of_uint) in E. rewrite !DecimalN.Unsigned.of_to in E. lia.
Qed.

(** Two strings of digits followed by a colon: the split is unique. *)
Lemma digits_colon_inj (s1 s2 t1 t2 : string) :
  all_digits s1 = true -> all_digits s2 = true ->
  s1 +:+ String ":" t1 = s2 +:+ String ":" t2 -> s1 = s2 /\ t1 = t2.
Proof.
  revert s2. induction s1 as [|c r IH]; intros [|c2 r2] H1 H2 E; simpl in *.
  - injection E as ->. auto.
  - injection E as <- _. apply andb_prop in H2 as [H2 _]. discriminate.
  - injection E as -> _. apply andb_prop in H1 as [H1 _]. discriminate.
  - injection E as -> E. apply andb_prop in H1 as [_ H1]. apply andb_prop in H2 as [_ H2].
    destruct (IH _ H1 H2 E) as [-> ->]. auto.
Qed.

Lemma write_desc_inj (o l o' l' : Z) :
  0 <= o -> 0 <= l -> 0 <= o' -> 0 <= l' ->
  write_desc o l = write_desc o' l' -> o = o' /\ l = l'.
Proof.
  intros Ho Hl Ho' Hl' E. unfold write_desc, write_change in E.
  change ("write:offset=" +:+ Go.fmt_d o +:+ ":data_len=" +:+ Go.fmt_d l)
    with ("write:offset=" +:+ (Go.fmt_d o +:+ String ":" ("data_len=" +:+ Go.fmt_d l))) in E.
  change ("write:offset=" +:+ Go.fmt_d o' +:+ ":data_len=" +:+ Go.fmt_d l')
    with ("write:offset=" +:+ (Go.fmt_d o' +:+ String ":" ("data_len=" +:+ Go.fmt_d l'))) in E.
  cbn in E. injection E as E.
  apply digits_colon_inj in E as [E1 E2]; try apply fmt_d_digits.
  cbn in E2. injection E2 as E2.
  split; apply fmt_d_inj; assumption.
Qed.

Lemma write_desc_prefix (o l : Z) : Go.HasPrefix (write_desc o l) "write" = true.
Proof. reflexivity. Qed.

Lemma u64_add64 (a b : Z) : u64 (Go.add64 a b).
Proof. unfold u64, Go.add64, Go.two64. apply Z.mod_pos_bound. lia. Qed.

Lemma add64_exact (a b : Z) : u64 a -> u64 b -> a + b < Go.two64 -> Go.add64 a b = a + b.
Proof. unfold u64, Go.add64. intros. apply Z.mod_small. lia. Qed.

Lemma no_contiguous_prefix (xs ys : list string) :
  no_contiguous_writes (xs ++ ys) -> no_contiguous_writes xs.
Proof.
  intros H i o1 l1 o2 l2 ? ? ? ? H1 H2.
  eapply (H i); try eassumption; apply lookup_app_l_Some; assumption.
Qed.

Lemma no_contiguous_snoc (xs : list string) (d : string) :
  no_contiguous_writes xs ->
  (forall o1 l1 o2 l2, 0 <= o1 -> 0 <= l1 -> 0 <= o2 -> 0 <= l2 ->
     last xs = Some (write_desc o1 l1) -> d = write_desc o2 l2 -> o1 + l1 <> o2) ->
  no_contiguous_writes (xs ++ [d]).
Proof.
  intros Hxs Hd i o1 l1 o2 l2 ? ? ? ? H1 H2.
  apply lookup_app_Some in H2 as [H2|[Hlen H2]].
  - apply (Hxs i o1 l1 o2 l2); try assumption.
    apply lookup_app_Some in H1 as [H1|[Hge _]]; [assumption|].
    apply lookup_lt_Some in H2. lia.
  - destruct (S i - length xs)%nat eqn:E; simpl in H2; [|rewrite lookup_nil in H2; discriminate].
    injection H2 as H2.
    assert (Hi : length xs = S i) by lia.
    apply (Hd o1 l1 o2 l2); try assumption; try congruence.
    apply lookup_app_Some in H1 as [H1|[Hge _]]; [|lia].
    rewrite last_lookup, Hi. simpl. assumption.
Qed.

Lemma changes_ok_written (nd x : DiffNode) (o n : Z) :
  u64 o -> u64 n -> changes_ok nd ->
  changes_ok (set_write (written nd o n).1.1 (written nd o n).1.2 (written nd o n).2 x).
Proof.
  intros Ho Hn [H1 H2 H3 H4 H5]. unfold written, merges.
  destruct (last (Changes nd)) as [c|] eqn:Hlast.
  - apply last_Some in Hlast as [xs Hxs]. rewrite Hxs in *.
    destruct (Go.HasPrefix c "write") eqn:Hpre; simpl.
    + assert (Hc : c = write_desc (lastDataWrittenOffset nd) (lastDataWrittenLen nd)).
      { apply H4; [reflexivity|assumption]. }
      destruct (Z.eqb_spec (Go.add64 (lastDataWrittenOffset nd) (lastDataWrittenLen nd)) o)
        as [Heq|Hne]; simpl.
      * rewrite removelast_last.
        constructor; simpl.
        -- assumption.
        -- apply u64_add64.
        -- intros o' l' ? ? Hin. apply elem_of_app in Hin as [Hin|Hin].
           ++ apply H3; try assumption. apply elem_of_app. auto.
           ++ apply list_elem_of_singleton in Hin.
              apply write_desc_inj in Hin as [-> ->]; try assumption;
                try apply H1; try apply u64_add64.
              split; [assumption|apply u64_add64].
        -- intros c' Hc' _. rewrite last_snoc in Hc'. congruence.
        -- apply no_contiguous_snoc.
           ++ eapply no_contiguous_prefix. eassumption.
           ++ intros o1 l1 o2 l2 ? ? ? ? Hl Hd.
              apply write_desc_inj in Hd as [<- _]; try assumption;
                try apply H1; try apply u64_add64.
              apply last_Some in Hl as [ys Hys]. subst xs.
              apply (H5 (length ys) o1 l1 (lastDataWrittenOffset nd) (lastDataWrittenLen nd));
                try assumption; try apply H1; try apply H2.
              ** rewrite <- app_assoc. apply list_lookup_middle. reflexivity.
              ** rewrite Hc.
                 replace (S (length ys)) with (length (ys ++ [write_desc o1 l1]))
                   by (rewrite length_app; simpl; lia).
                 apply list_lookup_middle. reflexivity.
      * constructor; simpl.
        -- assumption.
        -- assumption.
        -- intros o' l' ? ? Hin. apply elem_of_app in Hin as [Hin|Hin].
           ++ apply H3; assumption.
           ++ apply list_elem_of_singleton in Hin.
              apply write_desc_inj in Hin as [-> ->]; try assumption;
                try apply Ho; try apply Hn. auto.
        -- intros c' Hc' _. rewrite last_snoc in Hc'. congruence.
        -- apply no_contiguous_snoc; [assumption|].
           intros o1 l1 o2 l2 ? ? ? ? Hl Hd.
           apply write_desc_inj in Hd as [<- _]; try assumption;
             try apply Ho; try apply Hn.
           rewrite last_snoc in Hl. injection Hl as Hl. rewrite Hc in Hl.
           apply write_desc_inj in Hl as [<- <-]; try assumption;
             try apply H1; try apply H2.
           intros Hsum. apply Hne. rewrite add64_exact; try assumption.
           rewrite Hsum. apply Ho.
    + constructor; simpl.
      * assumption.
      * assumption.
      * intros o' l' ? ? Hin. apply elem_of_app in Hin as [Hin|Hin].
        -- apply H3; assumption.
        -- apply list_elem_of_singleton in Hin.
           apply write_desc_inj in Hin as [-> ->]; try assumption;
             try apply Ho; try apply Hn. auto.
      * intros c' Hc' _. rewrite last_snoc in Hc'. congruence.
      * apply no_contiguous_snoc; [assumption|].
        intros o1 l1 o2 l2 ? ? ? ? Hl Hd.
        rewrite last_snoc in Hl. injection Hl as Hl.
        rewrite Hl, write_desc_prefix in Hpre. discriminate.
  - simpl. constructor; simpl.
    + assumption.
    + assumption.
    + intros o' l' ? ? Hin. apply elem_of_app in Hin as [Hin|Hin].
      * apply H3; assumption.
      * apply list_elem_of_singleton in Hin.
        apply write_desc_inj in Hin as [-> ->]; try assumption;
          try apply Ho; try apply Hn. auto.
    + intros c' Hc' _. rewrite last_snoc in Hc'. congruence.
    + apply no_contiguous_snoc; [assumption|].
      intros o1 l1 o2 l2 ? ? ? ? Hl Hd. rewrite Hlast in Hl. discriminate.
Qed.

(** A change that is not a write. *)
Lemma changes_ok_append (nd : DiffNode) (c : string) :
  Go.HasPrefix c "write" = false ->
  changes_ok nd -> changes_ok (set_Changes (Changes nd ++ [c]) nd).
Proof.
  intros Hc [H1 H2 H3 H4 H5].
  assert (Hne : forall o l, c <> write_desc o l).
  { intros o l ->. rewrite write_desc_prefix in Hc. discriminate. }
  constructor; simpl.
  - assumption.
  - assumption.
  - intros o l ? ? Hin. apply elem_of_app in Hin as [Hin|Hin].
    + apply H3; assumption.
    + apply list_elem_of_singleton in Hin. symmetry in Hin. apply Hne in Hin. contradiction.
  - intros c' Hc' Hp. rewrite last_snoc in Hc'. congruence.
  - apply no_contiguous_snoc; [assumption|].
    intros o1 l1 o2 l2 _ _ _ _ _ Hd. apply Hne in Hd. contradiction.
Qed.

Lemma benign_append (c : string) :
  Go.HasPrefix c "write" = false ->
  benign (fun x => set_Changes (Changes x ++ [c]) x).
Proof.
  intros Hc nd. split; [reflexivity|]. split; [reflexivity|].
  apply changes_ok_append. assumption.
Qed.

Lemma good_append_change node c :
  Go.HasPrefix c "write" = false -> good (append_change node c).
Proof. intros Hc. apply good_upd, benign_append, Hc. Qed.

(** ** Decoded attributes *)

Lemma le_value_bound (b : list byte) :
  0 <= Go.le_value b < 256 ^ Z.of_nat (length b).
Proof.
  induction b as [|x r IH]; simpl Go.le_value.
  - simpl. lia.
  - pose proof (Byte.to_N_bounded x) as Hx.
    rewrite length_cons, Nat2Z.inj_succ, Z.pow_succ_r by lia. lia.
Qed.

Lemma le_uint_bound (n : nat) (b : list byte) (v : Z) :
  Go.le_uint n b = Some v -> 0 <= v < 256 ^ Z.of_nat n.
Proof.
  unfold Go.le_uint. destruct (Nat.ltb_spec (length b) n); [discriminate|].
  intros [= <-]. pose proof (le_value_bound (take n b)) as Hb.
  rewrite length_take in Hb. replace (n `min` length b)%nat with n in Hb by lia.
  exact Hb.
Qed.

Lemma Uint64_u64 (b : list byte) (v : Z) : Go.Uint64 b = Some v -> u64 v.
Proof. intros H. apply le_uint_bound in H. exact H. Qed.

Lemma good_bind_reads {A B} (m : M A) (r : Res A) (k : A -> M B) :
  reads m r -> (forall a, r = Ok a -> good (k a)) -> good (bind m k).
Proof.
  intros Hm Hk h. unfold bind. rewrite Hm.
  destruct r as [a|e|e]; [apply Hk; reflexivity| |]; (split; [apply ext_refl|auto]).
Qed.

Lemma reads_readParam c t msg :
  reads (readParam c t msg)
    (match ReadParam c t with
     | Err e => Err (msg +:+ ": " +:+ e)
     | r => r
     end).
Proof.
  intros h. unfold readParam, wrap, lift. destruct (ReadParam c t); reflexivity.
Qed.

Lemma good_bind_readParam {B} c t msg (k : value * commandInst -> M B) :
  (forall v c', ReadParam c t = Ok (v, c') -> good (k (v, c'))) ->
  good (bind (readParam c t msg) k).
Proof.
  intros Hk. eapply good_bind_reads; [apply reads_readParam|].
  intros [v c'] E. apply Hk. destruct (ReadParam c t); congruence.
Qed.

(** What a successful [ReadParam] used. *)
Lemma ReadParam_Ok (c : commandInst) (t : Z) (v : value) (c' : commandInst) :
  ReadParam c t = Ok (v, c') ->
  exists defs attr conv b,
    attrDefs = Some defs /\ aget defs t = Some attr /\ converter attr = Some conv
    /\ conv b = Ok v /\ Z.of_nat (length b) < 65536.
Proof.
  unfold ReadParam.
  destruct (length (data c) <? 4)%nat; [discriminate|].
  destruct (Go.Uint16 (take 2 (data c))) as [pt|]; [|discriminate].
  destruct (Go.Uint16 (take 2 (drop 2 (data c)))) as [pl|] eqn:Epl; [|discriminate].
  destruct attrDefs as [defs|] eqn:Ed; [|discriminate].
  destruct (Z.eqb_spec pt t) as [->|Hne]; simpl.
  2: { destruct (aget defs t), (aget defs pt); discriminate. }
  destruct (Z.of_nat (length (data c)) <? pl + 4); [discriminate|].
  destruct (aget defs t) as [attr|] eqn:Ea; [|discriminate].
  destruct (Go.add16 4 pl <? 4); [discriminate|]. cbv zeta.
  destruct (converter attr) as [conv|] eqn:Ec; [|discriminate].
  destruct (conv _) as [v0| |] eqn:Ev; [|discriminate|discriminate].
  intros [= <- <-].
  exists defs, attr, conv, (take (Z.to_nat pl) (drop 4 (data c))).
  repeat split; try assumption.
  apply le_uint_bound in Epl. rewrite length_take.
  change (256 ^ Z.of_nat 2) with 65536 in Epl. lia.
Qed.

Lemma attrDefs_eq : exists defs, attrDefs = Some defs
  /\ (forall t, t = BTRFS_SEND_A_FILE_OFFSET \/ t = BTRFS_SEND_A_SIZE ->
        exists n, aget defs t = Some {| AName := n; converter := Some attrConverterUint64 |})
  /\ (exists n, aget defs BTRFS_SEND_A_DATA
        = Some {| AName := n; converter := Some attrConverterBytes |}).
Proof.
  eexists. split; [reflexivity|]. split.
  - intros t [->| ->]; eexists; reflexivity.
  - eexists; reflexivity.
Qed.

Lemma ReadParam_uint64 (c : commandInst) (t : Z) (v : value) (c' : commandInst) :
  t = BTRFS_SEND_A_FILE_OFFSET \/ t = BTRFS_SEND_A_SIZE ->
  ReadParam c t = Ok (v, c') -> exists o, v = VUint64 o /\ u64 o.
Proof.
  intros Ht H. apply ReadParam_Ok in H as (defs & attr & conv & b & Hd & Ha & Hc & Hv & _).
  destruct attrDefs_eq as (defs' & Hd' & Hu & _).
  assert (defs' = defs) by congruence. subst defs'.
  destruct (Hu t Ht) as (n & Hn). rewrite Hn in Ha. injection Ha as <-.
  simpl in Hc. injection Hc as <-.
  unfold attrConverterUint64 in Hv.
  destruct (Go.Uint64 b) as [o|] eqn:E; [|discriminate].
  injection Hv as <-. exists o. split; [reflexivity|]. eapply Uint64_u64; eassumption.
Qed.

Lemma ReadParam_data (c : commandInst) (v : value) (c' : commandInst) :
  ReadParam c BTRFS_SEND_A_DATA = Ok (v, c') ->
  exists d, v = VBytes d /\ Z.of_nat (length (bytes d)) < 65536.
Proof.
  intros H. apply ReadParam_Ok in H as (defs & attr & conv & b & Hd & Ha & Hc & Hv & Hlen).
  destruct attrDefs_eq as (defs' & Hd' & _ & (n & Hn)).
  assert (defs' = defs) by congruence. subst defs'.
  rewrite Hn in Ha. injection Ha as <-. simpl in Hc. injection Hc as <-.
  unfold attrConverterBytes in Hv. injection Hv as <-.
  eexists. split; [reflexivity|]. exact Hlen.
Qed.

Section ProcessorFacts.

Context {host : HostTime}.

(** What [record_write] does to the store. *)
Lemma record_write_eq (node : ptr) (o n : Z) (h : Heap) :
  record_write node (VUint64 o) n h
  = match h !! node with
    | None => (Panic "invalid pointer", h)
    | Some nd =>
        let w := written nd o n in
        (Ok tt,
         <[node := set_write w.1.1 w.1.2 w.2
                     (if bool_decide (NodeType nd = DiffNodeTypeUnknown)
                      then set_NodeType DiffNodeTypeFile nd else nd)]> h)
    end.
Proof.
  unfold record_write, bind, getNode.
  destruct (h !! node) as [nd|] eqn:Hnd; [|reflexivity].
  assert (Hlt : (node < length h)%nat) by (eapply lookup_lt_Some; eassumption).
  unfold written, merges. simpl.
  destruct (last (Changes nd)) as [c|]; simpl.
  - destruct (Go.HasPrefix c "write"); simpl.
    + destruct (Go.add64 _ _ =? o); simpl;
        destruct (bool_decide (NodeType nd = DiffNodeTypeUnknown)); simpl;
        unfold upd, ret, as_uint64; rewrite ?Hnd, ?list_lookup_insert_eq by assumption;
        rewrite ?list_insert_insert_eq; reflexivity.
    + destruct (bool_decide (NodeType nd = DiffNodeTypeUnknown)); simpl;
        unfold upd, ret, as_uint64; rewrite ?Hnd, ?list_lookup_insert_eq by assumption;
        rewrite ?list_insert_insert_eq; reflexivity.
  - destruct (bool_decide (NodeType nd = DiffNodeTypeUnknown)); simpl;
      unfold upd, ret, as_uint64; rewrite ?Hnd, ?list_lookup_insert_eq by assumption;
      rewrite ?list_insert_insert_eq; reflexivity.
Qed.

Lemma good_record_write node o n :
  u64 o -> u64 n -> good (record_write node (VUint64 o) n).
Proof.
  intros Ho Hn h. rewrite record_write_eq.
  destruct (h !! node) as [nd|] eqn:Hnd; [|split; [apply ext_refl|auto]].
  simpl. apply store_insert with (nd := nd); [assumption| |].
  - destruct (bool_decide _); reflexivity.
  - intros [HN HC]. split.
    + apply changes_ok_written; eauto.
    + intros k c Hk. left. destruct (bool_decide _); exact Hk.
Qed.

End ProcessorFacts.

Lemma reads_ret {A} (a : A) : reads (ret a) (Ok a).
Proof. intros h. reflexivity. Qed.

Lemma valid_map_ext m h h' : ext h h' -> valid_map m h -> valid_map m h'.
Proof.
  intros He Hm k c Hk. destruct (Hm _ _ Hk) as (cd & Hc & HP).
  destruct (He _ _ Hc) as (cd' & ? & ?). exists cd'. split; congruence.
Qed.

Lemma goodQ_of_good P {A} (m : M A) : good m -> goodQ P m.
Proof. intros Hm h. destruct (Hm h). auto. Qed.

Lemma goodQ_bind P {A B} (m : M A) (k : A -> M B) :
  stable P -> goodQ P m -> (forall a, goodQ P (k a)) -> goodQ P (bind m k).
Proof.
  intros HP Hm Hk h. unfold bind.
  specialize (Hm h). destruct (m h) as [[a|e|e] h1]; simpl in Hm; try exact Hm.
  destruct Hm as [He Hi]. destruct (Hk a h1) as [He' Hi'].
  split; [eapply ext_trans; eassumption|].
  intros Hp HI. apply Hi'; [eapply HP; eassumption|auto].
Qed.

Lemma good_bind_post {A B} (Q : A -> Heap -> Prop) (m : M A) (k : A -> M B) :
  good m ->
  (forall h a h', Inv h -> m h = (Ok a, h') -> Q a h') ->
  (forall a, goodQ (Q a) (k a)) ->
  good (bind m k).
Proof.
  intros Hm HQ Hk h. unfold bind.
  pose proof (Hm h) as Hmh. pose proof (HQ h) as HQh.
  destruct (m h) as [[a|e|e] h1]; simpl in Hmh; try exact Hmh.
  destruct Hmh as [He Hi]. destruct (Hk a h1) as [He' Hi'].
  split; [eapply ext_trans; eassumption|].
  intros HI. apply Hi'; [eapply HQh; [assumption|reflexivity]|auto].
Qed.

Lemma goodQ_alloc (P : Heap -> Prop) nd :
  (forall h, P h -> valid_map (kids nd) h) -> changes_ok nd -> goodQ P (alloc nd).
Proof.
  intros Hk Hc h. unfold alloc. simpl.
  assert (Hext : ext h (h ++ [nd])).
  { intros c cn H. exists cn. split; [|reflexivity].
    apply lookup_app_l_Some. assumption. }
  split; [exact Hext|].
  intros HP [HN HC]. split.
  - intros q qd k c Hq Hkc.
    apply lookup_app_Some in Hq as [Hq|[_ Hq]].
    + destruct (HN _ _ _ _ Hq Hkc) as (cd & Hcd & ?).
      exists cd. split; [apply lookup_app_l_Some|]; assumption.
    + destruct (q - length h)%nat; simpl in Hq; [|discriminate].
      injection Hq as <-.
      destruct (Hk h HP _ _ Hkc) as (cd & Hcd & ?).
      exists cd. split; [apply lookup_app_l_Some|]; assumption.
  - intros q qd Hq.
    apply lookup_app_Some in Hq as [Hq|[_ Hq]]; [eauto|].
    destruct (q - length h)%nat; simpl in Hq; [|discriminate].
    injection Hq as <-. assumption.
Qed.

Ltac good_step' :=
  lazymatch goal with
  | |- good (append_change _ _) => apply good_append_change; reflexivity
  | |- _ => good_step
  end.

Ltac good_tac' := repeat good_step'.

Section ProcessorGood.

Context {host : HostTime}.
Variable fuel : nat.
Variable d : Diff.

Lemma good_processCreate path c : good (processCreate fuel d path c).
Proof. unfold processCreate. good_tac'. Qed.

Lemma good_processModify path c : good (processModify fuel d path c).
Proof.
  unfold processModify.
  apply good_bind; [auto with good|intros h0].
  apply good_bind; [good_tac'|intros node].
  apply good_bind; [auto with good|intros nd].
  apply good_bind; [good_tac'|intros _].
  cbv zeta.
  destruct (OriginalType c =? BTRFS_SEND_C_WRITE).
  { apply good_bind_readParam. intros v c1 H1.
    apply ReadParam_uint64 in H1 as (o & -> & Ho); [|auto].
    apply good_bind_readParam. intros v2 c2 H2.
    apply ReadParam_data in H2 as (dd & -> & Hd).
    eapply good_bind_reads; [apply reads_ret|]. intros sd [= <-].
    apply good_record_write; [assumption|].
    unfold u64, Go.two64. lia. }
  destruct (OriginalType c =? BTRFS_SEND_C_UPDATE_EXTENT).
  { apply good_bind_readParam. intros v c1 H1.
    apply ReadParam_uint64 in H1 as (o & -> & Ho); [|auto].
    apply good_bind_readParam. intros v2 c2 H2.
    apply ReadParam_uint64 in H2 as (n & -> & Hn); [|auto].
    eapply good_bind_reads; [apply reads_ret|]. intros sd [= <-].
    apply good_record_write; assumption. }
  good_tac'.
Qed.

Lemma good_processDelete path c : good (processDelete fuel d path c).
Proof. unfold processDelete. good_tac'. Qed.

Lemma good_processRenameOrLink from to c : good (processRenameOrLink fuel d from to c).
Proof.
  pose proof good_processDelete as GD.
  unfold processRenameOrLink. cbv zeta.
  apply good_bind; [auto with good|intros h0].
  apply good_bind; [good_tac'|intros nodeSrc].
  apply good_bind_post with (Q := fun cap h => valid_map cap.2 h).
  - good_tac'.
  - intros h cap h' HI. destruct nodeSrc as [ns|].
    + unfold bind at 1. unfold getNode.
      destruct (h !! ns) as [nsd|] eqn:Hns; [|discriminate].
      assert (Hv : valid_map (kids nsd) h).
      { intros k c' Hk. destruct HI as [HN _]. eapply HN; eassumption. }
      unfold bind.
      destruct (OriginalType c =? BTRFS_SEND_C_RENAME).
      * pose proof (GD from c h) as [He _].
        unfold wrap. destruct (processDelete fuel d from c h) as [[[]|?|?] h1];
          simpl in *; try discriminate.
        intros [= <- <-]. simpl. eapply valid_map_ext; eassumption.
      * simpl. intros [= <- <-]. exact Hv.
    + intros [= <- <-]. intros k c' Hk. simpl in Hk. rewrite lookup_empty in Hk. discriminate.
  - intros cap.
    assert (HS : stable (fun h => valid_map cap.2 h)).
    { intros h h' He. apply valid_map_ext. exact He. }
    apply goodQ_bind; [exact HS|apply goodQ_of_good; auto with good|intros parent].
    apply goodQ_bind; [exact HS| |intros nodeTo].
    + apply goodQ_alloc; [|apply changes_ok_new]. intros h Hh. exact Hh.
    + apply goodQ_of_good.
      apply good_bind.
      * apply good_wrapf, good_addNode.
      * intros _. good_tac'.
Qed.

#[local] Hint Resolve good_processCreate good_processModify good_processDelete
  good_processRenameOrLink : good.

Lemma good_processCommand c : good (processCommand fuel d c).
Proof. unfold processCommand. good_tac'. Qed.

Lemma good_processLoop n input : good (processLoop fuel d n input).
Proof.
  revert input. induction n as [|n IH]; intros input; simpl.
  - auto with good.
  - destruct (readCommand input) as [[c input']| |]; auto with good.
    apply good_bind; [apply good_processCommand|].
    intros []; auto with good.
Qed.

End ProcessorGood.

Lemma Inv_initialHeap : Inv initialHeap.
Proof.
  split.
  - intros p pd k c Hp Hk. destruct p; simpl in Hp; [|discriminate].
    injection Hp as <-. unfold kids in Hk. simpl in Hk. rewrite lookup_empty in Hk.
    discriminate.
  - intros n nd Hn. destruct n; simpl in Hn; [|discriminate].
    injection Hn as <-. apply changes_ok_new.
Qed.

(** The store [ProcessBTRFSStream] leaves satisfies the invariant. *)
Lemma Inv_ProcessBTRFSStream {host : HostTime} (fuel : nat) (stream : list byte)
    (r : Res (option Diff)) (h : Heap) :
  ProcessBTRFSStream fuel stream = (r, h) -> Inv h.
Proof.
  unfold ProcessBTRFSStream.
  destruct (validateBTRFSStream stream) as [[e|] input].
  - intros [= _ <-]. split.
    + intros p pd k c Hp. rewrite lookup_nil in Hp. discriminate.
    + intros n nd Hn. rewrite lookup_nil in Hn. discriminate.
  - intros H.
    pose proof (good_processLoop fuel {| root := 0%nat |} (S (length input)) input
                  initialHeap) as [_ HI].
    rewrite H in HI. apply HI, Inv_initialHeap.
Qed.

(** ** The bound of the loop *)

Lemma peekAndDiscard_length (input input' : list byte) (n : Z) (b : list byte) :
  0 <= n -> peekAndDiscard input n = (Ok b, input') ->
  Z.of_nat (length input') = Z.of_nat (length input) - n.
Proof.
  intros Hn. unfold peekAndDiscard.
  destruct (Z.ltb_spec (Z.of_nat (length input)) n); [discriminate|].
  intros [= _ <-]. rewrite length_drop. lia.
Qed.

(** A command takes at least its ten bytes of header. *)
Lemma readCommand_shorter (input input' : list byte) (c : commandInst) :
  readCommand input = Ok (c, input') -> (length input' + 10 <= length input)%nat.
Proof.
  unfold readCommand.
  destruct (peekAndDiscard input 4) as [[b1| |] i1] eqn:E1; try discriminate.
  destruct (Go.Uint32 b1) as [cmdSize|] eqn:Es; [|discriminate].
  destruct (peekAndDiscard i1 2) as [[b2| |] i2] eqn:E2; try discriminate.
  destruct (Go.Uint16 b2) as [cmdType|]; [|discriminate].
  destruct (BTRFS_SEND_C_MAX <? cmdType); [discriminate|].
  destruct (peekAndDiscard i2 4) as [[b3| |] i3] eqn:E3; try discriminate.
  destruct (peekAndDiscard i3 cmdSize) as [[b4| |] i4] eqn:E4; try discriminate.
  destruct commandsDefs as [defs|]; [|discriminate].
  destruct (aget defs cmdType); [|discriminate].
  intros [= _ <-].
  apply le_uint_bound in Es.
  apply peekAndDiscard_length in E1, E2, E3, E4; lia.
Qed.

Section LoopBound.

Context {host : HostTime}.
Variable fuel : nat.
Variable d : Diff.

(** The loop never runs out of turns: any bound above the length of the
    input gives the same run. *)
Lemma processLoop_bound (n m : nat) (input : list byte) (h : Heap) :
  (length input < n)%nat -> (length input < m)%nat ->
  processLoop fuel d n input h = processLoop fuel d m input h.
Proof.
  revert m input h. induction n as [|n IH]; intros m input h Hn Hm; [lia|].
  destruct m as [|m]; [lia|]. simpl.
  destruct (readCommand input) as [[c input']| |] eqn:E; try reflexivity.
  apply readCommand_shorter in E. unfold bind.
  destruct (processCommand fuel d c h) as [[[| |]| |] h1]; try reflexivity.
  apply IH; lia.
Qed.

End LoopBound.

(** [ProcessBTRFSStream] is the loop run without a bound. *)
Lemma ProcessBTRFSStream_unbounded {host : HostTime} (fuel n : nat) (stream input : list byte) :
  validateBTRFSStream stream = (None, input) -> (length input < n)%nat ->
  ProcessBTRFSStream fuel stream
  = processLoop fuel {| root := 0%nat |} n input initialHeap.
Proof.
  intros Hv Hn. unfold ProcessBTRFSStream. rewrite Hv.
  apply processLoop_bound; lia.
Qed.

(** ** Stepping through a computation *)

Lemma bind_ret {A B} (a : A) (k : A -> M B) h : bind (ret a) k h = k a h.
Proof. reflexivity. Qed.

Lemma bind_get {B} (k : Heap -> M B) h : bind get k h = k h h.
Proof. reflexivity. Qed.

Lemma bind_getNode {B} p nd (k : DiffNode -> M B) (h : Heap) :
  h !! p = Some nd -> bind (getNode p) k h = k nd h.
Proof. intros H. unfold bind, getNode. rewrite H. reflexivity. Qed.

Lemma bind_upd {B} p nd f (k : unit -> M B) (h : Heap) :
  h !! p = Some nd -> bind (upd p f) k h = k tt (<[p := f nd]> h).
Proof. intros H. unfold bind, upd. rewrite H. reflexivity. Qed.

Lemma bind_readParam {B} c t msg r (k : value * commandInst -> M B) (h : Heap) :
  ReadParam c t = Ok r -> bind (readParam c t msg) k h = k r h.
Proof. intros H. unfold bind, readParam, wrap, lift. rewrite H. reflexivity. Qed.

Lemma bind_assoc {A B C} (m : M A) (k : A -> M B) (k' : B -> M C) h :
  bind (bind m k) k' h = bind m (fun a => bind (k a) k') h.
Proof. unfold bind. destruct (m h) as [[a|e|e] h1]; reflexivity. Qed.

(** ** Tree coherence (C5) *)

(** C5, amended.  After [ProcessBTRFSStream] returns successfully, every
    entry (name, child) of every node's children map leads to a node whose
    name is that key.  (The parent of such a child need not be that node:
    a rename hands the children of the source to the destination without
    touching their parent.) *)
Theorem children_keys_are_names {host : HostTime} (fuel : nat) (stream : list byte)
    (d : Diff) (h : Heap) :
  ProcessBTRFSStream fuel stream = (Ok (Some d), h) ->
  forall p pd name child,
    h !! p = Some pd -> kids pd !! name = Some child ->
    exists cd, h !! child = Some cd /\ Path cd = name.
Proof.
  intros H. apply Inv_ProcessBTRFSStream in H as [HN _]. exact HN.
Qed.

Lemma children_keys_are_names_witness :
  exists cd,
    (ProcessBTRFSStream (host := rawHostTime) 8 rename_dir_stream).2 !! 2%nat = Some cd
    /\ Path cd = "f"%string.
Proof.
  eapply (children_keys_are_names (host := rawHostTime) 8 rename_dir_stream
            {| root := 0%nat |} _ _ 3%nat _ "f"%string 2%nat).
  Unshelve.
  all: try (vm_compute; reflexivity).
Defined.

(** ** Write coalescing (C7) *)

(** The write a node remembers is its last change, when that is a write. *)
Lemma written_merge (nd : DiffNode) (lc : string) (o n : Z) :
  changes_ok nd -> last (Changes nd) = Some lc -> Go.HasPrefix lc "write" = true ->
  lc = write_desc (lastDataWrittenOffset nd) (lastDataWrittenLen nd)
  /\ (o = Go.add64 (lastDataWrittenOffset nd) (lastDataWrittenLen nd) ->
      written nd o n
      = (removelast (Changes nd)
           ++ [write_desc (lastDataWrittenOffset nd)
                 (Go.add64 n (lastDataWrittenLen nd))],
         lastDataWrittenOffset nd, Go.add64 n (lastDataWrittenLen nd)))
  /\ (o <> Go.add64 (lastDataWrittenOffset nd) (lastDataWrittenLen nd) ->
      written nd o n = (Changes nd ++ [write_desc o n], o, n)).
Proof.
  intros [H1 H2 H3 H4 H5] Hl Hp.
  split; [apply H4; assumption|].
  unfold written, merges. rewrite Hl, Hp. simpl. split.
  - intros ->. rewrite Z.eqb_refl. reflexivity.
  - intros Hne.
    destruct (Z.eqb_spec (Go.add64 (lastDataWrittenOffset nd) (lastDataWrittenLen nd)) o)
      as [E|E]; [congruence|reflexivity].
Qed.

Section Coalescing.

Context {host : HostTime}.

(** A WRITE or UPDATE_EXTENT command for an existing node, its attributes
    decoded: the prologue of [processModify] followed by [record_write]. *)
Lemma processModify_write (fuel : nat) (d : Diff) (h : Heap) (path : string)
    (c c1 c2 : commandInst) (node : ptr) (nd : DiffNode) (o n : Z) :
  getNodeByPath h d path = Some node -> h !! node = Some nd ->
  ReadParam c BTRFS_SEND_A_FILE_OFFSET = Ok (VUint64 o, c1) ->
  (OriginalType c = BTRFS_SEND_C_WRITE
   /\ exists sentData, ReadParam c1 BTRFS_SEND_A_DATA = Ok (VBytes sentData, c2)
                       /\ n = Z.of_nat (length (bytes sentData)))
  \/ (OriginalType c = BTRFS_SEND_C_UPDATE_EXTENT
      /\ ReadParam c1 BTRFS_SEND_A_SIZE = Ok (VUint64 n, c2)) ->
  exists nd1,
    processModify fuel d path c h
    = (Ok tt, <[node := set_write (written nd o n).1.1 (written nd o n).1.2
                          (written nd o n).2 nd1]> h)
    /\ Path nd1 = Path nd.
Proof.
  intros Hfind Hnd R1 Hcase.
  assert (Hlt : (node < length h)%nat) by (eapply lookup_lt_Some; eassumption).
  set (nd1 := if bool_decide (State nd = opCreate) then nd else set_State opModify nd).
  set (h1 := <[node := nd1]> h).
  assert (Hh1 : h1 !! node = Some nd1) by (apply list_lookup_insert_eq; assumption).
  assert (Hw : written nd1 o n = written nd o n).
  { unfold nd1. destruct (bool_decide _); reflexivity. }
  exists (if bool_decide (NodeType nd1 = DiffNodeTypeUnknown)
          then set_NodeType DiffNodeTypeFile nd1 else nd1).
  split; [|unfold nd1; repeat destruct (bool_decide _); reflexivity].
  unfold processModify. rewrite bind_get, Hfind, bind_ret.
  rewrite (bind_getNode _ nd) by assumption.
  assert (Hpro : forall (k : unit -> M unit),
            bind (if bool_decide (State nd = opCreate) then ret tt
                  else upd node (set_State opModify)) k h = k tt h1).
  { intros k. unfold h1, nd1. destruct (bool_decide (State nd = opCreate)).
    - rewrite bind_ret. rewrite list_insert_id by assumption. reflexivity.
    - rewrite (bind_upd _ nd) by assumption. reflexivity. }
  rewrite Hpro. cbv zeta.
  destruct Hcase as [(Ht & sentData & R2 & ->)|(Ht & R2)]; rewrite Ht.
  - change (BTRFS_SEND_C_WRITE =? BTRFS_SEND_C_WRITE) with true. cbv iota.
    rewrite (bind_readParam _ _ _ _ _ _ R1). simpl fst. simpl snd.
    rewrite (bind_readParam _ _ _ _ _ _ R2). simpl fst. simpl snd.
    unfold as_bytesData. rewrite bind_ret.
    rewrite record_write_eq, Hh1. cbv zeta. rewrite Hw.
    unfold h1. rewrite list_insert_insert_eq. reflexivity.
  - change (BTRFS_SEND_C_UPDATE_EXTENT =? BTRFS_SEND_C_WRITE) with false.
    change (BTRFS_SEND_C_UPDATE_EXTENT =? BTRFS_SEND_C_UPDATE_EXTENT) with true. cbv iota.
    rewrite (bind_readParam _ _ _ _ _ _ R1). simpl fst. simpl snd.
    rewrite (bind_readParam _ _ _ _ _ _ R2). simpl fst. simpl snd.
    unfold as_uint64. rewrite bind_ret.
    rewrite record_write_eq, Hh1. cbv zeta. rewrite Hw.
    unfold h1. rewrite list_insert_insert_eq. reflexivity.
Qed.

(** C7, amended.  In the store [ProcessBTRFSStream] leaves, no node has two
    adjacent write changes of which the second starts where the first ends.
    And take a WRITE (with [n] bytes of data) or an UPDATE_EXTENT (of size [n])
    whose attributes [ReadParam] has decoded, with offset [o], for a node
    whose last change [lc] starts with "write".  Then [lc] is the write the
    node remembers, at [po] of length [pl].  If [o] is the uint64 sum of
    [po] and [pl], the command replaces [lc] by the one write at [po] whose
    length is the uint64 sum of [n] and [pl], which is [pl + n] only below
    2^64; otherwise it appends the write at [o] of length [n]. *)
Theorem write_coalescing :
  (forall (fuel : nat) (stream : list byte) (r : Res (option Diff)) (h : Heap),
     ProcessBTRFSStream fuel stream = (r, h) ->
     forall node nd, h !! node = Some nd -> no_contiguous_writes (Changes nd))
  /\ (forall (fuel : nat) (d : Diff) (h : Heap) (path : string) (c c1 c2 : commandInst)
        (node : ptr) (nd : DiffNode) (lc : string) (o n : Z),
       Inv h ->
       getNodeByPath h d path = Some node -> h !! node = Some nd ->
       last (Changes nd) = Some lc -> Go.HasPrefix lc "write" = true ->
       ReadParam c BTRFS_SEND_A_FILE_OFFSET = Ok (VUint64 o, c1) ->
       (OriginalType c = BTRFS_SEND_C_WRITE
        /\ exists sentData, ReadParam c1 BTRFS_SEND_A_DATA = Ok (VBytes sentData, c2)
                            /\ n = Z.of_nat (length (bytes sentData)))
       \/ (OriginalType c = BTRFS_SEND_C_UPDATE_EXTENT
           /\ ReadParam c1 BTRFS_SEND_A_SIZE = Ok (VUint64 n, c2)) ->
       let po := lastDataWrittenOffset nd in
       let pl := lastDataWrittenLen nd in
       lc = write_desc po pl
       /\ exists h' nd',
            processModify fuel d path c h = (Ok tt, h')
            /\ h' !! node = Some nd'
            /\ (o = (po + pl) mod 2 ^ 64 ->
                Changes nd' = removelast (Changes nd)
                              ++ [write_desc po ((n + pl) mod 2 ^ 64)])
            /\ (o <> (po + pl) mod 2 ^ 64 ->
                Changes nd' = Changes nd ++ [write_desc o n])
            /\ (pl + n < 2 ^ 64 -> (n + pl) mod 2 ^ 64 = pl + n)).
Proof.
  split.
  - intros fuel stream r h H node nd Hn.
    apply Inv_ProcessBTRFSStream in H as [_ HC]. apply (HC _ _ Hn).
  - intros fuel d h path c c1 c2 node nd lc o n
      [HN HC] Hfind Hnd Hl Hp R1 Hcase po pl.
    destruct (processModify_write fuel d h path c c1 c2 node nd o n
                Hfind Hnd R1 Hcase) as (nd1 & Hrun & _).
    destruct (written_merge nd lc o n (HC _ _ Hnd) Hl Hp) as (Hlc & Hm & Ha).
    split; [exact Hlc|].
    eexists _, _. split; [exact Hrun|].
    split; [apply list_lookup_insert_eq; eapply lookup_lt_Some; eassumption|].
    split; [|split].
    + intros Ho. rewrite (Hm Ho). reflexivity.
    + intros Ho. rewrite (Ha Ho). reflexivity.
    + intros Hlt.
      assert (0 <= n).
      { destruct Hcase as [(_ & sd & _ & ->)|(_ & R2)]; [lia|].
        apply ReadParam_uint64 in R2 as (n' & [= <-] & Hn'); [apply Hn'|auto]. }
      pose proof (last_len_u64 nd (HC _ _ Hnd)) as Hpl. unfold u64 in Hpl.
      fold pl in Hpl. rewrite Z.mod_small; lia.
Qed.

End Coalescing.

Lemma write_coalescing_witness :
  (exists nd,
     (ProcessBTRFSStream (host := rawHostTime) 8 three_writes_stream).2 !! 1%nat = Some nd
     /\ Changes nd = ["write:offset=0:data_len=7"; "write:offset=10:data_len=1"]%string
     /\ no_contiguous_writes (Changes nd))
  /\ exists h' nd',
       processModify (host := rawHostTime) 8 {| root := 0%nat |} "f" next_write
         (ProcessBTRFSStream (host := rawHostTime) 8 one_write_stream).2 = (Ok tt, h')
       /\ h' !! 1%nat = Some nd'
       /\ Changes nd' = ["write:offset=0:data_len=7"%string].
Proof.
  split.
  - eexists. split; [vm_compute; reflexivity|]. split; [vm_compute; reflexivity|].
    eapply (proj1 (write_coalescing (host := rawHostTime)) 8%nat three_writes_stream _ _
              (surjective_pairing _) 1%nat).
    vm_compute. reflexivity.
  - destruct (proj2 (write_coalescing (host := rawHostTime)) 8%nat {| root := 0%nat |}
                (ProcessBTRFSStream (host := rawHostTime) 8%nat one_write_stream).2
                "f"%string next_write
                {| OriginalType := OriginalType next_write; Type_ := Type_ next_write;
                   data := Fixture.attr_str BTRFS_SEND_A_DATA "defg" |}
                {| OriginalType := OriginalType next_write; Type_ := Type_ next_write;
                   data := [] |}
                1%nat
                (node_at (ProcessBTRFSStream (host := rawHostTime) 8%nat one_write_stream).2
                   1%nat)
                "write:offset=0:data_len=3"%string 3 4)
      as (_ & h' & nd' & Hrun & Hnd & Hch & _ & _).
    + eapply Inv_ProcessBTRFSStream. apply surjective_pairing.
    + vm_compute. reflexivity.
    + vm_compute. reflexivity.
    + vm_compute. reflexivity.
    + vm_compute. reflexivity.
    + vm_compute. reflexivity.
    + left. split; [reflexivity|].
      exists {| bytes := Go.bytes_of_string "defg"; isUTF8 := true |}.
      split; vm_compute; reflexivity.
    + exists h', nd'. split; [exact Hrun|]. split; [exact Hnd|].
      rewrite Hch by (vm_compute; reflexivity). vm_compute. reflexivity.
Defined.

(** ** The matcher finds every match *)

Lemma nullable_complete (r : Regexp.re) : Regexp.Matches r [] -> Regexp.nullable r = true.
Proof.
  intros H. remember [] as s eqn:Es. induction H; simpl; subst; try discriminate; auto.
  - apply app_eq_nil in Es as [-> ->]. rewrite IHMatches1, IHMatches2; auto.
  - rewrite IHMatches; auto.
  - rewrite IHMatches; auto. apply orb_true_r.
Qed.

Lemma deriv_complete (r : Regexp.re) (c : ascii) (s : list ascii) :
  Regexp.Matches r (c :: s) -> Regexp.Matches (Regexp.deriv c r) s.
Proof.
  intros H. remember (c :: s) as cs eqn:E. revert c s E.
  induction H; intros c0 s0 E; simpl; try discriminate.
  - injection E as -> <-. rewrite H. constructor.
  - destruct s as [|x s'].
    + simpl in E. subst t.
      rewrite (nullable_complete _ H). apply Regexp.MAltR. apply IHMatches2. reflexivity.
    + simpl in E. injection E as -> <-.
      assert (Hc : Regexp.Matches (Regexp.Cat (Regexp.deriv c0 a) b) (s' ++ t)).
      { constructor; [apply IHMatches1; reflexivity|assumption]. }
      destruct (Regexp.nullable a); [apply Regexp.MAltL|]; exact Hc.
  - apply Regexp.MAltL. apply IHMatches. assumption.
  - apply Regexp.MAltR. apply IHMatches. assumption.
  - destruct s as [|x s'].
    + simpl in E. apply IHMatches2. assumption.
    + simpl in E. injection E as -> <-.
      constructor; [apply IHMatches1; reflexivity|assumption].
Qed.

Lemma accepts_complete (r : Regexp.re) (s : list ascii) :
  Regexp.Matches r s -> Regexp.accepts r s = true.
Proof.
  revert r. induction s as [|c s IH]; intros r H; simpl.
  - apply nullable_complete. assumption.
  - apply IH. apply deriv_complete. assumption.
Qed.

Lemma Matches_any (s : list ascii) : Regexp.Matches (Regexp.Star Regexp.Any) s.
Proof.
  induction s as [|c s IH]; [constructor|].
  change (c :: s) with ([c] ++ s). constructor; [constructor; reflexivity|assumption].
Qed.

(** A name that contains a match of [r] is matched by [r.MatchString]. *)
Lemma MatchString_substring (r : Regexp.re) (pre mid post : string) :
  Regexp.Matches r (list_ascii_of_string mid) ->
  Regexp.MatchString r (pre +:+ mid +:+ post) = true.
Proof.
  intros H. unfold Regexp.MatchString. apply accepts_complete.
  assert (E : forall a b, list_ascii_of_string (a +:+ b)
                          = list_ascii_of_string a ++ list_ascii_of_string b).
  { induction a as [|x a IH]; intros b; simpl; [reflexivity|]. f_equal. apply IH. }
  rewrite !E. constructor; [apply Matches_any|].
  constructor; [assumption|apply Matches_any].
Qed.

(** ** Traversal *)

Lemma foldRes_inv {A S} (P : S -> Prop) (l : list A) (f : A -> S -> Res S) (s s' : S) :
  (forall x a b, x ∈ l -> P a -> f x a = Ok b -> P b) ->
  P s -> foldRes l f s = Ok s' -> P s'.
Proof.
  revert s. induction l as [|x r IH]; intros s Hf Hs; simpl.
  - intros [= <-]. assumption.
  - destruct (f x s) as [b| |] eqn:E; try discriminate.
    apply IH.
    + intros y a b' Hy. apply Hf. right. assumption.
    + eapply Hf; [left|eassumption|eassumption].
Qed.

(** What the callback keeps, the traversal keeps. *)
Lemma traverse_inv {S} (P : S -> Prop) (fuel : nat) (h : Heap) (n : ptr)
    (f : ptr -> S -> Res S) (s s' : S) :
  (forall x a b, P a -> f x a = Ok b -> P b) ->
  P s -> traverse fuel h n f s = Ok s' -> P s'.
Proof.
  intros Hf. revert n s s'. induction fuel as [|k IH]; intros n s s'; simpl.
  - discriminate.
  - destruct (h !! n) as [nd|]; [|discriminate].
    intros Hs. apply foldRes_inv; [|assumption].
    intros kv a b _ Ha. destruct (f kv.2 a) as [a'| |] eqn:E; try discriminate.
    apply IH. eapply Hf; eassumption.
Qed.

(** ** Temporary nodes (C10) *)

(** What holds of the temporary-node filter.  A node directly under the
    root whose name contains a match of [o\d+-\d+-\d+] is a temporary
    node; whatever its state, it is in no bucket of [GetDiffStruct], and
    [print] never prints it with its own state: a line of [print] for it can
    only be the deleted shadow line of a node with [DeletedInSnapshot] set
    and a state other than Deleted. *)
Theorem temporary_filter_is_substring_match (fuel : nat) (h : Heap) (d : Diff)
    (n : ptr) (nd rd : DiffNode) (ignorePaths : DiffIgnorePaths) :
  h !! n = Some nd -> Parent nd = Some (root d) ->
  h !! root d = Some rd -> Parent rd = None ->
  contains_placeholder (Path nd) ->
  (2 <= fuel)%nat ->
  isBTRFSTemporaryNode fuel h n = Ok true
  /\ (forall s, GetDiffStruct fuel h d ignorePaths = Ok s ->
        (n ∉ Added s) /\ (n ∉ Changed s) /\ (n ∉ Deleted s))
  /\ (forall out line, print fuel h d ignorePaths = Ok out -> (n, line) ∈ out ->
        StringForDeleted fuel h n = Ok line
        /\ DeletedInSnapshot nd = true /\ State nd <> opDelete).
Proof.
  intros Hn Hp Hr Hrp (pre & mid & post & Hname & Hm) Hfuel.
  assert (Htmp : isBTRFSTemporaryNode fuel h n = Ok true).
  { unfold isBTRFSTemporaryNode. rewrite Hn, Hp.
    destruct fuel as [|[|f]]; try lia. simpl. rewrite Hn, Hp, Hr, Hrp.
    rewrite bool_decide_true by reflexivity.
    rewrite Hname, MatchString_substring by assumption. reflexivity. }
  assert (Hshow : shouldPrintNode fuel h n = Ok false).
  { unfold shouldPrintNode. rewrite Htmp. reflexivity. }
  split; [exact Htmp|]. split.
  - intros s. unfold GetDiffStruct.
    apply (traverse_inv (fun s => (n ∉ Added s) /\ (n ∉ Changed s) /\ (n ∉ Deleted s))).
    + intros x a b (Ha & Hc & Hd). unfold diff_visit.
      destruct (Matches fuel h ignorePaths x) as [[|]| |]; simpl; try discriminate.
      { intros [= <-]. auto. }
      destruct (decide (x = n)) as [->|Hne].
      * rewrite Hshow. simpl. intros [= <-]. auto.
      * destruct (shouldPrintNode fuel h x) as [[|]| |]; simpl; try discriminate.
        2: { intros [= <-]. auto. }
        destruct (h !! x) as [xd|]; [|discriminate].
        assert (Hx : forall l, n ∉ l -> n ∉ l ++ [x]).
        { intros l Hl Hin. apply elem_of_app in Hin as [Hin|Hin]; [auto|].
          apply list_elem_of_singleton in Hin. congruence. }
        destruct (bool_decide (State xd = opCreate));
          [|destruct (bool_decide (State xd = opDelete))];
          destruct (DeletedInSnapshot xd && _); intros [= <-]; simpl; auto.
    + simpl. repeat split; apply not_elem_of_nil.
  - intros out line. unfold print.
    intros Hrun.
    revert line.
    eapply (traverse_inv
              (fun out => forall line, (n, line) ∈ out ->
                 StringForDeleted fuel h n = Ok line
                 /\ DeletedInSnapshot nd = true /\ State nd <> opDelete));
      [| |exact Hrun].
    + intros x a b Ha. unfold print_visit.
      destruct (Matches fuel h ignorePaths x) as [[|]| |]; simpl; try discriminate.
      { intros [= <-]. auto. }
      destruct (decide (x = n)) as [->|Hne].
      * rewrite Hshow. simpl. rewrite Hn.
        destruct (DeletedInSnapshot nd) eqn:Hdis; simpl.
        2: { intros [= <-]. auto. }
        destruct (bool_decide (State nd = opDelete)) eqn:Hst; simpl.
        { intros [= <-]. auto. }
        apply bool_decide_eq_false in Hst.
        destruct (StringForDeleted fuel h n) as [sl| |]; simpl; try discriminate.
        intros [= <-] line Hin.
        apply elem_of_app in Hin as [Hin|Hin]; [auto|].
        apply list_elem_of_singleton in Hin. injection Hin as ->. auto.
      * assert (Hx : forall (l : list (ptr * string)) sl line,
                  (n, line) ∈ l ++ [(x, sl)] -> (n, line) ∈ l).
        { intros l sl line Hin. apply elem_of_app in Hin as [Hin|Hin]; [auto|].
          apply list_elem_of_singleton in Hin. congruence. }
        destruct (shouldPrintNode fuel h x) as [[|]| |]; simpl; try discriminate.
        -- destruct (DiffNode_String fuel h x) as [sx| |]; simpl; try discriminate.
           destruct (h !! x) as [xd|]; [|discriminate].
           destruct (DeletedInSnapshot xd && _).
           ++ destruct (StringForDeleted fuel h x) as [sl| |]; simpl; try discriminate.
              intros [= <-] line Hin. apply Ha. eapply Hx, Hx. eassumption.
           ++ intros [= <-] line Hin. apply Ha. eapply Hx. eassumption.
        -- destruct (h !! x) as [xd|]; [|discriminate].
           destruct (DeletedInSnapshot xd && _).
           ++ destruct (StringForDeleted fuel h x) as [sl| |]; simpl; try discriminate.
              intros [= <-] line Hin. apply Ha. eapply Hx. eassumption.
           ++ intros [= <-]. auto.
    + intros line Hin. apply elem_of_nil in Hin. contradiction.
Qed.

Lemma Matches_digits1 (c : ascii) :
  Regexp.is_digit c = true -> Regexp.Matches (Regexp.Plus Regexp.Digit) [c].
Proof.
  intros H. change [c] with ([c] ++ []). constructor; constructor. assumption.
Qed.

Lemma placeholder_o1_2_3 :
  Regexp.Matches regexNewNode (list_ascii_of_string "o1-2-3").
Proof.
  change (list_ascii_of_string "o1-2-3")
    with (["o"%char] ++ (["1"%char] ++ (["-"%char] ++ (["2"%char] ++ (["-"%char]
            ++ ["3"%char]))))).
  unfold regexNewNode.
  repeat (first [ apply Matches_digits1; reflexivity
                | apply Regexp.MCls; reflexivity
                | apply Regexp.MCat ]).
Qed.

Lemma temporary_filter_is_substring_match_witness :
  let h := (ProcessBTRFSStream (host := rawHostTime) 8 photo_stream).2 in
  isBTRFSTemporaryNode 8 h 3%nat = Ok true
  /\ (forall s, GetDiffStruct 8 h {| root := 0%nat |} [] = Ok s ->
        (3%nat ∉ Added s) /\ (3%nat ∉ Changed s) /\ (3%nat ∉ Deleted s)).
Proof.
  intros h.
  destruct (temporary_filter_is_substring_match 8 h {| root := 0%nat |} 3%nat
              (node_at h 3%nat)
              (node_at h 0%nat)
              []) as (H1 & H2 & _).
  - vm_compute. reflexivity.
  - vm_compute. reflexivity.
  - vm_compute. reflexivity.
  - vm_compute. reflexivity.
  - exists "phot"%string, "o1-2-3"%string, EmptyString.
    split; [vm_compute; reflexivity|apply placeholder_o1_2_3].
  - lia.
  - split; assumption.
Defined.

(** ** Emitted paths (C9) *)

Lemma starts_with_slash_app (s t : string) :
  starts_with_slash s = true -> starts_with_slash (s +:+ t) = true.
Proof. destruct s; [discriminate|]. simpl. auto. Qed.

Section ChainPaths.

Variables (h : Heap) (r : ptr) (rd : DiffNode).
Hypothesis Hr : h !! r = Some rd.
Hypothesis Hrp : Parent rd = None.
Hypothesis Hrn : Path rd = EmptyString.

Lemma GetChainPath_root (fuel : nat) : GetChainPath (S fuel) h r = Ok EmptyString.
Proof. simpl. rewrite Hr, Hrp, Hrn. reflexivity. Qed.

Lemma GetChainPath_below (k : nat) (n : ptr) :
  below h r k n ->
  (forall fuel p, GetChainPath fuel h n = Ok p -> starts_with_slash p = true)
  /\ (forall fuel, (k < fuel)%nat -> exists p, GetChainPath fuel h n = Ok p).
Proof.
  induction 1 as [n nd Hn Hp|k n nd p Hn Hp Hb [IH1 IH2]].
  - split.
    + intros [|f] q; simpl; [discriminate|]. rewrite Hn, Hp.
      destruct f as [|f]; simpl; [discriminate|].
      rewrite Hr, Hrp, Hrn. intros [= <-]. reflexivity.
    + intros [|[|f]] Hlt; try lia. simpl. rewrite Hn, Hp, Hr, Hrp. eauto.
  - split.
    + intros [|f] q; simpl; [discriminate|]. rewrite Hn, Hp.
      destruct (GetChainPath f h p) as [s| |] eqn:E; try discriminate.
      intros [= <-]. apply starts_with_slash_app. eapply IH1. eassumption.
    + intros [|f] Hlt; [lia|]. simpl. rewrite Hn, Hp.
      destruct (IH2 f) as (s & ->); [lia|]. eauto.
Qed.

End ChainPaths.

Lemma GetChainPath_orphan (fuel : nat) (h : Heap) (t : ptr) (td : DiffNode) :
  h !! t = Some td -> Parent td = None -> GetChainPath (S fuel) h t = Ok (Path td).
Proof. intros Ht Hp. simpl. rewrite Ht, Hp. reflexivity. Qed.

Lemma mapRes_lookup {A B} (f : A -> Res B) (l : list A) (l' : list B) (i : nat) (x : A) :
  mapRes f l = Ok l' -> l !! i = Some x -> exists y, l' !! i = Some y /\ f x = Ok y.
Proof.
  revert l' i. induction l as [|a r IH]; intros l' i; simpl; [intros _ H; discriminate|].
  destruct (f a) as [b| |] eqn:Ea; simpl; try discriminate.
  destruct (mapRes f r) as [bs| |] eqn:Er; simpl; try discriminate.
  intros [= <-]. destruct i as [|i]; simpl.
  - intros [= <-]. eauto.
  - apply IH. reflexivity.
Qed.

(** What [processCreate] leaves for a SYMLINK.  [h2] is the store in which
    the link value is looked up, [nd2] the new node before it receives the
    relation, which comes last in its relations.  Where the link value
    leads to a node, that node is the target; where it leads to none, the
    target is a fresh node, without parent and named by the link value as
    decoded. *)
Lemma processCreate_symlink {host : HostTime} (fuel : nat) (d : Diff) (p : string)
    (c : commandInst) (h h' : Heap) :
  processCreate fuel d p c h = (Ok tt, h') ->
  OriginalType c = BTRFS_SEND_C_SYMLINK ->
  exists ino c1 pathLink c2 node h2 nd2 t,
    ReadParam c BTRFS_SEND_A_INO = Ok (ino, c1)
    /\ ReadParam c1 BTRFS_SEND_A_PATH_LINK = Ok (VString pathLink, c2)
    /\ h' !! node
       = Some (set_Relations
                 (Relations nd2 ++ [{| RNode := t; Reason := DiffNodeReasonLinkDest |}]) nd2)
    /\ match getNodeByPath h2 d pathLink with
       | Some l =>
           t = l /\ h2 !! node = Some nd2
           /\ h' = <[node := set_Relations
                       (Relations nd2
                        ++ [{| RNode := t; Reason := DiffNodeReasonLinkDest |}]) nd2]> h2
       | None =>
           let orphan :=
             newDiffNode DiffNodeTypeUnknown pathLink opUnspec [] None (Some ∅) in
           t = length h2 /\ (h2 ++ [orphan]) !! node = Some nd2
           /\ h' = <[node := set_Relations
                       (Relations nd2
                        ++ [{| RNode := t; Reason := DiffNodeReasonLinkDest |}]) nd2]>
                     (h2 ++ [orphan])
           /\ exists td, h' !! t = Some td /\ Parent td = None /\ Path td = pathLink
       end.
Proof.
  intros Hrun Ht. unfold processCreate in Hrun. rewrite bind_get in Hrun.
  destruct (getNodeByPath h d p); [discriminate|].
  destruct (nodeType_of_create (OriginalType c)) as [nt|]; [|discriminate].
  unfold bind at 1 in Hrun.
  match type of Hrun with
  | context [match ?m h with _ => _ end] => destruct (m h) as [[node| |] h1]
  end; try discriminate.
  rewrite Ht, Z.eqb_refl in Hrun.
  unfold bind at 1, readParam, wrap, lift in Hrun.
  destruct (ReadParam c BTRFS_SEND_A_INO) as [[ino c1]| |] eqn:R1; try discriminate.
  unfold bind at 1 in Hrun. simpl snd in Hrun.
  destruct (ReadParam c1 BTRFS_SEND_A_PATH_LINK) as [[v c2]| |] eqn:R2; try discriminate.
  simpl fst in Hrun. destruct v as [?|pathLink|?|? ?]; try discriminate.
  unfold as_string in Hrun. rewrite bind_ret, bind_get in Hrun.
  destruct (getNodeByPath h1 d pathLink) as [t|] eqn:Hfind.
  - rewrite bind_ret in Hrun. unfold upd in Hrun.
    destruct (h1 !! node) as [nd2|] eqn:Hnode; [|discriminate].
    injection Hrun as <-.
    exists ino, c1, pathLink, c2, node, h1, nd2, t.
    split; [first [reflexivity|assumption]|]. split; [first [reflexivity|assumption]|].
    split; [apply list_lookup_insert_eq; eapply lookup_lt_Some; eassumption|].
    rewrite Hfind. auto.
  - unfold bind at 1, alloc in Hrun. unfold upd in Hrun.
    set (orphan := newDiffNode DiffNodeTypeUnknown pathLink opUnspec [] None (Some ∅))
      in Hrun.
    destruct ((h1 ++ [orphan]) !! node) as [nd2|] eqn:Hnode; [|discriminate].
    injection Hrun as <-.
    exists ino, c1, pathLink, c2, node, h1, nd2, (length h1).
    split; [first [reflexivity|assumption]|]. split; [first [reflexivity|assumption]|].
    split; [apply list_lookup_insert_eq; eapply lookup_lt_Some; eassumption|].
    rewrite Hfind. cbv zeta. fold orphan.
    split; [reflexivity|]. split; [exact Hnode|]. split; [reflexivity|].
    assert (Ho : (h1 ++ [orphan]) !! length h1 = Some orphan)
      by (apply list_lookup_middle; reflexivity).
    destruct (decide (node = length h1)) as [->|Hne].
    + rewrite Ho in Hnode. injection Hnode as <-.
      eexists. split; [apply list_lookup_insert_eq; rewrite length_app; simpl; lia|].
      split; reflexivity.
    + exists orphan. rewrite list_lookup_insert_ne by assumption.
      split; [assumption|]. split; reflexivity.
Qed.



(** ** What the tree operations leave alone *)

Section Keeps.

(** A property of a node that the tree operations cannot break: it does not
    depend on the parent, the children, the relations or the deleted flag,
    and it survives the promotion of the kind to Dir. *)
Variable P : DiffNode -> Prop.
Hypothesis P_NodeType : forall nd, P nd -> P (set_NodeType DiffNodeTypeDir nd).
Hypothesis P_Parent : forall p nd, P nd -> P (set_Parent p nd).
Hypothesis P_Children : forall c nd, P nd -> P (set_Children c nd).
Hypothesis P_Relations : forall r nd, P nd -> P (set_Relations r nd).
Hypothesis P_Deleted : forall b nd, P nd -> P (set_DeletedInSnapshot b nd).

Lemma keeps_same_store {A B} (m : M A) (m' : M B) :
  (forall h, (m' h).2 = (m h).2) -> keeps P m -> keeps P m'.
Proof. intros E Hm h. rewrite E. apply Hm. Qed.

Lemma keeps_reads {A} (m : M A) : (forall h, (m h).2 = h) -> keeps P m.
Proof. intros E h n nd Hn HP. rewrite E. eauto. Qed.

Lemma keeps_ret {A} (a : A) : keeps P (ret a).
Proof. apply keeps_reads. reflexivity. Qed.

Lemma keeps_fail {A} e : keeps P (@fail A e).
Proof. apply keeps_reads. reflexivity. Qed.

Lemma keeps_panic {A} e : keeps P (@panic A e).
Proof. apply keeps_reads. reflexivity. Qed.

Lemma keeps_getNode p : keeps P (getNode p).
Proof. apply keeps_reads. intros h. unfold getNode. destruct (h !! p); reflexivity. Qed.

Lemma keeps_bind {A B} (m : M A) (k : A -> M B) :
  keeps P m -> (forall a, keeps P (k a)) -> keeps P (bind m k).
Proof.
  intros Hm Hk h n nd Hn HP. unfold bind.
  destruct (Hm h n nd Hn HP) as (nd1 & H1 & HP1).
  destruct (m h) as [[a|e|e] h1]; simpl in H1; eauto.
  apply (Hk a h1 n nd1); assumption.
Qed.

Lemma keeps_wrap {A} msg (m : M A) : keeps P m -> keeps P (wrap msg m).
Proof.
  apply keeps_same_store. intros h. unfold wrap.
  destruct (m h) as [[a|e|e] h1]; reflexivity.
Qed.

Lemma keeps_errorf {A} args msg : keeps P (@errorf A args msg).
Proof. apply keeps_reads. intros h. apply errorf_store. Qed.

Lemma keeps_wrapf {A} args msg (m : M A) : keeps P m -> keeps P (wrapf args msg m).
Proof. apply keeps_same_store. intros h. apply wrapf_store. Qed.

Lemma keeps_forM {A} (l : list A) (body : A -> M unit) :
  (forall x, keeps P (body x)) -> keeps P (forM l body).
Proof.
  intros Hb. induction l as [|x r IH]; simpl.
  - apply keeps_ret.
  - apply keeps_bind; [apply Hb|intros _; exact IH].
Qed.

Lemma keeps_upd p f : (forall nd, P nd -> P (f nd)) -> keeps P (upd p f).
Proof.
  intros Hf h n nd Hn HP. unfold upd.
  destruct (h !! p) as [pd|] eqn:Hp; simpl; [|eauto].
  destruct (decide (n = p)) as [->|Hne].
  - exists (f pd). split.
    + apply list_lookup_insert_eq. eapply lookup_lt_Some; eassumption.
    + apply Hf. congruence.
  - exists nd. rewrite list_lookup_insert_ne by congruence. auto.
Qed.

Lemma keeps_putChild n node : keeps P (putChild n node).
Proof.
  intros h q qd Hq HP. unfold putChild.
  destruct (h !! n) as [nd|] eqn:Hn; [|eauto].
  destruct (h !! node) as [nn|]; [|eauto].
  destruct (Children nd) as [m|]; [|eauto]. simpl.
  destruct (decide (q = n)) as [->|Hne].
  - eexists. split.
    + apply list_lookup_insert_eq. eapply lookup_lt_Some; eassumption.
    + apply P_Children. congruence.
  - exists qd. rewrite list_lookup_insert_ne by congruence. auto.
Qed.

Lemma keeps_delChild n key : keeps P (delChild n key).
Proof. unfold delChild. apply keeps_upd. intros nd. apply P_Children. Qed.

Lemma keeps_alloc nd : keeps P (alloc nd).
Proof.
  intros h q qd Hq HP. unfold alloc. simpl. exists qd.
  split; [apply lookup_app_l_Some|]; assumption.
Qed.

Ltac keeps_step :=
  lazymatch goal with
  | |- keeps P (bind _ _) => apply keeps_bind; [|intros ?]
  | |- keeps P (wrap _ _) => apply keeps_wrap
  | |- keeps P (wrapf _ _ _) => apply keeps_wrapf
  | |- keeps P (errorf _ _) => apply keeps_errorf
  | |- keeps P (forM _ _) => apply keeps_forM; intros ?
  | |- keeps P (ret _) => apply keeps_ret
  | |- keeps P (fail _) => apply keeps_fail
  | |- keeps P (panic _) => apply keeps_panic
  | |- keeps P (getNode _) => apply keeps_getNode
  | |- keeps P (putChild _ _) => apply keeps_putChild
  | |- keeps P (delChild _ _) => apply keeps_delChild
  | |- keeps P (alloc _) => apply keeps_alloc
  | |- keeps P (upd _ _) => apply keeps_upd; intros ? ?; auto
  | |- keeps P (if ?b then _ else _) => destruct b
  | |- keeps P (match ?x with _ => _ end) => destruct x
  end.

Lemma keeps_deleteNode fuel n node : keeps P (deleteNode fuel n node).
Proof. unfold deleteNode. repeat keeps_step. Qed.

Lemma keeps_removeFromParent fuel n : keeps P (removeFromParent fuel n).
Proof.
  unfold removeFromParent. repeat keeps_step.
  eapply keeps_same_store; [|apply (keeps_deleteNode fuel n0 n)].
  intros h. destruct (deleteNode fuel n0 n h) as [[?|?|?] ?]; try reflexivity.
  apply errorf_store.
Qed.

Lemma keeps_mkdirp_loop entries idx len old new cur :
  keeps P (mkdirp_loop entries idx len old new cur).
Proof.
  revert idx cur. induction entries as [|e r IH]; intros idx cur; simpl.
  - apply keeps_ret.
  - repeat keeps_step; apply IH.
Qed.

Lemma keeps_addNode fuel n node : keeps P (addNode fuel n node).
Proof.
  revert n node. induction fuel as [|f IH]; intros n node; simpl.
  - apply keeps_panic.
  - repeat keeps_step; first [apply IH | apply keeps_removeFromParent
                             | apply keeps_deleteNode].
Qed.

Lemma keeps_getNodeParentOrMkdir d path : keeps P (getNodeParentOrMkdir d path).
Proof.
  unfold getNodeParentOrMkdir. repeat keeps_step. apply keeps_mkdirp_loop.
Qed.

End Keeps.

(** ** addNode (C6) *)

(** The key [deleteNode] finds for a node that sits under one key. *)
Lemma find_key_spec (m : gmap string ptr) (node : ptr) (k : string) :
  m !! k = Some node -> (forall k', m !! k' = Some node -> k' = k) ->
  find_key m node = k.
Proof.
  intros Hk Huniq. unfold find_key.
  destruct (List.find _ (map_to_list m)) as [[k' v]|] eqn:E.
  - apply find_some in E as [Hin Hv]. simpl in Hv.
    apply bool_decide_eq_true in Hv. subst v.
    apply list_elem_of_In, elem_of_map_to_list in Hin. simpl. auto.
  - exfalso. eapply find_none in E.
    2: { apply list_elem_of_In, elem_of_map_to_list. exact Hk. }
    simpl in E. apply bool_decide_eq_false in E. congruence.
Qed.

Lemma find_key_missing (m : gmap string ptr) (node : ptr) :
  (forall k, m !! k <> Some node) -> find_key m node = EmptyString.
Proof.
  intros Hno. unfold find_key.
  destruct (List.find _ (map_to_list m)) as [[k' v]|] eqn:E; [|reflexivity].
  apply find_some in E as [Hin Hv]. simpl in Hv.
  apply bool_decide_eq_true in Hv. subst v.
  apply list_elem_of_In, elem_of_map_to_list in Hin. apply Hno in Hin. contradiction.
Qed.

(** Lookups in a store after updates at other or the same pointers. *)
Ltac lk :=
  repeat first
    [ rewrite list_lookup_insert_ne by congruence
    | rewrite list_lookup_insert_eq
        by (rewrite ?length_insert; eapply lookup_lt_Some; eassumption) ].

Ltac lks := lk; first [reflexivity | assumption].

Lemma deleteNode_ok (h : Heap) (q c : ptr) (qd cd : DiffNode) (k : string)
    (fuel : nat) :
  h !! q = Some qd -> h !! c = Some cd -> q <> c ->
  find_key (kids qd) c = k -> k <> EmptyString ->
  deleteNode fuel q c h
  = (Ok tt, <[c := set_Parent None cd]>
              (<[q := set_Children (delete k <$> Children qd) qd]> h)).
Proof.
  intros Hq Hc Hne Hk Hnz. unfold deleteNode.
  rewrite (bind_getNode _ qd) by assumption. rewrite Hk.
  destruct (String.eqb_spec k EmptyString) as [|_]; [contradiction|].
  unfold delChild. rewrite (bind_upd _ qd) by assumption.
  unfold upd. lk. rewrite Hc. reflexivity.
Qed.

(** The head of [addNode]: the promotion of the parent. *)
Lemma addNode_head {B} (h : Heap) (n : ptr) (nd : DiffNode) (k : M B) :
  h !! n = Some nd ->
  bind (getNode n)
    (fun nd => bind (if bool_decide (NodeType nd = DiffNodeTypeUnknown)
                     then upd n (set_NodeType DiffNodeTypeDir) else ret tt)
                 (fun _ => k)) h
  = k (<[n := promote nd]> h).
Proof.
  intros Hn. rewrite (bind_getNode _ nd) by assumption. unfold promote.
  destruct (bool_decide (NodeType nd = DiffNodeTypeUnknown)).
  - rewrite (bind_upd _ nd) by assumption. reflexivity.
  - rewrite bind_ret, list_insert_id by assumption. reflexivity.
Qed.

(** Attaching a detached node under [n], where no child of that name
    exists. *)
Lemma addNode_attach (f : nat) (h : Heap) (n node : ptr) (nd nn : DiffNode)
    (m : gmap string ptr) :
  h !! n = Some nd -> h !! node = Some nn -> n <> node ->
  Children nd = Some m -> m !! Path nn = None -> Parent nn = None ->
  addNode (S f) n node h
  = (Ok tt, <[n := set_Children (Some (<[Path nn := node]> m)) (promote nd)]>
              (<[node := set_Parent (Some n) nn]> (<[n := promote nd]> h))).
Proof.
  intros Hn Hnode Hne Hm Hnone Hpar. cbn [addNode].
  rewrite (addNode_head h n nd) by assumption.
  assert (Hm' : kids (promote nd) = m).
  { unfold kids, promote. destruct (bool_decide _); simpl; rewrite Hm; reflexivity. }
  rewrite (bind_getNode _ (promote nd)) by lks.
  rewrite (bind_getNode _ nn) by lks.
  rewrite Hm', Hnone, Hpar. rewrite !bind_ret.
  rewrite (bind_upd _ nn) by lks.
  unfold putChild. lk.
  assert (Hc : Children (promote nd) = Some m).
  { unfold promote. destruct (bool_decide _); simpl; assumption. }
  rewrite Hc. reflexivity.
Qed.

(** Moving a child of [q] under [n], where no child of that name exists. *)
Lemma addNode_move (f : nat) (h : Heap) (n node q : ptr) (nd nn qd : DiffNode)
    (m : gmap string ptr) :
  h !! n = Some nd -> h !! node = Some nn -> h !! q = Some qd ->
  n <> node -> q <> node -> q <> n ->
  Children nd = Some m -> m !! Path nn = None ->
  Parent nn = Some q -> find_key (kids qd) node = Path nn -> Path nn <> EmptyString ->
  addNode (S f) n node h
  = (Ok tt, <[n := set_Children (Some (<[Path nn := node]> m)) (promote nd)]>
              (<[node := set_Parent (Some n) nn]>
                 (<[q := set_Children (delete (Path nn) <$> Children qd) qd]>
                    (<[n := promote nd]> h)))).
Proof.
  intros Hn Hnode Hq Hne Hqn Hqn' Hm Hnone Hpar Hkey Hnz. cbn [addNode].
  rewrite (addNode_head h n nd) by assumption.
  assert (Hm' : kids (promote nd) = m).
  { unfold kids, promote. destruct (bool_decide _); simpl; rewrite Hm; reflexivity. }
  rewrite (bind_getNode _ (promote nd)) by lks.
  rewrite (bind_getNode _ nn) by lks.
  rewrite Hm', Hnone, Hpar. rewrite !bind_ret.
  unfold bind at 1, wrapf.
  rewrite (deleteNode_ok _ q node qd nn (Path nn)); try assumption; try lks.
  rewrite (bind_upd _ (set_Parent None nn)) by lks.
  rewrite list_insert_insert_eq.
  unfold putChild. lk.
  assert (Hc : Children (promote nd) = Some m).
  { unfold promote. destruct (bool_decide _); simpl; assumption. }
  rewrite Hc. reflexivity.
Qed.

Lemma promote_idem (x : DiffNode) : promote (promote x) = promote x.
Proof.
  unfold promote. destruct (bool_decide (NodeType x = DiffNodeTypeUnknown)) eqn:E; simpl.
  - reflexivity.
  - rewrite E. reflexivity.
Qed.

Lemma promote_set_Children c (x : DiffNode) :
  promote (set_Children c x) = set_Children c (promote x).
Proof. unfold promote. simpl. destruct (bool_decide _); reflexivity. Qed.

Lemma set_Children_id (x : DiffNode) : set_Children (Children x) x = x.
Proof. destruct x; reflexivity. Qed.

Lemma NodeType_promote (x : DiffNode) :
  NodeType x = DiffNodeTypeUnknown -> NodeType (promote x) = DiffNodeTypeDir.
Proof. intros H. unfold promote. rewrite bool_decide_true by assumption. reflexivity. Qed.

Lemma dels_delete (l : list (string * ptr)) (k : string) (m : gmap string ptr) :
  dels l (delete k m) = delete k (dels l m).
Proof.
  induction l as [|x l IH]; simpl; [reflexivity|].
  rewrite IH. apply delete_delete.
Qed.

Lemma adds_insert (l : list (string * ptr)) (k : string) (c : ptr) (m : gmap string ptr) :
  k ∉ l.*1 -> adds l (<[k := c]> m) = <[k := c]> (adds l m).
Proof.
  induction l as [|x l IH]; simpl; intros Hk; [reflexivity|].
  apply not_elem_of_cons in Hk as [Hne Hk].
  rewrite IH by assumption. apply insert_insert_ne. congruence.
Qed.

Lemma adds_union (l : list (string * ptr)) (m : gmap string ptr) :
  adds l m = list_to_map l ∪ m.
Proof.
  induction l as [|[k c] l IH]; simpl.
  - symmetry. apply (left_id_L ∅ (∪)).
  - rewrite IH. apply insert_union_l.
Qed.

Lemma dels_lookup (l : list (string * ptr)) (m : gmap string ptr) (k : string) :
  dels l m !! k = if bool_decide (k ∈ l.*1) then None else m !! k.
Proof.
  induction l as [|[k' c] l IH].
  - reflexivity.
  - change (dels ((k', c) :: l) m) with (delete k' (dels l m)).
    change (((k', c) :: l).*1) with (k' :: l.*1).
    destruct (decide (k' = k)) as [->|Hne].
    + rewrite lookup_delete_eq. rewrite bool_decide_true by (left; reflexivity). reflexivity.
    + rewrite lookup_delete_ne by assumption. rewrite IH.
      destruct (decide (k ∈ l.*1)) as [Hin|Hin].
      * rewrite !bool_decide_true; [reflexivity|right; assumption|assumption].
      * rewrite !bool_decide_false; [reflexivity| |assumption].
        intros H. apply elem_of_cons in H as [H|H]; congruence.
Qed.

Lemma dels_all (m : gmap string ptr) : dels (map_to_list m) m = ∅.
Proof.
  apply map_eq. intros k. rewrite dels_lookup, lookup_empty.
  destruct (m !! k) as [c|] eqn:E.
  - rewrite bool_decide_true; [reflexivity|].
    apply list_elem_of_fmap. exists (k, c). split; [reflexivity|].
    apply elem_of_map_to_list. assumption.
  - destruct (bool_decide _); reflexivity.
Qed.

(** The loop moves the children of [e] under [node], one by one. *)
Lemma merge_loop (f : nat) (node e : ptr) :
  node <> e ->
  forall (l : list (string * ptr)) (hc : Heap) (ed nn : DiffNode) (mn : gmap string ptr),
    hc !! e = Some ed -> hc !! node = Some nn -> l = [] \/ Children nn = Some mn ->
    NoDup l.*1 ->
    (forall k c, (k, c) ∈ l ->
       kids ed !! k = Some c /\ (forall k', kids ed !! k' = Some c -> k' = k)
       /\ k <> EmptyString /\ c <> node /\ c <> e /\ mn !! k = None
       /\ exists cd, hc !! c = Some cd /\ Parent cd = Some e /\ Path cd = k) ->
    exists h',
      forM l (merge_body (S f) node e) hc = (Ok tt, h')
      /\ h' !! e = Some (set_Children (dels l <$> Children ed) ed)
      /\ h' !! node
         = Some (match l with
                 | [] => nn
                 | _ => set_Children (Some (adds l mn)) (promote nn)
                 end)
      /\ (forall k c cd, (k, c) ∈ l -> hc !! c = Some cd ->
            h' !! c = Some (set_Parent (Some node) cd))
      /\ (forall q, q <> e -> q <> node -> q ∉ l.*2 -> h' !! q = hc !! q).
Proof.
  intros Hne l. induction l as [|[k c] l IH]; intros hc ed nn mn He Hn Hmn Hnd Hl.
  - exists hc. simpl. split; [reflexivity|].
    split.
    { rewrite He. f_equal. destruct ed as [? ? ? ? ? ? [ch|] ? ? ?]; reflexivity. }
    split; [exact Hn|].
    split; [intros k c cd H; apply elem_of_nil in H; contradiction|].
    reflexivity.
  - destruct (Hl k c (list_elem_of_here _ _))
      as (Hk & Huniq & Hnz & Hcn & Hce & Hfree & cd & Hc & Hpar & Hpath).
    destruct Hmn as [Hmn|Hmn]; [discriminate|].
    apply NoDup_cons in Hnd as [Hkl Hnd].
    simpl forM. unfold bind at 1. unfold merge_body at 1.
    rewrite (bind_getNode _ ed) by assumption. cbn [fst]. rewrite Hk.
    unfold wrapf.
    rewrite (addNode_move f hc node c e nn cd ed mn); try assumption; try congruence.
    2: { rewrite Hpath. apply find_key_spec; assumption. }
    rewrite Hpath.
    set (ed1 := set_Children (delete k <$> Children ed) ed).
    set (nn1 := set_Children (Some (<[k := c]> mn)) (promote nn)).
    set (h1 := <[node := nn1]> (<[c := set_Parent (Some node) cd]>
                  (<[e := ed1]> (<[node := promote nn]> hc)))).
    assert (Hlen : forall q x, hc !! q = Some x -> (q < length hc)%nat)
      by (intros; eapply lookup_lt_Some; eassumption).
    assert (H1e : h1 !! e = Some ed1).
    { unfold h1. rewrite list_lookup_insert_ne by congruence.
      rewrite list_lookup_insert_ne by congruence.
      apply list_lookup_insert_eq. rewrite length_insert. eauto. }
    assert (H1n : h1 !! node = Some nn1).
    { unfold h1. apply list_lookup_insert_eq. rewrite !length_insert. eauto. }
    assert (H1c : h1 !! c = Some (set_Parent (Some node) cd)).
    { unfold h1. rewrite list_lookup_insert_ne by congruence.
      apply list_lookup_insert_eq. rewrite !length_insert. eauto. }
    assert (H1q : forall q, q <> e -> q <> node -> q <> c -> h1 !! q = hc !! q).
    { intros q ? ? ?. unfold h1. rewrite !list_lookup_insert_ne by congruence. reflexivity. }
    assert (Hkids1 : kids ed1 = delete k (kids ed)).
    { unfold ed1, kids. simpl. destruct (Children ed); simpl; [reflexivity|].
      symmetry. apply delete_empty. }
    destruct (IH h1 ed1 nn1 (<[k := c]> mn) H1e H1n (or_intror eq_refl) Hnd)
      as (h' & Hrun & He' & Hn' & Hc' & Hq').
    { intros k' c' Hin.
      destruct (Hl k' c' (list_elem_of_further _ _ _ Hin))
        as (Hk' & Huniq' & Hnz' & Hcn' & Hce' & Hfree' & cd' & Hcd' & Hpar' & Hpath').
      assert (Hkk : k' <> k).
      { intros ->. apply Hkl. apply list_elem_of_fmap. exists (k, c'). auto. }
      assert (Hcc : c' <> c).
      { intros ->. apply Hkk. apply Huniq. assumption. }
      rewrite Hkids1.
      split; [rewrite lookup_delete_ne by congruence; assumption|].
      split.
      { intros k'' H''. apply lookup_delete_Some in H'' as [_ H'']. auto. }
      split; [assumption|]. split; [assumption|]. split; [assumption|].
      split; [rewrite lookup_insert_ne by congruence; assumption|].
      exists cd'. rewrite H1q by assumption. auto. }
    exists h'. split; [exact Hrun|].
    split.
    { rewrite He'. f_equal. unfold ed1. simpl.
      destruct (Children ed) as [ch|]; simpl; [|reflexivity].
      rewrite dels_delete. reflexivity. }
    split.
    { rewrite Hn'. f_equal. cbn [adds foldr fst snd].
      change (foldr (fun kv acc => <[kv.1 := kv.2]> acc) mn l) with (adds l mn).
      unfold nn1. destruct l as [|x l]; [reflexivity|].
      rewrite adds_insert by assumption.
      rewrite promote_set_Children, promote_idem. reflexivity. }
    split.
    { intros k' c' cd' Hin Hcd'. apply elem_of_cons in Hin as [Heq|Hin].
      - injection Heq as -> ->.
        assert (cd' = cd) by congruence. subst cd'.
        rewrite Hq'; [exact H1c|assumption|assumption|].
        intros Hin. apply list_elem_of_fmap in Hin as ([k' c'] & Heq & Hin).
        simpl in Heq. subst c'.
        destruct (Hl k' c (list_elem_of_further _ _ _ Hin)) as (Hk' & _).
        apply Huniq in Hk'. subst k'.
        apply Hkl. apply list_elem_of_fmap. exists (k, c). auto.
      - destruct (Hl k' c' (list_elem_of_further _ _ _ Hin))
          as (Hk' & Huniq' & _ & Hcn' & Hce' & _).
        assert (Hcc : c' <> c).
        { intros ->. apply Hkl. apply list_elem_of_fmap. exists (k', c).
          split; [|assumption]. simpl. symmetry. apply Huniq. assumption. }
        apply (Hc' k'); [assumption|]. rewrite H1q by assumption. assumption. }
    intros q Hqe Hqn Hql. apply not_elem_of_cons in Hql as [Hqc Hql].
    rewrite Hq' by assumption. apply H1q; assumption.
Qed.

Lemma Children_promote (x : DiffNode) : Children (promote x) = Children x.
Proof. unfold promote. destruct (bool_decide _); reflexivity. Qed.

Lemma kids_promote (x : DiffNode) : kids (promote x) = kids x.
Proof. unfold kids. rewrite Children_promote. reflexivity. Qed.

Lemma State_promote (x : DiffNode) : State (promote x) = State x.
Proof. unfold promote. destruct (bool_decide _); reflexivity. Qed.

Lemma removeFromParent_ok (h h' : Heap) (e q : ptr) (ed : DiffNode) (fuel : nat) :
  h !! e = Some ed -> Parent ed = Some q -> deleteNode fuel q e h = (Ok tt, h') ->
  removeFromParent fuel e h = (Ok tt, h').
Proof.
  intros He Hp Hd. unfold removeFromParent.
  rewrite (bind_getNode _ ed) by assumption. rewrite Hp, Hd. reflexivity.
Qed.

(** Whatever [addNode] returns, the parent has been promoted. *)
Lemma addNode_promoted (f : nat) (h : Heap) (n node : ptr) (nd : DiffNode) :
  h !! n = Some nd ->
  addNode (S f) n node h = addNode (S f) n node (<[n := promote nd]> h).
Proof.
  intros Hn. cbn [addNode].
  rewrite (addNode_head h n nd) by assumption.
  rewrite (addNode_head (<[n := promote nd]> h) n (promote nd)) by lks.
  rewrite list_insert_insert_eq, promote_idem. reflexivity.
Qed.

Lemma addNode_promotes (f : nat) (h : Heap) (n node : ptr) (nd : DiffNode) :
  h !! n = Some nd -> NodeType nd = DiffNodeTypeUnknown ->
  exists nd', (addNode (S f) n node h).2 !! n = Some nd'
              /\ NodeType nd' = DiffNodeTypeDir.
Proof.
  intros Hn Ht. rewrite (addNode_promoted f h n node nd) by assumption.
  apply (keeps_addNode (fun x => NodeType x = DiffNodeTypeDir)) with (nd := promote nd);
    try (intros; simpl; first [reflexivity | assumption]).
  - lks.
  - apply NodeType_promote. assumption.
Qed.

(** A child of that name that is not deleted: the call fails and only the
    promotion has taken place. *)
Lemma addNode_duplicate (f : nat) (h : Heap) (n node e : ptr) (nd nn ed : DiffNode) :
  h !! n = Some nd -> h !! node = Some nn ->
  kids nd !! Path nn = Some e -> h !! e = Some ed -> State ed <> opDelete ->
  addNode (S f) n node h
  = (Err "found existing children node while adding new node", <[n := promote nd]> h).
Proof.
  intros Hn Hnode Hk He Hs. cbn [addNode].
  rewrite (addNode_head h n nd) by assumption.
  rewrite (bind_getNode _ (promote nd)) by lks.
  assert (Hnode' : exists nn', <[n := promote nd]> h !! node = Some nn' /\ Path nn' = Path nn).
  { destruct (decide (node = n)) as [->|Hne].
    - exists (promote nd). split; [lks|].
      assert (nn = nd) by congruence. subst nn.
      unfold promote. destruct (bool_decide _); reflexivity.
    - exists nn. split; [lks|reflexivity]. }
  destruct Hnode' as (nn' & Hnode' & Hpath).
  rewrite (bind_getNode _ nn') by assumption.
  rewrite kids_promote, Hpath, Hk.
  assert (He' : exists ed', <[n := promote nd]> h !! e = Some ed' /\ State ed' = State ed).
  { destruct (decide (e = n)) as [->|Hne].
    - exists (promote nd). split; [lks|].
      assert (ed = nd) by congruence. subst ed. apply State_promote.
    - exists ed. split; [lks|reflexivity]. }
  destruct He' as (ed' & He' & Hst).
  rewrite bind_assoc, (bind_getNode _ ed') by assumption.
  rewrite bool_decide_false by congruence. reflexivity.
Qed.

Lemma addNode_eq (f : nat) (n node : ptr) (h : Heap) :
  addNode (S f) n node h
  = (nd <~ getNode n ;;
     (if bool_decide (NodeType nd = DiffNodeTypeUnknown)
      then upd n (set_NodeType DiffNodeTypeDir) else ret tt) ;;;
     nd <~ getNode n ;;
     nn <~ getNode node ;;
     match kids nd !! Path nn with
     | Some e =>
         en <~ getNode e ;;
         if bool_decide (State en = opDelete) then ret tt
         else fail "found existing children node while adding new node"
     | None => ret tt
     end ;;;
     match Parent nn with
     | Some p =>
         wrapf [chainPath (S f) node; parentChainPath (S f) node]
               "failed to delete node from its parent" (deleteNode (S f) p node)
     | None => ret tt
     end ;;;
     addNode_tail f n node (kids nd !! Path nn)) h.
Proof. reflexivity. Qed.

Lemma movable_frame (h h' : Heap) (n node e : ptr) (mn m : gmap string ptr) :
  (forall k c, m !! k = Some c -> c <> n -> c <> node -> h' !! c = h !! c) ->
  map_Forall (movable h n node e mn) m -> map_Forall (movable h' n node e mn) m.
Proof.
  intros Hf Hm k c Hkc. destruct (Hm k c Hkc) as (H1 & H2 & H3 & H4 & H5 & H6 & H7).
  unfold movable. rewrite (Hf k c) by assumption. repeat split; assumption.
Qed.

(** The tail of [addNode] on a deleted child of that name: the node takes
    its place and its children. *)
Lemma addNode_tail_replace (f : nat) (h : Heap) (n node e : ptr) (nd nn ed : DiffNode)
    (m : gmap string ptr) :
  h !! n = Some nd -> h !! node = Some nn -> h !! e = Some ed ->
  n <> node -> e <> n -> e <> node ->
  Children nd = Some m -> m !! Path nn = Some e ->
  (forall k, m !! k = Some e -> k = Path nn) -> Path nn <> EmptyString ->
  kids ed = ∅ \/ is_Some (Children nn) -> Parent ed = Some n ->
  map_Forall (movable h n node e (kids nn)) (kids ed) ->
  exists h' nn' ed',
    addNode_tail (S f) n node (Some e) h = (Ok tt, h')
    /\ h' !! n = Some (set_Children (Some (<[Path nn := node]> m)) nd)
    /\ h' !! node = Some nn' /\ h' !! e = Some ed'
    /\ Parent nn' = Some n
    /\ Relations nn' = Relations nn ++ Relations ed
    /\ kids nn' = kids ed ∪ kids nn
    /\ DeletedInSnapshot nn' = true
    /\ Parent ed' = None /\ kids ed' = ∅
    /\ (forall k c, kids ed !! k = Some c ->
          exists cd, h !! c = Some cd /\ h' !! c = Some (set_Parent (Some node) cd))
    /\ (forall q, q <> n -> q <> node -> q <> e ->
          (forall k, kids ed !! k <> Some q) -> h' !! q = h !! q).
Proof.
  intros Hn Hnode He Hne Hen Henode Hm Hk Huniq Hnz Hmn Hped Hmov.
  unfold addNode_tail.
  assert (Hkids : kids nd = m) by (unfold kids; rewrite Hm; reflexivity).
  rewrite (bind_upd _ nn) by lks.
  set (h2 := <[node := set_Parent (Some n) nn]> h).
  set (nd3 := set_Children (Some (delete (Path nn) m)) nd).
  set (ed0 := set_Parent None ed).
  set (h3 := <[e := ed0]> (<[n := nd3]> h2)).
  assert (Hrm : removeFromParent (S (S f)) e h2 = (Ok tt, h3)).
  { apply (removeFromParent_ok h2 h3 e n ed); [unfold h2; lks|assumption|].
    unfold h3, nd3, ed0.
    rewrite (deleteNode_ok h2 n e nd ed (Path nn)); try congruence;
      try (unfold h2; lks).
    - rewrite Hm. reflexivity.
    - rewrite Hkids. apply find_key_spec; assumption. }
  unfold bind at 1, wrapf. rewrite Hrm.
  rewrite (bind_getNode _ ed0) by (unfold h3, h2; lks).
  rewrite (bind_upd _ (set_Parent (Some n) nn)) by (unfold h3, h2; lks).
  set (nn4 := set_Relations _ (set_Parent (Some n) nn)).
  set (h4 := <[node := nn4]> h3).
  assert (H4q : forall q, q <> n -> q <> node -> q <> e -> h4 !! q = h !! q).
  { intros q ? ? ?. unfold h4, h3, h2. lks. }
  destruct (merge_loop f node e (not_eq_sym Henode) (map_to_list (kids ed0)) h4 ed0 nn4
              (kids nn))
    as (h5 & Hrun & H5e & H5n & H5c & H5q).
  { unfold h4, h3, h2. lks. }
  { unfold h4, h3, h2. lks. }
  { change (kids ed0) with (kids ed). destruct Hmn as [Hmn|[mn Hmn]].
    - left. rewrite Hmn. apply map_to_list_empty.
    - right. unfold kids. change (Children nn4) with (Children nn).
      rewrite Hmn. reflexivity. }
  { apply NoDup_fst_map_to_list. }
  { intros k c Hin. apply elem_of_map_to_list in Hin.
    change (kids ed0) with (kids ed) in *.
    destruct (Hmov k c Hin) as (Hk1 & Hk2 & Hk3 & Hk4 & Hk5 & Hk6 & Hk7).
    split; [assumption|]. split.
    { intros k' Hk'. destruct (Hmov k' c Hk') as (_ & _ & _ & _ & _ & _ & Hk7').
      congruence. }
    repeat (split; [assumption|]).
    rewrite H4q by assumption.
    destruct (h !! c) as [cd|]; [|discriminate].
    exists cd. simpl in Hk6, Hk7. split; [reflexivity|]. split; congruence. }
  unfold bind at 1. rewrite Hrun.
  assert (Hvals : forall q, (forall k, kids ed !! k <> Some q) ->
                    q ∉ (map_to_list (kids ed0)).*2).
  { intros q Hq Hin. apply list_elem_of_fmap in Hin as ([k c] & Heq & Hin).
    simpl in Heq. subst c. apply elem_of_map_to_list in Hin.
    apply (Hq k). exact Hin. }
  assert (H5nd : h5 !! n = Some nd3).
  { rewrite H5q; [unfold h4, h3, h2; lks|congruence|congruence|].
    apply Hvals. intros k Hin.
    destruct (Hmov k n Hin) as (_ & Hbad & _). congruence. }
  set (nn5 := match map_to_list (kids ed0) with
              | [] => nn4
              | _ => set_Children (Some (adds (map_to_list (kids ed0)) (kids nn)))
                       (promote nn4)
              end) in *.
  assert (Hnn5 : Path nn5 = Path nn /\ Parent nn5 = Some n
                 /\ Relations nn5 = Relations nn ++ Relations ed
                 /\ kids nn5 = kids ed ∪ kids nn).
  { unfold nn5. destruct (map_to_list (kids ed0)) as [|x l] eqn:El.
    - apply map_to_list_empty_iff in El. change (kids ed0) with (kids ed) in El.
      rewrite El, (left_id_L ∅ (∪)). repeat split; reflexivity.
    - rewrite <- El, adds_union, list_to_map_to_list.
      unfold promote. destruct (bool_decide _); repeat split; reflexivity. }
  destruct Hnn5 as (Hp5 & Hpar5 & Hrel5 & Hkids5).
  rewrite (bind_upd _ _ _ _ _ H5n).
  unfold putChild.
  rewrite list_lookup_insert_ne by congruence. rewrite H5nd.
  rewrite list_lookup_insert_eq by (eapply lookup_lt_Some; eassumption).
  cbn [Children nd3 set_Children set_DeletedInSnapshot Path].
  eexists _, _, _. split; [reflexivity|].
  assert (Hlen : forall q x, h5 !! q = Some x -> (q < length h5)%nat)
    by (intros; eapply lookup_lt_Some; eassumption).
  split.
  { rewrite list_lookup_insert_eq by (rewrite length_insert; eauto).
    f_equal. unfold nd3. rewrite Hp5, insert_delete_eq. reflexivity. }
  split.
  { rewrite list_lookup_insert_ne by congruence.
    apply list_lookup_insert_eq. eauto. }
  split.
  { rewrite !list_lookup_insert_ne by congruence. exact H5e. }
  split; [exact Hpar5|].
  split; [exact Hrel5|].
  split; [exact Hkids5|].
  split; [reflexivity|].
  split; [reflexivity|].
  split.
  { unfold kids at 1. cbn [Children set_Children].
    destruct (Children ed0) as [ch|] eqn:Ech; [|reflexivity].
    assert (Hch : kids ed0 = ch) by (unfold kids; rewrite Ech; reflexivity).
    rewrite Hch. simpl. apply dels_all. }
  split.
  { intros k c Hkc.
    destruct (Hmov k c Hkc) as (Hk1 & Hk2 & Hk3 & Hk4 & Hk5 & Hk6 & Hk7).
    destruct (h !! c) as [cd|] eqn:Hc; [|discriminate].
    exists cd. split; [reflexivity|].
    rewrite !list_lookup_insert_ne by congruence.
    apply (H5c k); [apply elem_of_map_to_list; exact Hkc|].
    rewrite H4q by assumption. assumption. }
  intros q Hqn Hqnode Hqe Hq.
  rewrite !list_lookup_insert_ne by congruence.
  rewrite H5q by (try assumption; apply Hvals; assumption).
  apply H4q; assumption.
Qed.

(** A deleted child of that name: the node leaves its former parent, if it
    has one, and takes the place and the children of that child. *)
Lemma addNode_replace (f : nat) (h : Heap) (n node e : ptr) (nd nn ed : DiffNode)
    (m : gmap string ptr) :
  h !! n = Some nd -> h !! node = Some nn -> h !! e = Some ed ->
  n <> node -> e <> n -> e <> node ->
  Children nd = Some m -> m !! Path nn = Some e -> State ed = opDelete ->
  (forall k, m !! k = Some e -> k = Path nn) -> Path nn <> EmptyString ->
  detachable h n node e (Path nn) (Parent nn) (kids ed) ->
  kids ed = ∅ \/ is_Some (Children nn) -> Parent ed = Some n ->
  map_Forall (movable h n node e (kids nn)) (kids ed) ->
  exists h' nn' ed',
    addNode (S (S f)) n node h = (Ok tt, h')
    /\ h' !! n = Some (set_Children (Some (<[Path nn := node]> m)) (promote nd))
    /\ h' !! node = Some nn' /\ h' !! e = Some ed'
    /\ Parent nn' = Some n
    /\ Relations nn' = Relations nn ++ Relations ed
    /\ kids nn' = kids ed ∪ kids nn
    /\ DeletedInSnapshot nn' = true
    /\ Parent ed' = None /\ kids ed' = ∅
    /\ (forall k c, kids ed !! k = Some c ->
          exists cd, h !! c = Some cd /\ h' !! c = Some (set_Parent (Some node) cd))
    /\ (forall q qd, Parent nn = Some q -> h !! q = Some qd ->
          h' !! q = Some (set_Children (delete (Path nn) <$> Children qd) qd)).
Proof.
  intros Hn Hnode He Hne Hen Henode Hm Hk Hst Huniq Hnz Hdet Hmn Hped Hmov.
  rewrite addNode_eq.
  rewrite (addNode_head h n nd) by assumption.
  rewrite (bind_getNode _ (promote nd)) by lks.
  rewrite (bind_getNode _ nn) by lks.
  assert (Hkids : kids (promote nd) = m).
  { rewrite kids_promote. unfold kids. rewrite Hm. reflexivity. }
  assert (Hm1 : Children (promote nd) = Some m) by (rewrite Children_promote; assumption).
  rewrite Hkids, Hk.
  rewrite bind_assoc, (bind_getNode _ ed) by lks.
  rewrite bool_decide_true by assumption. rewrite bind_ret.
  set (h1 := <[n := promote nd]> h).
  assert (H1n : h1 !! n = Some (promote nd)) by (unfold h1; lks).
  assert (H1q : forall q, q <> n -> h1 !! q = h !! q).
  { intros q ?. unfold h1. lks. }
  destruct (Parent nn) as [q|] eqn:Hpar; simpl in Hdet.
  - destruct Hdet as (Hqn & Hqnode & Hqe & Hqc & qd & Hq & Hqk & Hquniq).
    unfold bind at 1, wrapf.
    rewrite (deleteNode_ok h1 q node qd nn (Path nn));
      [|rewrite H1q by congruence; assumption|rewrite H1q by congruence; assumption
       |assumption|apply find_key_spec; assumption|assumption].
    set (qd1 := set_Children (delete (Path nn) <$> Children qd) qd).
    set (h2 := <[node := set_Parent None nn]> (<[q := qd1]> h1)).
    assert (H2q : forall p, p <> n -> p <> node -> p <> q -> h2 !! p = h !! p).
    { intros p ? ? ?. unfold h2, h1. lks. }
    destruct (addNode_tail_replace f h2 n node e (promote nd) (set_Parent None nn) ed m)
      as (h' & nn' & ed' & Hrun & R1 & R2 & R3 & R4 & R5 & R6 & R7 & R8 & R9 & R10 & R11);
      try assumption.
    { unfold h2, h1. lks. }
    { unfold h2, h1. lks. }
    { rewrite H2q by congruence. assumption. }
    { apply (movable_frame h); [|assumption].
      intros k c Hkc ? ?. apply H2q; try assumption.
      intros ->. exact (Hqc k Hkc). }
    exists h', nn', ed'. split; [exact Hrun|].
    split; [exact R1|]. split; [exact R2|]. split; [exact R3|].
    split; [exact R4|]. split; [exact R5|]. split; [exact R6|].
    split; [exact R7|]. split; [exact R8|]. split; [exact R9|].
    split.
    { intros k c Hkc. destruct (R10 k c Hkc) as (cd & Hcd & Hcd').
      destruct (Hmov k c Hkc) as (_ & ? & ? & _).
      exists cd. split; [|assumption]. rewrite <- Hcd. symmetry.
      apply H2q; try assumption. intros ->. exact (Hqc k Hkc). }
    intros q0 qd0 [= <-] Hq0. assert (qd0 = qd) by congruence. subst qd0.
    rewrite R11 by assumption. unfold h2, h1. lks.
  - rewrite bind_ret.
    destruct (addNode_tail_replace f h1 n node e (promote nd) nn ed m)
      as (h' & nn' & ed' & Hrun & R1 & R2 & R3 & R4 & R5 & R6 & R7 & R8 & R9 & R10 & R11);
      try assumption.
    { rewrite H1q by congruence. assumption. }
    { rewrite H1q by congruence. assumption. }
    { apply (movable_frame h); [|assumption].
      intros k c Hkc ? ?. apply H1q; assumption. }
    exists h', nn', ed'. split; [exact Hrun|].
    split; [exact R1|]. split; [exact R2|]. split; [exact R3|].
    split; [exact R4|]. split; [exact R5|]. split; [exact R6|].
    split; [exact R7|]. split; [exact R8|]. split; [exact R9|].
    split.
    { intros k c Hkc. destruct (R10 k c Hkc) as (cd & Hcd & Hcd').
      destruct (Hmov k c Hkc) as (_ & ? & ? & _).
      exists cd. split; [|assumption]. rewrite <- Hcd. symmetry.
      apply H1q; assumption. }
    intros q0 qd0 [=].
Qed.

(** [addNode], with [node] attached under the parent [n], where the tree
    is in order around the nodes involved.
    (a) Whatever the call returns, a parent of kind Unknown is of kind Dir
    afterwards.  (b) If the parent holds, under the name of [node], a child
    whose state is not Deleted, the call returns the error
    "found existing children node while adding new node"; the store differs
    from the one before in the promotion of the parent only, so the
    children map of the parent is the one before.  (c) If that child [e] is
    in state Deleted, the call succeeds, provided [e] is a child of [n]
    under that name only, [node] is detached or sits in a former parent
    under its name, and the children of [e] are nodes of their own whose
    names [node] does not use for children of its own.  Then [n] holds
    [node] under that name and nothing else changes in its map, no entry of
    which leads to [e]; [node] has [n] as parent, the relations of [e]
    after its own, the children of [e] next to its own, and
    [DeletedInSnapshot] set; [e] has no parent and no children left; the
    children of [e] have [node] as parent; the former parent of [node] no
    longer holds it. *)
Theorem addNode_in_order (f : nat) (h : Heap) (n node : ptr) (nd nn : DiffNode) :
  h !! n = Some nd -> h !! node = Some nn ->
  (NodeType nd = DiffNodeTypeUnknown ->
     exists nd', (addNode (S (S f)) n node h).2 !! n = Some nd'
                 /\ NodeType nd' = DiffNodeTypeDir)
  /\ (forall e ed,
        kids nd !! Path nn = Some e -> h !! e = Some ed -> State ed <> opDelete ->
        addNode (S (S f)) n node h
        = (Err "found existing children node while adding new node",
           <[n := promote nd]> h)
        /\ Children (promote nd) = Children nd)
  /\ (forall e ed m,
        Children nd = Some m -> m !! Path nn = Some e -> h !! e = Some ed ->
        State ed = opDelete ->
        n <> node -> e <> n -> e <> node ->
        (forall k, m !! k = Some e -> k = Path nn) -> Path nn <> EmptyString ->
        detachable h n node e (Path nn) (Parent nn) (kids ed) ->
        kids ed = ∅ \/ is_Some (Children nn) -> Parent ed = Some n ->
        map_Forall (movable h n node e (kids nn)) (kids ed) ->
        exists h' nn' ed',
          addNode (S (S f)) n node h = (Ok tt, h')
          /\ h' !! n = Some (set_Children (Some (<[Path nn := node]> m)) (promote nd))
          /\ (forall k, <[Path nn := node]> m !! k <> Some e)
          /\ h' !! node = Some nn' /\ h' !! e = Some ed'
          /\ Parent nn' = Some n
          /\ Relations nn' = Relations nn ++ Relations ed
          /\ kids nn' = kids ed ∪ kids nn
          /\ DeletedInSnapshot nn' = true
          /\ Parent ed' = None /\ kids ed' = ∅
          /\ (forall k c, kids ed !! k = Some c ->
                exists cd, h !! c = Some cd
                           /\ h' !! c = Some (set_Parent (Some node) cd))
          /\ (forall q qd, Parent nn = Some q -> h !! q = Some qd ->
                h' !! q = Some (set_Children (delete (Path nn) <$> Children qd) qd))).
Proof.
  intros Hn Hnode. split; [|split].
  - intros Ht. apply (addNode_promotes (S f) h n node nd); assumption.
  - intros e ed Hk He Hs. split.
    + apply (addNode_duplicate (S f) h n node e nd nn ed); assumption.
    + apply Children_promote.
  - intros e ed m Hm Hk He Hst Hne Hen Henode Huniq Hnz Hdet Hmn Hped Hmov.
    destruct (addNode_replace f h n node e nd nn ed m)
      as (h' & nn' & ed' & Hrun & H1 & H2 & H3 & H4 & H5 & H6 & H7 & H8 & H9 & H10 & H11);
      try assumption.
    exists h', nn', ed'. split; [exact Hrun|]. split; [exact H1|].
    split.
    { intros k Hke. destruct (decide (k = Path nn)) as [->|Hkn].
      - rewrite lookup_insert_eq in Hke. congruence.
      - rewrite lookup_insert_ne in Hke by congruence. apply Huniq in Hke. contradiction. }
    repeat (split; [assumption|]). assumption.
Qed.

Lemma addNode_in_order_witness :
  (exists nd', (addNode 2 2 10 addNode_heap).2 !! 2%nat = Some nd'
               /\ NodeType nd' = DiffNodeTypeDir)
  /\ addNode 2 0 11 addNode_heap
     = (Err "found existing children node while adding new node",
        <[0%nat := promote (addNode_at 0)]> addNode_heap)
  /\ (exists h' nn' ed',
        addNode 2 0 9 addNode_heap = (Ok tt, h')
        /\ h' !! 9%nat = Some nn' /\ h' !! 3%nat = Some ed'
        /\ Parent nn' = Some 0%nat
        /\ kids nn' !! "x" = Some 4%nat
        /\ DeletedInSnapshot nn' = true
        /\ Parent ed' = None /\ kids ed' = ∅)
  /\ exists h' nn',
       addNode 2 5 8 addNode_heap = (Ok tt, h')
       /\ h' !! 8%nat = Some nn'
       /\ Parent nn' = Some 5%nat
       /\ DeletedInSnapshot nn' = true
       /\ h' !! 7%nat
          = Some (set_Children (delete "x" <$> Children (addNode_at 7)) (addNode_at 7)).
Proof.
  assert (Hat : forall p, (p < 12)%nat -> addNode_heap !! p = Some (addNode_at p)).
  { intros p Hp. do 12 (destruct p as [|p]; [vm_compute; reflexivity|]). lia. }
  assert (Hkeys : forall (m : gmap string ptr) (e : ptr) (name : string),
             Forall (fun kv => kv.2 = e -> kv.1 = name) (map_to_list m) ->
             forall k, m !! k = Some e -> k = name).
  { intros m e name HF k Hk. apply elem_of_map_to_list in Hk.
    rewrite Forall_forall in HF. apply (HF (k, e) Hk). reflexivity. }
  split; [|split; [|split]].
  - apply (addNode_in_order 0 addNode_heap 2 10 (addNode_at 2) (addNode_at 10));
      [apply Hat; lia|apply Hat; lia|vm_compute; reflexivity].
  - apply (addNode_in_order 0 addNode_heap 0 11 (addNode_at 0) (addNode_at 11)
             (Hat 0%nat ltac:(lia)) (Hat 11%nat ltac:(lia)))
      with (e := 2%nat) (ed := addNode_at 2).
    + vm_compute; reflexivity.
    + apply Hat; lia.
    + vm_compute. discriminate.
  - destruct (addNode_in_order 0 addNode_heap 0 9 (addNode_at 0) (addNode_at 9)
                (Hat 0%nat ltac:(lia)) (Hat 9%nat ltac:(lia))) as (_ & _ & H).
    destruct (H 3%nat (addNode_at 3) (kids (addNode_at 0)))
      as (h' & nn' & ed' & Hrun & _ & _ & Hnode & He & Hp & _ & Hc & Hd & Hpe & Hke & _).
    + vm_compute; reflexivity.
    + vm_compute; reflexivity.
    + apply Hat; lia.
    + vm_compute; reflexivity.
    + lia.
    + lia.
    + lia.
    + apply Hkeys. vm_compute. repeat constructor; congruence.
    + vm_compute. discriminate.
    + vm_compute. exact I.
    + right. vm_compute. eauto.
    + vm_compute; reflexivity.
    + apply map_Forall_to_list. vm_compute.
      repeat constructor; try discriminate; try lia.
    + exists h', nn', ed'. split; [exact Hrun|]. split; [exact Hnode|].
      split; [exact He|]. split; [exact Hp|].
      split; [rewrite Hc; vm_compute; reflexivity|]. auto.
  - destruct (addNode_in_order 0 addNode_heap 5 8 (addNode_at 5) (addNode_at 8)
                (Hat 5%nat ltac:(lia)) (Hat 8%nat ltac:(lia))) as (_ & _ & H).
    destruct (H 6%nat (addNode_at 6) (kids (addNode_at 5)))
      as (h' & nn' & ed' & Hrun & _ & _ & Hnode & _ & Hp & _ & Hc & Hd & _ & _ & _ & Hq).
    + vm_compute; reflexivity.
    + vm_compute; reflexivity.
    + apply Hat; lia.
    + vm_compute; reflexivity.
    + lia.
    + lia.
    + lia.
    + apply Hkeys. vm_compute. repeat constructor; congruence.
    + vm_compute. discriminate.
    + change (Parent (addNode_at 8)) with (Some 7%nat). cbn [detachable].
      split; [lia|]. split; [lia|]. split; [lia|]. split.
      { intros k Hk. apply elem_of_map_to_list in Hk. vm_compute in Hk.
        apply elem_of_nil in Hk. contradiction. }
      exists (addNode_at 7). split; [apply Hat; lia|].
      split; [vm_compute; reflexivity|].
      apply Hkeys. vm_compute. repeat constructor; congruence.
    + left. vm_compute; reflexivity.
    + vm_compute; reflexivity.
    + apply map_Forall_to_list. vm_compute. constructor.
    + exists h', nn'. split; [exact Hrun|]. split; [exact Hnode|].
      split; [exact Hp|]. split; [exact Hd|].
      apply Hq; [vm_compute; reflexivity|apply Hat; lia].
Defined.

(** C6 (the code departs from it).  Replacing a deleted child is not
    atomic, and it can fail.  In the store the rename of "s" to "t" reaches
    on [replace_conflict_stream], the root holds the deleted "t" (at 1),
    which holds the file "x" (at 2), and the fresh destination (at 5) has a
    child "x" of its own (at 4, not deleted).  [addNode] takes the deleted
    "t" out of the root, sets the root as parent of the destination, and
    then fails on moving "x": it returns an error, the destination is not
    among the children of the root, it is not marked as deleted in the
    snapshot and has not taken the child of the deleted "t", and the name
    "t" leads nowhere; the stream is refused with that error, on that
    store.  On [nil_children_stream], where the child that is to take a
    moved node is a file, whose children map is nil, the replacement
    panics. *)
Theorem addNode_replace_not_atomic :
  (exists rd td nd,
     replace_conflict_heap !! 0%nat = Some rd
     /\ kids rd !! "t" = Some 1%nat
     /\ replace_conflict_heap !! 1%nat = Some td
     /\ State td = opDelete /\ Parent td = Some 0%nat
     /\ replace_conflict_heap !! 5%nat = Some nd
     /\ Path nd = "t"%string /\ Parent nd = None)
  /\ (exists h' rd' td' nd',
        addNode 8 0 5 replace_conflict_heap
        = (Err ("failed to move deleted fake node children: "
                +:+ "found existing children node while adding new node"), h')
        /\ ProcessBTRFSStream (host := rawHostTime) 8 replace_conflict_stream
           = (Err ("failed to process rename: "
                   +:+ "failed to add node to renamed node destination parent: "
                   +:+ "failed to move deleted fake node children: "
                   +:+ "found existing children node while adding new node"), h')
        /\ h' !! 0%nat = Some rd' /\ kids rd' !! "t" = None
        /\ (forall k, kids rd' !! k <> Some 5%nat)
        /\ getNodeByPath h' {| root := 0%nat |} "t" = None
        /\ h' !! 1%nat = Some td' /\ Parent td' = None /\ kids td' !! "x" = Some 2%nat
        /\ h' !! 5%nat = Some nd' /\ Parent nd' = Some 0%nat
        /\ DeletedInSnapshot nd' = false /\ kids nd' = {["x"%string := 4%nat]})
  /\ (ProcessBTRFSStream (host := rawHostTime) 8 nil_children_stream).1
     = Panic "assignment to entry in nil map".
Proof.
  split; [|split].
  - eexists _, _, _. repeat split; vm_compute; reflexivity.
  - eexists _, _, _, _.
    split; [vm_compute; reflexivity|].
    split; [vm_compute; reflexivity|].
    split; [vm_compute; reflexivity|].
    split; [vm_compute; reflexivity|].
    split.
    { intros k Hk. apply elem_of_map_to_list in Hk. vm_compute in Hk.
      repeat (apply elem_of_cons in Hk as [Hk|Hk]; [discriminate Hk|]).
      apply elem_of_nil in Hk. contradiction. }
    repeat split; vm_compute; reflexivity.
  - vm_compute. reflexivity.
Qed.

(** ** UTIMES (C2) *)

Lemma commandsDefs_UTIMES (defs : list commandMapOp) (ty : commandMapOp) :
  commandsDefs = Some defs -> aget defs BTRFS_SEND_C_UTIMES = Some ty ->
  Op ty = opIgnore.
Proof.
  intros Hd Ha. vm_compute in Hd. injection Hd as <-.
  vm_compute in Ha. injection Ha as <-. reflexivity.
Qed.

Lemma readCommand_type (input input' : list byte) (c : commandInst) :
  readCommand input = Ok (c, input') ->
  exists defs, commandsDefs = Some defs /\ aget defs (OriginalType c) = Some (Type_ c).
Proof.
  unfold readCommand.
  destruct (peekAndDiscard input 4) as [[b1| |] i1]; try discriminate.
  destruct (Go.Uint32 b1) as [size|]; [|discriminate].
  destruct (peekAndDiscard i1 2) as [[b2| |] i2]; try discriminate.
  destruct (Go.Uint16 b2) as [ty|]; [|discriminate].
  destruct (BTRFS_SEND_C_MAX <? ty); [discriminate|].
  destruct (peekAndDiscard i2 4) as [[b3| |] i3]; try discriminate.
  destruct (peekAndDiscard i3 size) as [[b4| |] i4]; try discriminate.
  destruct commandsDefs as [defs|]; [|discriminate].
  destruct (aget defs ty) as [t|] eqn:E; [|discriminate].
  intros [= <- <-]. simpl. eauto.
Qed.

Section Utimes.

Context {host : HostTime}.

(** The tail of [processModify] for UTIMES, once the node is at hand. *)
Lemma processModify_utimes_tail (fuel : nat) (d : Diff) (p : string) (c : commandInst)
    (h h' : Heap) :
  processModify fuel d p c h = (Ok tt, h') ->
  OriginalType c = BTRFS_SEND_C_UTIMES ->
  exists node h1 nd1 atime c1 mtime c2 ctime c3,
    ReadParam c BTRFS_SEND_A_ATIME = Ok (atime, c1)
    /\ ReadParam c1 BTRFS_SEND_A_MTIME = Ok (mtime, c2)
    /\ ReadParam c2 BTRFS_SEND_A_CTIME = Ok (ctime, c3)
    /\ h1 !! node = Some nd1
    /\ h' = <[node := set_Changes (Changes nd1 ++ [utime_change atime mtime ctime])
                        (if bool_decide (State nd1 = opCreate) then nd1
                         else set_State opModify nd1)]> h1
    /\ match getNodeByPath h d p with
       | Some n => n = node /\ h1 = h
       | None =>
           exists parent h0,
             getNodeParentOrMkdir d p h = (Ok parent, h0)
             /\ node = length h0
             /\ addNode fuel parent node
                  (h0 ++ [newDiffNode DiffNodeTypeUnknown (getLastPathPart p) opUnspec []
                            None (Some ∅)]) = (Ok tt, h1)
       end.
Proof.
  intros Hrun Ht. unfold processModify in Hrun. rewrite bind_get in Hrun.
  unfold bind at 1 in Hrun.
  match type of Hrun with
  | context [match ?m h with _ => _ end] =>
      destruct (m h) as [[node| |] h1] eqn:Hfind
  end; try discriminate.
  unfold bind at 1, getNode in Hrun.
  destruct (h1 !! node) as [nd1|] eqn:Hnode; [|discriminate].
  assert (Hpro : forall (k : unit -> M unit),
            bind (if bool_decide (State nd1 = opCreate) then ret tt
                  else upd node (set_State opModify)) k h1
            = k tt (<[node := if bool_decide (State nd1 = opCreate) then nd1
                              else set_State opModify nd1]> h1)).
  { intros k. destruct (bool_decide (State nd1 = opCreate)).
    - rewrite bind_ret. rewrite list_insert_id by assumption. reflexivity.
    - rewrite (bind_upd _ nd1) by assumption. reflexivity. }
  rewrite Hpro in Hrun. cbv zeta in Hrun. rewrite Ht in Hrun.
  change (BTRFS_SEND_C_UTIMES =? BTRFS_SEND_C_WRITE) with false in Hrun.
  change (BTRFS_SEND_C_UTIMES =? BTRFS_SEND_C_UPDATE_EXTENT) with false in Hrun.
  change (BTRFS_SEND_C_UTIMES =? BTRFS_SEND_C_TRUNCATE) with false in Hrun.
  change (BTRFS_SEND_C_UTIMES =? BTRFS_SEND_C_UTIMES) with true in Hrun.
  cbv iota in Hrun.
  unfold bind at 1, readParam, wrap, lift in Hrun.
  destruct (ReadParam c BTRFS_SEND_A_ATIME) as [[atime c1]| |] eqn:R1; try discriminate.
  unfold bind at 1 in Hrun. simpl snd in Hrun.
  destruct (ReadParam c1 BTRFS_SEND_A_MTIME) as [[mtime c2]| |] eqn:R2; try discriminate.
  unfold bind at 1 in Hrun. simpl snd in Hrun.
  destruct (ReadParam c2 BTRFS_SEND_A_CTIME) as [[ctime c3]| |] eqn:R3; try discriminate.
  simpl fst in Hrun. unfold append_change, upd in Hrun.
  rewrite list_lookup_insert_eq in Hrun by (eapply lookup_lt_Some; eassumption).
  rewrite list_insert_insert_eq in Hrun. injection Hrun as <-.
  exists node, h1, nd1, atime, c1, mtime, c2, ctime, c3.
  do 4 (split; [first [reflexivity|assumption]|]).
  split; [destruct (bool_decide (State nd1 = opCreate)); reflexivity|].
  destruct (getNodeByPath h d p) as [n|].
  - injection Hfind as <- <-. auto.
  - unfold bind at 1 in Hfind.
    destruct (getNodeParentOrMkdir d p h) as [[parent| |] h0]; try discriminate.
    unfold bind at 1, alloc in Hfind.
    unfold bind at 1, wrapf in Hfind.
    match type of Hfind with
    | context [addNode fuel parent ?x ?hh] =>
        destruct (addNode fuel parent x hh) as [[[]| |] h2] eqn:Hadd
    end; try discriminate; [|operands_in Hfind; discriminate].
    injection Hfind as <- <-. eauto 10.
Qed.


End Utimes.


(** * Further properties *)

(** ** The command decoder *)

Lemma peekAndDiscard_Ok (input input' : list byte) (n : Z) (b : list byte) :
  0 <= n -> peekAndDiscard input n = (Ok b, input') ->
  input = b ++ input' /\ Z.of_nat (length b) = n.
Proof.
  intros Hn. unfold peekAndDiscard.
  destruct (Z.ltb_spec (Z.of_nat (length input)) n); [discriminate|].
  intros [= <- <-]. split.
  - symmetry. apply take_drop.
  - rewrite length_take. lia.
Qed.

Lemma peekAndDiscard_app (b rest : list byte) :
  peekAndDiscard (b ++ rest) (Z.of_nat (length b)) = (Ok b, rest).
Proof.
  unfold peekAndDiscard.
  destruct (Z.ltb_spec (Z.of_nat (length (b ++ rest))) (Z.of_nat (length b))) as [H|_].
  - rewrite length_app in H. lia.
  - rewrite Nat2Z.id, take_app_length, drop_app_length. reflexivity.
Qed.

Lemma commandsDefs_length :
  exists defs, commandsDefs = Some defs /\ length defs = 27%nat.
Proof. eexists. split; reflexivity. Qed.

(** X1.  [readCommand] returns a command exactly on a ten-byte header with a
    type up to [BTRFS_SEND_C_MAX], followed by as many bytes of data as the
    header announces; the command carries that data and its entry of the
    table, and the reader is left after the data.  The four checksum bytes are
    skipped, whatever they are. *)
Theorem readCommand_frame (input : list byte) (c : commandInst) (rest : list byte) :
  readCommand input = Ok (c, rest) <-> command_at_head input c rest.
Proof.
  split.
  - unfold readCommand.
    destruct (peekAndDiscard input 4) as [[b1| |] i1] eqn:E1; try discriminate.
    destruct (Go.Uint32 b1) as [cmdSize|] eqn:Es; [|discriminate].
    destruct (peekAndDiscard i1 2) as [[b2| |] i2] eqn:E2; try discriminate.
    destruct (Go.Uint16 b2) as [cmdType|] eqn:Et; [|discriminate].
    destruct (Z.ltb_spec BTRFS_SEND_C_MAX cmdType) as [|Hmax]; [discriminate|].
    destruct (peekAndDiscard i2 4) as [[b3| |] i3] eqn:E3; try discriminate.
    destruct (peekAndDiscard i3 cmdSize) as [[b4| |] i4] eqn:E4; try discriminate.
    destruct commandsDefs as [defs|] eqn:Ed; [|discriminate].
    destruct (aget defs cmdType) as [ty|] eqn:Ea; [|discriminate].
    intros [= <- <-]. simpl.
    pose proof (le_uint_bound _ _ _ Es) as Hs.
    apply peekAndDiscard_Ok in E1 as [-> L1]; [|lia].
    apply peekAndDiscard_Ok in E2 as [-> L2]; [|lia].
    apply peekAndDiscard_Ok in E3 as [-> L3]; [|lia].
    apply peekAndDiscard_Ok in E4 as [-> L4]; [|lia].
    exists b1, b2, b3. simpl.
    repeat split; try lia; try assumption.
    + rewrite L4. exact Es.
    + eauto.
  - intros (sz & ty & crc & -> & L1 & L2 & L3 & Hs & Ht & Hmax & defs & Hd & Ha).
    unfold readCommand.
    replace 4 with (Z.of_nat (length sz)) at 1 by lia.
    rewrite peekAndDiscard_app, Hs.
    replace 2 with (Z.of_nat (length ty)) at 1 by lia.
    rewrite peekAndDiscard_app, Ht.
    destruct (Z.ltb_spec BTRFS_SEND_C_MAX (OriginalType c)) as [|_]; [lia|].
    replace 4 with (Z.of_nat (length crc)) at 1 by lia.
    rewrite peekAndDiscard_app, peekAndDiscard_app, Hd, Ha.
    destruct c; reflexivity.
Qed.

Lemma readCommand_frame_witness :
  readCommand (Fixture.MKDIR "dir" ++ Fixture.cmd BTRFS_SEND_C_END [])
  = Ok ({| OriginalType := BTRFS_SEND_C_MKDIR;
           Type_ := {| Name := "BTRFS_SEND_C_MKDIR"; Op := opCreate |};
           data := Fixture.attr_str BTRFS_SEND_A_PATH "dir" |},
        Fixture.cmd BTRFS_SEND_C_END []).
Proof.
  apply (proj2 (readCommand_frame _ _ _)).
  exists (Fixture.le 4 7), (Fixture.le 2 BTRFS_SEND_C_MKDIR), (Fixture.le 4 0).
  repeat split; try reflexivity.
  - vm_compute. discriminate.
  - eexists. split; reflexivity.
Defined.

(** X2.  [readCommand] never panics.  It fails on an input that is shorter
    than the frame its header announces, and on a type above
    [BTRFS_SEND_C_MAX], which it reports before it looks at the checksum or
    the data. *)
Theorem readCommand_failures (input : list byte) :
  (forall e, readCommand input <> Panic e)
  /\ (forall e, readCommand input = Err e ->
        (length input < 10)%nat
        \/ (exists t, Go.Uint16 (take 2 (drop 4 input)) = Some t
                      /\ BTRFS_SEND_C_MAX < t
                      /\ e = "stream contains invalid command type"%string)
        \/ (exists size, Go.Uint32 (take 4 input) = Some size
                         /\ Z.of_nat (length input) < 10 + size
                         /\ e = "short read on command data"%string))
  /\ (forall sz ty rest t,
        input = sz ++ ty ++ rest -> length sz = 4%nat -> length ty = 2%nat ->
        Go.Uint16 ty = Some t -> BTRFS_SEND_C_MAX < t ->
        readCommand input = Err "stream contains invalid command type").
Proof.
  assert (Hpeek : forall (i : list byte) n,
            0 <= n ->
            (exists b i', peekAndDiscard i n = (Ok b, i') /\ i = b ++ i'
                          /\ Z.of_nat (length b) = n
                          /\ b = take (Z.to_nat n) i)
            \/ (peekAndDiscard i n = (Err "failed to peek on input", i)
                /\ Z.of_nat (length i) < n)).
  { intros i n Hn. unfold peekAndDiscard.
    destruct (Z.ltb_spec (Z.of_nat (length i)) n); [right; auto|].
    left. eexists _, _. split; [reflexivity|].
    split; [symmetry; apply take_drop|]. split; [rewrite length_take; lia|reflexivity]. }
  assert (Huint : forall n (b : list byte), (n <= length b)%nat ->
            Go.le_uint n b = Some (Go.le_value (take n b))).
  { intros n b Hb. unfold Go.le_uint.
    destruct (Nat.ltb_spec (length b) n); [lia|reflexivity]. }
  destruct commandsDefs_length as (defs & Hd & Hlen).
  split; [|split].
  - intros e. unfold readCommand.
    destruct (Hpeek input 4 ltac:(lia)) as [(b1 & i1 & -> & _ & L1 & _)|[-> _]];
      [|discriminate].
    unfold Go.Uint32. rewrite Huint by lia.
    destruct (Hpeek i1 2 ltac:(lia)) as [(b2 & i2 & -> & _ & L2 & _)|[-> _]];
      [|discriminate].
    unfold Go.Uint16. rewrite Huint by lia.
    destruct (Z.ltb_spec BTRFS_SEND_C_MAX (Go.le_value (take 2 b2))) as [|Hmax];
      [discriminate|].
    destruct (Hpeek i2 4 ltac:(lia)) as [(b3 & i3 & -> & _ & L3 & _)|[-> _]];
      [|discriminate].
    pose proof (le_value_bound (take 4 b1)) as Hs.
    destruct (Hpeek i3 (Go.le_value (take 4 b1)) ltac:(lia))
      as [(b4 & i4 & -> & _ & L4 & _)|[-> _]]; [|discriminate].
    rewrite Hd.
    pose proof (le_value_bound (take 2 b2)) as Ht.
    destruct (lookup_lt_is_Some_2 defs (Z.to_nat (Go.le_value (take 2 b2)))) as [ty Hty].
    { rewrite Hlen. unfold BTRFS_SEND_C_MAX in Hmax. lia. }
    unfold aget. rewrite Hty. discriminate.
  - intros e. unfold readCommand.
    destruct (Hpeek input 4 ltac:(lia)) as [(b1 & i1 & -> & -> & L1 & Hb1)|[-> L1]].
    2: { intros _. left. lia. }
    unfold Go.Uint32 at 1. rewrite Huint by lia.
    destruct (Hpeek i1 2 ltac:(lia)) as [(b2 & i2 & -> & -> & L2 & Hb2)|[-> L2]].
    2: { intros _. left. rewrite length_app. lia. }
    unfold Go.Uint16 at 1. rewrite Huint by lia.
    assert (Hty : take 2 (drop 4 (b1 ++ b2 ++ i2)) = b2).
    { replace 4%nat with (length b1) by lia. rewrite drop_app_length.
      replace 2%nat with (length b2) by lia. apply take_app_length. }
    assert (Hsz : take 4 (b1 ++ b2 ++ i2) = b1).
    { replace 4%nat with (length b1) by lia. apply take_app_length. }
    rewrite Hty, Hsz.
    destruct (Z.ltb_spec BTRFS_SEND_C_MAX (Go.le_value (take 2 b2))) as [Hbig|Hmax].
    { intros [= <-]. right. left. eexists. split; [|split; [exact Hbig|reflexivity]].
      unfold Go.Uint16. apply Huint. lia. }
    destruct (Hpeek i2 4 ltac:(lia)) as [(b3 & i3 & -> & -> & L3 & _)|[-> L3]].
    2: { intros _. left. rewrite !length_app. lia. }
    pose proof (le_value_bound (take 4 b1)) as Hs.
    destruct (Hpeek i3 (Go.le_value (take 4 b1)) ltac:(lia))
      as [(b4 & i4 & -> & -> & L4 & _)|[-> L4]].
    + rewrite Hd.
      pose proof (le_value_bound (take 2 b2)) as Ht.
      destruct (lookup_lt_is_Some_2 defs (Z.to_nat (Go.le_value (take 2 b2)))) as [ty Hty'].
      { rewrite Hlen. unfold BTRFS_SEND_C_MAX in Hmax. lia. }
      unfold aget. rewrite Hty'. discriminate.
    + intros [= <-]. right. right. eexists. split; [|split; [|reflexivity]].
      * unfold Go.Uint32. apply Huint. lia.
      * rewrite !length_app. lia.
  - intros sz ty rest t -> L1 L2 Ht Hbig. unfold readCommand.
    replace 4 with (Z.of_nat (length sz)) at 1 by lia.
    rewrite peekAndDiscard_app.
    unfold Go.Uint32. rewrite Huint by lia.
    replace 2 with (Z.of_nat (length ty)) at 1 by lia.
    rewrite peekAndDiscard_app, Ht.
    destruct (Z.ltb_spec BTRFS_SEND_C_MAX t); [reflexivity|lia].
Qed.

Lemma readCommand_failures_witness :
  readCommand (Fixture.le 4 0 ++ Fixture.le 2 27 ++ [])
  = Err "stream contains invalid command type".
Proof.
  apply (proj2 (proj2 (readCommand_failures _)) (Fixture.le 4 0) (Fixture.le 2 27) [] 27);
    try reflexivity.
Defined.

(** ** The attribute decoder *)

(** [ReadParam] on the attribute it expects: the converter of the table is
    applied to the value, and the attribute is consumed when it succeeds. *)
Lemma ReadParam_convert (c : commandInst) (t : Z) (b rest : list byte)
    (defs : list attrMapping) (attr : attrMapping) (conv : list byte -> Res value) :
  attr_at_head (data c) t b rest ->
  Z.of_nat (length b) < 65532 ->
  attrDefs = Some defs ->
  aget defs t = Some attr ->
  converter attr = Some conv ->
  ReadParam c t
  = match conv b with
    | Ok v => Ok (v, {| OriginalType := OriginalType c; Type_ := Type_ c; data := rest |})
    | Err e => Err e
    | Panic e => Panic e
    end.
Proof.
  intros H Hb Hdefs Hattr Hconv.
  rewrite (ReadParam_header c t b rest defs attr H Hdefs Hattr).
  rewrite add16_small by lia. rewrite Hconv. reflexivity.
Qed.

(** X3.  An integer attribute is decoded from the first eight bytes of its
    value: a longer value is accepted and skipped as a whole, a shorter one
    makes the decoder panic.  (The value is taken to have fewer than 65532
    bytes: the source computes its end, [4+paramLength], in sixteen bits, and
    the sum wraps around beyond, where the slice expression panics.) *)
Theorem ReadParam_uint64_attribute (c : commandInst) (t : Z) (b rest : list byte) :
  t ∈ uint64_attributes ->
  attr_at_head (data c) t b rest ->
  Z.of_nat (length b) < 65532 ->
  ReadParam c t
  = if (length b <? 8)%nat then Panic "index out of range"
    else Ok (VUint64 (Go.le_value (take 8 b)),
             {| OriginalType := OriginalType c; Type_ := Type_ c; data := rest |}).
Proof.
  intros Ht H Hb.
  assert (Hconv : exists defs n, attrDefs = Some defs
            /\ aget defs t = Some {| AName := n; converter := Some attrConverterUint64 |}).
  { unfold uint64_attributes in Ht.
    repeat (apply elem_of_cons in Ht as [->|Ht]; [eexists _, _; split; reflexivity|]).
    apply elem_of_nil in Ht. contradiction. }
  destruct Hconv as (defs & n & Hd & Ha).
  rewrite (ReadParam_convert c t b rest defs _ attrConverterUint64 H Hb Hd Ha eq_refl).
  unfold attrConverterUint64, Go.Uint64, Go.le_uint.
  destruct (length b <? 8)%nat; reflexivity.
Qed.

Lemma ReadParam_uint64_attribute_witness :
  ReadParam {| OriginalType := BTRFS_SEND_C_TRUNCATE;
               Type_ := {| Name := "BTRFS_SEND_C_TRUNCATE"; Op := opModify |};
               data := Fixture.attr BTRFS_SEND_A_SIZE (Fixture.le 9 258) |}
            BTRFS_SEND_A_SIZE
  = Ok (VUint64 258,
        {| OriginalType := BTRFS_SEND_C_TRUNCATE;
           Type_ := {| Name := "BTRFS_SEND_C_TRUNCATE"; Op := opModify |};
           data := [] |})
  /\ ReadParam {| OriginalType := BTRFS_SEND_C_TRUNCATE;
                  Type_ := {| Name := "BTRFS_SEND_C_TRUNCATE"; Op := opModify |};
                  data := Fixture.attr BTRFS_SEND_A_SIZE (Fixture.le 7 258) |}
               BTRFS_SEND_A_SIZE
     = Panic "index out of range".
Proof.
  split.
  - rewrite (ReadParam_uint64_attribute _ BTRFS_SEND_A_SIZE (Fixture.le 9 258) []).
    + reflexivity.
    + unfold uint64_attributes. set_solver.
    + exists (Fixture.le 2 BTRFS_SEND_A_SIZE ++ Fixture.le 2 9). repeat split; reflexivity.
    + vm_compute. reflexivity.
  - rewrite (ReadParam_uint64_attribute _ BTRFS_SEND_A_SIZE (Fixture.le 7 258) []).
    + reflexivity.
    + unfold uint64_attributes. set_solver.
    + exists (Fixture.le 2 BTRFS_SEND_A_SIZE ++ Fixture.le 2 7). repeat split; reflexivity.
    + vm_compute. reflexivity.
Defined.

(** X4.  How [ReadParam] turns an attribute down, for an expected type [t] of
    the table: fewer than four bytes of data are "no more parameters"; another
    type is an error when that type is in the table, and a panic (the message
    indexes the table with it) when it is not; a value that would reach past
    the data is an error. *)
Theorem ReadParam_rejects (c : commandInst) (t : Z) :
  0 <= t < BTRFS_SEND_A_MAX_V1_PLUS_ONE ->
  ((length (data c) < 4)%nat -> ReadParam c t = Err "no more parameters")
  /\ (forall hdr rest pt,
        data c = hdr ++ rest -> length hdr = 4%nat ->
        Go.Uint16 (take 2 hdr) = Some pt -> pt <> t ->
        if pt <? BTRFS_SEND_A_MAX_V1_PLUS_ONE
        then exists e, ReadParam c t = Err e
        else ReadParam c t = Panic "index out of range")
  /\ (forall hdr rest pl,
        data c = hdr ++ rest -> length hdr = 4%nat ->
        Go.Uint16 (take 2 hdr) = Some t ->
        Go.Uint16 (drop 2 hdr) = Some pl -> Z.of_nat (length rest) < pl ->
        ReadParam c t = Err "short command param").
Proof.
  intros Ht.
  assert (Hdefs : exists defs, attrDefs = Some defs /\ length defs = 25%nat).
  { eexists. split; reflexivity. }
  destruct Hdefs as (defs & Hd & Hlen).
  assert (Hhdr : forall hdr rest : list byte, length hdr = 4%nat ->
            (length (hdr ++ rest) <? 4)%nat = false
            /\ take 2 (hdr ++ rest) = take 2 hdr
            /\ take 2 (drop 2 (hdr ++ rest)) = drop 2 hdr).
  { intros hdr rest L.
    destruct hdr as [|h0 [|h1 [|h2 [|h3 [|? ?]]]]]; simpl in L; try discriminate.
    split; [apply Nat.ltb_ge; simpl; lia|]. split; reflexivity. }
  split; [|split].
  - intros Hshort. unfold ReadParam.
    destruct (Nat.ltb_spec (length (data c)) 4); [reflexivity|lia].
  - intros hdr rest pt Hdata L Hpt Hne. unfold ReadParam. rewrite Hdata.
    destruct (Hhdr hdr rest L) as (-> & -> & ->). rewrite Hpt.
    assert (Hpl : exists pl, Go.Uint16 (drop 2 hdr) = Some pl).
    { unfold Go.Uint16, Go.le_uint. rewrite length_drop, L. simpl. eauto. }
    destruct Hpl as (pl & ->). rewrite Hd.
    destruct (Z.eqb_spec pt t) as [|_]; [contradiction|]. simpl negb. cbv iota.
    destruct (lookup_lt_is_Some_2 defs (Z.to_nat t)) as [a Ha].
    { rewrite Hlen. unfold BTRFS_SEND_A_MAX_V1_PLUS_ONE in Ht. lia. }
    unfold aget. rewrite Ha.
    pose proof (le_uint_bound _ _ _ Hpt) as Hb.
    destruct (Z.ltb_spec pt BTRFS_SEND_A_MAX_V1_PLUS_ONE) as [Hlt|Hge].
    + destruct (lookup_lt_is_Some_2 defs (Z.to_nat pt)) as [a' Ha'].
      { rewrite Hlen. unfold BTRFS_SEND_A_MAX_V1_PLUS_ONE in Hlt. lia. }
      rewrite Ha'. eauto.
    + rewrite (lookup_ge_None_2 defs (Z.to_nat pt)); [reflexivity|].
      rewrite Hlen. unfold BTRFS_SEND_A_MAX_V1_PLUS_ONE in Hge. lia.
  - intros hdr rest pl Hdata L Hpt Hpl Hshort. unfold ReadParam. rewrite Hdata.
    destruct (Hhdr hdr rest L) as (-> & -> & ->). rewrite Hpt, Hpl, Hd.
    rewrite Z.eqb_refl. simpl negb. cbv iota.
    destruct (Z.ltb_spec (Z.of_nat (length (hdr ++ rest))) (pl + 4)) as [|Hge];
      [reflexivity|].
    rewrite length_app in Hge. lia.
Qed.

Lemma ReadParam_rejects_witness :
  ReadParam {| OriginalType := BTRFS_SEND_C_MKFILE;
               Type_ := {| Name := "BTRFS_SEND_C_MKFILE"; Op := opCreate |};
               data := Fixture.attr 25 [] |}
            BTRFS_SEND_A_PATH
  = Panic "index out of range".
Proof.
  pose proof (ReadParam_rejects
                {| OriginalType := BTRFS_SEND_C_MKFILE;
                   Type_ := {| Name := "BTRFS_SEND_C_MKFILE"; Op := opCreate |};
                   data := Fixture.attr 25 [] |}
                BTRFS_SEND_A_PATH ltac:(vm_compute; split; [discriminate|reflexivity]))
    as (_ & H & _).
  exact (H (Fixture.attr 25 []) [] 25 eq_refl eq_refl eq_refl ltac:(discriminate)).
Defined.

(** ** Paths *)

Lemma string_app_assoc (a b c : string) : (a +:+ b) +:+ c = a +:+ (b +:+ c).
Proof.
  induction a as [|x a IH]; [reflexivity|].
  change (String x ((a +:+ b) +:+ c) = String x (a +:+ (b +:+ c))). f_equal. exact IH.
Qed.

Lemma string_app_nil_r (a : string) : a +:+ EmptyString = a.
Proof.
  induction a as [|x a IH]; [reflexivity|].
  change (String x (a +:+ EmptyString) = String x a). f_equal. exact IH.
Qed.

Lemma Split_nonempty (s : string) : Go.Split s <> [].
Proof.
  destruct s as [|c r]; simpl; [discriminate|].
  destruct (Ascii.eqb c Go.slash); [discriminate|].
  destruct (Go.Split r); discriminate.
Qed.

Lemma Split_no_slash (s : string) : Forall (fun x => no_slash x = true) (Go.Split s).
Proof.
  induction s as [|c r IH]; simpl.
  - repeat constructor.
  - destruct (Ascii.eqb c Go.slash) eqn:E.
    + constructor; [reflexivity|assumption].
    + pose proof (Split_nonempty r) as Hr.
      destruct (Go.Split r) as [|x xs]; [contradiction|].
      inversion IH; subst. constructor; [|assumption].
      unfold no_slash. simpl. rewrite E. assumption.
Qed.

Lemma Join_cons (x : string) (xs : list string) :
  xs <> [] -> Go.Join (x :: xs) = x +:+ String Go.slash (Go.Join xs).
Proof. destruct xs; [contradiction|reflexivity]. Qed.

Lemma Join_Split (s : string) : Go.Join (Go.Split s) = s.
Proof.
  induction s as [|c r IH]; [reflexivity|]. simpl.
  destruct (Ascii.eqb_spec c Go.slash) as [->|Hne].
  - rewrite Join_cons by apply Split_nonempty. rewrite IH. reflexivity.
  - pose proof (Split_nonempty r) as Hr.
    destruct (Go.Split r) as [|x xs]; [contradiction|].
    destruct xs as [|y ys].
    + simpl in *. rewrite IH. reflexivity.
    + rewrite Join_cons by discriminate. rewrite Join_cons in IH by discriminate.
      rewrite <- IH. reflexivity.
Qed.

Lemma Split_of_no_slash (s : string) : no_slash s = true -> Go.Split s = [s].
Proof.
  induction s as [|c r IH]; [reflexivity|]. unfold no_slash. simpl.
  intros H. apply andb_true_iff in H as [Hc Hr].
  apply negb_true_iff in Hc. rewrite Hc. rewrite IH by exact Hr. reflexivity.
Qed.

Lemma Split_app_slash (a b : string) :
  Go.Split (a +:+ String Go.slash b) = Go.Split a ++ Go.Split b.
Proof.
  induction a as [|c r IH]; simpl.
  - reflexivity.
  - destruct (Ascii.eqb c Go.slash).
    + rewrite IH. reflexivity.
    + rewrite IH. pose proof (Split_nonempty r) as Hr.
      destruct (Go.Split r); [contradiction|reflexivity].
Qed.

Lemma Join_snoc (l : list string) (x : string) :
  l <> [] -> Go.Join (l ++ [x]) = Go.Join l +:+ String Go.slash x.
Proof.
  induction l as [|y l IH]; [contradiction|]. intros _.
  destruct l as [|z l].
  - reflexivity.
  - change ((y :: z :: l) ++ [x]) with (y :: ((z :: l) ++ [x])).
    rewrite (Join_cons y ((z :: l) ++ [x])) by discriminate.
    rewrite IH by discriminate.
    rewrite (Join_cons y (z :: l)) by discriminate.
    rewrite string_app_assoc. reflexivity.
Qed.

Lemma Split_snoc (s : string) :
  exists l, Go.Split s = l ++ [getLastPathPart s] /\ removelast (Go.Split s) = l.
Proof.
  unfold getLastPathPart. pose proof (Split_nonempty s) as H.
  exists (removelast (Go.Split s)). split; [|reflexivity].
  apply app_removelast_last. assumption.
Qed.

(** X5.  The two halves [getNodeParentOrMkdir] and [getLastPathPart] cut a
    path into: the last part holds no slash; the path is the last part alone
    when it holds no slash, and otherwise the parent path, a slash and the
    last part. *)
Theorem path_parts (path : string) :
  no_slash (getLastPathPart path) = true
  /\ (if no_slash path
      then getLastPathPart path = path /\ parentPath path = EmptyString
      else path = parentPath path +:+ String Go.slash (getLastPathPart path))
  /\ (forall d : Diff, getNodeParentOrMkdir d path
        = if String.eqb (parentPath path) EmptyString then ret (root d)
          else mkdirp (root d) (parentPath path) false false).
Proof.
  destruct (Split_snoc path) as (l & Hs & Hl).
  split; [|split].
  - pose proof (Split_no_slash path) as H. rewrite Hs in H.
    apply Forall_app in H as [_ H]. inversion H; assumption.
  - destruct (no_slash path) eqn:E.
    + pose proof (Split_of_no_slash path E) as H1.
      unfold getLastPathPart, parentPath. rewrite H1. split; reflexivity.
    + unfold parentPath. rewrite Hl.
      destruct l as [|x l].
      * exfalso. simpl in Hs.
        pose proof (Split_no_slash path) as H. rewrite Hs in H.
        inversion H as [|? ? Hn _]; subst.
        pose proof (Join_Split path) as HJ. rewrite Hs in HJ. simpl in HJ.
        rewrite HJ in Hn. congruence.
      * rewrite <- Join_snoc by discriminate. rewrite <- Hs. symmetry. apply Join_Split.
  - reflexivity.
Qed.

Lemma walk_snoc (h : Heap) (names : list string) (k : string) (r : ptr) :
  walk h (names ++ [k]) r
  = match walk h names r with
    | Some p => match h !! p with
                | Some pd => kids pd !! k
                | None => None
                end
    | None => None
    end.
Proof.
  revert r. induction names as [|x names IH]; intros r; simpl.
  - destruct (h !! r) as [rd|]; [|reflexivity].
    destruct (kids rd !! k); reflexivity.
  - destruct (h !! r) as [rd|]; [|reflexivity].
    destruct (kids rd !! x); [apply IH|reflexivity].
Qed.


Lemma Split_path_of (names : list string) :
  Forall (fun k => no_slash k = true) names -> names <> [] ->
  Go.Split (path_of names) = EmptyString :: names.
Proof.
  induction names as [|k names IH]; [contradiction|]. intros HF _.
  inversion HF as [|? ? Hk HF']; subst.
  change (path_of (k :: names)) with (String Go.slash (k +:+ path_of names)).
  cbn [Go.Split]. rewrite Ascii.eqb_refl. f_equal.
  destruct names as [|k' names].
  - simpl path_of. rewrite string_app_nil_r. apply Split_of_no_slash. assumption.
  - change (path_of (k' :: names)) with (String Go.slash (k' +:+ path_of names)).
    rewrite Split_app_slash, (Split_of_no_slash k Hk).
    change (String Go.slash (k' +:+ path_of names)) with (path_of (k' :: names)) in IH.
    specialize (IH HF' ltac:(discriminate)).
    change (path_of (k' :: names)) with (String Go.slash (k' +:+ path_of names)) in IH.
    cbn [Go.Split] in IH. rewrite Ascii.eqb_refl in IH. injection IH as IH.
    rewrite IH. reflexivity.
Qed.

Lemma path_of_snoc (names : list string) (k : string) :
  path_of (names ++ [k]) = path_of names +:+ String Go.slash k.
Proof.
  induction names as [|x names IH]; simpl.
  - rewrite string_app_nil_r. reflexivity.
  - rewrite IH, string_app_assoc. reflexivity.
Qed.

Lemma chain_names (h : Heap) (r : ptr) (names : list string) (n : ptr) :
  chain h r names n -> Forall (fun k => no_slash k = true) names.
Proof.
  induction 1 as [|names p pd k n nd _ IH]; [constructor|].
  apply Forall_app. split; [assumption|]. repeat constructor. assumption.
Qed.

Lemma chain_walk (h : Heap) (r : ptr) (names : list string) (n : ptr) :
  chain h r names n -> walk h names r = Some n.
Proof.
  induction 1 as [|names p pd k n nd _ IH Hp Hk]; [reflexivity|].
  rewrite walk_snoc, IH, Hp. exact Hk.
Qed.

(** X6.  [GetChainPath] and [getNodeByPath] undo each other along a chain of
    children that know their parent: the chain path of the node is the names
    on the way, each after a slash, and looking that path up gives the node
    back.  The recursion of [GetChainPath] is as deep as the chain is long. *)
Theorem chain_path_round_trip (h : Heap) (d : Diff) (rd : DiffNode)
    (names : list string) (n : ptr) (fuel : nat) :
  h !! root d = Some rd -> Parent rd = None -> Path rd = EmptyString ->
  chain h (root d) names n -> (length names < fuel)%nat ->
  GetChainPath fuel h n = Ok (path_of names)
  /\ getNodeByPath h d (path_of names) = Some n.
Proof.
  intros Hr Hrp Hrn Hc Hf. split.
  - revert fuel Hf. induction Hc as [|names p pd k n nd _ IH Hp Hk Hn Hpar Hpath Hns];
      intros fuel Hf.
    + destruct fuel as [|f]; [simpl in Hf; lia|]. simpl. rewrite Hr, Hrp, Hrn. reflexivity.
    + rewrite length_app in Hf. simpl in Hf.
      destruct fuel as [|f]; [lia|]. simpl. rewrite Hn, Hpar.
      rewrite IH by lia. rewrite Hpath, path_of_snoc. reflexivity.
  - unfold getNodeByPath, path_entries.
    destruct names as [|k names].
    + inversion Hc as [|names' ? ? ? ? ? ? ? ? ? ? ? ? E]; subst.
      * reflexivity.
      * destruct names'; discriminate.
    + rewrite Split_path_of by (eauto using chain_names || discriminate).
      apply chain_walk. assumption.
Qed.

Lemma chain_path_round_trip_witness :
  let h := (ProcessBTRFSStream (host := rawHostTime) 8 rename_dir_stream).2 in
  GetChainPath 8 h 2%nat = Ok "/a/f"%string
  /\ getNodeByPath h {| root := 0%nat |} "/a/f" = Some 2%nat.
Proof.
  intros h.
  assert (Hat : forall p, (p < 4)%nat -> h !! p = Some (node_at h p)).
  { intros p Hp. do 4 (destruct p as [|p]; [vm_compute; reflexivity|]). lia. }
  apply (chain_path_round_trip h {| root := 0%nat |} (node_at h 0) ["a"; "f"]%string 2 8).
  - apply Hat. lia.
  - vm_compute; reflexivity.
  - vm_compute; reflexivity.
  - apply (chain_child h 0%nat ["a"%string] 1%nat (node_at h 1) "f" 2%nat (node_at h 2));
      try (vm_compute; reflexivity); try (apply Hat; lia).
    apply (chain_child h 0%nat [] 0%nat (node_at h 0) "a" 1%nat (node_at h 1));
      try (vm_compute; reflexivity); try (apply Hat; lia).
    constructor.
  - simpl. lia.
Defined.

(** ** mkdirp *)

Lemma grows_refl (h : Heap) : grows h h.
Proof.
  intros p pd Hp. exists pd. split; [assumption|]. split; [auto|]. split; [auto|].
  destruct pd; reflexivity.
Qed.

Lemma grows_trans (h1 h2 h3 : Heap) : grows h1 h2 -> grows h2 h3 -> grows h1 h3.
Proof.
  intros H12 H23 p pd Hp.
  destruct (H12 p pd Hp) as (pd2 & Hp2 & Hk2 & Hs2 & He2).
  destruct (H23 p pd2 Hp2) as (pd3 & Hp3 & Hk3 & Hs3 & He3).
  exists pd3. split; [assumption|]. split; [auto|]. split; [auto|].
  rewrite <- He2, <- He3. reflexivity.
Qed.

Lemma grows_length (h h' : Heap) : grows h h' -> (length h <= length h')%nat.
Proof.
  intros H. destruct (Nat.le_gt_cases (length h) (length h')) as [|Hgt]; [assumption|].
  destruct (lookup_lt_is_Some_2 h (length h') Hgt) as [x Hx].
  destruct (H _ _ Hx) as (x' & Hx' & _). apply lookup_lt_Some in Hx'. lia.
Qed.

Lemma grows_walk (h h' : Heap) (entries : list string) (r n : ptr) :
  grows h h' -> walk h entries r = Some n -> walk h' entries r = Some n.
Proof.
  intros Hg. revert r. induction entries as [|e rest IH]; intros r; simpl; [auto|].
  destruct (h !! r) as [rd|] eqn:Hr; [|discriminate].
  destruct (kids rd !! e) as [c|] eqn:Hc; [|discriminate].
  destruct (Hg r rd Hr) as (rd' & Hr' & Hk & _).
  rewrite Hr', (Hk e c Hc). apply IH.
Qed.

(** One entry that is missing: the new directory and its place. *)
Lemma mkdirp_step_grows (h : Heap) (cur : ptr) (cn : DiffNode) (m : gmap string ptr)
    (entry : string) (new : DiffNode) :
  h !! cur = Some cn -> Children cn = Some m -> m !! entry = None ->
  grows h (<[cur := set_Children (Some (<[entry := length h]> m)) cn]> (h ++ [new])).
Proof.
  intros Hc Hm Hfree p pd Hp.
  assert (Hlt : (cur < length h)%nat) by (eapply lookup_lt_Some; eassumption).
  destruct (decide (p = cur)) as [->|Hne].
  - assert (pd = cn) by congruence. subst pd.
    eexists. split.
    { apply list_lookup_insert_eq. rewrite length_app. simpl. lia. }
    split.
    + intros k c Hk. unfold kids in *. rewrite Hm in Hk. simpl in *.
      destruct (decide (k = entry)) as [->|Hk']; [congruence|].
      rewrite lookup_insert_ne by congruence. assumption.
    + split; [simpl; eauto|]. destruct cn; reflexivity.
  - exists pd. split.
    { rewrite list_lookup_insert_ne by congruence. apply lookup_app_l_Some. assumption. }
    split; [auto|]. split; [auto|]. destruct pd; reflexivity.
Qed.

Lemma mkdirp_loop_existing (h : Heap) (entries : list string) (idx len : nat)
    (old new : bool) (cur n : ptr) :
  walk h entries cur = Some n ->
  mkdirp_loop entries idx len old new cur h = (Ok n, h).
Proof.
  revert idx cur. induction entries as [|e rest IH]; intros idx cur; simpl.
  - intros [= <-]. reflexivity.
  - destruct (h !! cur) as [cn|] eqn:Hc; [|discriminate].
    destruct (kids cn !! e) as [c|] eqn:Hk; [|discriminate].
    intros Hw. rewrite (bind_getNode _ cn) by assumption. rewrite Hk. apply IH. exact Hw.
Qed.

(** X7.  On a path that leads to a node, [mkdirp] returns that node and leaves
    the tree as it is, whatever states it was asked to give new nodes. *)
Theorem mkdirp_existing (h : Heap) (d : Diff) (path : string) (old new : bool) (n : ptr) :
  getNodeByPath h d path = Some n ->
  mkdirp (root d) path old new h = (Ok n, h).
Proof. intros H. unfold mkdirp. apply mkdirp_loop_existing. exact H. Qed.

Lemma mkdirp_existing_witness :
  mkdirp 0 "a/f" true true (ProcessBTRFSStream (host := rawHostTime) 8 rename_dir_stream).2
  = (Ok 2%nat, (ProcessBTRFSStream (host := rawHostTime) 8 rename_dir_stream).2).
Proof.
  apply (mkdirp_existing _ {| root := 0%nat |}). vm_compute. reflexivity.
Defined.

Lemma mkdirp_loop_fresh (entries : list string) :
  forall (idx len : nat) (old new : bool) (cur n : ptr) (h h' : Heap) (cn : DiffNode),
    entries <> [] -> h !! cur = Some cn -> kids cn = ∅ ->
    mkdirp_loop entries idx len old new cur h = (Ok n, h') ->
    (length h <= n)%nat.
Proof.
  induction entries as [|e rest IH]; [intros; contradiction|].
  intros idx len old new cur n h h' cn _ Hc Hk. simpl.
  rewrite (bind_getNode _ cn) by assumption. rewrite Hk, lookup_empty.
  unfold bind at 1, alloc. unfold bind at 1, putChild.
  assert (Hlt : (cur < length h)%nat) by (eapply lookup_lt_Some; eassumption).
  rewrite lookup_app_l by assumption. rewrite Hc, list_lookup_middle by reflexivity.
  destruct (Children cn) as [m|]; [|discriminate].
  destruct rest as [|e' rest'].
  - simpl. intros [= <- _]. lia.
  - intros Hrun.
    eapply IH in Hrun; [|discriminate| |].
    + rewrite length_insert, length_app in Hrun. lia.
    + rewrite list_lookup_insert_ne by lia. apply list_lookup_middle. reflexivity.
    + reflexivity.
Qed.

Lemma mkdirp_loop_spec (entries : list string) :
  forall (idx len : nat) (old new : bool) (cur n : ptr) (h h' : Heap),
    (idx + length entries = len)%nat ->
    mkdirp_loop entries idx len old new cur h = (Ok n, h') ->
    walk h' entries cur = Some n
    /\ grows h h'
    /\ (forall q qd, (length h <= q)%nat -> h' !! q = Some qd ->
          NodeType qd = DiffNodeTypeDir /\ is_Some (Children qd))
    /\ (forall nd, (length h <= n)%nat -> h' !! n = Some nd ->
          State nd = if new then opCreate else opUnspec).
Proof.
  induction entries as [|e rest IH]; intros idx len old new cur n h h' Hidx; simpl.
  - intros [= <- <-]. split; [reflexivity|]. split; [apply grows_refl|].
    split.
    + intros q qd Hq Hqd. apply lookup_lt_Some in Hqd. lia.
    + intros nd Hn Hnd. apply lookup_lt_Some in Hnd. lia.
  - unfold bind at 1, getNode.
    destruct (h !! cur) as [cn|] eqn:Hc; [|discriminate].
    destruct (kids cn !! e) as [c|] eqn:Hk.
    + intros Hrun. simpl in Hidx.
      destruct (IH (S idx) len old new c n h h' ltac:(lia) Hrun) as (Hw & Hg & Hnew & Hst).
      split; [|auto].
      destruct (Hg cur cn Hc) as (cn' & Hc' & Hk' & _).
      rewrite Hc', (Hk' e c Hk). exact Hw.
    + unfold bind at 1, alloc. unfold bind at 1, putChild.
      assert (Hlt : (cur < length h)%nat) by (eapply lookup_lt_Some; eassumption).
      rewrite lookup_app_l by assumption. rewrite Hc, list_lookup_middle by reflexivity.
      destruct (Children cn) as [m|] eqn:Hm; [|discriminate].
      cbn [Path newDiffNode].
      set (st := if (if (idx =? len - 1)%nat then new else old) then opCreate else opUnspec).
      set (fresh := newDiffNode DiffNodeTypeDir e st [] (Some cur) (Some ∅)).
      set (h2 := <[cur := set_Children (Some (<[e := length h]> m)) cn]> (h ++ [fresh])).
      intros Hrun. simpl in Hidx.
      assert (Hk0 : m !! e = None) by (unfold kids in Hk; rewrite Hm in Hk; exact Hk).
      assert (Hg2 : grows h h2) by (apply mkdirp_step_grows; assumption).
      assert (Hfresh : h2 !! length h = Some fresh).
      { unfold h2. rewrite list_lookup_insert_ne by lia.
        apply list_lookup_middle. reflexivity. }
      assert (Hlen2 : length h2 = S (length h)).
      { unfold h2. rewrite length_insert, length_app. simpl. lia. }
      destruct (IH (S idx) len old new (length h) n h2 h' ltac:(lia) Hrun)
        as (Hw & Hg & Hnew & Hst).
      assert (Hcur2 : h2 !! cur = Some (set_Children (Some (<[e := length h]> m)) cn)).
      { unfold h2. apply list_lookup_insert_eq. rewrite length_app. simpl. lia. }
      split; [|split; [|split]].
      * destruct (Hg cur _ Hcur2) as (cn' & Hc' & Hk' & _).
        rewrite Hc', (Hk' e (length h)); [exact Hw|].
        unfold kids. simpl. apply lookup_insert_eq.
      * eapply grows_trans; eassumption.
      * intros q qd Hq Hqd.
        destruct (decide (q = length h)) as [->|Hne].
        -- destruct (Hg _ _ Hfresh) as (f' & Hf' & _ & Hs & He).
           assert (qd = f') by congruence. subst f'.
           split.
           ++ change (NodeType qd) with (NodeType (set_Children (Children fresh) qd)).
              rewrite He. reflexivity.
           ++ apply Hs. simpl. eauto.
        -- apply (Hnew q qd); [lia|assumption].
      * intros nd Hn Hnd.
        destruct rest as [|e' rest'].
        -- simpl in Hrun. injection Hrun as <- <-.
           rewrite Hfresh in Hnd. injection Hnd as <-. simpl. unfold st.
           simpl in Hidx. replace (idx =? len - 1)%nat with true; [reflexivity|].
           symmetry. apply Nat.eqb_eq. lia.
        -- apply Hst; [|assumption].
           rewrite Hlen2.
           pose proof (mkdirp_loop_fresh (e' :: rest') (S idx) len old new (length h) n h2 h'
                         fresh ltac:(discriminate) Hfresh eq_refl Hrun) as Hge.
           lia.
Qed.

Lemma directories_only_step (h : Heap) (cur : ptr) (cn : DiffNode) (m : gmap string ptr)
    (entry : string) (st : operation) :
  directories_only h -> h !! cur = Some cn -> Children cn = Some m ->
  directories_only
    (<[cur := set_Children (Some (<[entry := length h]> m)) cn]>
       (h ++ [newDiffNode DiffNodeTypeDir entry st [] (Some cur) (Some ∅)])).
Proof.
  intros Hd Hc Hm p pd Hp.
  assert (Hlt : (cur < length h)%nat) by (eapply lookup_lt_Some; eassumption).
  assert (Hvalid : forall c, is_Some (h !! c) ->
            is_Some ((<[cur := set_Children (Some (<[entry := length h]> m)) cn]>
                        (h ++ [newDiffNode DiffNodeTypeDir entry st [] (Some cur) (Some ∅)]))
                     !! c)).
  { intros c Hv. apply lookup_lt_is_Some_1 in Hv. apply lookup_lt_is_Some_2.
    rewrite length_insert, length_app. simpl. lia. }
  destruct (decide (p = cur)) as [->|Hne].
  - rewrite list_lookup_insert_eq in Hp by (rewrite length_app; simpl; lia).
    injection Hp as <-. split; [simpl; eauto|].
    intros k c. unfold kids. simpl.
    destruct (decide (k = entry)) as [->|Hk].
    + rewrite lookup_insert_eq. intros [= <-].
      apply lookup_lt_is_Some_2. rewrite length_insert, length_app. simpl. lia.
    + rewrite lookup_insert_ne by congruence. intros Hk'.
      apply Hvalid. apply (proj2 (Hd cur cn Hc) k). unfold kids. rewrite Hm. exact Hk'.
  - rewrite list_lookup_insert_ne in Hp by congruence.
    destruct (decide (p = length h)) as [->|Hne'].
    + rewrite list_lookup_middle in Hp by reflexivity. injection Hp as <-.
      split; [simpl; eauto|]. intros k c. unfold kids. simpl.
      rewrite lookup_empty. discriminate.
    + assert (Hp' : h !! p = Some pd).
      { destruct (Nat.lt_ge_cases p (length h)) as [Hl|Hl].
        - rewrite lookup_app_l in Hp by assumption. exact Hp.
        - apply lookup_lt_Some in Hp. rewrite length_app in Hp. simpl in Hp. lia. }
      destruct (Hd p pd Hp') as [Hs Hk]. split; [assumption|].
      intros k c Hkc. apply Hvalid. eauto.
Qed.

Lemma mkdirp_loop_succeeds (entries : list string) :
  forall (idx len : nat) (old new : bool) (cur : ptr) (h : Heap),
    directories_only h -> is_Some (h !! cur) ->
    exists n h', mkdirp_loop entries idx len old new cur h = (Ok n, h')
                 /\ directories_only h'.
Proof.
  induction entries as [|e rest IH]; intros idx len old new cur h Hd [cn Hc]; simpl.
  - eauto.
  - rewrite (bind_getNode _ cn) by assumption.
    destruct (Hd cur cn Hc) as [[m Hm] Hk].
    destruct (kids cn !! e) as [c|] eqn:Hkc.
    + apply IH; [assumption|]. eauto.
    + unfold bind at 1, alloc. unfold bind at 1, putChild.
      assert (Hlt : (cur < length h)%nat) by (eapply lookup_lt_Some; eassumption).
      rewrite lookup_app_l by assumption. rewrite Hc, list_lookup_middle by reflexivity.
      rewrite Hm. cbn [Path newDiffNode].
      apply IH.
      * apply directories_only_step; assumption.
      * apply lookup_lt_is_Some_2. rewrite length_insert, length_app. simpl. lia.
Qed.

(** X8.  What [mkdirp] leaves when it returns: the path leads to the node it
    returns; every path that led to a node still leads to it, and every node
    keeps its fields and the children it had; the nodes it made are
    directories with a children map; and a last directory it made has the
    state asked for new nodes (Created or Unspecified).  In a tree whose nodes
    all have a children map it does return. *)
Theorem mkdirp_creates (h : Heap) (d : Diff) (path : string) (old new : bool) :
  (forall n h',
     mkdirp (root d) path old new h = (Ok n, h') ->
     getNodeByPath h' d path = Some n
     /\ (forall p m, getNodeByPath h d p = Some m -> getNodeByPath h' d p = Some m)
     /\ grows h h'
     /\ (forall q qd, (length h <= q)%nat -> h' !! q = Some qd ->
           NodeType qd = DiffNodeTypeDir /\ is_Some (Children qd))
     /\ (forall nd, (length h <= n)%nat -> h' !! n = Some nd ->
           State nd = if new then opCreate else opUnspec))
  /\ (directories_only h -> is_Some (h !! root d) ->
      exists n h', mkdirp (root d) path old new h = (Ok n, h')).
Proof.
  split.
  - intros n h' Hrun. unfold mkdirp in Hrun.
    apply mkdirp_loop_spec in Hrun as (Hw & Hg & Hnew & Hst); [|lia].
    split; [exact Hw|]. split; [|auto].
    intros p m Hp. unfold getNodeByPath in *. eapply grows_walk; eassumption.
  - intros Hd Hr. unfold mkdirp.
    destruct (mkdirp_loop_succeeds (path_entries path) 0 (length (path_entries path))
                old new (root d) h Hd Hr) as (n & h' & Hrun & _).
    eauto.
Qed.

Lemma mkdirp_creates_witness :
  exists h',
    mkdirp 0 "x/y" false true initialHeap = (Ok 2%nat, h')
    /\ getNodeByPath h' {| root := 0%nat |} "x/y" = Some 2%nat
    /\ State (node_at h' 2) = opCreate /\ State (node_at h' 1) = opUnspec.
Proof.
  destruct (mkdirp_creates initialHeap {| root := 0%nat |} "x/y" false true) as [H _].
  eexists. split; [vm_compute; reflexivity|].
  match goal with
  | |- getNodeByPath ?hh _ _ = _ /\ _ =>
      destruct (H 2%nat hh ltac:(vm_compute; reflexivity)) as (H1 & _ & _ & _ & H5)
  end.
  split; [exact H1|]. split.
  - apply H5; [simpl; lia|vm_compute; reflexivity].
  - vm_compute; reflexivity.
Defined.

(** X9.  [mkdirp] cannot make a directory below a node that has no children
    map (a file made by [processCreate]): the assignment to the nil map of
    that node panics, once the new directory is allocated. *)
Theorem mkdirp_below_file_panics (h : Heap) (d : Diff) (pre : list string)
    (entry : string) (rest : list string) (old new : bool) (f : ptr) (fd : DiffNode)
    (path : string) :
  path_entries path = pre ++ entry :: rest ->
  walk h pre (root d) = Some f -> h !! f = Some fd -> Children fd = None ->
  exists fresh,
    mkdirp (root d) path old new h
    = (Panic "assignment to entry in nil map", h ++ [fresh]).
Proof.
  intros Hp Hw Hf Hnil. unfold mkdirp. rewrite Hp.
  generalize (length (pre ++ entry :: rest)). generalize 0%nat.
  revert Hw. generalize (root d). clear Hp.
  induction pre as [|e pre IH]; intros cur Hw idx len; simpl in *.
  - injection Hw as ->. rewrite (bind_getNode _ fd) by assumption.
    unfold kids. rewrite Hnil. simpl. rewrite lookup_empty.
    unfold bind at 1, alloc. unfold bind at 1, putChild.
    assert (Hlt : (f < length h)%nat) by (eapply lookup_lt_Some; eassumption).
    rewrite lookup_app_l by assumption. rewrite Hf, list_lookup_middle by reflexivity.
    rewrite Hnil. eauto.
  - destruct (h !! cur) as [cn|] eqn:Hc; [|discriminate].
    destruct (kids cn !! e) as [c|] eqn:Hk; [|discriminate].
    rewrite (bind_getNode _ cn) by assumption. rewrite Hk. apply IH. exact Hw.
Qed.

Lemma mkdirp_below_file_panics_witness :
  exists fresh,
    mkdirp 0 "a/f/sub" false true
      (ProcessBTRFSStream (host := rawHostTime) 8 rename_dir_stream).2
    = (Panic "assignment to entry in nil map",
       (ProcessBTRFSStream (host := rawHostTime) 8 rename_dir_stream).2 ++ [fresh]).
Proof.
  apply (mkdirp_below_file_panics _ {| root := 0%nat |} ["a"; "f"]%string "sub" [] false true
           2%nat (node_at (ProcessBTRFSStream (host := rawHostTime) 8 rename_dir_stream).2 2));
    vm_compute; reflexivity.
Defined.

(** ** Attaching and detaching *)

Lemma GetChainPath_S (f : nat) (h : Heap) (n : ptr) :
  GetChainPath (S f) h n
  = match h !! n with
    | None => Panic "invalid pointer"
    | Some nd =>
        match Parent nd with
        | Some p =>
            match GetChainPath f h p with
            | Ok s => Ok (s +:+ "/" +:+ Path nd)
            | r => r
            end
        | None => Ok (Path nd)
        end
    end.
Proof. reflexivity. Qed.

(** A chain path computed within a bound is computed within a larger one. *)
Lemma GetChainPath_more (f : nat) (h : Heap) (n : ptr) (s : string) :
  GetChainPath f h n = Ok s -> GetChainPath (S f) h n = Ok s.
Proof.
  revert n s. induction f as [|f IH]; intros n s H; [discriminate|].
  rewrite GetChainPath_S in H. rewrite GetChainPath_S.
  destruct (h !! n) as [nd|]; [|discriminate].
  destruct (Parent nd) as [p|]; [|exact H].
  destruct (GetChainPath f h p) as [s0| |] eqn:E; try discriminate.
  rewrite (IH _ _ E). exact H.
Qed.

(** The message of [deleteNode] and of [removeFromParent] for a node that
    has a parent: it is built when the chain path of the node is. *)
Lemma chain_operands (fuel : nat) (h : Heap) (e q : ptr) (ed : DiffNode) :
  h !! e = Some ed -> Parent ed = Some q ->
  evalOperands [chainPath fuel e; parentChainPath fuel e] h
  = match GetChainPath fuel h e with
    | Ok _ => Ok tt
    | Err x => Err x
    | Panic x => Panic x
    end.
Proof.
  intros He Hp. cbn [evalOperands]. unfold chainPath, parentChainPath.
  destruct (GetChainPath fuel h e) as [s| |] eqn:E; try reflexivity.
  rewrite He, Hp.
  destruct fuel as [|f]; [discriminate|].
  rewrite GetChainPath_S, He, Hp in E.
  destruct (GetChainPath f h q) as [s0| |] eqn:Eq; try discriminate.
  rewrite (GetChainPath_more _ _ _ _ Eq). reflexivity.
Qed.

(** X10.  [removeFromParent]: a node without parent is left alone; a node its
    parent holds under one key, which is not the empty string, is taken out of
    the children of the parent and loses its parent, and nothing else changes;
    a node its parent does not hold, or holds under the empty string only (the
    loop of [deleteNode] takes an empty key for no key), is reported as not
    removable, and nothing changes.  The report names the node by its chain
    path: where that path is not computed, because the chain of parents does
    not end within the bound [fuel], the call panics instead of returning
    the error. *)
Theorem removeFromParent_spec (fuel : nat) (h : Heap) (e : ptr) (ed : DiffNode) :
  h !! e = Some ed ->
  (Parent ed = None -> removeFromParent fuel e h = (Ok tt, h))
  /\ (forall q qd k,
        Parent ed = Some q -> h !! q = Some qd -> q <> e ->
        kids qd !! k = Some e -> k <> EmptyString ->
        (forall k', kids qd !! k' = Some e -> k' = k) ->
        removeFromParent fuel e h
        = (Ok tt, <[e := set_Parent None ed]>
                    (<[q := set_Children (delete k <$> Children qd) qd]> h)))
  /\ (forall q qd,
        Parent ed = Some q -> h !! q = Some qd ->
        (forall k, kids qd !! k = Some e -> k = EmptyString) ->
        removeFromParent fuel e h
        = (match GetChainPath fuel h e with
           | Ok _ => Err "failed to remove node from parent"
           | Err x => Err x
           | Panic x => Panic x
           end, h)).
Proof.
  intros He. split; [|split].
  - intros Hp. unfold removeFromParent.
    rewrite (bind_getNode _ ed) by assumption. rewrite Hp. reflexivity.
  - intros q qd k Hp Hq Hne Hk Hnz Huniq.
    apply (removeFromParent_ok h _ e q ed); [assumption|assumption|].
    apply (deleteNode_ok h q e qd ed k); try assumption.
    apply find_key_spec; assumption.
  - intros q qd Hp Hq Hk. unfold removeFromParent.
    rewrite (bind_getNode _ ed) by assumption. rewrite Hp.
    unfold deleteNode. rewrite (bind_getNode _ qd) by assumption.
    assert (Hkey : find_key (kids qd) e = EmptyString).
    { unfold find_key.
      destruct (List.find _ (map_to_list (kids qd))) as [[k v]|] eqn:E; [|reflexivity].
      apply find_some in E as [Hin Hv]. simpl in Hv.
      apply bool_decide_eq_true in Hv. subst v.
      apply list_elem_of_In, elem_of_map_to_list in Hin. simpl. auto. }
    rewrite Hkey. change (String.eqb EmptyString EmptyString) with true. cbv iota.
    unfold errorf. rewrite (chain_operands fuel h e q ed He Hp).
    destruct (GetChainPath fuel h e) eqn:E; try reflexivity;
      cbv iota beta; rewrite (chain_operands fuel h e q ed He Hp), E; reflexivity.
Qed.

Lemma removeFromParent_spec_witness :
  let h := (ProcessBTRFSStream (host := rawHostTime) 8 rename_dir_stream).2 in
  let g := (ProcessBTRFSStream (host := rawHostTime) 8 empty_name_stream).2 in
  removeFromParent 8 2 h
  = (Ok tt, <[2%nat := set_Parent None (node_at h 2)]>
              (<[1%nat := set_Children (delete "f" <$> Children (node_at h 1))
                            (node_at h 1)]> h))
  /\ removeFromParent 8 2 g = (Err "failed to remove node from parent", g)
  /\ removeFromParent 8 5 parent_cycle = (Panic STACK, parent_cycle).
Proof.
  intros h g. split; [|split].
  - apply (proj1 (proj2 (removeFromParent_spec 8 h 2 (node_at h 2)
                           ltac:(vm_compute; reflexivity))) 1%nat (node_at h 1) "f"%string);
      try (vm_compute; reflexivity); try lia; try discriminate.
    intros k Hk. apply elem_of_map_to_list in Hk. vm_compute in Hk.
    repeat (apply elem_of_cons in Hk as [Hk|Hk]; [try discriminate Hk|]).
    + injection Hk as ->. reflexivity.
    + apply elem_of_nil in Hk. contradiction.
  - apply (proj2 (proj2 (removeFromParent_spec 8 g 2 (node_at g 2)
                           ltac:(vm_compute; reflexivity))) 1%nat (node_at g 1));
      try (vm_compute; reflexivity).
    intros k Hk. apply elem_of_map_to_list in Hk. vm_compute in Hk.
    repeat (apply elem_of_cons in Hk as [Hk|Hk]; [try discriminate Hk|]).
    + injection Hk as ->. reflexivity.
    + apply elem_of_nil in Hk. contradiction.
  - apply (proj2 (proj2 (removeFromParent_spec 8 parent_cycle 5 (node_at parent_cycle 5)
                           ltac:(vm_compute; reflexivity))) 1%nat (node_at parent_cycle 1));
      try (vm_compute; reflexivity).
    intros k Hk. apply elem_of_map_to_list in Hk. vm_compute in Hk.
    repeat (apply elem_of_cons in Hk as [Hk|Hk]; [discriminate Hk|]).
    apply elem_of_nil in Hk. contradiction.
Defined.

(** X11.  [addNode] where the parent has no child of that name: the node, be
    it detached or a child of another node, ends as the child of that name of
    [n], with [n] as parent; the children of [n] are otherwise the ones
    before, its former parent no longer holds it, and nothing else changes but
    the promotion of [n]. *)
Theorem addNode_attaches (f : nat) (h : Heap) (n node : ptr) (nd nn : DiffNode)
    (m : gmap string ptr) :
  h !! n = Some nd -> h !! node = Some nn -> n <> node ->
  Children nd = Some m -> m !! Path nn = None ->
  held_by_parent h n node nn ->
  exists h',
    addNode (S f) n node h = (Ok tt, h')
    /\ h' !! n = Some (set_Children (Some (<[Path nn := node]> m)) (promote nd))
    /\ h' !! node = Some (set_Parent (Some n) nn)
    /\ (forall q qd, Parent nn = Some q -> h !! q = Some qd ->
          h' !! q = Some (set_Children (delete (Path nn) <$> Children qd) qd))
    /\ (forall p, p <> n -> p <> node -> Parent nn <> Some p -> h' !! p = h !! p).
Proof.
  intros Hn Hnode Hne Hm Hfree Hheld. unfold held_by_parent in Hheld.
  assert (Hln : (n < length h)%nat) by (eapply lookup_lt_Some; eassumption).
  assert (Hlnode : (node < length h)%nat) by (eapply lookup_lt_Some; eassumption).
  destruct (Parent nn) as [q|] eqn:Hpar.
  - destruct Hheld as (Hqn & Hqnode & Hnz & qd & Hq & Hk & Huniq).
    assert (Hlq : (q < length h)%nat) by (eapply lookup_lt_Some; eassumption).
    eexists. split.
    { apply (addNode_move f h n node q nd nn qd m); try assumption; try congruence.
      apply find_key_spec; assumption. }
    split; [rewrite list_lookup_insert_eq by (rewrite !length_insert; lia); reflexivity|].
    split.
    { rewrite list_lookup_insert_ne by congruence.
      rewrite list_lookup_insert_eq by (rewrite !length_insert; lia). reflexivity. }
    split.
    { intros q0 qd0 [= <-] Hq0. assert (qd0 = qd) by congruence. subst qd0.
      rewrite !list_lookup_insert_ne by congruence.
      rewrite list_lookup_insert_eq by (rewrite !length_insert; lia). reflexivity. }
    intros p Hpn Hpnode Hpq.
    rewrite !list_lookup_insert_ne by congruence. reflexivity.
  - eexists. split.
    { apply (addNode_attach f h n node nd nn m); assumption. }
    split; [rewrite list_lookup_insert_eq by (rewrite !length_insert; lia); reflexivity|].
    split.
    { rewrite list_lookup_insert_ne by congruence.
      rewrite list_lookup_insert_eq by (rewrite !length_insert; lia). reflexivity. }
    split; [intros q0 qd0 [=]|].
    intros p Hpn Hpnode _.
    rewrite !list_lookup_insert_ne by congruence. reflexivity.
Qed.

Lemma addNode_attaches_witness :
  let h := (ProcessBTRFSStream (host := rawHostTime) 8 rename_dir_stream).2 in
  exists h',
    addNode 1 0 2 h = (Ok tt, h')
    /\ h' !! 2%nat = Some (set_Parent (Some 0%nat) (node_at h 2))
    /\ h' !! 1%nat
       = Some (set_Children (delete "f" <$> Children (node_at h 1)) (node_at h 1)).
Proof.
  intros h.
  destruct (addNode_attaches 0 h 0 2 (node_at h 0) (node_at h 2) (kids (node_at h 0)))
    as (h' & Hrun & _ & Hnode & Hq & _);
    try (vm_compute; reflexivity); try lia.
  - unfold held_by_parent.
    replace (Parent (node_at h 2)) with (Some 1%nat) by (vm_compute; reflexivity).
    split; [lia|]. split; [lia|]. split; [vm_compute; discriminate|].
    exists (node_at h 1). split; [vm_compute; reflexivity|].
    split; [vm_compute; reflexivity|].
    intros k Hk. apply elem_of_map_to_list in Hk. vm_compute in Hk.
    repeat (apply elem_of_cons in Hk as [Hk|Hk]; [try discriminate Hk|]).
    + injection Hk as ->. reflexivity.
    + apply elem_of_nil in Hk. contradiction.
  - exists h'. split; [exact Hrun|]. split; [exact Hnode|].
    apply Hq; vm_compute; reflexivity.
Defined.

(** ** The stream as a whole *)

Lemma ReadString_found (s hdr r : list byte) :
  ReadString s x00 = (hdr, None, r) ->
  exists pre, hdr = pre ++ [x00] /\ s = pre ++ x00 :: r /\ x00 ∉ pre.
Proof.
  revert hdr r. induction s as [|b s IH]; intros hdr r; simpl; [discriminate|].
  destruct (Byte.eqb b x00) eqn:E.
  - intros [= <- <-]. apply Byte.byte_dec_bl in E. subst b.
    exists []. split; [reflexivity|]. split; [reflexivity|]. apply not_elem_of_nil.
  - destruct (ReadString s x00) as [[s' e] r'] eqn:R. intros [= <- -> <-].
    destruct (IH s' r' eq_refl) as (pre & -> & -> & Hpre).
    exists (b :: pre). split; [reflexivity|]. split; [reflexivity|].
    intros [Hb|H]%elem_of_cons; [|contradiction].
    rewrite <- Hb in E. discriminate E.
Qed.

Lemma ReadString_app (pre r : list byte) :
  x00 ∉ pre -> ReadString (pre ++ x00 :: r) x00 = (pre ++ [x00], None, r).
Proof.
  induction pre as [|b pre IH]; intros Hpre; simpl.
  - reflexivity.
  - destruct (Byte.eqb b x00) eqn:E.
    + apply Byte.byte_dec_bl in E. subst b. exfalso. apply Hpre. left.
    + rewrite IH; [reflexivity|]. intros H. apply Hpre. right. exact H.
Qed.

(** X12.  What [validateBTRFSStream] accepts.  The stream must hold a NUL;
    when the bytes before it are the magic, four more bytes must follow, which
    are consumed whatever version they give; when they are not the magic, the
    stream is accepted as well, and the reader is left right after the NUL. *)
Theorem validateBTRFSStream_acceptance (s input : list byte) :
  validateBTRFSStream s = (None, input)
  <-> exists pre, (x00 ∉ pre)
      /\ ((Go.string_of_bytes pre = BTRFS_SEND_STREAM_MAGIC
           /\ exists v, length v = 4%nat /\ s = pre ++ x00 :: v ++ input)
          \/ (Go.string_of_bytes pre <> BTRFS_SEND_STREAM_MAGIC
              /\ s = pre ++ x00 :: input)).
Proof.
  unfold validateBTRFSStream. split.
  - destruct (ReadString s x00) as [[hdr err] r] eqn:R.
    destruct err as [e|]; [discriminate|].
    apply ReadString_found in R as (pre & -> & -> & Hpre).
    rewrite length_app, Nat.add_sub, take_app_length. intros H.
    exists pre. split; [exact Hpre|]. revert H.
    destruct (String.eqb_spec (Go.string_of_bytes pre) BTRFS_SEND_STREAM_MAGIC) as [Hm|Hm];
      cbn [negb].
    + intros H. left. split; [exact Hm|]. revert H.
      destruct (peekAndDiscard r 4) as [[v|e|e] r'] eqn:P; try discriminate.
      apply peekAndDiscard_Ok in P as [-> Hv]; [|lia].
      destruct (Go.Uint32 v) as [ver|]; [|discriminate].
      destruct (negb (ver =? 1)); intros [= <-]; exists v; (split; [lia|reflexivity]).
    + intros [= <-]. right. split; [exact Hm|]. reflexivity.
  - intros (pre & Hpre & [(Hm & v & Hv & ->)|(Hm & ->)]);
      rewrite (ReadString_app pre _ Hpre);
      rewrite length_app, Nat.add_sub, take_app_length.
    + rewrite Hm, String.eqb_refl. cbn [negb].
      change 4 with (Z.of_nat 4). rewrite <- Hv, peekAndDiscard_app.
      unfold Go.Uint32, Go.le_uint. rewrite Hv. cbn [Nat.ltb Nat.leb].
      destruct (negb _); reflexivity.
    + apply String.eqb_neq in Hm. rewrite Hm. reflexivity.
Qed.

Lemma validateBTRFSStream_acceptance_witness :
  validateBTRFSStream (Go.bytes_of_string "x" ++ x00 :: Go.bytes_of_string "rest")
  = (None, Go.bytes_of_string "rest").
Proof.
  apply (proj2 (validateBTRFSStream_acceptance _ _)).
  exists (Go.bytes_of_string "x"). split.
  - intros H. apply list_elem_of_singleton in H. discriminate H.
  - right. split; [discriminate|reflexivity].
Defined.

Lemma readCommand_range (input rest : list byte) (c : commandInst) :
  readCommand input = Ok (c, rest) -> 0 <= OriginalType c <= BTRFS_SEND_C_MAX.
Proof.
  unfold readCommand.
  destruct (peekAndDiscard input 4) as [[b1| |] i1]; try discriminate.
  destruct (Go.Uint32 b1) as [size|]; [|discriminate].
  destruct (peekAndDiscard i1 2) as [[b2| |] i2]; try discriminate.
  destruct (Go.Uint16 b2) as [ty|] eqn:U; [|discriminate].
  destruct (Z.ltb_spec BTRFS_SEND_C_MAX ty); [discriminate|].
  destruct (peekAndDiscard i2 4) as [[b3| |] i3]; try discriminate.
  destruct (peekAndDiscard i3 size) as [[b4| |] i4]; try discriminate.
  destruct commandsDefs as [defs|]; [|discriminate].
  destruct (aget defs ty) as [t|]; [|discriminate].
  intros [= <- _]. simpl. apply le_uint_bound in U. lia.
Qed.

(** The operation of a decoded command, by its type. *)
Lemma readCommand_op (input rest : list byte) (c : commandInst) :
  readCommand input = Ok (c, rest) ->
  exists defs, commandsDefs = Some defs
    /\ Some (Type_ c) = aget defs (OriginalType c)
    /\ (Op (Type_ c) = opEnd -> OriginalType c = BTRFS_SEND_C_END)
    /\ (Op (Type_ c) = opRename ->
        OriginalType c = BTRFS_SEND_C_RENAME \/ OriginalType c = BTRFS_SEND_C_LINK).
Proof.
  intros H. pose proof (readCommand_range _ _ _ H) as Hr.
  apply readCommand_type in H as (defs & Hd & Ha).
  exists defs. split; [exact Hd|]. split; [congruence|].
  vm_compute in Hd. injection Hd as <-.
  destruct c as [t ty dat]. cbn [OriginalType Type_] in *.
  unfold BTRFS_SEND_C_MAX in Hr.
  assert (Ht : t = Z.of_nat (Z.to_nat t)) by lia.
  unfold aget in Ha. revert Ha Ht. generalize (Z.to_nat t) as k. intros k Ha ->.
  do 27 (destruct k as [|k];
         [vm_compute in Ha; injection Ha as <-;
          split; intros E; solve [discriminate E | vm_compute; auto]|]).
  vm_compute in Ha. discriminate.
Qed.

Lemma goes_on_ret : goes_on (ret Continue).
Proof. intros h r h' [= <- _]. reflexivity. Qed.

Lemma goes_on_fail e : goes_on (fail e).
Proof. intros h r h'. discriminate. Qed.

Lemma goes_on_bind {A} (m : M A) (k : A -> M turn) :
  (forall a, goes_on (k a)) -> goes_on (bind m k).
Proof.
  intros Hk h r h'. unfold bind.
  destruct (m h) as [[a|e|e] h1]; try discriminate. apply Hk.
Qed.

Ltac goes_on_tac :=
  repeat first
    [ apply goes_on_ret | apply goes_on_fail
    | apply goes_on_bind; intros ?
    | match goal with |- goes_on (if ?b then _ else _) => destruct b end ].

Section Turns.

Context {host : HostTime}.
Variable fuel : nat.
Variable d : Diff.

(** A successful turn goes on with the next command, except on [END], and
    on a command of the rename class that is neither RENAME nor LINK. *)
Lemma processCommand_turn (c : commandInst) (h h' : Heap) (r : turn) :
  processCommand fuel d c h = (Ok r, h') ->
  match r with
  | Continue => True
  | Stop => Op (Type_ c) = opEnd
  | ReturnNil =>
      Op (Type_ c) = opRename /\ OriginalType c <> BTRFS_SEND_C_RENAME
      /\ OriginalType c <> BTRFS_SEND_C_LINK
  end.
Proof.
  assert (Hgo : forall (m : M turn) x y z, goes_on m -> m x = (Ok y, z) ->
                  match y with Continue => True | _ => False end).
  { intros m x y z G H. apply G in H. subst y. exact I. }
  unfold processCommand. intros H.
  destruct (Op (Type_ c)) eqn:E.
  - discriminate H.
  - injection H as <- _. exact I.
  - apply Hgo in H; [destruct r; solve [exact I | contradiction]|]. goes_on_tac.
  - apply Hgo in H; [destruct r; solve [exact I | contradiction]|]. goes_on_tac.
  - apply Hgo in H; [destruct r; solve [exact I | contradiction]|]. goes_on_tac.
  - revert H. unfold bind at 1.
    destruct (readParam c BTRFS_SEND_A_PATH _ h) as [[a|e|e] h1]; try discriminate.
    unfold bind at 1.
    destruct (as_string a.1 h1) as [[p|e|e] h2]; try discriminate.
    destruct (Z.eqb_spec (OriginalType c) BTRFS_SEND_C_RENAME) as [|Hr].
    { intros H. apply Hgo in H; [destruct r; solve [exact I | contradiction]|].
      goes_on_tac. }
    destruct (Z.eqb_spec (OriginalType c) BTRFS_SEND_C_LINK) as [|Hl].
    { intros H. apply Hgo in H; [destruct r; solve [exact I | contradiction]|].
      goes_on_tac. }
    intros [= <- _]. auto.
  - injection H as <- _. reflexivity.
Qed.

End Turns.
Lemma readParam_store (c : commandInst) (t : Z) (msg : string) (h : Heap) :
  (readParam c t msg h).2 = h.
Proof. rewrite reads_readParam. reflexivity. Qed.

Lemma bind_readParam_store {B} c t msg (k : value * commandInst -> M B) (h : Heap) :
  (forall a, (k a h).2 = h) -> (bind (readParam c t msg) k h).2 = h.
Proof.
  intros Hk. unfold bind. rewrite reads_readParam.
  destruct (ReadParam c t) as [a|e|e]; [apply Hk|reflexivity|reflexivity].
Qed.

(** X13.  The turn of the loop on the commands that do not touch the tree.
    [END] stops the loop.  UTIMES and the commands of the later protocol
    versions are skipped without a look at their data.  [UNSPEC] (type 0) and
    CLONE abort the run.  SUBVOL and SNAPSHOT have their attributes decoded,
    and leave the tree as it is, whether the decoding succeeds or not. *)
Theorem processCommand_dispatch {host : HostTime} (fuel : nat) (d : Diff)
    (input rest : list byte) (c : commandInst) (h : Heap) :
  readCommand input = Ok (c, rest) ->
  (OriginalType c = BTRFS_SEND_C_END -> processCommand fuel d c h = (Ok Stop, h))
  /\ (OriginalType c ∈ skipped_commands ->
      processCommand fuel d c h = (Ok Continue, h))
  /\ (OriginalType c = BTRFS_SEND_C_UNSPEC \/ OriginalType c = BTRFS_SEND_C_CLONE ->
      processCommand fuel d c h = (Err "unsupported command", h))
  /\ (OriginalType c = BTRFS_SEND_C_SUBVOL \/ OriginalType c = BTRFS_SEND_C_SNAPSHOT ->
      (processCommand fuel d c h).2 = h).
Proof.
  intros H. apply readCommand_type in H as (defs & Hd & Ha).
  vm_compute in Hd. injection Hd as <-.
  destruct c as [t ty dat]. cbn [OriginalType Type_] in *.
  split; [|split; [|split]].
  - intros ->. vm_compute in Ha. injection Ha as <-. reflexivity.
  - intros Ht. unfold skipped_commands in Ht.
    repeat (apply elem_of_cons in Ht as [->|Ht];
            [vm_compute in Ha; injection Ha as <-; reflexivity|]).
    apply elem_of_nil in Ht. contradiction.
  - intros [->| ->]; vm_compute in Ha; injection Ha as <-; reflexivity.
  - intros [->| ->]; vm_compute in Ha; injection Ha as <-;
      unfold processCommand; cbn [Op Type_ OriginalType].
    + change (BTRFS_SEND_C_SUBVOL =? BTRFS_SEND_C_SNAPSHOT) with false.
      change (BTRFS_SEND_C_SUBVOL =? BTRFS_SEND_C_SUBVOL) with true.
      cbn [orb].
      repeat (apply bind_readParam_store; intros ?). reflexivity.
    + change (BTRFS_SEND_C_SNAPSHOT =? BTRFS_SEND_C_SNAPSHOT) with true.
      cbn [orb].
      repeat (apply bind_readParam_store; intros ?). reflexivity.
Qed.

Lemma processCommand_dispatch_witness :
  exists c,
    readCommand (Fixture.UTIMES "dir" 1 2 3) = Ok (c, [])
    /\ processCommand (host := rawHostTime) 8 {| root := 0%nat |} c initialHeap
       = (Ok Continue, initialHeap).
Proof.
  eexists. split; [vm_compute; reflexivity|].
  apply (proj1 (proj2 (processCommand_dispatch (host := rawHostTime) 8 {| root := 0%nat |}
                         (Fixture.UTIMES "dir" 1 2 3) [] _ initialHeap
                         ltac:(vm_compute; reflexivity)))).
  vm_compute. left.
Defined.

Section Runs.

Context {host : HostTime}.
Variable fuel : nat.
Variable d : Diff.

Lemma processLoop_success (n : nat) (input : list byte) (h h' : Heap)
    (r : option Diff) :
  processLoop fuel d n input h = (Ok r, h') -> r = Some d /\ has_end input.
Proof.
  revert input h. induction n as [|n IH]; intros input h; simpl; [discriminate|].
  destruct (readCommand input) as [[c rest]| |] eqn:R; try discriminate.
  unfold bind. destruct (processCommand fuel d c h) as [[t| |] h1] eqn:P; try discriminate.
  pose proof (processCommand_turn fuel d c h h1 t P) as Ht.
  destruct (readCommand_op _ _ _ R) as (defs & _ & _ & Hend & Hren).
  destruct t.
  - intros H. apply IH in H as [-> He]. split; [reflexivity|].
    eapply end_later; eassumption.
  - intros [= <- _]. split; [reflexivity|]. eapply end_here; eauto.
  - destruct Ht as (Hop & H1 & H2). destruct (Hren Hop); contradiction.
Qed.

Lemma processLoop_more_turns (n m : nat) (input : list byte) (h h' : Heap)
    (r : option Diff) :
  (n <= m)%nat -> processLoop fuel d n input h = (Ok r, h') ->
  processLoop fuel d m input h = (Ok r, h').
Proof.
  revert m input h. induction n as [|n IH]; intros m input h Hm; simpl; [discriminate|].
  destruct m as [|m]; [lia|]. simpl.
  destruct (readCommand input) as [[c rest]| |]; try discriminate.
  unfold bind. destruct (processCommand fuel d c h) as [[[| |]| |] h1]; try discriminate;
    try (intros H; exact H).
  apply IH. lia.
Qed.

End Runs.

Lemma peekAndDiscard_exact (b rest : list byte) (n : Z) :
  Z.of_nat (length b) = n -> peekAndDiscard (b ++ rest) n = (Ok b, rest).
Proof. intros <-. apply peekAndDiscard_app. Qed.

Lemma readCommand_more (input junk rest : list byte) (c : commandInst) :
  readCommand input = Ok (c, rest) -> readCommand (input ++ junk) = Ok (c, rest ++ junk).
Proof.
  unfold readCommand.
  destruct (peekAndDiscard input 4) as [[b1| |] i1] eqn:E1; try discriminate.
  apply peekAndDiscard_Ok in E1 as [-> H1]; [|lia].
  destruct (Go.Uint32 b1) as [size|] eqn:Es; [|discriminate].
  destruct (peekAndDiscard i1 2) as [[b2| |] i2] eqn:E2; try discriminate.
  apply peekAndDiscard_Ok in E2 as [-> H2]; [|lia].
  destruct (Go.Uint16 b2) as [ty|] eqn:Et; [|discriminate].
  destruct (BTRFS_SEND_C_MAX <? ty) eqn:L; [discriminate|].
  destruct (peekAndDiscard i2 4) as [[b3| |] i3] eqn:E3; try discriminate.
  apply peekAndDiscard_Ok in E3 as [-> H3]; [|lia].
  destruct (peekAndDiscard i3 size) as [[b4| |] i4] eqn:E4; try discriminate.
  apply peekAndDiscard_Ok in E4 as [-> H4]; [|apply le_uint_bound in Es; lia].
  intros H.
  rewrite <- !app_assoc.
  rewrite (peekAndDiscard_exact b1 _ 4 H1), Es.
  rewrite (peekAndDiscard_exact b2 _ 2 H2), Et, L.
  rewrite (peekAndDiscard_exact b3 _ 4 H3), (peekAndDiscard_exact b4 _ size H4).
  destruct commandsDefs as [defs|]; [|discriminate].
  destruct (aget defs ty); [|discriminate].
  injection H as <- <-. reflexivity.
Qed.

Lemma validateBTRFSStream_more (s junk input : list byte) :
  validateBTRFSStream s = (None, input) ->
  validateBTRFSStream (s ++ junk) = (None, input ++ junk).
Proof.
  unfold validateBTRFSStream.
  destruct (ReadString s x00) as [[hdr err] r] eqn:R.
  destruct err as [e|]; [discriminate|].
  apply ReadString_found in R as (pre & -> & -> & Hpre).
  rewrite <- app_assoc. cbn [app]. rewrite (ReadString_app pre _ Hpre).
  destruct (negb _); [intros [= <-]; reflexivity|].
  destruct (peekAndDiscard r 4) as [[v|e|e] r'] eqn:P; try discriminate.
  apply peekAndDiscard_Ok in P as [-> Hv]; [|lia].
  rewrite <- app_assoc, (peekAndDiscard_exact v _ 4 Hv).
  destruct (Go.Uint32 v) as [ver|]; [|discriminate].
  destruct (negb (ver =? 1)); intros [= <-]; reflexivity.
Qed.

Section RunsMore.

Context {host : HostTime}.
Variable fuel : nat.
Variable d : Diff.

Lemma processLoop_more (n : nat) (input junk : list byte) (h h' : Heap)
    (r : option Diff) :
  processLoop fuel d n input h = (Ok r, h') ->
  processLoop fuel d n (input ++ junk) h = (Ok r, h').
Proof.
  revert input h. induction n as [|n IH]; intros input h; simpl; [discriminate|].
  destruct (readCommand input) as [[c rest]| |] eqn:R; try discriminate.
  rewrite (readCommand_more _ junk _ _ R).
  unfold bind. destruct (processCommand fuel d c h) as [[[| |]| |] h1]; try discriminate;
    try (intros H; exact H).
  apply IH.
Qed.

End RunsMore.

(** X14.  A successful run has read an [END] command, and returns the diff,
    never nil: the one return of a nil diff without an error, on a command of
    the rename class that is neither RENAME nor LINK, is out of reach of the
    command table.  The root of the diff is the node the run started from,
    under its empty name. *)
Theorem ProcessBTRFSStream_success {host : HostTime} (fuel : nat) (stream : list byte)
    (r : option Diff) (h : Heap) :
  ProcessBTRFSStream fuel stream = (Ok r, h) ->
  r = Some {| root := 0%nat |}
  /\ (exists rd, h !! 0%nat = Some rd /\ Path rd = EmptyString)
  /\ exists input, validateBTRFSStream stream = (None, input) /\ has_end input.
Proof.
  unfold ProcessBTRFSStream.
  destruct (validateBTRFSStream stream) as [[e|] input] eqn:V; [discriminate|].
  intros H. pose proof (processLoop_success _ _ _ _ _ _ _ H) as [-> He].
  split; [reflexivity|]. split; [|eauto].
  pose proof (good_processLoop fuel {| root := 0%nat |} (S (length input)) input
                initialHeap) as [Hext _].
  rewrite H in Hext. apply (Hext 0%nat _ eq_refl).
Qed.

Lemma ProcessBTRFSStream_success_witness :
  exists input, validateBTRFSStream rename_dir_stream = (None, input) /\ has_end input.
Proof.
  apply (ProcessBTRFSStream_success (host := rawHostTime) 8 rename_dir_stream
           (Some {| root := 0%nat |})
           (ProcessBTRFSStream (host := rawHostTime) 8 rename_dir_stream).2).
  vm_compute. reflexivity.
Defined.

(** X15.  The run stops at the first [END] command: whatever follows a stream
    that is processed successfully is not read, and the result is the same. *)
Theorem ProcessBTRFSStream_trailing_bytes {host : HostTime} (fuel : nat)
    (stream junk : list byte) (r : option Diff) (h : Heap) :
  ProcessBTRFSStream fuel stream = (Ok r, h) ->
  ProcessBTRFSStream fuel (stream ++ junk) = (Ok r, h).
Proof.
  unfold ProcessBTRFSStream.
  destruct (validateBTRFSStream stream) as [[e|] input] eqn:V; [discriminate|].
  rewrite (validateBTRFSStream_more _ junk _ V). intros H.
  apply processLoop_more.
  apply (processLoop_more_turns _ _ (S (length input))); [|exact H].
  rewrite length_app. lia.
Qed.

Lemma ProcessBTRFSStream_trailing_bytes_witness :
  ProcessBTRFSStream (host := rawHostTime) 8 (mkdir_stream ++ mkdir_stream)
  = ProcessBTRFSStream (host := rawHostTime) 8 mkdir_stream.
Proof.
  rewrite (ProcessBTRFSStream_trailing_bytes (host := rawHostTime) 8 mkdir_stream
             mkdir_stream (Some {| root := 0%nat |})
             (ProcessBTRFSStream (host := rawHostTime) 8 mkdir_stream).2
             ltac:(vm_compute; reflexivity)).
  vm_compute. reflexivity.
Defined.

(** ** The projections of the tree *)

Section Visits.

Context {S : Type}.
Variable h : Heap.
Variable fn : ptr -> S -> Res S.

(** What holds of the state before the traversal and is kept by every call
    on a node below the start, holds after the traversal. *)
Lemma traverse_below (P : S -> Prop) (fuel : nat) (n : ptr) (s s' : S) :
  (forall c a b, descendant h n c -> P a -> fn c a = Ok b -> P b) ->
  P s -> traverse fuel h n fn s = Ok s' -> P s'.
Proof.
  revert n s s'. induction fuel as [|f IH]; intros n s s' Hfn Hs; simpl; [discriminate|].
  destruct (h !! n) as [nd|] eqn:Hn; [|discriminate].
  apply foldRes_inv; [|exact Hs].
  intros [k c] a b Hin Ha. apply elem_of_map_to_list in Hin. cbn [snd].
  destruct (fn c a) as [a'| |] eqn:E; try discriminate.
  apply IH.
  - intros c' x y Hc'. apply Hfn. eapply desc_step; eassumption.
  - apply (Hfn c a a'); [eapply desc_child; eassumption|exact Ha|exact E].
Qed.

Variable Q : ptr -> S -> Prop.
Hypothesis Q_visit : forall c a b, fn c a = Ok b -> Q c b.
Hypothesis Q_kept : forall c c' a b, Q c a -> fn c' a = Ok b -> Q c b.

(** What every call records of its node, and no call undoes, holds after
    the traversal of every node below the start. *)
Lemma traverse_all (fuel : nat) (n : ptr) (s s' : S) :
  traverse fuel h n fn s = Ok s' ->
  (forall c, Q c s -> Q c s') /\ (forall c, descendant h n c -> Q c s').
Proof.
  revert n s s'. induction fuel as [|f IH]; intros n s s'; simpl; [discriminate|].
  destruct (h !! n) as [nd|] eqn:Hn; [|discriminate].
  intros H.
  assert (G : (forall c, Q c s -> Q c s')
              /\ forall k c, (k, c) ∈ map_to_list (kids nd) ->
                   Q c s' /\ forall c', descendant h c c' -> Q c' s').
  { revert s H. induction (map_to_list (kids nd)) as [|[k c] l IHl]; intros s H.
    - simpl in H. injection H as <-. split; [auto|].
      intros k c Hin. apply elem_of_nil in Hin. contradiction.
    - simpl in H. destruct (fn c s) as [a| |] eqn:E; try discriminate.
      destruct (traverse f h c fn a) as [a'| |] eqn:T; try discriminate.
      apply IH in T as [Tk Td]. apply IHl in H as [Hk Hd].
      split.
      + intros x Hx. apply Hk, Tk. eapply Q_kept; eassumption.
      + intros k' c' [[= -> ->]|Hin]%elem_of_cons.
        * split; [apply Hk, Tk, (Q_visit _ _ _ E)|].
          intros x Hx. apply Hk, Td, Hx.
        * apply (Hd _ _ Hin). }
  destruct G as [Gk Gd]. split; [exact Gk|].
  intros c Hc. destruct Hc as [nd' k c Hn' Hk|nd' k c c' Hn' Hk Hc].
  - assert (nd' = nd) by congruence. subst nd'.
    destruct (Gd k c) as [G1 _]; [apply elem_of_map_to_list; exact Hk|]. exact G1.
  - assert (nd' = nd) by congruence. subst nd'.
    destruct (Gd k c) as [_ G2]; [apply elem_of_map_to_list; exact Hk|].
    apply G2, Hc.
Qed.

End Visits.

Lemma shouldPrintNode_true (fuel : nat) (h : Heap) (n : ptr) (nd : DiffNode) :
  h !! n = Some nd ->
  shouldPrintNode fuel h n = Ok true
  <-> isBTRFSTemporaryNode fuel h n = Ok false /\ has_state nd.
Proof.
  intros Hn. unfold shouldPrintNode, has_state. rewrite Hn.
  destruct (isBTRFSTemporaryNode fuel h n) as [[|]| |].
  - split; [discriminate|intros [[=] _]].
  - split.
    + intros [= H]. split; [reflexivity|].
      repeat case_bool_decide; auto; discriminate.
    + intros [_ H]. f_equal.
      repeat case_bool_decide; try reflexivity. tauto.
  - split; [discriminate|intros [[=] _]].
  - split; [discriminate|intros [[=] _]].
Qed.

Lemma diff_visit_cases (fuel : nat) (h : Heap) (ignorePaths : DiffIgnorePaths)
    (c : ptr) (a b : DiffJSONStruct) :
  diff_visit fuel h ignorePaths c a = Ok b ->
  (b = a /\ forall nd, h !! c = Some nd -> Matches fuel h ignorePaths c = Ok false ->
              isBTRFSTemporaryNode fuel h c = Ok false -> ~ has_state nd)
  \/ exists nd, h !! c = Some nd /\ Matches fuel h ignorePaths c = Ok false
       /\ isBTRFSTemporaryNode fuel h c = Ok false /\ has_state nd
       /\ b = enter c nd a.
Proof.
  unfold diff_visit.
  destruct (Matches fuel h ignorePaths c) as [[|]| |] eqn:M; try discriminate; cbn [rbind].
  - intros [= <-]. left. split; [reflexivity|]. intros nd _ [=].
  - destruct (shouldPrintNode fuel h c) as [[|]| |] eqn:SP; try discriminate;
      cbn [rbind negb].
    + destruct (h !! c) as [nd|] eqn:Hc; [|discriminate].
      pose proof (proj1 (shouldPrintNode_true fuel h c nd Hc) SP) as [HT HS].
      intros H. right. exists nd. repeat (split; [assumption || reflexivity|]).
      revert H. unfold enter. cbv zeta.
      destruct (DeletedInSnapshot nd && negb (bool_decide (State nd = opDelete)));
        intros [= <-]; reflexivity.
    + intros [= <-]. left. split; [reflexivity|].
      intros nd Hc _ HT HS.
      assert (shouldPrintNode fuel h c = Ok true) by
        (apply (shouldPrintNode_true fuel h c nd Hc); auto).
      congruence.
Qed.

Lemma enter_spec (c : ptr) (nd : DiffNode) (a : DiffJSONStruct) (n : ptr) :
  has_state nd ->
  (n ∈ Added (enter c nd a) <-> n ∈ Added a \/ (n = c /\ in_added nd))
  /\ (n ∈ Changed (enter c nd a) <-> n ∈ Changed a \/ (n = c /\ in_changed nd))
  /\ (n ∈ Deleted (enter c nd a) <-> n ∈ Deleted a \/ (n = c /\ in_deleted nd)).
Proof.
  unfold has_state, enter, in_added, in_changed, in_deleted.
  intros HS.
  destruct (DeletedInSnapshot nd);
    repeat case_bool_decide; cbn [andb negb Added Changed Deleted];
    rewrite ?elem_of_app, ?list_elem_of_singleton;
    intuition congruence.
Qed.

(** X16.  The structured diff lists exactly the nodes below the root that no
    ignore expression matches and that are not temporary: under "added" the
    Created ones, under "changed" the Modified ones, under "deleted" the
    Deleted ones and those of the former two that are marked as deleted in the
    snapshot.  A node in any other state is in none of the lists. *)
Theorem GetDiffStruct_lists (fuel : nat) (h : Heap) (d : Diff)
    (ignorePaths : DiffIgnorePaths) (s : DiffJSONStruct) :
  GetDiffStruct fuel h d ignorePaths = Ok s ->
  forall n,
    (n ∈ Added s <-> exists nd, listed fuel h d ignorePaths n nd /\ in_added nd)
    /\ (n ∈ Changed s <-> exists nd, listed fuel h d ignorePaths n nd /\ in_changed nd)
    /\ (n ∈ Deleted s <-> exists nd, listed fuel h d ignorePaths n nd /\ in_deleted nd).
Proof.
  unfold GetDiffStruct. intros H.
  set (L := fun n nd => listed fuel h d ignorePaths n nd).
  pose (P := fun s : DiffJSONStruct => forall n,
            (n ∈ Added s -> exists nd, L n nd /\ in_added nd)
            /\ (n ∈ Changed s -> exists nd, L n nd /\ in_changed nd)
            /\ (n ∈ Deleted s -> exists nd, L n nd /\ in_deleted nd)).
  assert (Hsound : P s).
  { apply (traverse_below h (diff_visit fuel h ignorePaths) P fuel (root d)
             {| Added := []; Changed := []; Deleted := [] |} s); [| |exact H].
    - intros c a b Hc Pa Hv n. destruct (Pa n) as (PA & PC & PD).
      apply diff_visit_cases in Hv as [[-> _]|(nd & Hn & HM & HT & HS & ->)];
        [auto|].
      destruct (enter_spec c nd a n HS) as (EA & EC & ED).
      assert (HL : L c nd) by (repeat split; assumption).
      split; [|split]; intros Hin.
      + apply EA in Hin as [Hin|[-> Hin]]; eauto.
      + apply EC in Hin as [Hin|[-> Hin]]; eauto.
      + apply ED in Hin as [Hin|[-> Hin]]; eauto.
    - intros n. cbn [Added Changed Deleted].
      repeat split; intros Hin; apply elem_of_nil in Hin; contradiction. }
  assert (Hall : forall c, descendant h (root d) c ->
            forall nd, h !! c = Some nd -> Matches fuel h ignorePaths c = Ok false ->
              isBTRFSTemporaryNode fuel h c = Ok false ->
              (in_added nd -> c ∈ Added s) /\ (in_changed nd -> c ∈ Changed s)
              /\ (in_deleted nd -> c ∈ Deleted s)).
  { eapply (traverse_all h (diff_visit fuel h ignorePaths)
              (fun c s => forall nd, h !! c = Some nd ->
                 Matches fuel h ignorePaths c = Ok false ->
                 isBTRFSTemporaryNode fuel h c = Ok false ->
                 (in_added nd -> c ∈ Added s) /\ (in_changed nd -> c ∈ Changed s)
                 /\ (in_deleted nd -> c ∈ Deleted s))); [| |exact H].
    - intros c a b Hv nd Hn HM HT.
      apply diff_visit_cases in Hv as [[-> Hno]|(nd' & Hn' & _ & _ & HS & ->)].
      + specialize (Hno nd Hn HM HT).
        unfold has_state, in_added, in_changed, in_deleted in *.
        repeat split; intros; exfalso; apply Hno; tauto.
      + assert (nd' = nd) by congruence. subst nd'.
        destruct (enter_spec c nd a c HS) as (EA & EC & ED).
        repeat split; intros; [apply EA|apply EC|apply ED]; auto.
    - intros c c' a b Hq Hv nd Hn HM HT.
      destruct (Hq nd Hn HM HT) as (QA & QC & QD).
      apply diff_visit_cases in Hv as [[-> _]|(nd' & _ & _ & _ & HS & ->)];
        [auto|].
      destruct (enter_spec c' nd' a c HS) as (EA & EC & ED).
      repeat split; intros; [apply EA|apply EC|apply ED]; auto. }
  intros n. destruct (Hsound n) as (SA & SC & SD).
  split; [|split]; (split; [auto|]).
  - intros (nd & ((Hd & Hn & HM) & HT) & Hin). apply (Hall n Hd nd Hn HM HT), Hin.
  - intros (nd & ((Hd & Hn & HM) & HT) & Hin). apply (Hall n Hd nd Hn HM HT), Hin.
  - intros (nd & ((Hd & Hn & HM) & HT) & Hin). apply (Hall n Hd nd Hn HM HT), Hin.
Qed.

Lemma GetDiffStruct_lists_witness :
  let h := (ProcessBTRFSStream (host := rawHostTime) 8 rename_dir_stream).2 in
  exists s,
    GetDiffStruct 8 h {| root := 0%nat |} [] = Ok s
    /\ 2%nat ∈ Added s /\ 1%nat ∈ Deleted s.
Proof.
  intros h. eexists. split; [vm_compute; reflexivity|].
  pose proof (GetDiffStruct_lists 8 h {| root := 0%nat |} [] _
                ltac:(vm_compute; reflexivity)) as HL.
  split.
  - apply (proj1 (HL 2%nat)). exists (node_at h 2). split; [|reflexivity].
    split; [split; [|split]|]; try (vm_compute; reflexivity).
    apply (desc_step h _ (node_at h 0) "a"%string 1%nat);
      try (vm_compute; reflexivity).
    apply (desc_child h _ (node_at h 1) "f"%string); vm_compute; reflexivity.
  - apply (proj2 (proj2 (HL 1%nat))). exists (node_at h 1). split; [|left; reflexivity].
    split; [split; [|split]|]; try (vm_compute; reflexivity).
    apply (desc_child h _ (node_at h 0) "a"%string); vm_compute; reflexivity.
Defined.

Lemma shadow_cond (nd : DiffNode) :
  DeletedInSnapshot nd && negb (bool_decide (State nd = opDelete)) = true
  <-> DeletedInSnapshot nd = true /\ State nd <> opDelete.
Proof.
  rewrite andb_true_iff, negb_true_iff, bool_decide_eq_false. reflexivity.
Qed.

Lemma print_visit_cases (fuel : nat) (h : Heap) (ignorePaths : DiffIgnorePaths)
    (c : ptr) (a b : list (ptr * string)) :
  print_visit fuel h ignorePaths c a = Ok b ->
  exists l, b = a ++ l
    /\ forall n line,
         (n, line) ∈ l
         <-> n = c /\ exists nd, h !! c = Some nd
                        /\ Matches fuel h ignorePaths c = Ok false
                        /\ line_of fuel h c nd line.
Proof.
  unfold print_visit, line_of.
  destruct (Matches fuel h ignorePaths c) as [[|]| |] eqn:M; try discriminate; cbn [rbind].
  { intros [= <-]. exists []. split; [rewrite app_nil_r; reflexivity|].
    intros n line. split; [intros []%elem_of_nil|intros (_ & nd & _ & [=] & _)]. }
  destruct (shouldPrintNode fuel h c) as [show| |] eqn:SP; try discriminate; cbn [rbind].
  destruct (h !! c) as [nd|] eqn:Hc.
  2: { destruct show; [destruct (DiffNode_String fuel h c)|]; discriminate. }
  pose proof (shadow_cond nd) as HB.
  destruct (DeletedInSnapshot nd && negb (bool_decide (State nd = opDelete))) eqn:B.
  - destruct HB as [HB _]. specialize (HB eq_refl).
    destruct (StringForDeleted fuel h c) as [s2| |] eqn:SD.
    2,3: destruct show; [destruct (DiffNode_String fuel h c)|]; discriminate.
    destruct show.
    + destruct (DiffNode_String fuel h c) as [s1| |] eqn:DS; try discriminate.
      cbn [rbind]. intros [= <-]. exists [(c, s1); (c, s2)].
      split; [rewrite <- app_assoc; reflexivity|].
      intros n line. rewrite !elem_of_cons, elem_of_nil. split.
      * intros [[= -> ->]|[[= -> ->]|[]]]; (split; [reflexivity|]); exists nd; tauto.
      * intros (-> & nd' & [= <-] & _ & [[_ E]|(_ & _ & E)]);
          [left|right; left]; congruence.
    + cbn [rbind]. intros [= <-]. exists [(c, s2)]. split; [reflexivity|].
      intros n line. rewrite !elem_of_cons, elem_of_nil. split.
      * intros [[= -> ->]|[]]. split; [reflexivity|]. exists nd. tauto.
      * intros (-> & nd' & [= <-] & _ & [[[=] _]|(_ & _ & E)]). left. congruence.
  - assert (HB' : ~ (DeletedInSnapshot nd = true /\ State nd <> opDelete)).
    { intros HH. apply HB in HH. discriminate. }
    destruct show.
    + destruct (DiffNode_String fuel h c) as [s1| |] eqn:DS; try discriminate.
      cbn [rbind]. intros [= <-]. exists [(c, s1)]. split; [reflexivity|].
      intros n line. rewrite !elem_of_cons, elem_of_nil. split.
      * intros [[= -> ->]|[]]. split; [reflexivity|]. exists nd. tauto.
      * intros (-> & nd' & [= <-] & _ & [[_ E]|(D1 & D2 & _)]); [|tauto].
        left. congruence.
    + cbn [rbind]. intros [= <-]. exists []. split; [rewrite app_nil_r; reflexivity|].
      intros n line. rewrite elem_of_nil. split; [intros []|].
      intros (-> & nd' & [= <-] & _ & [[[=] _]|(D1 & D2 & _)]). tauto.
Qed.

(** X17.  The messages [print] logs (the strings it hands to [info]): for
    every node below the root that no ignore expression matches, its
    description when [shouldPrintNode] holds, and its description as a deleted
    node when it is marked as deleted in the snapshot without being in the
    Deleted state -- whatever its state and whether it is temporary or not;
    and no other message. *)
Theorem print_lines (fuel : nat) (h : Heap) (d : Diff) (ignorePaths : DiffIgnorePaths)
    (out : list (ptr * string)) :
  print fuel h d ignorePaths = Ok out ->
  forall n line,
    (n, line) ∈ out
    <-> exists nd, visible fuel h d ignorePaths n nd /\ line_of fuel h n nd line.
Proof.
  unfold print. intros H n line.
  pose (P := fun out : list (ptr * string) => forall n line,
          (n, line) ∈ out ->
          exists nd, visible fuel h d ignorePaths n nd /\ line_of fuel h n nd line).
  assert (Hsound : P out).
  { apply (traverse_below h (print_visit fuel h ignorePaths) P fuel (root d) [] out);
      [| |exact H].
    - intros c a b Hc Pa Hv n0 line0 Hin.
      apply print_visit_cases in Hv as (l & -> & Hl).
      apply elem_of_app in Hin as [Hin|Hin]; [auto|].
      apply Hl in Hin as (-> & nd & Hn & HM & HL).
      exists nd. repeat split; assumption.
    - intros n0 line0 Hin. apply elem_of_nil in Hin. contradiction. }
  split; [apply Hsound|].
  intros (nd & (Hd & Hn & HM) & HL).
  apply (proj2 (traverse_all h (print_visit fuel h ignorePaths)
                  (fun c out => forall nd line, h !! c = Some nd ->
                     Matches fuel h ignorePaths c = Ok false ->
                     line_of fuel h c nd line -> (c, line) ∈ out)
                  ltac:(intros c a b Hv nd0 line0 Hn0 HM0 HL0;
                        apply print_visit_cases in Hv as (l & -> & Hl);
                        apply elem_of_app; right; apply Hl; eauto 6)
                  ltac:(intros c c' a b Hq Hv nd0 line0 Hn0 HM0 HL0;
                        apply print_visit_cases in Hv as (l & -> & Hl);
                        apply elem_of_app; left; eauto)
                  fuel (root d) [] out H) n Hd nd line Hn HM HL).
Qed.

Lemma print_lines_witness :
  let h := (ProcessBTRFSStream (host := rawHostTime) 8 shadow_stream).2 in
  exists out,
    print 8 h {| root := 0%nat |} [] = Ok out
    /\ (3%nat, "[DIR][deleted] /bar/sub"%string) ∈ out.
Proof.
  intros h. eexists. split; [vm_compute; reflexivity|].
  apply (proj2 (print_lines 8 h {| root := 0%nat |} [] _
                  ltac:(vm_compute; reflexivity) 3%nat _)).
  exists (node_at h 3). split.
  - split; [|split]; try (vm_compute; reflexivity).
    apply (desc_step h _ (node_at h 0) "bar"%string 1%nat);
      try (vm_compute; reflexivity).
    apply (desc_child h _ (node_at h 1) "sub"%string); vm_compute; reflexivity.
  - right. split; [vm_compute; reflexivity|]. split; [vm_compute; discriminate|].
    vm_compute. reflexivity.
Defined.

(** ** Commands on a path *)

Lemma walk_insert (h : Heap) (n : ptr) (nd nd' : DiffNode) (entries : list string)
    (r : ptr) :
  h !! n = Some nd -> kids nd' = kids nd ->
  walk (<[n := nd']> h) entries r = walk h entries r.
Proof.
  intros Hn Hk. revert r. induction entries as [|e es IH]; intros r; simpl; [reflexivity|].
  destruct (decide (r = n)) as [->|Hne].
  - rewrite list_lookup_insert_eq by (eapply lookup_lt_Some; eassumption).
    rewrite Hn, Hk. destruct (kids nd !! e); [apply IH|reflexivity].
  - rewrite list_lookup_insert_ne by congruence.
    destruct (h !! r) as [rd|]; [|reflexivity].
    destruct (kids rd !! e); [apply IH|reflexivity].
Qed.

Lemma kids_tombstone (c : commandInst) (nd : DiffNode) :
  kids (tombstone c nd) = kids nd.
Proof. unfold tombstone. destruct (_ && _); reflexivity. Qed.

(** [processDelete] on a path that leads to a node, up to the test of the
    name of the parent: the node is marked. *)
Lemma processDelete_head (fuel : nat) (d : Diff) (h : Heap) (path : string)
    (c : commandInst) (n : ptr) (nd : DiffNode) :
  getNodeByPath h d path = Some n -> h !! n = Some nd ->
  processDelete fuel d path c h
  = bind (getNode n)
      (fun nd => match Parent nd with
                 | None => panic "nil pointer dereference"
                 | Some parent =>
                     pd <~ getNode parent ;;
                     if Regexp.MatchString regexNewNode (Path pd) then
                       h <~ get ;;
                       renameSrc <~ lift (followRenameChainSrc fuel h parent) ;;
                       rs <~ getNode renameSrc ;;
                       match kids rs !! Path nd with
                       | Some nodeInSrc =>
                           upd nodeInSrc (set_DeletedInSnapshot true) ;;;
                           (if OriginalType c =? BTRFS_SEND_C_RMDIR
                            then upd nodeInSrc (set_NodeType DiffNodeTypeDir)
                            else ret tt) ;;;
                           wrapf [stringOf fuel n]
                             "failed to remove deleted node (ignored) from parent"
                             (removeFromParent fuel n)
                       | None =>
                           wrapf [chainPath fuel n; stringOf fuel renameSrc]
                             "failed to move deleted node to rename chain source"
                             (addNode fuel renameSrc n)
                       end
                     else ret tt
                 end) (<[n := tombstone c nd]> h).
Proof.
  intros Hp Hn.
  assert (Hlen : (n < length h)%nat) by (eapply lookup_lt_Some; eassumption).
  unfold processDelete. rewrite bind_get, Hp, bind_ret.
  rewrite (bind_getNode _ nd) by assumption.
  unfold tombstone.
  destruct (bool_decide (NodeType nd = DiffNodeTypeUnknown)
            && (OriginalType c =? BTRFS_SEND_C_RMDIR)).
  - rewrite (bind_upd _ nd) by assumption.
    rewrite (bind_upd _ (set_NodeType DiffNodeTypeDir nd))
      by (apply list_lookup_insert_eq; assumption).
    rewrite list_insert_insert_eq.
    rewrite (bind_upd _ (set_State opDelete (set_NodeType DiffNodeTypeDir nd)))
      by (apply list_lookup_insert_eq; assumption).
    rewrite list_insert_insert_eq. reflexivity.
  - rewrite bind_ret.
    rewrite (bind_upd _ nd) by assumption.
    rewrite (bind_upd _ (set_State opDelete nd))
      by (apply list_lookup_insert_eq; assumption).
    rewrite list_insert_insert_eq. reflexivity.
Qed.

Lemma Parent_tombstone (c : commandInst) (nd : DiffNode) :
  Parent (tombstone c nd) = Parent nd.
Proof. unfold tombstone. destruct (_ && _); reflexivity. Qed.

Lemma Path_tombstone (c : commandInst) (nd : DiffNode) :
  Path (tombstone c nd) = Path nd.
Proof. unfold tombstone. destruct (_ && _); reflexivity. Qed.

(** Under a parent whose name holds no match of the placeholder pattern,
    the node is marked and stays where it is. *)
Lemma processDelete_existing (fuel : nat) (d : Diff) (h : Heap) (path : string)
    (c : commandInst) (n p : ptr) (nd pd : DiffNode) :
  getNodeByPath h d path = Some n -> h !! n = Some nd ->
  Parent nd = Some p -> h !! p = Some pd ->
  Regexp.MatchString regexNewNode (Path pd) = false ->
  processDelete fuel d path c h = (Ok tt, <[n := tombstone c nd]> h).
Proof.
  intros Hp Hn Hsome Hpd Hre.
  assert (Hlen : (n < length h)%nat) by (eapply lookup_lt_Some; eassumption).
  assert (Hn' : <[n := tombstone c nd]> h !! n = Some (tombstone c nd))
    by (apply list_lookup_insert_eq; assumption).
  rewrite (processDelete_head fuel d h path c n nd Hp Hn).
  rewrite (bind_getNode _ (tombstone c nd)) by assumption.
  rewrite Parent_tombstone, Hsome.
  destruct (decide (p = n)) as [->|Hne].
  - rewrite (bind_getNode _ (tombstone c nd)) by assumption.
    assert (pd = nd) by congruence. subst pd.
    rewrite Path_tombstone, Hre. reflexivity.
  - rewrite (bind_getNode _ pd)
      by (rewrite list_lookup_insert_ne by congruence; assumption).
    rewrite Hre. reflexivity.
Qed.

(** X18.  [processDelete] on a path that leads to a node.  Under a parent
    whose name holds no match of the placeholder pattern the node is marked
    and stays where it is: it becomes Deleted and deleted-in-snapshot, and a
    directory if its type was unknown and the command is RMDIR; the path still
    leads to it, so that a later create of the same path is refused.  On a
    node without parent (the root, which the empty path leads to) the call
    panics once the node is marked. *)
Theorem processDelete_marks (fuel : nat) (d : Diff) (h : Heap)
    (path : string) (c : commandInst) (n : ptr) (nd : DiffNode) :
  getNodeByPath h d path = Some n -> h !! n = Some nd ->
  let h' := <[n := tombstone c nd]> h in
  (Parent nd = None ->
   processDelete fuel d path c h = (Panic "nil pointer dereference", h'))
  /\ (forall p pd,
        Parent nd = Some p -> h !! p = Some pd ->
        Regexp.MatchString regexNewNode (Path pd) = false ->
        processDelete fuel d path c h = (Ok tt, h')
        /\ getNodeByPath h' d path = Some n
        /\ forall c',
             processCreate fuel d path c' h'
             = (Err "found existing node in tree while processing create operation", h')).
Proof.
  intros Hp Hn h'.
  assert (Hlen : (n < length h)%nat) by (eapply lookup_lt_Some; eassumption).
  assert (Hn' : h' !! n = Some (tombstone c nd)) by (apply list_lookup_insert_eq; assumption).
  split.
  - intros Hnone. rewrite (processDelete_head fuel d h path c n nd Hp Hn).
    fold h'. rewrite (bind_getNode _ (tombstone c nd)) by assumption.
    rewrite Parent_tombstone, Hnone. reflexivity.
  - intros p pd Hsome Hpd Hre.
    assert (Hwalk : getNodeByPath h' d path = Some n).
    { unfold getNodeByPath, h'. rewrite (walk_insert h n nd) by
        (assumption || apply kids_tombstone). exact Hp. }
    split; [|split].
    + eapply processDelete_existing; eassumption.
    + exact Hwalk.
    + intros c'. unfold processCreate. rewrite bind_get, Hwalk. reflexivity.
Qed.

Lemma processDelete_marks_witness :
  let h := (ProcessBTRFSStream (host := rawHostTime) 8 mkdir_stream).2 in
  let c := {| OriginalType := BTRFS_SEND_C_RMDIR;
              Type_ := {| Name := "BTRFS_SEND_C_RMDIR"; Op := opDelete |};
              data := [] |} in
  processDelete 8 {| root := 0%nat |} "dir" c h
  = (Ok tt, <[1%nat := tombstone c (node_at h 1)]> h)
  /\ processDelete 8 {| root := 0%nat |} EmptyString c h
     = (Panic "nil pointer dereference", <[0%nat := tombstone c (node_at h 0)]> h).
Proof.
  intros h c. split.
  - apply (proj2 (processDelete_marks 8 {| root := 0%nat |} h "dir" c
                    1%nat (node_at h 1) ltac:(vm_compute; reflexivity)
                    ltac:(vm_compute; reflexivity)) 0%nat (node_at h 0));
      vm_compute; reflexivity.
  - apply (proj1 (processDelete_marks 8 {| root := 0%nat |} h
                    EmptyString c 0%nat (node_at h 0) ltac:(vm_compute; reflexivity)
                    ltac:(vm_compute; reflexivity))).
    vm_compute. reflexivity.
Defined.

(** ** Creating a node *)

Lemma kids_kept_refl (h : Heap) : kids_kept h h.
Proof. intros p pd Hp. eauto. Qed.

Lemma kids_kept_trans (h1 h2 h3 : Heap) :
  kids_kept h1 h2 -> kids_kept h2 h3 -> kids_kept h1 h3.
Proof.
  intros H12 H23 p pd Hp.
  destruct (H12 p pd Hp) as (pd2 & Hp2 & Hk2).
  destruct (H23 p pd2 Hp2) as (pd3 & Hp3 & Hk3). eauto.
Qed.

Lemma kids_kept_grows (h h' : Heap) : grows h h' -> kids_kept h h'.
Proof. intros Hg p pd Hp. destruct (Hg p pd Hp) as (pd' & Hp' & Hk & _). eauto. Qed.

Lemma kids_kept_app (h l : Heap) : kids_kept h (h ++ l).
Proof.
  intros p pd Hp. exists pd. split; [|auto].
  rewrite lookup_app_l by (eapply lookup_lt_Some; eassumption). exact Hp.
Qed.

Lemma kids_kept_insert (h : Heap) (p : ptr) (pd pd' : DiffNode) :
  h !! p = Some pd -> (forall k c, kids pd !! k = Some c -> kids pd' !! k = Some c) ->
  kids_kept h (<[p := pd']> h).
Proof.
  intros Hp Hk q qd Hq. destruct (decide (q = p)) as [->|Hne].
  - exists pd'. split; [apply list_lookup_insert_eq; eapply lookup_lt_Some; eassumption|].
    assert (qd = pd) by congruence. subst qd. exact Hk.
  - exists qd. split; [|auto]. rewrite list_lookup_insert_ne by congruence. exact Hq.
Qed.

Lemma walk_kept (h h' : Heap) (entries : list string) (r n : ptr) :
  kids_kept h h' -> walk h entries r = Some n -> walk h' entries r = Some n.
Proof.
  intros Hg. revert r. induction entries as [|e rest IH]; intros r; simpl; [auto|].
  destruct (h !! r) as [rd|] eqn:Hr; [|discriminate].
  destruct (kids rd !! e) as [c|] eqn:Hc; [|discriminate].
  destruct (Hg r rd Hr) as (rd' & Hr' & Hk).
  rewrite Hr', (Hk e c Hc). apply IH.
Qed.

Lemma Split_Join (l : list string) :
  l <> [] -> Forall (fun x => no_slash x = true) l -> Go.Split (Go.Join l) = l.
Proof.
  induction l as [|x l IH]; [contradiction|]. intros _ HF.
  inversion HF as [|? ? Hx HF']; subst.
  destruct l as [|y l].
  - apply Split_of_no_slash. exact Hx.
  - rewrite Join_cons by discriminate.
    rewrite Split_app_slash, (Split_of_no_slash x Hx), IH by (discriminate || assumption).
    reflexivity.
Qed.

(** The entries of a path are those of its parent path and its last
    part. *)
Lemma path_entries_snoc (path : string) :
  path <> EmptyString ->
  path_entries path = path_entries (parentPath path) ++ [getLastPathPart path].
Proof.
  intros Hne. unfold path_entries, parentPath, getLastPathPart.
  pose proof (Split_nonempty path) as Hl.
  pose proof (Split_no_slash path) as HF.
  pose proof (Join_Split path) as HJ.
  remember (Go.Split path) as l eqn:El. clear El.
  destruct (exists_last Hl) as (init & lst & ->).
  rewrite removelast_last, last_last.
  apply Forall_app in HF as [HFi _].
  destruct init as [|x init'].
  - cbn [app Go.Join Go.Split] in *.
    destruct lst; [congruence|reflexivity].
  - rewrite (Split_Join (x :: init')) by (discriminate || assumption).
    cbn [app]. destruct x; reflexivity.
Qed.

(** A directory that [mkdirp] makes has no children when [mkdirp]
    returns it. *)
Lemma mkdirp_loop_leaf_empty (entries : list string) :
  forall (idx len : nat) (old new : bool) (cur n : ptr) (h h' : Heap) (cn : DiffNode),
    h !! cur = Some cn -> Children cn = Some ∅ ->
    mkdirp_loop entries idx len old new cur h = (Ok n, h') ->
    (cur <= n)%nat /\ exists nd, h' !! n = Some nd /\ Children nd = Some ∅.
Proof.
  induction entries as [|e rest IH]; intros idx len old new cur n h h' cn Hc Hk; simpl.
  - intros [= <- <-]. split; [lia|eauto].
  - rewrite (bind_getNode _ cn) by assumption.
    assert (Hk' : kids cn = ∅) by (unfold kids; rewrite Hk; reflexivity).
    rewrite Hk', lookup_empty.
    unfold bind at 1, alloc. unfold bind at 1, putChild.
    assert (Hlt : (cur < length h)%nat) by (eapply lookup_lt_Some; eassumption).
    rewrite lookup_app_l by assumption. rewrite Hc, list_lookup_middle by reflexivity.
    rewrite Hk. intros Hrun.
    eapply IH in Hrun as [Hle Hnd].
    + split; [lia|exact Hnd].
    + rewrite list_lookup_insert_ne by lia. apply list_lookup_middle. reflexivity.
    + reflexivity.
Qed.

(** [mkdirp] returns a node that was there, leaving the tree as it is, or
    a new directory without children. *)
Lemma mkdirp_loop_leaf (entries : list string) :
  forall (idx len : nat) (old new : bool) (cur n : ptr) (h h' : Heap),
    mkdirp_loop entries idx len old new cur h = (Ok n, h') ->
    (walk h entries cur = Some n /\ h' = h)
    \/ ((length h <= n)%nat /\ exists nd, h' !! n = Some nd /\ Children nd = Some ∅).
Proof.
  induction entries as [|e rest IH]; intros idx len old new cur n h h'; simpl.
  - intros [= <- <-]. left. auto.
  - unfold bind at 1, getNode.
    destruct (h !! cur) as [cn|] eqn:Hc; [|discriminate].
    destruct (kids cn !! e) as [c|] eqn:Hk.
    + intros Hrun. apply IH in Hrun. exact Hrun.
    + unfold bind at 1, alloc. unfold bind at 1, putChild.
      assert (Hlt : (cur < length h)%nat) by (eapply lookup_lt_Some; eassumption).
      rewrite lookup_app_l by assumption. rewrite Hc, list_lookup_middle by reflexivity.
      destruct (Children cn) as [m|] eqn:Hm; [|discriminate].
      intros Hrun. right.
      eapply mkdirp_loop_leaf_empty in Hrun as [Hle Hnd].
      * split; [lia|exact Hnd].
      * rewrite list_lookup_insert_ne by lia. apply list_lookup_middle. reflexivity.
      * reflexivity.
Qed.

(** Attaching under a node without children map panics, at the assignment
    to the map. *)
Lemma addNode_attach_nil (f : nat) (h : Heap) (n node : ptr) (nd nn : DiffNode) :
  h !! n = Some nd -> h !! node = Some nn -> n <> node ->
  Children nd = None -> Parent nn = None ->
  (addNode (S f) n node h).1 = Panic "assignment to entry in nil map".
Proof.
  intros Hn Hnode Hne Hm Hpar. cbn [addNode].
  rewrite (addNode_head h n nd) by assumption.
  assert (Hc : Children (promote nd) = None).
  { unfold promote. destruct (bool_decide _); simpl; assumption. }
  assert (Hm' : kids (promote nd) = ∅).
  { unfold kids. rewrite Hc. reflexivity. }
  rewrite (bind_getNode _ (promote nd)) by lks.
  rewrite (bind_getNode _ nn) by lks.
  rewrite Hm', lookup_empty, Hpar. rewrite !bind_ret.
  rewrite (bind_upd _ nn) by lks.
  unfold putChild. lk. rewrite Hc. reflexivity.
Qed.

Lemma kids_kept_length (h h' : Heap) : kids_kept h h' -> (length h <= length h')%nat.
Proof.
  intros Hk. destruct (Nat.le_gt_cases (length h) (length h')) as [|Hlt]; [assumption|].
  destruct (lookup_lt_is_Some_2 h (length h') Hlt) as [pd Hp].
  destruct (Hk _ _ Hp) as (pd' & Hp' & _).
  apply lookup_lt_Some in Hp'. lia.
Qed.

Lemma walk_valid (h : Heap) (d : Diff) (entries : list string) (r n : ptr) :
  (forall p pd k c, h !! p = Some pd -> kids pd !! k = Some c -> is_Some (h !! c)) ->
  is_Some (h !! r) -> walk h entries r = Some n -> is_Some (h !! n).
Proof.
  intros Hc. revert r. induction entries as [|e rest IH]; intros r Hr; simpl.
  - intros [= <-]. exact Hr.
  - destruct (h !! r) as [rd|] eqn:Er; [|discriminate].
    destruct (kids rd !! e) as [c|] eqn:Ek; [|discriminate].
    apply IH. eapply Hc; eassumption.
Qed.

(** The parent [getNodeParentOrMkdir] returns for a path that leads
    nowhere: the parent path leads to it, and it has no child of the name of
    the last part. *)
Lemma getNodeParentOrMkdir_parent (d : Diff) (h h1 : Heap) (path : string) (parent : ptr) :
  closed h d -> getNodeByPath h d path = None ->
  getNodeParentOrMkdir d path h = (Ok parent, h1) ->
  walk h1 (path_entries (parentPath path)) (root d) = Some parent
  /\ kids_kept h h1
  /\ exists pd, h1 !! parent = Some pd /\ kids pd !! getLastPathPart path = None.
Proof.
  intros [Hroot Hcl] Hnone.
  assert (Hne : path <> EmptyString).
  { intros ->. discriminate Hnone. }
  unfold getNodeByPath in Hnone.
  rewrite (path_entries_snoc path Hne), walk_snoc in Hnone.
  unfold getNodeParentOrMkdir. fold (parentPath path).
  destruct (String.eqb_spec (parentPath path) EmptyString) as [E|E].
  - intros [= <- <-]. rewrite E in *. change (path_entries EmptyString) with (@nil string) in *.
    cbn [walk] in *. split; [reflexivity|]. split; [apply kids_kept_refl|].
    destruct Hroot as [rd Hrd]. rewrite Hrd in Hnone. eauto.
  - unfold mkdirp. intros Hrun.
    destruct (mkdirp_loop_spec _ _ _ _ _ _ _ _ _ (Nat.add_0_l _) Hrun) as (Hw & Hg & _).
    split; [exact Hw|]. split; [apply kids_kept_grows, Hg|].
    apply mkdirp_loop_leaf in Hrun as [[Hw0 ->]|(_ & nd & Hnd & Hch)].
    + rewrite Hw0 in Hnone.
      destruct (walk_valid h d _ _ _ Hcl Hroot Hw0) as [pd Hpd].
      rewrite Hpd in Hnone. eauto.
    + exists nd. split; [exact Hnd|]. unfold kids. rewrite Hch. reflexivity.
Qed.

Lemma kids_set_Parent (p : option ptr) (nd : DiffNode) : kids (set_Parent p nd) = kids nd.
Proof. reflexivity. Qed.

Lemma set_Relations_id (nd : DiffNode) : set_Relations (Relations nd) nd = nd.
Proof. destruct nd. reflexivity. Qed.

(** The tail of [processCreate] on a SYMLINK: the node gets a relation;
    nothing else of the tree changes. *)
Lemma processCreate_tail (d : Diff) (c : commandInst) (node : ptr) (nd : DiffNode)
    (h h' : Heap) :
  h !! node = Some nd ->
  processCreate_tail_run d c node h = (Ok tt, h') ->
  kids_kept h h' /\ exists rels, h' !! node = Some (set_Relations rels nd).
Proof.
  intros Hn. unfold processCreate_tail_run.
  assert (Hlt : (node < length h)%nat) by (eapply lookup_lt_Some; eassumption).
  destruct (OriginalType c =? BTRFS_SEND_C_SYMLINK).
  - unfold bind at 1. rewrite reads_readParam.
    destruct (ReadParam c BTRFS_SEND_A_INO) as [r1| |]; try discriminate.
    unfold bind at 1. rewrite reads_readParam.
    destruct (ReadParam r1.2 BTRFS_SEND_A_PATH_LINK) as [r2| |]; try discriminate.
    unfold bind at 1. destruct r2.1 as [|s| |]; try discriminate.
    cbn [as_string ret]. rewrite bind_get.
    destruct (getNodeByPath h d s) as [l|].
    + rewrite bind_ret. unfold upd. rewrite Hn. intros [= <-]. split.
      * apply (kids_kept_insert h node nd); auto.
      * eexists. apply list_lookup_insert_eq. exact Hlt.
    + unfold bind at 1, alloc. unfold upd.
      rewrite lookup_app_l, Hn by exact Hlt. intros [= <-]. split.
      * eapply kids_kept_trans; [apply kids_kept_app|].
        apply (kids_kept_insert _ node nd); [|auto].
        rewrite lookup_app_l by exact Hlt. exact Hn.
      * eexists. apply list_lookup_insert_eq. rewrite length_app. lia.
  - intros [= <-]. split; [apply kids_kept_refl|].
    exists (Relations nd). rewrite set_Relations_id. exact Hn.
Qed.

(** X19.  A successful [processCreate].  The path led nowhere before; it now
    leads to a new node of the type of the command, in the Created state: a
    directory with an empty children map, or a node of another type without
    children map.  Every path that led to a node still leads to it. *)
Theorem processCreate_lookup (fuel : nat) (d : Diff) (h h' : Heap) (path : string)
    (c : commandInst) :
  closed h d ->
  processCreate fuel d path c h = (Ok tt, h') ->
  getNodeByPath h d path = None
  /\ exists ty n nd,
       nodeType_of_create (OriginalType c) = Some ty
       /\ getNodeByPath h' d path = Some n /\ (length h <= n)%nat
       /\ h' !! n = Some nd /\ NodeType nd = ty /\ State nd = opCreate
       /\ Children nd = (if bool_decide (ty = DiffNodeTypeDir) then Some ∅ else None)
       /\ forall p m, getNodeByPath h d p = Some m -> getNodeByPath h' d p = Some m.
Proof.
  intros Hcl. unfold processCreate. rewrite bind_get.
  destruct (getNodeByPath h d path) as [x|] eqn:Hnone; [discriminate|].
  destruct (nodeType_of_create (OriginalType c)) as [ty|]; [|discriminate].
  intros Hrun. split; [reflexivity|]. exists ty.
  assert (Hnode : exists n h1 nd,
            (length h <= n)%nat /\ walk h1 (path_entries path) (root d) = Some n
            /\ kids_kept h h1 /\ h1 !! n = Some nd
            /\ NodeType nd = ty /\ State nd = opCreate
            /\ Children nd = (if bool_decide (ty = DiffNodeTypeDir) then Some ∅ else None)
            /\ processCreate_tail_run d c n h1 = (Ok tt, h')).
  { revert Hrun. unfold bind at 1. case_bool_decide as Hty.
    - (* a directory *)
      destruct (mkdirp (root d) path false true h) as [[n| |] h1] eqn:E; try discriminate.
      intros Hrun. unfold mkdirp in E.
      destruct (mkdirp_loop_spec _ _ _ _ _ _ _ _ _ (Nat.add_0_l _) E)
        as (Hw & Hg & Hnew & Hst).
      destruct (mkdirp_loop_leaf _ _ _ _ _ _ _ _ _ E) as [[Hw0 _]|(Hlen & nd & Hnd & Hch)].
      { unfold getNodeByPath in Hnone. congruence. }
      exists n, h1, nd. split; [exact Hlen|]. split; [exact Hw|].
      split; [apply kids_kept_grows, Hg|]. split; [exact Hnd|].
      split; [rewrite Hty; apply (Hnew n nd Hlen Hnd)|].
      split; [apply (Hst nd Hlen Hnd)|]. split; [exact Hch|exact Hrun].
    - (* another type *)
      unfold bind at 1.
      destruct (getNodeParentOrMkdir d path h) as [[parent| |] h1] eqn:E; try discriminate.
      destruct (getNodeParentOrMkdir_parent d h h1 path parent Hcl Hnone E)
        as (Hw & Hk & pd & Hpd & Hlast).
      assert (Hlt : (parent < length h1)%nat) by (eapply lookup_lt_Some; eassumption).
      pose proof (kids_kept_length _ _ Hk) as Hlen.
      unfold bind at 1, alloc. unfold bind at 1, wrapf.
      set (nn := newDiffNode ty (getLastPathPart path) opCreate [] None None).
      assert (Hp2 : (h1 ++ [nn]) !! parent = Some pd) by (rewrite lookup_app_l; assumption).
      assert (Hn2 : (h1 ++ [nn]) !! length h1 = Some nn)
        by (apply list_lookup_middle; reflexivity).
      destruct fuel as [|f]; [discriminate|].
      destruct (Children pd) as [m|] eqn:Hm.
      + assert (Hfree : m !! getLastPathPart path = None).
        { unfold kids in Hlast. rewrite Hm in Hlast. exact Hlast. }
        assert (Hkept : kids_kept h1
                  (<[parent := set_Children (Some (<[Path nn := length h1]> m))
                                 (promote pd)]>
                     (<[length h1 := set_Parent (Some parent) nn]>
                        (<[parent := promote pd]> (h1 ++ [nn]))))).
        { eapply kids_kept_trans; [apply kids_kept_app|].
          eapply kids_kept_trans;
            [apply (kids_kept_insert _ parent pd (promote pd) Hp2);
             rewrite kids_promote; auto|].
          eapply kids_kept_trans;
            [apply (kids_kept_insert _ (length h1) nn (set_Parent (Some parent) nn));
             [rewrite list_lookup_insert_ne by lia; exact Hn2|auto]|].
          apply (kids_kept_insert _ parent (promote pd)).
          - rewrite list_lookup_insert_ne by lia.
            apply list_lookup_insert_eq. rewrite length_app. lia.
          - intros k x Hx. rewrite kids_promote in Hx. unfold kids in *.
            rewrite Hm in Hx.
            cbn [Children set_Children default from_option id] in *.
            rewrite lookup_insert_ne; [exact Hx|].
            change (Path nn) with (getLastPathPart path). congruence. }
        rewrite (addNode_attach f _ parent (length h1) pd nn m Hp2 Hn2 ltac:(lia) Hm);
          [|exact Hfree|reflexivity].
        intros Hrun.
        eexists (length h1), _, (set_Parent (Some parent) nn).
        split; [lia|]. split; [|split; [|split; [|split; [|split; [|split]]]]].
        7: exact Hrun.
        * assert (Hne : path <> EmptyString) by (intros ->; discriminate Hnone).
          rewrite (path_entries_snoc path Hne), walk_snoc.
          erewrite walk_kept; [|exact Hkept|exact Hw].
          rewrite list_lookup_insert_eq by (rewrite !length_insert, length_app; lia).
          unfold kids. cbn [Children set_Children default from_option id].
          apply lookup_insert_eq.
        * eapply kids_kept_trans; [exact Hk|exact Hkept].
        * rewrite list_lookup_insert_ne by lia.
          apply list_lookup_insert_eq. rewrite length_insert, length_app. simpl. lia.
        * reflexivity.
        * reflexivity.
        * reflexivity.
      + pose proof (addNode_attach_nil f _ parent (length h1) pd nn Hp2 Hn2
                      ltac:(lia) Hm eq_refl) as HP.
        destruct (addNode (S f) parent (length h1) (h1 ++ [nn])) as [[[]| |] h3];
          discriminate. }
  destruct Hnode as (n & h1 & nd & Hlen & Hw & Hk & Hnd & Hty & Hst & Hch & Htail).
  destruct (processCreate_tail d c n nd h1 h' Hnd Htail) as (Hk' & rels & Hn').
  exists n, (set_Relations rels nd). split; [reflexivity|].
  split; [eapply walk_kept; eassumption|]. split; [exact Hlen|].
  split; [exact Hn'|]. split; [exact Hty|]. split; [exact Hst|]. split; [exact Hch|].
  intros p m Hp. unfold getNodeByPath in *.
  eapply walk_kept; [|eapply walk_kept; [|exact Hp]]; eassumption.
Qed.

Lemma closed_initialHeap (d : Diff) : root d = 0%nat -> closed initialHeap d.
Proof.
  intros Hr. split; [rewrite Hr; eexists; reflexivity|].
  intros p pd k c Hp Hk. destruct p as [|p]; [|discriminate Hp].
  injection Hp as <-. discriminate Hk.
Qed.

Lemma processCreate_lookup_witness :
  let c := {| OriginalType := BTRFS_SEND_C_MKFILE;
              Type_ := {| Name := "BTRFS_SEND_C_MKFILE"; Op := opCreate |};
              data := [] |} in
  let h' := (processCreate 8 {| root := 0%nat |} "x/y" c initialHeap).2 in
  exists n nd,
    getNodeByPath h' {| root := 0%nat |} "x/y" = Some n
    /\ h' !! n = Some nd /\ NodeType nd = DiffNodeTypeFile /\ State nd = opCreate.
Proof.
  intros c h'.
  destruct (processCreate_lookup 8 {| root := 0%nat |} initialHeap h' "x/y" c
              (closed_initialHeap {| root := 0%nat |} eq_refl) ltac:(vm_compute; reflexivity))
    as (_ & ty & n & nd & Hty & Hw & _ & Hn & HT & HS & _).
  exists n, nd. split; [exact Hw|]. split; [exact Hn|]. split; [|exact HS].
  rewrite HT. vm_compute in Hty. congruence.
Defined.

(** ** Renaming a node *)

Lemma bind_wrap_Ok {A B} (msg : string) (m : M A) (k : A -> M B) (h h' : Heap) (a : A) :
  m h = (Ok a, h') -> bind (wrap msg m) k h = k a h'.
Proof. intros H. unfold bind, wrap. rewrite H. reflexivity. Qed.

Lemma getNodeParentOrMkdir_grows (d : Diff) (h h1 : Heap) (path : string) (parent : ptr) :
  getNodeParentOrMkdir d path h = (Ok parent, h1) -> grows h h1.
Proof.
  unfold getNodeParentOrMkdir.
  destruct (String.eqb _ _).
  - intros [= _ <-]. apply grows_refl.
  - unfold mkdirp. intros Hrun.
    apply (mkdirp_loop_spec _ _ _ _ _ _ _ _ _ (Nat.add_0_l _) Hrun).
Qed.

Lemma closed_insert (h : Heap) (d : Diff) (n : ptr) (nd nd' : DiffNode) :
  h !! n = Some nd -> kids nd' = kids nd -> closed h d -> closed (<[n := nd']> h) d.
Proof.
  intros Hn Hk [Hr Hc].
  assert (Hv : forall q, is_Some (h !! q) -> is_Some (<[n := nd']> h !! q)).
  { intros q Hq. apply lookup_lt_is_Some. rewrite length_insert.
    apply lookup_lt_is_Some. exact Hq. }
  split; [apply Hv, Hr|].
  intros p pd k c Hp Hkc. apply Hv.
  destruct (decide (p = n)) as [->|Hne].
  - rewrite list_lookup_insert_eq in Hp by (eapply lookup_lt_Some; eassumption).
    injection Hp as <-. rewrite Hk in Hkc. eapply Hc; eassumption.
  - rewrite list_lookup_insert_ne in Hp by congruence. eapply Hc; eassumption.
Qed.

Lemma set_Children_fields (c : option (gmap string ptr)) (x y : DiffNode) :
  set_Children c x = y ->
  State x = State y /\ DeletedInSnapshot x = DeletedInSnapshot y
  /\ Relations x = Relations y.
Proof. intros <-. auto. Qed.

Lemma promote_fields (x : DiffNode) :
  State (promote x) = State x /\ DeletedInSnapshot (promote x) = DeletedInSnapshot x
  /\ Relations (promote x) = Relations x.
Proof. unfold promote. destruct (bool_decide _); auto. Qed.

(** X20.  A RENAME of an existing node, under a parent whose name holds no
    match of the placeholder pattern, to a path that leads nowhere.  When it
    succeeds, the destination path leads to a new node in the Created state,
    with the type of the source, a children map with the entries of the source
    (the children themselves are shared, not moved), and relations that start
    with those of the source (what follows them is left open: the two nodes
    append to slices that may share their array).  The source stays where it
    was, Deleted and marked as deleted in the snapshot, with a new relation to
    the destination after the ones it had.  Every path that led to a node
    still leads to it. *)
Theorem rename_existing (fuel : nat) (d : Diff) (h h' : Heap) (from to : string)
    (c : commandInst) (ns p : ptr) (nsd pd : DiffNode) :
  closed h d ->
  OriginalType c = BTRFS_SEND_C_RENAME ->
  getNodeByPath h d from = Some ns -> h !! ns = Some nsd ->
  Parent nsd = Some p -> h !! p = Some pd ->
  Regexp.MatchString regexNewNode (Path pd) = false ->
  getNodeByPath h d to = None ->
  processRenameOrLink fuel d from to c h = (Ok tt, h') ->
  exists nt ntd nsd',
    (length h <= nt)%nat
    /\ getNodeByPath h' d to = Some nt /\ h' !! nt = Some ntd
    /\ NodeType ntd = NodeType nsd /\ State ntd = opCreate
    /\ Children ntd = Some (kids nsd)
    /\ (exists more, Relations ntd = Relations nsd ++ more)
    /\ getNodeByPath h' d from = Some ns /\ h' !! ns = Some nsd'
    /\ State nsd' = opDelete /\ DeletedInSnapshot nsd' = true
    /\ Relations nsd'
       = Relations nsd ++ [{| RNode := nt; Reason := DiffNodeReasonRenameDest |}]
    /\ forall q m, getNodeByPath h d q = Some m -> getNodeByPath h' d q = Some m.
Proof.
  intros Hcl HOT Hfrom Hns Hpar Hp Hre Hto Hrun.
  assert (Hlns : (ns < length h)%nat) by (eapply lookup_lt_Some; eassumption).
  set (h1 := <[ns := tombstone c nsd]> h).
  assert (Hdel : processDelete fuel d from c h = (Ok tt, h1))
    by (eapply processDelete_existing; eassumption).
  assert (Hns1 : h1 !! ns = Some (tombstone c nsd))
    by (apply list_lookup_insert_eq; assumption).
  assert (Hcl1 : closed h1 d)
    by (apply (closed_insert h d ns nsd); [assumption|apply kids_tombstone|assumption]).
  assert (Hk01 : kids_kept h h1).
  { apply (kids_kept_insert h ns nsd); [assumption|].
    rewrite kids_tombstone. auto. }
  assert (Hto1 : getNodeByPath h1 d to = None).
  { unfold getNodeByPath, h1. rewrite (walk_insert h ns nsd) by
      (assumption || apply kids_tombstone). exact Hto. }
  assert (Htomb : State (tombstone c nsd) = opDelete
                  /\ DeletedInSnapshot (tombstone c nsd) = true
                  /\ Relations (tombstone c nsd) = Relations nsd).
  { unfold tombstone. destruct (_ && _); auto. }
  revert Hrun. unfold processRenameOrLink. cbv zeta.
  rewrite bind_get, Hfrom, bind_ret.
  rewrite bind_assoc, (bind_getNode _ nsd) by assumption.
  rewrite HOT, Z.eqb_refl.
  rewrite bind_assoc, (bind_wrap_Ok _ _ _ h h1 tt Hdel), bind_ret.
  unfold bind at 1.
  destruct (getNodeParentOrMkdir d to h1) as [[parent| |] h2] eqn:E; try discriminate.
  destruct (getNodeParentOrMkdir_parent d h1 h2 to parent Hcl1 Hto1 E)
    as (Hw & Hk12 & pd2 & Hpd2 & Hlast).
  pose proof (getNodeParentOrMkdir_grows d h1 h2 to parent E) as Hg.
  assert (Hlt : (parent < length h2)%nat) by (eapply lookup_lt_Some; eassumption).
  pose proof (kids_kept_length _ _ Hk01) as Hl01.
  pose proof (kids_kept_length _ _ Hk12) as Hl12.
  unfold bind at 1, alloc. unfold bind at 1, wrapf. cbn [fst snd].
  set (rels := if Regexp.MatchString regexNewNode from then Relations nsd
               else Relations nsd
                    ++ [{| RNode := ns; Reason := DiffNodeReasonRenameSrc |}]).
  set (nn := newDiffNode (NodeType nsd) (getLastPathPart to) opCreate rels None
               (Some (kids nsd))).
  assert (Hp2 : (h2 ++ [nn]) !! parent = Some pd2) by (rewrite lookup_app_l; assumption).
  assert (Hn2 : (h2 ++ [nn]) !! length h2 = Some nn)
    by (apply list_lookup_middle; reflexivity).
  destruct fuel as [|f]; [discriminate|].
  destruct (Children pd2) as [m|] eqn:Hm.
  2: { pose proof (addNode_attach_nil f _ parent (length h2) pd2 nn Hp2 Hn2
                     ltac:(lia) Hm eq_refl) as HP.
       destruct (addNode (S f) parent (length h2) (h2 ++ [nn])) as [[[]| |] h3].
       - discriminate HP.
       - discriminate HP.
       - discriminate. }
  assert (Hfree : m !! getLastPathPart to = None).
  { unfold kids in Hlast. rewrite Hm in Hlast. exact Hlast. }
  set (h4 := <[parent := set_Children (Some (<[Path nn := length h2]> m)) (promote pd2)]>
               (<[length h2 := set_Parent (Some parent) nn]>
                  (<[parent := promote pd2]> (h2 ++ [nn])))).
  assert (Hkept : kids_kept h2 h4).
  { eapply kids_kept_trans; [apply kids_kept_app|].
    eapply kids_kept_trans;
      [apply (kids_kept_insert _ parent pd2 (promote pd2) Hp2);
       rewrite kids_promote; auto|].
    eapply kids_kept_trans;
      [apply (kids_kept_insert _ (length h2) nn (set_Parent (Some parent) nn));
       [rewrite list_lookup_insert_ne by lia; exact Hn2|auto]|].
    apply (kids_kept_insert _ parent (promote pd2)).
    - rewrite list_lookup_insert_ne by lia.
      apply list_lookup_insert_eq. rewrite length_app. lia.
    - intros k x Hx. rewrite kids_promote in Hx. unfold kids in *.
      rewrite Hm in Hx.
      cbn [Children set_Children default from_option id] in *.
      rewrite lookup_insert_ne; [exact Hx|].
      change (Path nn) with (getLastPathPart to). congruence. }
  rewrite (addNode_attach f _ parent (length h2) pd2 nn m Hp2 Hn2 ltac:(lia) Hm);
    [|exact Hfree|reflexivity].
  fold h4.
  (* the source in the store that [addNode] leaves *)
  destruct (Hg ns _ Hns1) as (x2 & Hx2 & _ & _ & Hsame).
  apply set_Children_fields in Hsame as (S1 & S2 & S3).
  destruct Htomb as (T1 & T2 & T3).
  assert (Hns4 : exists x4, h4 !! ns = Some x4 /\ same_marks x2 x4).
  { unfold h4. destruct (decide (ns = parent)) as [->|Hne].
    - eexists. split.
      + apply list_lookup_insert_eq. rewrite !length_insert, length_app. lia.
      + assert (pd2 = x2) by congruence. subst pd2.
        destruct (promote_fields x2) as (P1 & P2 & P3).
        unfold same_marks. cbn [State DeletedInSnapshot Relations set_Children].
        auto.
    - exists x2. split; [|unfold same_marks; auto].
      rewrite !list_lookup_insert_ne by lia.
      rewrite lookup_app_l by lia. exact Hx2. }
  destruct Hns4 as (x4 & Hx4 & (Q1 & Q2 & Q3)).
  unfold upd. rewrite Hx4. intros [= <-].
  assert (Hl4 : length h4 = S (length h2)).
  { unfold h4. rewrite !length_insert, length_app. simpl. lia. }
  assert (Hk45 : kids_kept h4 (<[ns := set_Relations
                   (Relations x4 ++ [{| RNode := length h2;
                                        Reason := DiffNodeReasonRenameDest |}]) x4]> h4)).
  { apply (kids_kept_insert h4 ns x4); auto. }
  assert (Hk05 : kids_kept h (<[ns := set_Relations
                   (Relations x4 ++ [{| RNode := length h2;
                                        Reason := DiffNodeReasonRenameDest |}]) x4]> h4)).
  { eapply kids_kept_trans; [exact Hk01|].
    eapply kids_kept_trans; [exact Hk12|].
    eapply kids_kept_trans; [exact Hkept|exact Hk45]. }
  exists (length h2), (set_Parent (Some parent) nn). eexists.
  split; [lia|]. split; [|split; [|split; [|split; [|split; [|split; [|split;
    [|split; [|split; [|split; [|split]]]]]]]]]].
  - assert (Hne : to <> EmptyString) by (intros ->; discriminate Hto).
    unfold getNodeByPath. rewrite (path_entries_snoc to Hne), walk_snoc.
    erewrite walk_kept; [| |exact Hw].
    2: { eapply kids_kept_trans; [exact Hkept|exact Hk45]. }
    destruct (decide (parent = ns)) as [->|Hne'].
    + rewrite list_lookup_insert_eq by lia.
      assert (Hx4' : x4 = set_Children (Some (<[Path nn := length h2]> m)) (promote pd2)).
      { unfold h4 in Hx4.
        rewrite list_lookup_insert_eq in Hx4 by (rewrite !length_insert, length_app; lia).
        congruence. }
      rewrite Hx4'. unfold kids.
      cbn [Children set_Children set_Relations default from_option id].
      apply lookup_insert_eq.
    + rewrite list_lookup_insert_ne by congruence.
      unfold h4. rewrite list_lookup_insert_eq by (rewrite !length_insert, length_app; lia).
      unfold kids. cbn [Children set_Children default from_option id].
      apply lookup_insert_eq.
  - rewrite list_lookup_insert_ne by lia.
    unfold h4. rewrite list_lookup_insert_ne by lia.
    apply list_lookup_insert_eq. rewrite length_insert, length_app. simpl. lia.
  - reflexivity.
  - reflexivity.
  - reflexivity.
  - cbn [Relations set_Parent nn newDiffNode]. unfold rels.
    destruct (Regexp.MatchString regexNewNode from);
      [exists []; rewrite app_nil_r|eexists]; reflexivity.
  - unfold getNodeByPath in *. eapply walk_kept; [exact Hk05|exact Hfrom].
  - apply list_lookup_insert_eq. lia.
  - cbn [State set_Relations]. congruence.
  - cbn [DeletedInSnapshot set_Relations]. congruence.
  - cbn [Relations set_Relations]. congruence.
  - intros q m0 Hq. unfold getNodeByPath in *. eapply walk_kept; [exact Hk05|exact Hq].
Qed.

Lemma rename_existing_witness :
  let d := {| root := 0%nat |} in
  let h := (ProcessBTRFSStream (host := rawHostTime) 8 two_creates_stream).2 in
  let h' := (processRenameOrLink 8 d "a" "b" rename_command h).2 in
  exists nt ntd,
    getNodeByPath h' d "b" = Some nt /\ h' !! nt = Some ntd
    /\ Children ntd = Some (kids (node_at h 1))
    /\ getNodeByPath h' d "a" = Some 1%nat.
Proof.
  intros d h h'.
  assert (Hcl : closed h d).
  { split; [eexists; vm_compute; reflexivity|].
    intros p pd k c Hp Hk. apply elem_of_map_to_list in Hk.
    do 3 (destruct p as [|p];
          [injection Hp as <-; vm_compute in Hk;
           repeat (apply elem_of_cons in Hk as [Hk|Hk];
                   [injection Hk as -> ->; eexists; vm_compute; reflexivity|]);
           apply elem_of_nil in Hk; contradiction|]).
    discriminate Hp. }
  destruct (rename_existing 8 d h h' "a" "b" rename_command 1%nat 0%nat
              (node_at h 1) (node_at h 0) Hcl eq_refl)
    as (nt & ntd & nsd' & _ & Hto & Hnt & _ & _ & Hch & _ & Hfrom & _);
    try (vm_compute; reflexivity).
  exists nt, ntd. auto.
Defined.
